(* ===== verification/_CoqProject ===== *)
-Q . S2P
Prelude.v
InstructionError.v
ProgramError.v
AuthorizedVoters.v
VoteState.v
EpochSchedule.v
Rent.v
TransactionContext.v
AccountRules.v
Credits.v
Tower.v
VoteVersions.v
Authority.v
VoteProcess.v
NewVoteState.v
CheckUpdate.v
CheckSlots.v
VoteSafety.v
VoteProgram.v
VoteProgramSpec.v
BitVec.v
AptosTypes.v
ValidatorVerifier.v
Certificates.v
SafetyRules.v
SafetyRulesSpec.v
SafetyRuns.v
SafetyLive.v
TwoChain.v
SafetySample.v
IoChurn.v
IoChurnSpec.v
IoChurnSample.v
SuiBench.v
SuiWorker.v
SuiBenchSpec.v
SuiWorkerSpec.v
SuiBenchProps.v
SuiSample.v
ForkChoice.v
ForkChoiceOps.v
ForkChoiceTree.v
ForkChoiceInv.v
ForkChoiceBatch.v
ForkChoiceGen.v
ForkChoiceVotes.v
ForkChoiceMarks.v
ForkChoiceLeaf.v
ForkChoiceRoots.v
ForkChoiceSplit.v
ForkChoiceMerge.v
ForkChoiceSpec.v
ForkChoiceProps.v
ForkChoiceSample.v
FrozenVotes.v
SlotHistory.v
ValidatorTower.v
TowerSafety.v
VoteLockouts.v
ProgressMap.v
Propagation.v
PropagationSample.v
SwitchFork.v
SwitchSafety.v
ForkSelect.v
ForkSelectSpec.v
ReplayPass.v
ReplaySample.v
TowerRestore.v
TowerRestoreSpec.v
TowerStorage.v
TowerStorageSpec.v
TowerStorageSample.v
LedgerRoots.v
