(* ===== verification/Prelude.v ===== *)
(** * FDP benchmark suite: verification library

    The repository compares SSDs with and without flexible data placement
    (FDP) under the storage load of four blockchains.  It holds a Sui
    benchmark with its Move contract (fdp-sui), copies of the Solana validator
    (fdp-solana) and of the Aptos node (fdp-aptos), and scripts around Ethereum
    clients (fdp-etherium) and the device (common).  This library models, as
    Rocq functions, the parts whose correctness the results and the chains
    depend on, and proves what they promise:

    - the io_churn contract and the benchmark program that drives it;
    - the Solana vote program: the on-chain record of a validator's votes, from
      the transaction's accounts down to the tower of lockouts;
    - the validator's side of Solana voting: fork choice, tower, propagation,
      the switch check, the choice of the bank to vote for, and how the tower
      survives a restart;
    - the Aptos safety rules: the component that decides what a validator may
      sign, with the certificates and validator sets it verifies.

    The Sui, Solana and Aptos parts are independent of each other.  Inside each
    part a file requires the components that its own calls.

    ** Reading the model

    A fallible Rust function returns an [outcome] ([Ok], [Err] or [Panic]); a
    method on [&mut self] is an [eff], a function from a state to a state and
    an outcome, so what it wrote before an error stays written.  Integers are
    [Z] with the wrap-around, saturation or check of the source written out;
    [f64] is the Standard Library's binary64.  Names are those of the source,
    with a prefix where two structs share a field name.  Code outside the
    repository (hash functions, BLS, the Sui SDK and framework, serde, clocks)
    is a parameter: a class of types and functions, with the documented
    behaviour relied upon in a second class or in named hypotheses.  Each such
    class has an instance, and the [_witness] lemmas apply the theorems to it.

    ** Sui: fdp-sui

    - IoChurn: move/io_churn/sources/io_churn.move, every function; a Move
      abort is an [Err].
    - IoChurnSpec: checksums and filler data in closed form, the store that
      calls of the contract can reach ([contract_step]) and its invariant;
      IoChurnSample: an instance and witnesses.  The theorems give the exact
      effect of [create_batch], the invariant of every reachable object, that
      checksums of a counter repeat only on a hash collision, exactly when blob
      updates abort, and that blob data repeats with period 256.
    - SuiBench: src/main.rs, the worker state, statistics, faucet, seeding,
      refresh and the four transactions; SuiWorker: memory pressure, the
      loop [run_worker], saving and loading.
    - SuiBenchSpec and SuiWorkerSpec: the behaviour of the node ([SuiLaws]),
      which may execute a transaction and lose the report of it, and the weakest
      preconditions of each operation; SuiBenchProps: a worker stops, is in step
      with the network or exactly one lost report behind, picks distinct
      targets, is restored from a saved file, and the counters of concurrent
      workers add up in any interleaving of the additions their runs make
      (recorded in order in [b_trace]); SuiSample: a small node that satisfies
      the laws and loses a report.

    ** Solana: fdp-solana

    - InstructionError and ProgramError: sdk/program/src/instruction.rs and
      program_error.rs, with the 64-bit codes.
    - AuthorizedVoters, VoteState, VoteVersions: sdk/program/src/vote, the
      tower of lockouts, credits, authorized voters and the stored layouts.
      Tower, Credits and Authority prove what their operations do.
    - VoteProcess: programs/vote/src/vote_state/mod.rs, the checks of votes and
      of vote state updates.  CheckSlots and CheckUpdate prove them against
      declarative definitions, NewVoteState what an accepted update means, and
      VoteSafety the invariant of every reachable vote state ([vote_step]) and
      that an update ends with a later vote and drops no locked-out one.
    - EpochSchedule and Rent: sdk/program/src/epoch_schedule.rs and rent.rs.
    - TransactionContext: sdk/src/transaction_context.rs, instruction stack and
      borrowed accounts with the RefCell borrows; AccountRules proves the
      ownership, lamport and size rules over every operation.
    - VoteProgram: programs/vote/src/vote_processor.rs, every instruction;
      VoteProgramSpec proves what the entry point leaves in the accounts for each
      instruction, that this is a run of the abstract vote steps, needs the
      right signatures, and moves lamports only as asked.

    The validator, in core/src:

    - ForkChoice and ForkChoiceOps: consensus/heaviest_subtree_fork_choice.rs
      and tree_diff.rs, every operation.  ForkChoiceTree, ForkChoiceInv,
      ForkChoiceBatch, ForkChoiceGen, ForkChoiceVotes, ForkChoiceMarks,
      ForkChoiceLeaf, ForkChoiceRoots, ForkChoiceSplit and ForkChoiceMerge prove
      that each keeps the tree and what it records; ForkChoiceSpec and
      ForkChoiceProps that the block it returns is the one of a walk to the
      heaviest valid child, in every reachable state; ForkChoiceSample: a run.
    - FrozenVotes: latest_validator_votes_for_frozen_banks.rs and
      vote_stake_tracker.rs, exact for every sequence of votes.
    - SlotHistory: sdk/program/src/slot_history.rs, exact over a bit vector
      with its laws ([BitsLaws]).
    - ValidatorTower: consensus.rs, the tower of the validator; TowerSafety:
      lockouts are respected along every run, and expire.
    - VoteLockouts: [collect_vote_lockouts], against sums over the accounts.
    - ProgressMap: progress_map.rs and the propagation of replay_stage.rs;
      Propagation: its invariant, and that news reach every earlier leader slot;
      PropagationSample: a run.
    - SwitchFork: [check_switch_threshold]; SwitchSafety: a switch needs 38
      percent of the stake locked out elsewhere, each account counted once,
      unless the last vote was purged, and exactly when the check panics.
    - ForkSelect: [compute_bank_stats] and [select_vote_and_reset_forks] of
      replay_stage.rs, which join all of the above; ForkSelectSpec: when a bank
      is voted for, and that such votes keep the lockouts; ReplayPass: a pass
      over the frozen banks succeeds and keeps every invariant, also when the
      tower follows the validator's vote account; ReplaySample: a concrete pass.
    - TowerRestore: [adjust_lockouts_after_replay]; TowerRestoreSpec: which
      votes of a restored tower are kept, and when it is refused.
    - TowerStorage: consensus/tower_storage.rs with the saved versions, over an
      interface for storages ([TowerStorage]); TowerStorageSpec: a saved tower
      comes back, files are replaced atomically, a tower in etcd has one
      writer; TowerStorageSample: witnesses.
    - LedgerRoots: [reconcile_blockstore_roots_with_external_source], with the
      ancestors and roots of ledger/src.

    A bank is the record of what the replay stage reads of it, its vote
    accounts in the order of iteration; a hash map that is only looked up is a
    finite map, one that is iterated a list, so the theorems hold for any order
    (the votes seen in gossip, whose order does not matter, excepted).

    ** Aptos: fdp-aptos

    - BitVec: crates/aptos-bitvec; AptosTypes: the data of types/src and
      consensus/consensus-types/src.
    - ValidatorVerifier: types/src/validator_verifier.rs, with quorum
      intersection; Certificates: quorum and timeout certificates, blocks,
      waypoints and epoch change proofs.
    - SafetyRules: consensus/safety-rules/src, every request, over a key value
      store ([KVStorage]) whose in-memory implementation is modelled.
    - SafetyRulesSpec: the weakest precondition of each handler; SafetyRuns:
      a replica under any sequence of calls, failed writes and restarts;
      SafetyLive: a replica answers every schedule of valid requests;
      TwoChain: agreement on what votes and order votes commit, for a set of
      replicas with less than a third of the voting power against them and
      callers that keep their obligations ([call_ok]); SafetySample: a concrete
      run.

    ** Fuel and bounds

    Loops that are not structural take fuel: the check of an update gets more
    than the lengths of its two lists ([check_update_loop] panics without fuel
    and is proved not to panic), a binary search the length of its slice, the
    sampling of a blob its length, seeding one batch per object, a walk in the
    fork choice the number of blocks, the propagation of votes the size of the
    progress map (these loops panic without fuel and are proved not to, and the
    walk over ancestors is proved to reach the root), the reconciliation of
    roots the number of slots between the two roots.  The worker loop reports
    running out of fuel, and [worker_stops] bounds the fuel it needs.  Histories keep the bounds of the source (31 votes, 64 epochs of
    credits, 32 leading votes, 5000 tracked objects).

    ** Not modelled

    Of fdp-sui: the parallel start-up of main, the reporting tasks, logging and
    the result file.  Of fdp-solana: the bank but for what is read of
    it, accounts database, shreds and replay of transactions, gossip, the
    threads of the replay stage with [handle_votable_bank], duplicate slot
    handling, building a tower from all bank forks, retransmission and metrics,
    the other programs, clients and tools; file contents after a power failure,
    since a save does not sync; of the vote program the byte encoding of
    instructions and of account data, which is an abstract codec with a
    round-trip law.  Of fdp-aptos: the
    consensus engine around the safety rules, execution, storage, network,
    mempool and state sync; optimistic signature verification; accumulator
    proofs, SHA3 and BLS are parameters; [sign_commit_vote] is modelled and
    left out of the runs of the agreement theorem, since it signs a hash given
    by its caller; that a timeout certificate is of the current epoch is an
    obligation of the caller, since [verify_tc] does not check it.  The scripts
    and the device tool are process control and I/O. *)

From Stdlib Require Export ZArith Lia Sorted.
From Stdlib Require Import Floats.SpecFloat.
From stdpp Require Export base gmap list fin_maps strings.

#[global] Open Scope Z_scope.

(** ** Fallible computations

    A Rust function that returns [Result<A, E>] and may also panic (a failed
    [assert!], [expect] or index) is a value of [outcome E A]. *)

Inductive outcome (E A : Type) : Type :=
| Ok (a : A)
| Err (e : E)
| Panic.
Arguments Ok {E A} a.
Arguments Err {E A} e.
Arguments Panic {E A}.

#[global] Instance outcome_eq_dec {E A} `{EqDecision E, EqDecision A} : EqDecision (outcome E A).
Proof. solve_decision. Defined.

(** The [?] operator. *)
Definition obind {E A B} (m : outcome E A) (f : A -> outcome E B) : outcome E B :=
  match m with
  | Ok a => f a
  | Err e => Err e
  | Panic => Panic
  end.

Declare Scope outcome_scope.
Delimit Scope outcome_scope with outcome.
#[global] Open Scope outcome_scope.
Notation "x ←? m ; k" := (obind m (fun x => k))
  (at level 20, m at level 100, k at level 200, only parsing) : outcome_scope.
Notation "' p ←? m ; k" := (obind m (fun p => k))
  (at level 20, p pattern, m at level 100, k at level 200, only parsing) : outcome_scope.

(** [if !b { return Err(e) }] *)
Definition ensure {E} (b : bool) (e : E) : outcome E unit :=
  if b then Ok tt else Err e.

(** [assert!(b)] *)
Definition rust_assert {E} (b : bool) : outcome E unit :=
  if b then Ok tt else Panic.

(** [o.ok_or(e)?] *)
Definition ok_or {E A} (o : option A) (e : E) : outcome E A :=
  match o with Some a => Ok a | None => Err e end.

(** [o.expect(..)], [o.unwrap()] and slice indexing *)
Definition expect {E A} (o : option A) : outcome E A :=
  match o with Some a => Ok a | None => Panic end.

(** [r.map_err(f)] and the conversion done by [?]. *)
Definition map_err {E F A} (f : E -> F) (m : outcome E A) : outcome F A :=
  match m with
  | Ok a => Ok a
  | Err e => Err (f e)
  | Panic => Panic
  end.

Lemma bind_no_panic {E A B} (m : outcome E A) (f : A -> outcome E B) :
  m <> Panic -> (forall a, m = Ok a -> f a <> Panic) -> obind m f <> Panic.
Proof. destruct m; cbn; [auto | done | done]. Qed.
Lemma ensure_no_panic {E} b (e : E) : ensure b e <> Panic.
Proof. by destruct b. Qed.

Lemma bind_Ok {E A B} (m : outcome E A) (f : A -> outcome E B) (b : B) :
  obind m f = Ok b <-> exists a, m = Ok a /\ f a = Ok b.
Proof.
  destruct m; cbn; split; try (by intros (? & [=] & _)); try done.
  - intros H. by eexists.
  - by intros (? & [= ->] & ?).
Qed.

Lemma ensure_Ok {E} (b : bool) (e : E) u : ensure b e = Ok u <-> b = true.
Proof. destruct b, u; cbn; naive_solver. Qed.

Lemma rust_assert_Ok {E} (b : bool) u : @rust_assert E b = Ok u <-> b = true.
Proof. destruct b, u; cbn; naive_solver. Qed.

Lemma ok_or_Ok {E A} (o : option A) (e : E) a : ok_or o e = Ok a <-> o = Some a.
Proof. destruct o; cbn; naive_solver. Qed.

Lemma expect_Ok {E A} (o : option A) a : @expect E A o = Ok a <-> o = Some a.
Proof. destruct o; cbn; naive_solver. Qed.

Lemma map_err_Ok {E F A} (f : E -> F) (m : outcome E A) a :
  map_err f m = Ok a <-> m = Ok a.
Proof. destruct m; cbn; naive_solver. Qed.

(** [outcome_inv] turns the hypothesis that a monadic computation returned
    [Ok] into one hypothesis per step of it. *)
Ltac outcome_inv_step :=
  match goal with
  | H : Ok _ = Ok _ |- _ => injection H as H
  | H : Err _ = Ok _ |- _ => discriminate H
  | H : Panic = Ok _ |- _ => discriminate H
  | H : obind _ _ = Ok _ |- _ =>
      apply bind_Ok in H;
      let a := fresh "x" in let H1 := fresh H in destruct H as (a & H1 & H)
  | H : ensure _ _ = Ok _ |- _ => apply ensure_Ok in H
  | H : rust_assert _ = Ok _ |- _ => apply rust_assert_Ok in H
  | H : ok_or _ _ = Ok _ |- _ => apply ok_or_Ok in H
  | H : expect _ = Ok _ |- _ => apply expect_Ok in H
  | H : map_err _ _ = Ok _ |- _ => apply map_err_Ok in H
  end.
Ltac outcome_inv := repeat outcome_inv_step.

(** Boolean tests of the code as propositions. *)
Ltac bool_to_prop :=
  repeat match goal with
  | H : negb _ = true |- _ => apply negb_true_iff in H
  | H : negb _ = false |- _ => apply negb_false_iff in H
  | H : andb _ _ = true |- _ => apply andb_true_iff in H; destruct H
  | H : orb _ _ = false |- _ => apply orb_false_iff in H; destruct H
  | H : Z.ltb _ _ = true |- _ => apply Z.ltb_lt in H
  | H : Z.ltb _ _ = false |- _ => apply Z.ltb_ge in H
  | H : Z.leb _ _ = true |- _ => apply Z.leb_le in H
  | H : Z.leb _ _ = false |- _ => apply Z.leb_gt in H
  | H : Z.eqb _ _ = true |- _ => apply Z.eqb_eq in H
  | H : Z.eqb _ _ = false |- _ => apply Z.eqb_neq in H
  | H : bool_decide _ = true |- _ => apply bool_decide_eq_true in H
  | H : bool_decide _ = false |- _ => apply bool_decide_eq_false in H
  end.

(** Case analysis on an integer test in the goal. *)
Ltac case_test :=
  match goal with
  | |- context [Z.ltb ?a ?b] => destruct (Z.ltb_spec a b)
  | |- context [Z.leb ?a ?b] => destruct (Z.leb_spec a b)
  | |- context [Z.eqb ?a ?b] => destruct (Z.eqb_spec a b)
  end.

(** ** Machine integers

    A w-bit unsigned integer is the [Z] of its value. The operations below
    are those of Rust's standard library. *)

Definition u8_max : Z := 2 ^ 8 - 1.
Definition u32_max : Z := 2 ^ 32 - 1.
Definition u64_max : Z := 2 ^ 64 - 1.
Definition u128_max : Z := 2 ^ 128 - 1.
Definition i64_max : Z := 2 ^ 63 - 1.
Definition i64_min : Z := - 2 ^ 63.

Definition in_u8 (x : Z) : Prop := 0 <= x <= u8_max.
Definition in_u32 (x : Z) : Prop := 0 <= x <= u32_max.
Definition in_u64 (x : Z) : Prop := 0 <= x <= u64_max.

(** [x.saturating_add(y)] and [x.saturating_mul(y)] at a type of maximum [m] *)
Definition sat_add (m x y : Z) : Z := Z.min (x + y) m.
Definition sat_mul (m x y : Z) : Z := Z.min (x * y) m.
(** [x.saturating_sub(y)] for an unsigned type *)
Definition sat_sub (x y : Z) : Z := Z.max (x - y) 0.
(** [2.saturating_pow(e)] at [u64] *)
Definition sat_pow2 (e : Z) : Z := Z.min (2 ^ e) u64_max.

Definition checked_add (m x y : Z) : option Z :=
  if x + y <=? m then Some (x + y) else None.
Definition checked_sub (x y : Z) : option Z :=
  if y <=? x then Some (x - y) else None.
Definition checked_div (x y : Z) : option Z :=
  if y =? 0 then None else Some (x / y).
Definition checked_rem (x y : Z) : option Z :=
  if y =? 0 then None else Some (x mod y).

Lemma checked_add_Some m x y z : checked_add m x y = Some z <-> z = x + y /\ x + y <= m.
Proof. unfold checked_add. case_test; naive_solver lia. Qed.
Lemma checked_sub_Some x y z : checked_sub x y = Some z <-> z = x - y /\ y <= x.
Proof. unfold checked_sub. case_test; naive_solver lia. Qed.
Lemma checked_sub_None x y : checked_sub x y = None <-> x < y.
Proof. unfold checked_sub. case_test; naive_solver lia. Qed.

(** Unchecked arithmetic of a release build wraps around. *)
Definition wrap64 (x : Z) : Z := x mod 2 ^ 64.

(** [x.saturating_add(y)] and [x.saturating_sub(y)] at [i64] *)
Definition sat_add_i64 (x y : Z) : Z := Z.max i64_min (Z.min (x + y) i64_max).
Definition sat_sub_i64 (x y : Z) : Z := Z.max i64_min (Z.min (x - y) i64_max).

Lemma wrap64_add_l a b : wrap64 (wrap64 a + b) = wrap64 (a + b).
Proof. unfold wrap64. apply Zplus_mod_idemp_l. Qed.
Lemma wrap64_add_r a b : wrap64 (a + wrap64 b) = wrap64 (a + b).
Proof. unfold wrap64. apply Zplus_mod_idemp_r. Qed.
Lemma wrap64_sub_l a b : wrap64 (wrap64 a - b) = wrap64 (a - b).
Proof. unfold wrap64. apply Zminus_mod_idemp_l. Qed.
Lemma wrap64_shift a b c : wrap64 a = wrap64 b -> wrap64 (a + c) = wrap64 (b + c).
Proof. intros H. by rewrite <-(wrap64_add_l a), <-(wrap64_add_l b), H. Qed.
Lemma wrap64_small a : in_u64 a -> wrap64 a = a.
Proof. unfold in_u64, u64_max, wrap64. intros. apply Z.mod_small. lia. Qed.
Lemma wrap64_range a : in_u64 (wrap64 a).
Proof. unfold in_u64, u64_max, wrap64. pose proof (Z.mod_pos_bound a (2 ^ 64)). lia. Qed.

(** ** Lists *)

Abbreviation zlength l := (Z.of_nat (length l)).

Fixpoint drop_while {A} (p : A -> bool) (l : list A) : list A :=
  match l with
  | [] => []
  | x :: l' => if p x then drop_while p l' else l
  end.

(** [while p(v.back()) { v.pop_back() }] *)
Definition pop_back_while {A} (p : A -> bool) (l : list A) : list A :=
  reverse (drop_while p (reverse l)).

(** [*v.last_mut().unwrap() = f(..)]; nothing on an empty vector, where the
    code's [unwrap] is unreachable. *)
Fixpoint update_last {A} (f : A -> A) (l : list A) : list A :=
  match l with
  | [] => []
  | [x] => [f x]
  | x :: l' => x :: update_last f l'
  end.

Lemma drop_while_split {A} (p : A -> bool) (l : list A) :
  exists l1, l = l1 ++ drop_while p l /\ Forall (fun x => p x = true) l1 /\
    match drop_while p l with [] => True | x :: _ => p x = false end.
Proof.
  induction l as [|x l (l1 & IH1 & IH2 & IH3)]; cbn; [by exists [] |].
  destruct (p x) eqn:E.
  - exists (x :: l1); cbn. split; [by f_equal |]. split; [by constructor | done].
  - by exists [].
Qed.

(** The popped suffix satisfies [p], and what is left ends with an element
    that does not. *)
Lemma pop_back_while_split {A} (p : A -> bool) (l : list A) :
  exists l2, l = pop_back_while p l ++ l2 /\ Forall (fun x => p x = true) l2 /\
    match last (pop_back_while p l) with None => True | Some x => p x = false end.
Proof.
  destruct (drop_while_split p (reverse l)) as (l1 & H1 & H2 & H3).
  exists (reverse l1). unfold pop_back_while. split; [|split].
  - by rewrite <- reverse_app, <- H1, reverse_involutive.
  - by apply Forall_reverse.
  - rewrite last_reverse. by destruct (drop_while p (reverse l)).
Qed.

Lemma update_last_app {A} (f : A -> A) (l : list A) x :
  update_last f (l ++ [x]) = l ++ [f x].
Proof.
  induction l as [|y l IH]; [done |]. cbn. rewrite IH.
  destruct l; done.
Qed.

Lemma length_update_last {A} (f : A -> A) (l : list A) :
  length (update_last f l) = length l.
Proof. induction l as [|x [|y l] IH]; [done | done |]. cbn in *. by rewrite IH. Qed.

Lemma last_update_last {A} (f : A -> A) (l : list A) :
  last (update_last f l) = f <$> last l.
Proof.
  destruct l as [|x l _] using rev_ind; [done |].
  by rewrite update_last_app, !last_snoc.
Qed.

Lemma Forall_impl_in {A} (P Q : A -> Prop) l :
  (forall x, x ∈ l -> P x -> Q x) -> Forall P l -> Forall Q l.
Proof. rewrite !Forall_forall. auto. Qed.

Lemma filter_all {A} (P : A -> Prop) `{!forall x, Decision (P x)} l :
  Forall P l -> filter P l = l.
Proof.
  induction 1 as [|x l Hx Hl IH]; [done |]. rewrite filter_cons, decide_True by done. by rewrite IH.
Qed.

Lemma filter_none {A} (P : A -> Prop) `{!forall x, Decision (P x)} l :
  Forall (fun x => ~ P x) l -> filter P l = [].
Proof.
  induction 1 as [|x l Hx Hl IH]; [done |]. by rewrite filter_cons, decide_False by done.
Qed.

(** ** Sorted lists *)

Lemma StronglySorted_app_inv {A} (R : A -> A -> Prop) l1 l2 :
  StronglySorted R (l1 ++ l2) ->
  StronglySorted R l1 /\ StronglySorted R l2 /\
  (forall x y, x ∈ l1 -> y ∈ l2 -> R x y).
Proof.
  induction l1 as [|a l1 IH]; cbn; intros H.
  - split; [constructor |]. split; [done |]. intros x y Hx. by apply elem_of_nil in Hx.
  - apply StronglySorted_inv in H as [H1 H2]. destruct (IH H1) as (Ha & Hb & Hc).
    rewrite Forall_forall in H2. split; [|split; [done |]].
    + constructor; [done |]. apply Forall_forall. intros x Hx. apply H2. set_solver.
    + intros x y Hx Hy. apply elem_of_cons in Hx as [->|Hx]; [|by apply Hc].
      apply H2. set_solver.
Qed.

Lemma StronglySorted_snoc {A} (R : A -> A -> Prop) l x :
  StronglySorted R l -> (forall y, y ∈ l -> R y x) -> StronglySorted R (l ++ [x]).
Proof.
  induction l as [|a l IH]; cbn; intros Hl Hx; [by repeat constructor |].
  apply StronglySorted_inv in Hl as [H1 H2]. constructor.
  - apply IH; [done |]. intros y Hy. apply Hx. set_solver.
  - apply Forall_app. split; [done |]. constructor; [|done]. apply Hx. set_solver.
Qed.

Lemma StronglySorted_map {A B} (R : A -> A -> Prop) (S : B -> B -> Prop) (f : A -> B) l :
  (forall x y, R x y -> S (f x) (f y)) ->
  StronglySorted R l -> StronglySorted S (f <$> l).
Proof.
  intros Hf. induction 1 as [|x l Hl IH Hx]; cbn; constructor; [done |].
  apply Forall_forall. intros y (z & -> & Hz)%list_elem_of_fmap.
  rewrite Forall_forall in Hx. by apply Hf, Hx.
Qed.

Lemma StronglySorted_filter {A} (R : A -> A -> Prop) (P : A -> Prop) `{!forall x, Decision (P x)} l :
  StronglySorted R l -> StronglySorted R (filter P l).
Proof.
  induction 1 as [|x l Hl IH Hx]; [constructor |].
  rewrite filter_cons. case_decide; [|done]. constructor; [done |].
  rewrite Forall_forall in *. intros y Hy. apply Hx. by apply list_elem_of_filter in Hy as [_ ?].
Qed.

Lemma StronglySorted_sublist {A} (R : A -> A -> Prop) l k :
  l `sublist_of` k -> StronglySorted R k -> StronglySorted R l.
Proof.
  induction 1 as [|x l k Hlk IH|x l k Hlk IH]; intros Hk; [done | |];
    apply StronglySorted_inv in Hk as [Hk Hx]; [|by apply IH].
  constructor; [by apply IH |]. rewrite Forall_forall in *. intros y Hy. apply Hx.
  eapply elem_of_submseteq; [done | by apply sublist_submseteq].
Qed.

Lemma StronglySorted_lookup {A} (R : A -> A -> Prop) l i j x y :
  StronglySorted R l -> (i < j)%nat -> l !! i = Some x -> l !! j = Some y -> R x y.
Proof.
  revert i j. induction l as [|z l IH]; intros i j Hl Hij Hx Hy; [done |].
  apply StronglySorted_inv in Hl as [Hl Hz]. rewrite Forall_forall in Hz.
  destruct j as [|j]; [lia |]. destruct i as [|i]; cbn in Hx, Hy.
  - injection Hx as <-. apply Hz. by eapply list_elem_of_lookup_2.
  - eapply IH; [done | | done | done]. lia.
Qed.

Lemma Forall_sublist {A} (P : A -> Prop) l k : l `sublist_of` k -> Forall P k -> Forall P l.
Proof. intros Hs. rewrite !Forall_forall. intros H x Hx. apply H. eapply elem_of_submseteq; [done | by apply sublist_submseteq]. Qed.

(** Keeping an upper part of an ordered list keeps its last element. *)
Lemma last_filter_upper {A} (R : A -> A -> Prop) (P : A -> Prop) `{!forall x, Decision (P x)} l :
  StronglySorted R l -> (forall x y, R x y -> P x -> P y) -> filter P l <> [] ->
  last (filter P l) = last l.
Proof.
  intros Hl HP. induction Hl as [|x l Hl IH Hx]; [done |]. destruct (decide (P x)) as [Hp|Hp].
  - rewrite filter_all; [done |]. constructor; [done |]. eapply Forall_impl; [exact Hx |]. eauto.
  - rewrite filter_cons_False by done. intros Hne. rewrite last_cons, <- IH by done.
    by destruct (last (filter P l)) eqn:E; [|apply last_None in E].
Qed.

Lemma sublist_map {A B} (f : A -> B) l k : l `sublist_of` k -> f <$> l `sublist_of` f <$> k.
Proof. by induction 1; constructor. Qed.

Lemma Sorted_app_inv {A} (R : A -> A -> Prop) l1 l2 :
  Sorted R (l1 ++ l2) -> Sorted R l1 /\ Sorted R l2.
Proof.
  induction l1 as [|a l1 IH]; cbn; intros H; [by split; [constructor |] |].
  apply Sorted_inv in H as [H1 H2]. destruct (IH H1) as [Ha Hb]. split; [|done].
  constructor; [done |]. destruct l1; [constructor |]. inversion H2; by constructor.
Qed.

Lemma Sorted_snoc {A} (R : A -> A -> Prop) l x :
  Sorted R l -> match last l with None => True | Some y => R y x end ->
  Sorted R (l ++ [x]).
Proof.
  induction l as [|a l IH]; cbn; intros Hl Hx; [by repeat constructor |].
  apply Sorted_inv in Hl as [H1 H2]. constructor.
  - apply IH; [done |]. destruct l; [done |]. done.
  - destruct l; cbn; [by constructor |]. inversion H2; by constructor.
Qed.

Lemma Sorted_impl {A} (R S : A -> A -> Prop) l :
  (forall x y, R x y -> S x y) -> Sorted R l -> Sorted S l.
Proof.
  intros H. induction 1 as [|x l Hl IH Hx]; constructor; [done |].
  destruct Hx; constructor. auto.
Qed.

(** The head of a chain of a transitive relation is related to the rest. *)
Lemma Sorted_strong {A} (R S : A -> A -> Prop) `{!Transitive S} l :
  (forall x y, R x y -> S x y) -> Sorted R l -> StronglySorted S l.
Proof. intros H Hl. apply Sorted_StronglySorted; [done |]. by eapply Sorted_impl. Qed.

(** ** Finite maps ordered by key: Rust's [BTreeMap<u64, V>] *)

Section btree.
Context {V : Type}.
Implicit Types (m : gmap Z V) (l : list (Z * V)).

Definition max_entry_step (kv : Z * V) (acc : option (Z * V)) : option (Z * V) :=
  match acc with
  | None => Some kv
  | Some kv' => if kv'.1 <? kv.1 then Some kv else Some kv'
  end.
Definition max_entry l : option (Z * V) := foldr max_entry_step None l.

(** [m.iter().next_back()] *)
Definition btree_last m : option (Z * V) := max_entry (map_to_list m).

(** [m.range(0..e)] *)
Definition btree_range m (e : Z) : gmap Z V := filter (fun kv => 0 <= kv.1 < e) m.

Lemma max_entry_None l : max_entry l = None -> l = [].
Proof.
  destruct l as [|a l]; [done |]. cbn. unfold max_entry_step at 1.
  destruct (foldr max_entry_step None l) as [b|]; [|done]. by destruct (b.1 <? a.1).
Qed.

Lemma max_entry_Some l kv :
  max_entry l = Some kv -> kv ∈ l /\ forall kv', kv' ∈ l -> kv'.1 <= kv.1.
Proof.
  revert kv. induction l as [|a l IH]; intros kv; cbn; [done |].
  unfold max_entry_step at 1. fold (max_entry l). destruct (max_entry l) as [b|] eqn:E.
  - destruct (IH b eq_refl) as [Hb Hmax].
    destruct (Z.ltb_spec b.1 a.1); intros [= <-]; (split; [set_solver |]);
      intros kv' [->|Hin]%elem_of_cons; try lia; specialize (Hmax _ Hin); lia.
  - intros [= <-]. split; [set_solver |]. intros kv' [->|Hin]%elem_of_cons; [lia |].
    apply max_entry_None in E as ->. by apply elem_of_nil in Hin.
Qed.

Lemma btree_last_Some m k v :
  btree_last m = Some (k, v) ->
  m !! k = Some v /\ forall k', is_Some (m !! k') -> k' <= k.
Proof.
  intros [Hin Hmax]%max_entry_Some. split; [by apply elem_of_map_to_list in Hin |].
  intros k' [v' Hk']. apply (Hmax (k', v')). by apply elem_of_map_to_list.
Qed.

Lemma btree_last_None m : btree_last m = None <-> m = ∅.
Proof.
  split.
  - intros H%max_entry_None. by apply map_to_list_empty_iff.
  - intros ->. unfold btree_last. by rewrite map_to_list_empty.
Qed.

Lemma btree_last_intro m k v :
  m !! k = Some v -> (forall k', is_Some (m !! k') -> k' <= k) ->
  btree_last m = Some (k, v).
Proof.
  intros Hk Hmax. destruct (btree_last m) as [[k' v']|] eqn:E.
  - apply btree_last_Some in E as [H1 H2].
    assert (k = k') as <- by (apply Z.le_antisymm; eauto). congruence.
  - apply btree_last_None in E as ->. by rewrite lookup_empty in Hk.
Qed.

Lemma btree_range_Some m e k v :
  btree_range m e !! k = Some v <-> m !! k = Some v /\ 0 <= k < e.
Proof. unfold btree_range. by rewrite map_lookup_filter_Some. Qed.

(** The voter of the latest key at or before [e]: what a [BTreeMap] range
    query from the back returns. *)
Lemma btree_range_last_Some m e k v :
  btree_last (btree_range m e) = Some (k, v) ->
  m !! k = Some v /\ 0 <= k < e /\ forall k', is_Some (m !! k') -> 0 <= k' < e -> k' <= k.
Proof.
  intros [H1 H2]%btree_last_Some. apply btree_range_Some in H1 as [H1 H3].
  split; [done |]. split; [done |]. intros k' [v' Hk'] Hlt. apply H2.
  exists v'. by apply btree_range_Some.
Qed.
End btree.

(** ** Binary search of a slice

    [slice::binary_search_by] of the standard library, on the comparisons of
    each element with the key: [inl i] is [Ok(i)] and [inr i] is [Err(i)]. *)

Fixpoint binary_search_loop {A} (f : A -> comparison) (l : list A)
    (fuel left right : nat) : nat + nat :=
  match fuel with
  | O => inr left
  | S fuel' =>
      if (left <? right)%nat then
        let mid := (left + (right - left) / 2)%nat in
        match l !! mid with
        | None => inr left
        | Some x =>
            match f x with
            | Lt => binary_search_loop f l fuel' (S mid) right
            | Gt => binary_search_loop f l fuel' left mid
            | Eq => inl mid
            end
        end
      else inr left
  end.

Definition binary_search_by {A} (f : A -> comparison) (l : list A) : nat + nat :=
  binary_search_loop f l (S (length l)) 0 (length l).

(** A position found holds an element that compares equal. *)
Lemma binary_search_by_found {A} (f : A -> comparison) (l : list A) i :
  binary_search_by f l = inl i -> exists x, l !! i = Some x /\ f x = Eq.
Proof.
  unfold binary_search_by. generalize (S (length l)) as fuel. generalize 0%nat (length l).
  intros left right fuel. revert left right.
  induction fuel as [|fuel IH]; intros left right; cbn [binary_search_loop]; [by intros [=] |].
  destruct (_ <? _)%nat; [|by intros [=]].
  destruct (l !! (left + (right - left) / 2)%nat) as [x|] eqn:Ex; [|by intros [=]].
  destruct (f x) eqn:Ec; [|apply IH|apply IH]. intros [= <-]. eauto.
Qed.

(** [f] is the comparison with a key of a slice sorted in its order. *)
Definition search_ordered {A} (f : A -> comparison) (l : list A) : Prop :=
  forall i j x y, (i < j)%nat -> l !! i = Some x -> l !! j = Some y ->
    (f x = Gt -> f y = Gt) /\ (f x = Eq -> f y = Gt) /\ (f y = Eq -> f x = Lt) /\ (f y = Lt -> f x = Lt).

Lemma binary_search_loop_spec {A} (f : A -> comparison) (l : list A) fuel left right :
  search_ordered f l -> (right <= length l)%nat -> (left <= right)%nat -> (right - left < fuel)%nat ->
  (forall i x, (i < left)%nat -> l !! i = Some x -> f x = Lt) ->
  (forall i x, (right <= i)%nat -> l !! i = Some x -> f x = Gt) ->
  match binary_search_loop f l fuel left right with
  | inl i => exists x, l !! i = Some x /\ f x = Eq
  | inr i => (i <= length l)%nat /\
      (forall k x, (k < i)%nat -> l !! k = Some x -> f x = Lt) /\
      (forall k x, (i <= k)%nat -> l !! k = Some x -> f x = Gt)
  end.
Proof.
  intros Hord. revert left right. induction fuel as [|fuel IH]; intros left right Hr Hlr Hf Hlo Hhi; [lia |].
  cbn [binary_search_loop]. destruct (Nat.ltb_spec left right) as [Hlt|Hge].
  - set (mid := (left + (right - left) / 2)%nat).
    assert (left <= mid < right)%nat as Hmid.
    { subst mid. pose proof (Nat.div_lt (right - left) 2 ltac:(lia) ltac:(lia)). lia. }
    destruct (lookup_lt_is_Some_2 l mid ltac:(lia)) as [x Hx]. rewrite Hx.
    destruct (f x) eqn:E.
    + by exists x.
    + apply IH; [lia | lia | lia | | done]. intros i y Hi Hy.
      destruct (decide (i = mid)) as [->|]; [congruence |].
      by destruct (Hord i mid y x ltac:(lia) Hy Hx) as (_ & _ & _ & ?); auto.
    + apply IH; [lia | lia | lia | done |]. intros i y Hi Hy.
      destruct (decide (i = mid)) as [->|]; [congruence |].
      by destruct (Hord mid i x y ltac:(lia) Hx Hy) as (? & _); auto.
  - split; [lia |]. split; [done |]. intros k x Hk. apply Hhi. lia.
Qed.

Lemma binary_search_by_spec {A} (f : A -> comparison) (l : list A) :
  search_ordered f l ->
  match binary_search_by f l with
  | inl i => exists x, l !! i = Some x /\ f x = Eq
  | inr i => (i <= length l)%nat /\
      (forall k x, (k < i)%nat -> l !! k = Some x -> f x = Lt) /\
      (forall k x, (i <= k)%nat -> l !! k = Some x -> f x = Gt)
  end.
Proof.
  intros H. apply binary_search_loop_spec; try done; try lia.
  intros i x Hi Hx. apply lookup_lt_Some in Hx. lia.
Qed.

(** [l.iter().max()] *)
Definition max_list_Z (l : list Z) : option Z :=
  foldr (fun x acc => Some (from_option (Z.max x) x acc)) None l.

Lemma max_list_Z_ub l m x : max_list_Z l = Some m -> x ∈ l -> x <= m.
Proof.
  revert m. induction l as [|y l IH]; intros m Hm Hx; [done|].
  change (Some (from_option (Z.max y) y (max_list_Z l)) = Some m) in Hm. injection Hm as <-.
  apply elem_of_cons in Hx as [->|Hx].
  - destruct (max_list_Z l); cbn; lia.
  - destruct (max_list_Z l) as [n|] eqn:El; cbn.
    + specialize (IH n eq_refl Hx). lia.
    + destruct l; [by apply elem_of_nil in Hx|done].
Qed.

Lemma max_list_Z_snoc l x : max_list_Z (l ++ [x]) = Some (from_option (Z.max x) x (max_list_Z l)).
Proof.
  induction l as [|y l IH]; [done|]. cbn [app max_list_Z foldr]. fold (max_list_Z (l ++ [x])). rewrite IH.
  fold (max_list_Z l). destruct (max_list_Z l); cbn; f_equal; lia.
Qed.

(** ** Operations that change a state

    A method that takes [&mut self] and returns a [Result]: what it wrote
    before an error or a panic stays written. *)

Definition eff (S E A : Type) : Type := S -> S * outcome E A.

Definition eret {S E A} (a : A) : eff S E A := fun s => (s, Ok a).
Definition ebind {S E A B} (m : eff S E A) (f : A -> eff S E B) : eff S E B :=
  fun s => let '(s, r) := m s in
           match r with
           | Ok a => f a s
           | Err e => (s, Err e)
           | Panic => (s, Panic)
           end.
(** A computation that only reads the state. *)
Definition eread {S E A} (f : S -> outcome E A) : eff S E A := fun s => (s, f s).
Definition ewrite {S E} (f : S -> S) : eff S E unit := fun s => (f s, Ok tt).

Declare Scope eff_scope.
Delimit Scope eff_scope with eff.
#[global] Open Scope eff_scope.
Notation "x ←! m ; k" := (ebind m (fun x => k))
  (at level 20, m at level 100, k at level 200, only parsing) : eff_scope.
Notation "' p ←! m ; k" := (ebind m (fun p => k))
  (at level 20, p pattern, m at level 100, k at level 200, only parsing) : eff_scope.

Lemma ebind_Ok {S E A B} (m : eff S E A) (f : A -> eff S E B) s s' b :
  ebind m f s = (s', Ok b) <-> exists s1 a, m s = (s1, Ok a) /\ f a s1 = (s', Ok b).
Proof.
  unfold ebind. destruct (m s) as [s1 [a|e|]]; split; try done.
  - intros H. by exists s1, a.
  - by intros (? & ? & [= <- <-] & ?).
  - by intros (? & ? & [=] & ?).
  - by intros (? & ? & [=] & ?).
Qed.

Lemma eread_Ok {S E A} (f : S -> outcome E A) s s' a :
  eread f s = (s', Ok a) <-> s' = s /\ f s = Ok a.
Proof. unfold eread. split; [by intros [= <- ->] | by intros [-> ->]]. Qed.

(** Splits a successful run into its steps. *)
Ltac eff_inv :=
  repeat match goal with
  | H : ebind _ _ _ = (_, Ok _) |- _ => apply ebind_Ok in H as (? & ? & ? & H)
  | H : eread _ _ = (_, Ok _) |- _ => apply eread_Ok in H as [? H]
  | H : eret _ _ = (_, _) |- _ => unfold eret in H; injection H; clear H; intros
  | H : ewrite _ _ = (_, _) |- _ => unfold ewrite in H; injection H; clear H; intros
  end; subst.

(** [wp m s Q]: from [s], [m] ends in a state and a result that satisfy [Q]. *)
Definition wp {S E A} (m : eff S E A) (s : S) (Q : S -> outcome E A -> Prop) : Prop :=
  Q (m s).1 (m s).2.

Lemma wp_run {S E A} (m : eff S E A) s Q s' r : wp m s Q -> m s = (s', r) -> Q s' r.
Proof. unfold wp. intros HQ Hm. by rewrite Hm in HQ. Qed.

Lemma wp_bind {S E A B} (m : eff S E A) (f : A -> eff S E B) s (Q : S -> outcome E B -> Prop) :
  wp m s (fun s1 r => match r with
                      | Ok a => wp (f a) s1 Q
                      | Err e => Q s1 (Err e)
                      | Panic => Q s1 Panic
                      end) ->
  wp (ebind m f) s Q.
Proof. unfold wp, ebind. by destruct (m s) as [s1 [a|e|]]. Qed.

Lemma wp_bind_read {S E A B} (f : S -> outcome E A) (k : A -> eff S E B) s (Q : S -> outcome E B -> Prop) :
  (forall e, Q s (Err e)) -> Q s Panic -> (forall a, f s = Ok a -> wp (k a) s Q) ->
  wp (ebind (eread f) k) s Q.
Proof. intros He Hp Hk. apply wp_bind. unfold wp at 1, eread. cbn. destruct (f s); auto. Qed.

Lemma wp_read {S E A} (f : S -> outcome E A) s (Q : S -> outcome E A -> Prop) :
  (forall e, Q s (Err e)) -> Q s Panic -> (forall a, f s = Ok a -> Q s (Ok a)) -> wp (eread f) s Q.
Proof. intros He Hp Ha. unfold wp, eread. cbn. destruct (f s); auto. Qed.

Lemma wp_ret {S E A} (a : A) s (Q : S -> outcome E A -> Prop) : Q s (Ok a) -> wp (eret a) s Q.
Proof. done. Qed.

Lemma wp_mono {S E A} (m : eff S E A) s (Q Q' : S -> outcome E A -> Prop) :
  (forall s' r, Q s' r -> Q' s' r) -> wp m s Q -> wp m s Q'.
Proof. unfold wp. auto. Qed.

(** ** Binary floating point

    [f64] is IEEE 754 binary64, rounding to nearest even, as the Standard
    Library specifies it. *)

Definition f64 : Type := spec_float.
Definition f64_of_u64 (z : Z) : f64 := binary_normalize 53 1024 z 0 false.
Definition f64_sub : f64 -> f64 -> f64 := SFsub 53 1024.
Definition f64_mul : f64 -> f64 -> f64 := SFmul 53 1024.
Definition f64_div : f64 -> f64 -> f64 := SFdiv 53 1024.
Definition f64_ltb : f64 -> f64 -> bool := SFltb.
Definition f64_leb : f64 -> f64 -> bool := SFleb.

(** [x as u64]: truncation towards zero, saturating, NaN to 0. *)
Definition f64_to_u64 (x : f64) : Z :=
  match x with
  | S754_zero _ => 0
  | S754_infinity s => if s then 0 else u64_max
  | S754_nan => 0
  | S754_finite s m e =>
      if s then 0
      else Z.min u64_max (match e with
                          | Zneg p => Zpos m / 2 ^ Zpos p
                          | _ => Zpos m * 2 ^ e
                          end)
  end.

(** ** Automation *)

Create HintDb fdp.
#[export] Hint Constructors StronglySorted Sorted HdRel : fdp.
#[export] Hint Extern 4 (_ <= _)%Z => lia : fdp.
#[export] Hint Extern 4 (_ < _)%Z => lia : fdp.
#[export] Hint Extern 4 (@eq Z _ _) => lia : fdp.
