(* ===== verification/InstructionError.v ===== *)
(** * Errors of the runtime

    The reasons the runtime rejected an instruction:
    [sdk/program/src/instruction.rs]. *)

From S2P Require Import Prelude.

Inductive InstructionError : Type :=
| GenericError
| InvalidArgument
| InvalidInstructionData
| InvalidAccountData
| AccountDataTooSmall
| InsufficientFunds
| IncorrectProgramId
| MissingRequiredSignature
| AccountAlreadyInitialized
| UninitializedAccount
| UnbalancedInstruction
| ModifiedProgramId
| ExternalAccountLamportSpend
| ExternalAccountDataModified
| ReadonlyLamportChange
| ReadonlyDataModified
| DuplicateAccountIndex
| ExecutableModified
| RentEpochModified
| NotEnoughAccountKeys
| AccountDataSizeChanged
| AccountNotExecutable
| AccountBorrowFailed
| AccountBorrowOutstanding
| DuplicateAccountOutOfSync
| Custom (code : Z)
| InvalidError
| ExecutableDataModified
| ExecutableLamportChange
| ExecutableAccountNotRentExempt
| UnsupportedProgramId
| CallDepth
| MissingAccount
| ReentrancyNotAllowed
| MaxSeedLengthExceeded
| InvalidSeeds
| InvalidRealloc
| ComputationalBudgetExceeded
| PrivilegeEscalation
| ProgramEnvironmentSetupFailure
| ProgramFailedToComplete
| ProgramFailedToCompile
| Immutable
| IncorrectAuthority
| BorshIoError (message : string)
| AccountNotRentExempt
| InvalidAccountOwner
| ArithmeticOverflow
| UnsupportedSysvar
| IllegalOwner
| MaxAccountsDataAllocationsExceeded
| MaxAccountsExceeded
| MaxInstructionTraceLengthExceeded
| BuiltinProgramsMustConsumeComputeUnits.

#[global] Instance InstructionError_eq_dec : EqDecision InstructionError.
Proof. solve_decision. Defined.
