(* ===== verification/ProgramError.v ===== *)
(** * Errors of a program as return codes

    [sdk/program/src/program_error.rs]: a program returns an error as a [u64]
    whose upper half holds the built-in errors and whose lower half holds the
    program's own. *)

From S2P Require Import Prelude InstructionError.

Module Program.
Inductive ProgramError : Type :=
| Custom (code : Z)
| InvalidArgument
| InvalidInstructionData
| InvalidAccountData
| AccountDataTooSmall
| InsufficientFunds
| IncorrectProgramId
| MissingRequiredSignature
| AccountAlreadyInitialized
| UninitializedAccount
| NotEnoughAccountKeys
| AccountBorrowFailed
| MaxSeedLengthExceeded
| InvalidSeeds
| BorshIoError (message : string)
| AccountNotRentExempt
| UnsupportedSysvar
| IllegalOwner
| MaxAccountsDataAllocationsExceeded
| InvalidRealloc
| MaxInstructionTraceLengthExceeded
| BuiltinProgramsMustConsumeComputeUnits
| InvalidAccountOwner
| ArithmeticOverflow.
End Program.

Definition BUILTIN_BIT_SHIFT : Z := 32.
Definition to_builtin (error : Z) : Z := Z.shiftl error BUILTIN_BIT_SHIFT.

Definition CUSTOM_ZERO : Z := to_builtin 1.
Definition INVALID_ARGUMENT : Z := to_builtin 2.
Definition INVALID_INSTRUCTION_DATA : Z := to_builtin 3.
Definition INVALID_ACCOUNT_DATA : Z := to_builtin 4.
Definition ACCOUNT_DATA_TOO_SMALL : Z := to_builtin 5.
Definition INSUFFICIENT_FUNDS : Z := to_builtin 6.
Definition INCORRECT_PROGRAM_ID : Z := to_builtin 7.
Definition MISSING_REQUIRED_SIGNATURES : Z := to_builtin 8.
Definition ACCOUNT_ALREADY_INITIALIZED : Z := to_builtin 9.
Definition UNINITIALIZED_ACCOUNT : Z := to_builtin 10.
Definition NOT_ENOUGH_ACCOUNT_KEYS : Z := to_builtin 11.
Definition ACCOUNT_BORROW_FAILED : Z := to_builtin 12.
Definition MAX_SEED_LENGTH_EXCEEDED : Z := to_builtin 13.
Definition INVALID_SEEDS : Z := to_builtin 14.
Definition BORSH_IO_ERROR : Z := to_builtin 15.
Definition ACCOUNT_NOT_RENT_EXEMPT : Z := to_builtin 16.
Definition UNSUPPORTED_SYSVAR : Z := to_builtin 17.
Definition ILLEGAL_OWNER : Z := to_builtin 18.
Definition MAX_ACCOUNTS_DATA_ALLOCATIONS_EXCEEDED : Z := to_builtin 19.
Definition INVALID_ACCOUNT_DATA_REALLOC : Z := to_builtin 20.
Definition MAX_INSTRUCTION_TRACE_LENGTH_EXCEEDED : Z := to_builtin 21.
Definition BUILTIN_PROGRAMS_MUST_CONSUME_COMPUTE_UNITS : Z := to_builtin 22.
Definition INVALID_ACCOUNT_OWNER : Z := to_builtin 23.
Definition ARITHMETIC_OVERFLOW : Z := to_builtin 24.

(** [impl From<ProgramError> for u64] *)
Definition program_error_code (error : Program.ProgramError) : Z :=
  match error with
  | Program.InvalidArgument => INVALID_ARGUMENT
  | Program.InvalidInstructionData => INVALID_INSTRUCTION_DATA
  | Program.InvalidAccountData => INVALID_ACCOUNT_DATA
  | Program.AccountDataTooSmall => ACCOUNT_DATA_TOO_SMALL
  | Program.InsufficientFunds => INSUFFICIENT_FUNDS
  | Program.IncorrectProgramId => INCORRECT_PROGRAM_ID
  | Program.MissingRequiredSignature => MISSING_REQUIRED_SIGNATURES
  | Program.AccountAlreadyInitialized => ACCOUNT_ALREADY_INITIALIZED
  | Program.UninitializedAccount => UNINITIALIZED_ACCOUNT
  | Program.NotEnoughAccountKeys => NOT_ENOUGH_ACCOUNT_KEYS
  | Program.AccountBorrowFailed => ACCOUNT_BORROW_FAILED
  | Program.MaxSeedLengthExceeded => MAX_SEED_LENGTH_EXCEEDED
  | Program.InvalidSeeds => INVALID_SEEDS
  | Program.BorshIoError _ => BORSH_IO_ERROR
  | Program.AccountNotRentExempt => ACCOUNT_NOT_RENT_EXEMPT
  | Program.UnsupportedSysvar => UNSUPPORTED_SYSVAR
  | Program.IllegalOwner => ILLEGAL_OWNER
  | Program.MaxAccountsDataAllocationsExceeded => MAX_ACCOUNTS_DATA_ALLOCATIONS_EXCEEDED
  | Program.InvalidRealloc => INVALID_ACCOUNT_DATA_REALLOC
  | Program.MaxInstructionTraceLengthExceeded => MAX_INSTRUCTION_TRACE_LENGTH_EXCEEDED
  | Program.BuiltinProgramsMustConsumeComputeUnits => BUILTIN_PROGRAMS_MUST_CONSUME_COMPUTE_UNITS
  | Program.InvalidAccountOwner => INVALID_ACCOUNT_OWNER
  | Program.ArithmeticOverflow => ARITHMETIC_OVERFLOW
  | Program.Custom error => if error =? 0 then CUSTOM_ZERO else error
  end.

(** [impl From<u64> for ProgramError] *)
Definition program_error_of_code (error : Z) : Program.ProgramError :=
  if error =? CUSTOM_ZERO then Program.Custom 0
  else if error =? INVALID_ARGUMENT then Program.InvalidArgument
  else if error =? INVALID_INSTRUCTION_DATA then Program.InvalidInstructionData
  else if error =? INVALID_ACCOUNT_DATA then Program.InvalidAccountData
  else if error =? ACCOUNT_DATA_TOO_SMALL then Program.AccountDataTooSmall
  else if error =? INSUFFICIENT_FUNDS then Program.InsufficientFunds
  else if error =? INCORRECT_PROGRAM_ID then Program.IncorrectProgramId
  else if error =? MISSING_REQUIRED_SIGNATURES then Program.MissingRequiredSignature
  else if error =? ACCOUNT_ALREADY_INITIALIZED then Program.AccountAlreadyInitialized
  else if error =? UNINITIALIZED_ACCOUNT then Program.UninitializedAccount
  else if error =? NOT_ENOUGH_ACCOUNT_KEYS then Program.NotEnoughAccountKeys
  else if error =? ACCOUNT_BORROW_FAILED then Program.AccountBorrowFailed
  else if error =? MAX_SEED_LENGTH_EXCEEDED then Program.MaxSeedLengthExceeded
  else if error =? INVALID_SEEDS then Program.InvalidSeeds
  else if error =? BORSH_IO_ERROR then Program.BorshIoError "Unknown"
  else if error =? ACCOUNT_NOT_RENT_EXEMPT then Program.AccountNotRentExempt
  else if error =? UNSUPPORTED_SYSVAR then Program.UnsupportedSysvar
  else if error =? ILLEGAL_OWNER then Program.IllegalOwner
  else if error =? MAX_ACCOUNTS_DATA_ALLOCATIONS_EXCEEDED then Program.MaxAccountsDataAllocationsExceeded
  else if error =? INVALID_ACCOUNT_DATA_REALLOC then Program.InvalidRealloc
  else if error =? MAX_INSTRUCTION_TRACE_LENGTH_EXCEEDED then Program.MaxInstructionTraceLengthExceeded
  else if error =? BUILTIN_PROGRAMS_MUST_CONSUME_COMPUTE_UNITS then Program.BuiltinProgramsMustConsumeComputeUnits
  else if error =? INVALID_ACCOUNT_OWNER then Program.InvalidAccountOwner
  else if error =? ARITHMETIC_OVERFLOW then Program.ArithmeticOverflow
  else Program.Custom (error mod 2 ^ 32).

(** [impl<T: ToPrimitive> From<T> for InstructionError], from the code that
    [to_u64] returns. *)
Definition instruction_error_of_code (error : Z) : InstructionError :=
  if error =? CUSTOM_ZERO then Custom 0
  else if error =? INVALID_ARGUMENT then InvalidArgument
  else if error =? INVALID_INSTRUCTION_DATA then InvalidInstructionData
  else if error =? INVALID_ACCOUNT_DATA then InvalidAccountData
  else if error =? ACCOUNT_DATA_TOO_SMALL then AccountDataTooSmall
  else if error =? INSUFFICIENT_FUNDS then InsufficientFunds
  else if error =? INCORRECT_PROGRAM_ID then IncorrectProgramId
  else if error =? MISSING_REQUIRED_SIGNATURES then MissingRequiredSignature
  else if error =? ACCOUNT_ALREADY_INITIALIZED then AccountAlreadyInitialized
  else if error =? UNINITIALIZED_ACCOUNT then UninitializedAccount
  else if error =? NOT_ENOUGH_ACCOUNT_KEYS then NotEnoughAccountKeys
  else if error =? ACCOUNT_BORROW_FAILED then AccountBorrowFailed
  else if error =? MAX_SEED_LENGTH_EXCEEDED then MaxSeedLengthExceeded
  else if error =? INVALID_SEEDS then InvalidSeeds
  else if error =? BORSH_IO_ERROR then BorshIoError "Unknown"
  else if error =? ACCOUNT_NOT_RENT_EXEMPT then AccountNotRentExempt
  else if error =? UNSUPPORTED_SYSVAR then UnsupportedSysvar
  else if error =? ILLEGAL_OWNER then IllegalOwner
  else if error =? MAX_ACCOUNTS_DATA_ALLOCATIONS_EXCEEDED then MaxAccountsDataAllocationsExceeded
  else if error =? INVALID_ACCOUNT_DATA_REALLOC then InvalidRealloc
  else if error =? MAX_INSTRUCTION_TRACE_LENGTH_EXCEEDED then MaxInstructionTraceLengthExceeded
  else if error =? BUILTIN_PROGRAMS_MUST_CONSUME_COMPUTE_UNITS then BuiltinProgramsMustConsumeComputeUnits
  else if error =? INVALID_ACCOUNT_OWNER then InvalidAccountOwner
  else if error =? ARITHMETIC_OVERFLOW then ArithmeticOverflow
  else if Z.shiftr error BUILTIN_BIT_SHIFT =? 0 then Custom (error mod 2 ^ 32)
  else InvalidError.

(** [impl TryFrom<InstructionError> for ProgramError] *)
Definition program_error_try_from (error : InstructionError) : outcome InstructionError Program.ProgramError :=
  match error with
  | Custom err => Ok (Program.Custom err)
  | InvalidArgument => Ok Program.InvalidArgument
  | InvalidInstructionData => Ok Program.InvalidInstructionData
  | InvalidAccountData => Ok Program.InvalidAccountData
  | AccountDataTooSmall => Ok Program.AccountDataTooSmall
  | InsufficientFunds => Ok Program.InsufficientFunds
  | IncorrectProgramId => Ok Program.IncorrectProgramId
  | MissingRequiredSignature => Ok Program.MissingRequiredSignature
  | AccountAlreadyInitialized => Ok Program.AccountAlreadyInitialized
  | UninitializedAccount => Ok Program.UninitializedAccount
  | NotEnoughAccountKeys => Ok Program.NotEnoughAccountKeys
  | AccountBorrowFailed => Ok Program.AccountBorrowFailed
  | MaxSeedLengthExceeded => Ok Program.MaxSeedLengthExceeded
  | InvalidSeeds => Ok Program.InvalidSeeds
  | BorshIoError err => Ok (Program.BorshIoError err)
  | AccountNotRentExempt => Ok Program.AccountNotRentExempt
  | UnsupportedSysvar => Ok Program.UnsupportedSysvar
  | IllegalOwner => Ok Program.IllegalOwner
  | MaxAccountsDataAllocationsExceeded => Ok Program.MaxAccountsDataAllocationsExceeded
  | InvalidRealloc => Ok Program.InvalidRealloc
  | MaxInstructionTraceLengthExceeded => Ok Program.MaxInstructionTraceLengthExceeded
  | BuiltinProgramsMustConsumeComputeUnits => Ok Program.BuiltinProgramsMustConsumeComputeUnits
  | InvalidAccountOwner => Ok Program.InvalidAccountOwner
  | ArithmeticOverflow => Ok Program.ArithmeticOverflow
  | _ => Err error
  end.

(** What a round trip through the code keeps: all but the message of an I/O
    error. *)
Definition forget_message (e : Program.ProgramError) : Program.ProgramError :=
  match e with
  | Program.BorshIoError _ => Program.BorshIoError "Unknown"
  | _ => e
  end.

Definition in_program_error (e : Program.ProgramError) : Prop :=
  match e with Program.Custom c => in_u32 c | _ => True end.

(** A program's own code is below the built-in ones. *)
Lemma small_not_builtin c n : 0 <= c < 2 ^ 32 -> 0 < n -> (c =? to_builtin n) = false.
Proof.
  intros Hc Hn. apply Z.eqb_neq. unfold to_builtin, BUILTIN_BIT_SHIFT. rewrite Z.shiftl_mul_pow2 by lia. nia.
Qed.

Ltac skip_builtins Hc :=
  repeat (rewrite (small_not_builtin _ _ Hc) by lia).

Lemma instruction_error_of_small_code c : 0 <= c < 2 ^ 32 -> instruction_error_of_code c = Custom c.
Proof.
  intros Hc. unfold instruction_error_of_code. unfold CUSTOM_ZERO, INVALID_ARGUMENT, INVALID_INSTRUCTION_DATA, INVALID_ACCOUNT_DATA, ACCOUNT_DATA_TOO_SMALL, INSUFFICIENT_FUNDS, INCORRECT_PROGRAM_ID, MISSING_REQUIRED_SIGNATURES, ACCOUNT_ALREADY_INITIALIZED, UNINITIALIZED_ACCOUNT, NOT_ENOUGH_ACCOUNT_KEYS, ACCOUNT_BORROW_FAILED, MAX_SEED_LENGTH_EXCEEDED, INVALID_SEEDS, BORSH_IO_ERROR, ACCOUNT_NOT_RENT_EXEMPT, UNSUPPORTED_SYSVAR, ILLEGAL_OWNER, MAX_ACCOUNTS_DATA_ALLOCATIONS_EXCEEDED, INVALID_ACCOUNT_DATA_REALLOC, MAX_INSTRUCTION_TRACE_LENGTH_EXCEEDED, BUILTIN_PROGRAMS_MUST_CONSUME_COMPUTE_UNITS, INVALID_ACCOUNT_OWNER, ARITHMETIC_OVERFLOW. skip_builtins Hc.
  unfold BUILTIN_BIT_SHIFT. rewrite Z.shiftr_div_pow2, Z.div_small, Z.mod_small by lia. done.
Qed.

Lemma program_error_of_small_code c : 0 <= c < 2 ^ 32 -> program_error_of_code c = Program.Custom c.
Proof.
  intros Hc. unfold program_error_of_code. unfold CUSTOM_ZERO, INVALID_ARGUMENT, INVALID_INSTRUCTION_DATA, INVALID_ACCOUNT_DATA, ACCOUNT_DATA_TOO_SMALL, INSUFFICIENT_FUNDS, INCORRECT_PROGRAM_ID, MISSING_REQUIRED_SIGNATURES, ACCOUNT_ALREADY_INITIALIZED, UNINITIALIZED_ACCOUNT, NOT_ENOUGH_ACCOUNT_KEYS, ACCOUNT_BORROW_FAILED, MAX_SEED_LENGTH_EXCEEDED, INVALID_SEEDS, BORSH_IO_ERROR, ACCOUNT_NOT_RENT_EXEMPT, UNSUPPORTED_SYSVAR, ILLEGAL_OWNER, MAX_ACCOUNTS_DATA_ALLOCATIONS_EXCEEDED, INVALID_ACCOUNT_DATA_REALLOC, MAX_INSTRUCTION_TRACE_LENGTH_EXCEEDED, BUILTIN_PROGRAMS_MUST_CONSUME_COMPUTE_UNITS, INVALID_ACCOUNT_OWNER, ARITHMETIC_OVERFLOW. skip_builtins Hc.
  by rewrite Z.mod_small by lia.
Qed.

(** ** Properties *)

(** the codes identify the errors: decoding the code of a program error
    gives it back, as a program error and, through the runtime's error, as the
    same program error again; only the message of an I/O error is lost, and the
    custom code 0 survives although 0 means success. *)
Theorem program_error_roundtrip e :
  in_program_error e ->
  program_error_of_code (program_error_code e) = forget_message e /\
  program_error_try_from (instruction_error_of_code (program_error_code e)) = Ok (forget_message e) /\
  program_error_code e <> 0.
Proof.
  destruct e as [c| | | | | | | | | | | | | | | | | | | | | | | ]; try (intros _; repeat split; done).
  unfold in_program_error, in_u32, u32_max. intros Hc. cbn [program_error_code forget_message].
  destruct (Z.eqb_spec c 0) as [->|Hne]; [done |].
  rewrite program_error_of_small_code, instruction_error_of_small_code by lia. done.
Qed.

Lemma program_error_roundtrip_witness :
  program_error_of_code (program_error_code (Program.Custom 0)) = Program.Custom 0 /\
  program_error_of_code (program_error_code (Program.Custom 7)) = Program.Custom 7.
Proof.
  split.
  - refine (proj1 (program_error_roundtrip (Program.Custom 0) _)). vm_compute. split; congruence.
  - refine (proj1 (program_error_roundtrip (Program.Custom 7) _)). vm_compute. split; congruence.
Defined.
