(* ===== verification/AuthorizedVoters.v ===== *)
(** * The authorized voters of a vote account

    [sdk/program/src/vote/authorized_voters.rs]: a map from epochs to the
    key that may sign votes from that epoch on. [AuthorizedVoters] is the
    [BTreeMap] of the source as a finite map; the operations that look for
    the latest entry before an epoch go through [btree_range] and
    [btree_last]. *)

From S2P Require Import Prelude.

(** A public key is its 32 bytes read as a number; the code only compares
    keys, and the default key is all zeros. *)
Abbreviation Pubkey := Z.
Abbreviation Epoch := Z.
Abbreviation Slot := Z.
Definition pubkey_default : Pubkey := 0.

Abbreviation AuthorizedVoters := (gmap Z Z).

Definition authorized_voters_new (epoch : Epoch) (pubkey : Pubkey) : AuthorizedVoters :=
  <[epoch := pubkey]> ∅.

(** The voter at [epoch] and whether the map has an entry for that epoch. *)
Definition get_or_calculate_authorized_voter_for_epoch
    (self : AuthorizedVoters) (epoch : Epoch) : option (Pubkey * bool) :=
  match self !! epoch with
  | Some pubkey => Some (pubkey, true)
  | None =>
      match btree_last (btree_range self epoch) with
      | Some (_, pubkey) => Some (pubkey, false)
      | None => None
      end
  end.

Definition av_get_authorized_voter (self : AuthorizedVoters) (epoch : Epoch) : option Pubkey :=
  fst <$> get_or_calculate_authorized_voter_for_epoch self epoch.

Definition get_and_cache_authorized_voter_for_epoch
    (self : AuthorizedVoters) (epoch : Epoch) : AuthorizedVoters * option Pubkey :=
  match get_or_calculate_authorized_voter_for_epoch self epoch with
  | Some (pubkey, existed) =>
      (if existed then self else <[epoch := pubkey]> self, Some pubkey)
  | None => (self, None)
  end.

Definition authorized_voters_insert (self : AuthorizedVoters) (epoch : Epoch)
    (authorized_voter : Pubkey) : AuthorizedVoters :=
  <[epoch := authorized_voter]> self.

(** Removes the entries of the epochs before the current one; the final
    assertion is the [Panic] branch. *)
Definition purge_authorized_voters {E} (self : AuthorizedVoters) (current_epoch : Epoch)
    : outcome E AuthorizedVoters :=
  let expired_keys := (map_to_list (btree_range self current_epoch)).*1 in
  let self := foldl (fun m key => delete key m) self expired_keys in
  _ ←? rust_assert (negb (bool_decide (self = ∅)));
  Ok self.

Definition authorized_voters_is_empty (self : AuthorizedVoters) : bool :=
  bool_decide (self = ∅).

Definition authorized_voters_last (self : AuthorizedVoters) : option (Epoch * Pubkey) :=
  btree_last self.

Definition authorized_voters_contains (self : AuthorizedVoters) (epoch : Epoch) : bool :=
  bool_decide (is_Some (self !! epoch)).

(** ** Lemmas *)

Section lemmas.
Implicit Types (m : AuthorizedVoters).

Lemma foldl_delete_lookup m keys k :
  foldl (fun m key => delete key m) m keys !! k =
  if decide (k ∈ keys) then None else m !! k.
Proof.
  revert m. induction keys as [|a keys IH]; intros m; cbn.
  - by rewrite decide_False by apply not_elem_of_nil.
  - rewrite IH. destruct (decide (k = a)) as [->|Hne].
    + rewrite (decide_True (P := a ∈ a :: keys)) by set_solver.
      case_decide; [done |]. apply lookup_delete_eq.
    + rewrite lookup_delete_ne by done.
      destruct (decide (k ∈ keys)).
      * by rewrite decide_True by set_solver.
      * by rewrite decide_False by set_solver.
Qed.

(** What [purge_authorized_voters] leaves. *)
Lemma purge_lookup {E} m e m' :
  @purge_authorized_voters E m e = Ok m' ->
  forall k, m' !! k = if decide (0 <= k < e) then None else m !! k.
Proof.
  unfold purge_authorized_voters. intros H. outcome_inv. subst m'. intros k.
  rewrite foldl_delete_lookup. destruct (decide (0 <= k < e)) as [Hk|Hk].
  - destruct (m !! k) as [v|] eqn:Hv; [|by destruct (decide _)].
    rewrite decide_True; [done |]. apply list_elem_of_fmap.
    exists (k, v). split; [done |]. by apply elem_of_map_to_list, btree_range_Some.
  - rewrite decide_False; [done |]. intros ([k' v] & -> & Hin)%list_elem_of_fmap.
    by apply elem_of_map_to_list, btree_range_Some in Hin as [_ ?].
Qed.

Lemma purge_Ok {E} m e :
  is_Some (m !! e) -> exists m', @purge_authorized_voters E m e = Ok m'.
Proof.
  intros [v Hv]. unfold purge_authorized_voters, rust_assert.
  rewrite bool_decide_eq_false_2; [by eexists |].
  intros Heq. pose proof (foldl_delete_lookup m ((map_to_list (btree_range m e)).*1) e) as H.
  rewrite Heq, lookup_empty, decide_False in H; [congruence |].
  intros ([k' v'] & -> & Hin)%list_elem_of_fmap.
  apply elem_of_map_to_list, btree_range_Some in Hin as [_ ?]. cbn in *. lia.
Qed.

(** The voter at [e] is that of the latest entry at or before [e]. *)
Definition voter_at m (e : Epoch) (p : Pubkey) : Prop :=
  exists k, m !! k = Some p /\ k <= e /\ forall k', is_Some (m !! k') -> k' <= e -> k' <= k.

Definition epochs_nonneg m : Prop := forall k, is_Some (m !! k) -> 0 <= k.

Lemma get_authorized_voter_spec m e p :
  epochs_nonneg m ->
  av_get_authorized_voter m e = Some p <-> voter_at m e p.
Proof.
  intros Hnn. unfold av_get_authorized_voter, get_or_calculate_authorized_voter_for_epoch.
  destruct (m !! e) as [q|] eqn:He; cbn.
  - split.
    + intros [= <-]. exists e. split; [done |]. split; [lia |]. lia.
    + intros (k & Hk & Hle & Hmax). assert (e <= k) by (apply Hmax; [eauto | lia]).
      assert (k = e) as -> by lia. congruence.
  - destruct (btree_last (btree_range m e)) as [[k q]|] eqn:E; cbn.
    + apply btree_range_last_Some in E as (Hk & Hlt & Hmax). split.
      * intros [= <-]. exists k. split; [done |]. split; [lia |].
        intros k' Hk' Hle. apply Hmax; [done |]. specialize (Hnn _ Hk').
        assert (k' <> e) by (intros ->; destruct Hk'; congruence). lia.
      * intros (k2 & Hk2 & Hle & Hmax2).
        assert (k2 <> e) by (intros ->; congruence).
        assert (k2 = k) as ->; [|congruence]. specialize (Hnn k2 (ex_intro _ _ Hk2)).
        apply Z.le_antisymm; [apply Hmax; [eauto | lia] | apply Hmax2; [eauto | lia]].
    + apply btree_last_None in E. split; [done |]. intros (k & Hk & Hle & _).
      assert (k <> e) by (intros ->; congruence).
      assert (btree_range m e !! k = Some p) as H2.
      { apply btree_range_Some. specialize (Hnn k (ex_intro _ _ Hk)). split; [done | lia]. }
      by rewrite E, lookup_empty in H2.
Qed.

Lemma voter_at_unique m e p q : voter_at m e p -> voter_at m e q -> p = q.
Proof.
  intros (k & Hk & Hle & Hmax) (k' & Hk' & Hle' & Hmax').
  assert (k = k') as <-; [|congruence]. apply Z.le_antisymm; eauto.
Qed.

(** Caching the calculated voter changes no answer at or after its epoch. *)
Lemma get_and_cache_spec m e m' p :
  epochs_nonneg m -> 0 <= e ->
  get_and_cache_authorized_voter_for_epoch m e = (m', Some p) ->
  voter_at m e p /\ m' !! e = Some p /\ epochs_nonneg m' /\
  (forall k, k <> e -> m' !! k = m !! k).
Proof.
  intros Hnn He. unfold get_and_cache_authorized_voter_for_epoch.
  destruct (get_or_calculate_authorized_voter_for_epoch m e) as [[q b]|] eqn:E; [|done].
  intros [= <- <-].
  assert (voter_at m e q) as Hv.
  { apply get_authorized_voter_spec; [done |]. unfold av_get_authorized_voter. by rewrite E. }
  unfold get_or_calculate_authorized_voter_for_epoch in E.
  destruct (m !! e) as [q'|] eqn:Hme.
  - injection E as -> <-. by repeat split.
  - destruct (btree_last _) as [[k q']|]; [|done]. injection E as -> <-.
    split; [done |]. split; [by rewrite lookup_insert_eq |]. split.
    + intros k'. rewrite lookup_insert. case_decide; [lia | by apply Hnn].
    + intros k' Hk'. by rewrite lookup_insert_ne by congruence.
Qed.
End lemmas.

