(* ===== verification/VoteState.v ===== *)
(** * The state of a vote account

    [sdk/program/src/vote/state/mod.rs]: lockouts, the tower of votes of one
    validator, its credits, its authorized voters. Module by module the
    definitions follow the [impl] blocks of the source; a method that takes
    [&mut self] returns the new state. The second half of the file is the
    well-formedness invariant of a tower and what each operation does to it. *)

From S2P Require Import Prelude InstructionError ProgramError AuthorizedVoters.

Abbreviation UnixTimestamp := Z.
Abbreviation Hash := Z.
Definition hash_default : Hash := 0.

Definition MAX_LOCKOUT_HISTORY : nat := 31.
Definition INITIAL_LOCKOUT : Z := 2.
Definition MAX_EPOCH_CREDITS_HISTORY : nat := 64.
Definition VOTE_CREDITS_GRACE_SLOTS : Z := 2.
Definition VOTE_CREDITS_MAXIMUM_PER_SLOT : Z := 16.
Definition VOTE_CREDITS_MAXIMUM_PER_SLOT_OLD : Z := 8.
Definition MAX_ITEMS : nat := 32.

(** ** Errors *)

Inductive VoteError : Type :=
| VoteTooOld
| SlotsMismatch
| SlotHashMismatch
| EmptySlots
| TimestampTooOld
| TooSoonToReauthorize
| LockoutConflict
| NewVoteStateLockoutMismatch
| SlotsNotOrdered
| ConfirmationsNotOrdered
| ZeroConfirmations
| ConfirmationTooLarge
| RootRollBack
| ConfirmationRollBack
| SlotSmallerThanRoot
| TooManyVotes
| VotesTooOldAllFiltered
| RootOnDifferentFork
| ActiveVoteAccountClose
| CommissionUpdateTooLate.

#[global] Instance VoteError_eq_dec : EqDecision VoteError.
Proof. solve_decision. Defined.

(** The discriminant that an [InstructionError::Custom] carries. *)
Definition vote_error_code (e : VoteError) : Z :=
  match e with
  | VoteTooOld => 0
  | SlotsMismatch => 1
  | SlotHashMismatch => 2
  | EmptySlots => 3
  | TimestampTooOld => 4
  | TooSoonToReauthorize => 5
  | LockoutConflict => 6
  | NewVoteStateLockoutMismatch => 7
  | SlotsNotOrdered => 8
  | ConfirmationsNotOrdered => 9
  | ZeroConfirmations => 10
  | ConfirmationTooLarge => 11
  | RootRollBack => 12
  | ConfirmationRollBack => 13
  | SlotSmallerThanRoot => 14
  | TooManyVotes => 15
  | VotesTooOldAllFiltered => 16
  | RootOnDifferentFork => 17
  | ActiveVoteAccountClose => 18
  | CommissionUpdateTooLate => 19
  end.
Definition instruction_error_from (e : VoteError) : InstructionError :=
  instruction_error_of_code (vote_error_code e).

#[global] Instance vote_error_code_inj : Inj (=) (=) vote_error_code.
Proof. intros [] []; cbn; congruence. Qed.

(** ** Votes and lockouts *)

Record Vote := mkVote {
  vote_slots : list Slot;
  vote_hash : Hash;
  vote_timestamp : option UnixTimestamp;
}.

Definition vote_new (slots : list Slot) (hash : Hash) : Vote := mkVote slots hash None.
Definition vote_last_voted_slot (self : Vote) : option Slot := last (vote_slots self).

Record Lockout := mkLockout { lo_slot : Slot; lo_confirmation_count : Z }.
#[global] Instance Lockout_eq_dec : EqDecision Lockout.
Proof. solve_decision. Defined.

Definition new_with_confirmation_count (slot : Slot) (confirmation_count : Z) : Lockout :=
  mkLockout slot confirmation_count.
Definition lockout_new (slot : Slot) : Lockout := new_with_confirmation_count slot 1.

(** [(INITIAL_LOCKOUT as u64).pow(self.confirmation_count())], wrapping. *)
Definition lockout_of (self : Lockout) : Z :=
  wrap64 (INITIAL_LOCKOUT ^ lo_confirmation_count self).

Definition last_locked_out_slot (self : Lockout) : Slot :=
  sat_add u64_max (lo_slot self) (lockout_of self).

Definition is_locked_out_at_slot (self : Lockout) (slot : Slot) : bool :=
  slot <=? last_locked_out_slot self.

Definition increase_confirmation_count (self : Lockout) (by_ : Z) : Lockout :=
  mkLockout (lo_slot self) (sat_add u32_max (lo_confirmation_count self) by_).

Record LandedVote := mkLandedVote { latency : Z; lockout : Lockout }.
#[global] Instance LandedVote_eq_dec : EqDecision LandedVote.
Proof. solve_decision. Defined.

Definition slot (self : LandedVote) : Slot := lo_slot (lockout self).
Definition confirmation_count (self : LandedVote) : Z := lo_confirmation_count (lockout self).
Definition lockout_from_landed (landed_vote : LandedVote) : Lockout := lockout landed_vote.
Definition landed_from_lockout (l : Lockout) : LandedVote := mkLandedVote 0 l.

Record VoteStateUpdate := mkVoteStateUpdate {
  vsu_lockouts : list Lockout;
  vsu_root : option Slot;
  vsu_hash : Hash;
  vsu_timestamp : option UnixTimestamp;
}.

Definition vsu_slots (self : VoteStateUpdate) : list Slot := lo_slot <$> vsu_lockouts self.
Definition vsu_last_voted_slot (self : VoteStateUpdate) : option Slot :=
  lo_slot <$> last (vsu_lockouts self).

(** ** Circular buffer of prior voters *)

Record CircBuf (I : Type) := mkCircBuf { buf : list I; idx : nat; is_empty : bool }.
#[global] Instance CircBuf_eq_dec {A} `{EqDecision A} : EqDecision (CircBuf A).
Proof. solve_decision. Defined.
Arguments mkCircBuf {I} _ _ _.
Arguments buf {I} _.
Arguments idx {I} _.
Arguments is_empty {I} _.

Definition circ_default {I} (d : I) : CircBuf I :=
  mkCircBuf (replicate MAX_ITEMS d) (MAX_ITEMS - 1) true.

(** [idx] is below [MAX_ITEMS], so the addition cannot overflow and the index
    is in range. *)
Definition circ_append {I} (self : CircBuf I) (item : I) : CircBuf I :=
  let i := ((idx self + 1) mod MAX_ITEMS)%nat in
  mkCircBuf (<[i := item]> (buf self)) i false.

Definition circ_last {I} (self : CircBuf I) : option I :=
  if negb (is_empty self) then buf self !! idx self else None.

(** ** The vote state *)

Record BlockTimestamp := mkBlockTimestamp { bt_slot : Slot; bt_timestamp : UnixTimestamp }.
#[global] Instance BlockTimestamp_eq_dec : EqDecision BlockTimestamp.
Proof. solve_decision. Defined.

Record VoteState := mkVoteState {
  node_pubkey : Pubkey;
  authorized_withdrawer : Pubkey;
  commission : Z;
  votes : list LandedVote;
  root_slot : option Slot;
  authorized_voters : AuthorizedVoters;
  prior_voters : CircBuf (Pubkey * Epoch * Epoch);
  epoch_credits : list (Epoch * Z * Z);
  last_timestamp : BlockTimestamp;
}.
#[global] Instance VoteState_eq_dec : EqDecision VoteState.
Proof. solve_decision. Defined.

Definition set_votes (s : VoteState) (v : list LandedVote) : VoteState :=
  mkVoteState (node_pubkey s) (authorized_withdrawer s) (commission s) v (root_slot s)
    (authorized_voters s) (prior_voters s) (epoch_credits s) (last_timestamp s).
Definition set_root_slot (s : VoteState) (r : option Slot) : VoteState :=
  mkVoteState (node_pubkey s) (authorized_withdrawer s) (commission s) (votes s) r
    (authorized_voters s) (prior_voters s) (epoch_credits s) (last_timestamp s).
Definition set_authorized_voters (s : VoteState) (a : AuthorizedVoters) : VoteState :=
  mkVoteState (node_pubkey s) (authorized_withdrawer s) (commission s) (votes s) (root_slot s)
    a (prior_voters s) (epoch_credits s) (last_timestamp s).
Definition set_prior_voters (s : VoteState) (p : CircBuf (Pubkey * Epoch * Epoch)) : VoteState :=
  mkVoteState (node_pubkey s) (authorized_withdrawer s) (commission s) (votes s) (root_slot s)
    (authorized_voters s) p (epoch_credits s) (last_timestamp s).
Definition set_epoch_credits (s : VoteState) (c : list (Epoch * Z * Z)) : VoteState :=
  mkVoteState (node_pubkey s) (authorized_withdrawer s) (commission s) (votes s) (root_slot s)
    (authorized_voters s) (prior_voters s) c (last_timestamp s).
Definition set_last_timestamp (s : VoteState) (t : BlockTimestamp) : VoteState :=
  mkVoteState (node_pubkey s) (authorized_withdrawer s) (commission s) (votes s) (root_slot s)
    (authorized_voters s) (prior_voters s) (epoch_credits s) t.
Definition set_node_pubkey (s : VoteState) (p : Pubkey) : VoteState :=
  mkVoteState p (authorized_withdrawer s) (commission s) (votes s) (root_slot s)
    (authorized_voters s) (prior_voters s) (epoch_credits s) (last_timestamp s).
Definition set_authorized_withdrawer (s : VoteState) (p : Pubkey) : VoteState :=
  mkVoteState (node_pubkey s) p (commission s) (votes s) (root_slot s)
    (authorized_voters s) (prior_voters s) (epoch_credits s) (last_timestamp s).
Definition set_commission (s : VoteState) (c : Z) : VoteState :=
  mkVoteState (node_pubkey s) (authorized_withdrawer s) c (votes s) (root_slot s)
    (authorized_voters s) (prior_voters s) (epoch_credits s) (last_timestamp s).

Record VoteInit := mkVoteInit {
  vi_node_pubkey : Pubkey;
  vi_authorized_voter : Pubkey;
  vi_authorized_withdrawer : Pubkey;
  vi_commission : Z;
}.

Inductive VoteAuthorize : Type := Voter | Withdrawer.

Record Clock := mkClock {
  clock_slot : Slot;
  clock_epoch_start_timestamp : UnixTimestamp;
  clock_epoch : Epoch;
  clock_leader_schedule_epoch : Epoch;
  clock_unix_timestamp : UnixTimestamp;
}.

Definition prior_voter_default : Pubkey * Epoch * Epoch := (pubkey_default, 0, 0).

Definition vote_state_default : VoteState :=
  mkVoteState pubkey_default pubkey_default 0 [] None ∅ (circ_default prior_voter_default) []
    (mkBlockTimestamp 0 0).

Definition vote_state_new (vote_init : VoteInit) (clock : Clock) : VoteState :=
  mkVoteState (vi_node_pubkey vote_init) (vi_authorized_withdrawer vote_init)
    (vi_commission vote_init) [] None
    (authorized_voters_new (clock_epoch clock) (vi_authorized_voter vote_init))
    (circ_default prior_voter_default) [] (mkBlockTimestamp 0 0).

Definition get_authorized_voter (self : VoteState) (epoch : Epoch) : option Pubkey :=
  av_get_authorized_voter (authorized_voters self) epoch.

(** Upper limits on the serialized sizes. *)
Definition vote_state_size_of_current : Z := 3762.

(** [(voter_portion, staker_portion, was_split)]; the products are those of
    a [u64] and a number below 100, in [u128]. *)
Definition commission_split (self : VoteState) (on : Z) : Z * Z * bool :=
  let split := Z.min (commission self) 100 in
  if split =? 0 then (0, on, false)
  else if split =? 100 then (on, 0, false)
  else
    let mine := on * split / 100 in
    let theirs := on * (100 - split) / 100 in
    (wrap64 mine, wrap64 theirs, true).

(** The tower is stored contiguously, so the search of a [VecDeque] is that of
    a slice. *)
Definition contains_slot (self : VoteState) (candidate_slot : Slot) : bool :=
  match binary_search_by (fun vote => slot vote ?= candidate_slot) (votes self) with
  | inl _ => true
  | inr _ => false
  end.

Definition last_lockout (self : VoteState) : option Lockout := lockout <$> last (votes self).
Definition last_voted_slot (self : VoteState) : option Slot := lo_slot <$> last_lockout self.
Definition tower (self : VoteState) : list Slot := slot <$> votes self.

Definition nth_recent_lockout (self : VoteState) (position : nat) : option Lockout :=
  if (position <? length (votes self))%nat
  then lockout <$> votes self !! (length (votes self) - position - 1)%nat
  else None.

Definition current_epoch (self : VoteState) : Epoch :=
  match last (epoch_credits self) with Some (epoch, _, _) => epoch | None => 0 end.
Definition credits (self : VoteState) : Z :=
  match last (epoch_credits self) with Some (_, c, _) => c | None => 0 end.

Definition compute_vote_latency (voted_for_slot current_slot : Slot) : Z :=
  Z.min (sat_sub current_slot voted_for_slot) u8_max.

(** The credits of a vote of the given latency. *)
Definition credits_for_latency (latency : Z)
    (timely_vote_credits deprecate_unused_legacy_vote_plumbing : bool) : Z :=
  let max_credits :=
    if deprecate_unused_legacy_vote_plumbing
    then VOTE_CREDITS_MAXIMUM_PER_SLOT else VOTE_CREDITS_MAXIMUM_PER_SLOT_OLD in
  if (latency =? 0) || (deprecate_unused_legacy_vote_plumbing && negb timely_vote_credits)
  then 1
  else
    match checked_sub latency VOTE_CREDITS_GRACE_SLOTS with
    | None | Some 0 => max_credits
    | Some diff =>
        match checked_sub max_credits diff with
        | None | Some 0 => 1
        | Some credits => credits
        end
    end.

Definition credits_for_vote_at_index (self : VoteState) (index : nat)
    (timely_vote_credits deprecate_unused_legacy_vote_plumbing : bool) : Z :=
  let latency := match votes self !! index with Some v => latency v | None => 0 end in
  credits_for_latency latency timely_vote_credits deprecate_unused_legacy_vote_plumbing.

Definition increment_credits (self : VoteState) (epoch : Epoch) (credits : Z) : VoteState :=
  let ec :=
    match last (epoch_credits self) with
    | None => [(epoch, 0, 0)]
    | Some (last_epoch, last_credits, prev_credits) =>
        if negb (epoch =? last_epoch) then
          let ec :=
            if negb (last_credits =? prev_credits)
            then epoch_credits self ++ [(epoch, last_credits, last_credits)]
            else update_last (fun '(_, c, p) => (epoch, c, p)) (epoch_credits self) in
          if (MAX_EPOCH_CREDITS_HISTORY <? length ec)%nat then tail ec else ec
        else epoch_credits self
    end in
  set_epoch_credits self
    (update_last (fun '(e, c, p) => (e, sat_add u64_max c credits, p)) ec).

Definition pop_expired_votes (self : VoteState) (next_vote_slot : Slot) : VoteState :=
  set_votes self
    (pop_back_while (fun vote => negb (is_locked_out_at_slot (lockout vote) next_vote_slot))
       (votes self)).

(** [i + confirmation_count] is below [2^64]: the count is a [u32]. *)
Definition double_lockouts (self : VoteState) : VoteState :=
  let stack_depth := length (votes self) in
  set_votes self
    (imap (fun i v =>
       if Z.of_nat i + confirmation_count v <? Z.of_nat stack_depth
       then mkLandedVote (latency v) (increase_confirmation_count (lockout v) 1)
       else v) (votes self)).

Definition process_next_vote_slot (self : VoteState) (next_vote_slot : Slot) (epoch : Epoch)
    (current_slot : Slot) (timely_vote_credits deprecate_unused_legacy_vote_plumbing : bool)
    : VoteState :=
  if match last_voted_slot self with
     | Some last_voted_slot => next_vote_slot <=? last_voted_slot
     | None => false
     end
  then self
  else
    let self := pop_expired_votes self next_vote_slot in
    let landed_vote :=
      mkLandedVote
        (if timely_vote_credits || negb deprecate_unused_legacy_vote_plumbing
         then compute_vote_latency next_vote_slot current_slot else 0)
        (lockout_new next_vote_slot) in
    let self :=
      if (length (votes self) =? MAX_LOCKOUT_HISTORY)%nat then
        let credits := credits_for_vote_at_index self 0
                         timely_vote_credits deprecate_unused_legacy_vote_plumbing in
        match votes self with
        | [] => self
        | landed_vote :: rest =>
            increment_credits
              (set_root_slot (set_votes self rest) (Some (slot landed_vote))) epoch credits
        end
      else self in
    double_lockouts (set_votes self (votes self ++ [landed_vote])).

Definition get_and_update_authorized_voter (self : VoteState) (current_epoch : Epoch)
    : VoteState * outcome InstructionError Pubkey :=
  let '(av, res) := get_and_cache_authorized_voter_for_epoch (authorized_voters self) current_epoch in
  let self := set_authorized_voters self av in
  match res with
  | None => (self, Err InvalidAccountData)
  | Some pubkey =>
      match purge_authorized_voters av current_epoch with
      | Ok av' => (set_authorized_voters self av', Ok pubkey)
      | Err e => (self, Err e)
      | Panic => (self, Panic)
      end
  end.

Definition set_new_authorized_voter (self : VoteState) (authorized_pubkey : Pubkey)
    (current_epoch target_epoch : Epoch) (verify : Pubkey -> outcome InstructionError unit)
    : VoteState * outcome InstructionError unit :=
  let '(self, res) := get_and_update_authorized_voter self current_epoch in
  match (epoch_authorized_voter ←? res; verify epoch_authorized_voter) with
  | Err e => (self, Err e)
  | Panic => (self, Panic)
  | Ok _ =>
      if authorized_voters_contains (authorized_voters self) target_epoch
      then (self, Err (instruction_error_from TooSoonToReauthorize))
      else
        match authorized_voters_last (authorized_voters self) with
        | None => (self, Err InvalidAccountData)
        | Some (latest_epoch, latest_authorized_pubkey) =>
            if negb (latest_authorized_pubkey =? authorized_pubkey) then
              let epoch_of_last_authorized_switch :=
                match circ_last (prior_voters self) with Some (_, _, e) => e | None => 0 end in
              if latest_epoch <? target_epoch then
                let self := set_prior_voters self
                  (circ_append (prior_voters self)
                     (latest_authorized_pubkey, epoch_of_last_authorized_switch, target_epoch)) in
                (set_authorized_voters self
                   (authorized_voters_insert (authorized_voters self) target_epoch authorized_pubkey),
                 Ok tt)
              else (self, Panic)
            else
              (set_authorized_voters self
                 (authorized_voters_insert (authorized_voters self) target_epoch authorized_pubkey),
               Ok tt)
        end
  end.

Definition process_timestamp (self : VoteState) (slot : Slot) (timestamp : UnixTimestamp)
    : VoteState * outcome VoteError unit :=
  let last := last_timestamp self in
  if ((slot <? bt_slot last) || (timestamp <? bt_timestamp last))
     || ((slot =? bt_slot last)
         && negb (bool_decide (mkBlockTimestamp slot timestamp = last))
         && negb (bt_slot last =? 0))
  then (self, Err TimestampTooOld)
  else (set_last_timestamp self (mkBlockTimestamp slot timestamp), Ok tt).
