(* ===== verification/EpochSchedule.v ===== *)
(** * Epochs and slots

    [sdk/program/src/epoch_schedule.rs]: epochs that double during a warmup
    and are [slots_per_epoch] long after it, with the two directions of the
    correspondence between slots and epochs proved inverse. *)

From S2P Require Import Prelude AuthorizedVoters.

Definition DEFAULT_SLOTS_PER_EPOCH : Z := 432000.
Definition DEFAULT_LEADER_SCHEDULE_SLOT_OFFSET : Z := DEFAULT_SLOTS_PER_EPOCH.
Definition MINIMUM_SLOTS_PER_EPOCH : Z := 32.

(** [u64::next_power_of_two], which wraps around above [2 ^ 63], and
    [u64::trailing_zeros]. *)
Definition next_power_of_two (x : Z) : Z := wrap64 (2 ^ Z.log2_up x).
Definition trailing_zeros (x : Z) : Z := if x =? 0 then 64 else Z.log2 (Z.land x (- x)).

Record EpochSchedule := mkEpochSchedule {
  slots_per_epoch : Z;
  leader_schedule_slot_offset : Z;
  warmup : bool;
  first_normal_epoch : Epoch;
  first_normal_slot : Slot;
}.

Definition custom {E} (slots_per_epoch leader_schedule_slot_offset : Z) (warmup : bool)
    : outcome E EpochSchedule :=
  _ ←? rust_assert (MINIMUM_SLOTS_PER_EPOCH <=? slots_per_epoch);
  let '(first_normal_epoch, first_normal_slot) :=
    if warmup then
      let next_power_of_two := next_power_of_two slots_per_epoch in
      let log2_slots_per_epoch :=
        sat_sub (trailing_zeros next_power_of_two) (trailing_zeros MINIMUM_SLOTS_PER_EPOCH) in
      (log2_slots_per_epoch, sat_sub next_power_of_two MINIMUM_SLOTS_PER_EPOCH)
    else (0, 0) in
  Ok (mkEpochSchedule slots_per_epoch leader_schedule_slot_offset warmup
        first_normal_epoch first_normal_slot).

Definition epoch_schedule_default {E} : outcome E EpochSchedule :=
  custom DEFAULT_SLOTS_PER_EPOCH DEFAULT_LEADER_SCHEDULE_SLOT_OFFSET true.
Definition epoch_schedule_new {E} (slots_per_epoch : Z) : outcome E EpochSchedule :=
  custom slots_per_epoch slots_per_epoch true.
Definition without_warmup {E} : outcome E EpochSchedule :=
  custom DEFAULT_SLOTS_PER_EPOCH DEFAULT_LEADER_SCHEDULE_SLOT_OFFSET false.

Definition get_slots_in_epoch (self : EpochSchedule) (epoch : Epoch) : Z :=
  if epoch <? first_normal_epoch self
  then sat_pow2 (sat_add u32_max (epoch mod 2 ^ 32) (trailing_zeros MINIMUM_SLOTS_PER_EPOCH))
  else slots_per_epoch self.

Definition get_epoch_and_slot_index (self : EpochSchedule) (slot : Slot) : Epoch * Z :=
  if slot <? first_normal_slot self then
    let epoch :=
      sat_sub (sat_sub (trailing_zeros (next_power_of_two
        (sat_add u64_max (sat_add u64_max slot MINIMUM_SLOTS_PER_EPOCH) 1)))
        (trailing_zeros MINIMUM_SLOTS_PER_EPOCH)) 1 in
    let epoch_len := sat_pow2 (sat_add u32_max epoch (trailing_zeros MINIMUM_SLOTS_PER_EPOCH)) in
    (epoch, sat_sub slot (sat_sub epoch_len MINIMUM_SLOTS_PER_EPOCH))
  else
    let normal_slot_index := sat_sub slot (first_normal_slot self) in
    let normal_epoch_index := default 0 (checked_div normal_slot_index (slots_per_epoch self)) in
    let epoch := sat_add u64_max (first_normal_epoch self) normal_epoch_index in
    let slot_index := default 0 (checked_rem normal_slot_index (slots_per_epoch self)) in
    (epoch, slot_index).

Definition get_epoch (self : EpochSchedule) (slot : Slot) : Epoch :=
  (get_epoch_and_slot_index self slot).1.

Definition get_leader_schedule_epoch (self : EpochSchedule) (slot : Slot) : Epoch :=
  if slot <? first_normal_slot self
  then sat_add u64_max (get_epoch_and_slot_index self slot).1 1
  else
    let new_slots_since_first_normal_slot := sat_sub slot (first_normal_slot self) in
    let new_first_normal_leader_schedule_slot :=
      sat_add u64_max new_slots_since_first_normal_slot (leader_schedule_slot_offset self) in
    let new_epochs_since_first_normal_leader_schedule :=
      default 0 (checked_div new_first_normal_leader_schedule_slot (slots_per_epoch self)) in
    sat_add u64_max (first_normal_epoch self) new_epochs_since_first_normal_leader_schedule.

Definition get_first_slot_in_epoch (self : EpochSchedule) (epoch : Epoch) : Slot :=
  if epoch <=? first_normal_epoch self
  then sat_mul u64_max (sat_sub (sat_pow2 (epoch mod 2 ^ 32)) 1) MINIMUM_SLOTS_PER_EPOCH
  else sat_add u64_max
         (sat_mul u64_max (sat_sub epoch (first_normal_epoch self)) (slots_per_epoch self))
         (first_normal_slot self).

Definition get_last_slot_in_epoch (self : EpochSchedule) (epoch : Epoch) : Slot :=
  sat_sub (sat_add u64_max (get_first_slot_in_epoch self epoch) (get_slots_in_epoch self epoch)) 1.

(** ** Powers of two *)

Lemma trailing_zeros_pow2 k : 0 <= k -> trailing_zeros (2 ^ k) = k.
Proof.
  intros Hk. unfold trailing_zeros. assert (0 < 2 ^ k) by (apply Z.pow_pos_nonneg; lia).
  destruct (Z.eqb_spec (2 ^ k) 0); [lia |].
  replace (- 2 ^ k) with (Z.lnot (Z.ones k)) by (rewrite Z.ones_equiv; unfold Z.lnot; lia).
  rewrite <- Z.ldiff_land, Z.ldiff_ones_r by done.
  rewrite Z.shiftr_div_pow2, Z.div_same, Z.shiftl_1_l by lia. by apply Z.log2_pow2.
Qed.

Lemma next_power_of_two_eq x : x <= 2 ^ 63 -> next_power_of_two x = 2 ^ Z.log2_up x.
Proof.
  intros Hx. unfold next_power_of_two, wrap64. apply Z.mod_small.
  split; [apply Z.pow_nonneg; lia |]. apply Z.pow_lt_mono_r; try lia.
  assert (Z.log2_up x <= Z.log2_up (2 ^ 63)) as H by (by apply Z.log2_up_le_mono).
  rewrite Z.log2_up_pow2 in H by lia. lia.
Qed.

(** ** Schedules that [custom] builds *)

Record schedule_ok (s : EpochSchedule) : Prop := {
  so_len : 32 <= slots_per_epoch s <= 2 ^ 63;
  so_epoch : 0 <= first_normal_epoch s <= 58;
  so_slot : first_normal_slot s = 2 ^ (first_normal_epoch s + 5) - 32;
}.

Lemma custom_ok {E} spe off w :
  32 <= spe <= 2 ^ 63 ->
  exists s, @custom E spe off w = Ok s /\ schedule_ok s /\
    slots_per_epoch s = spe /\ leader_schedule_slot_offset s = off /\ warmup s = w.
Proof.
  intros Hs. unfold custom, MINIMUM_SLOTS_PER_EPOCH. rewrite (proj2 (Z.leb_le 32 spe)) by lia.
  cbn [rust_assert obind]. destruct w; eexists; (split; [reflexivity |]); (split; [|done]).
  - assert (5 <= Z.log2_up spe <= 63) as Hlog.
    { split; [apply (Z.log2_up_le_mono 32); lia |].
      replace 63 with (Z.log2_up (2 ^ 63)) by done. apply Z.log2_up_le_mono. lia. }
    split; cbn [slots_per_epoch first_normal_epoch first_normal_slot]; rewrite ?next_power_of_two_eq by lia;
      rewrite ?trailing_zeros_pow2 by lia; change (trailing_zeros 32) with 5; unfold sat_sub; try lia.
    assert (2 ^ 5 <= 2 ^ Z.log2_up spe) by (apply Z.pow_le_mono_r; lia).
    rewrite !Z.max_l by lia. f_equal. f_equal. lia.
  - split; cbn; lia.
Qed.

(** The first slot of an epoch, without the saturation. *)
Definition epoch_start (s : EpochSchedule) (e : Epoch) : Z :=
  if e <=? first_normal_epoch s then 2 ^ (e + 5) - 32
  else first_normal_slot s + (e - first_normal_epoch s) * slots_per_epoch s.

Section schedule.
Context (s : EpochSchedule) (Hs : schedule_ok s).

Lemma pow_split e : 0 <= e -> 2 ^ (e + 5) = 32 * 2 ^ e.
Proof. intros He. rewrite Z.pow_add_r by lia. lia. Qed.

Lemma slots_in_epoch_eq e :
  0 <= e -> get_slots_in_epoch s e = if e <? first_normal_epoch s then 2 ^ (e + 5) else slots_per_epoch s.
Proof.
  intros He. unfold get_slots_in_epoch, sat_pow2, sat_add, u32_max, u64_max.
  destruct (Z.ltb_spec e (first_normal_epoch s)); [|done]. destruct Hs as [_ Hn _].
  change (trailing_zeros MINIMUM_SLOTS_PER_EPOCH) with 5.
  rewrite Z.mod_small by lia. rewrite (Z.min_l (e + 5)) by lia. apply Z.min_l.
  assert (2 ^ (e + 5) < 2 ^ 64) by (apply Z.pow_lt_mono_r; lia). lia.
Qed.

Lemma slots_in_epoch_pos e : 0 <= e -> 0 < get_slots_in_epoch s e.
Proof.
  intros He. rewrite slots_in_epoch_eq by done. pose proof Hs as [? _ _].
  destruct (e <? _); [apply Z.pow_pos_nonneg |]; lia.
Qed.

Lemma epoch_start_succ e : 0 <= e -> epoch_start s (e + 1) = epoch_start s e + get_slots_in_epoch s e.
Proof.
  intros He. rewrite slots_in_epoch_eq by done. unfold epoch_start. pose proof Hs as [_ _ Hf].
  destruct (Z.leb_spec (e + 1) (first_normal_epoch s)), (Z.leb_spec e (first_normal_epoch s)),
    (Z.ltb_spec e (first_normal_epoch s)); try lia.
  - rewrite !pow_split by lia. rewrite Z.pow_add_r by lia. lia.
  - assert (e = first_normal_epoch s) as -> by lia. lia.
Qed.

Lemma epoch_start_mono e e' : 0 <= e -> e <= e' -> epoch_start s e <= epoch_start s e'.
Proof.
  intros He Hle. replace e' with (e + Z.of_nat (Z.to_nat (e' - e))) by lia.
  induction (Z.to_nat (e' - e)) as [|k IH]; [by rewrite Z.add_0_r |].
  replace (e + Z.of_nat (S k)) with (e + Z.of_nat k + 1) by lia.
  rewrite epoch_start_succ by lia. pose proof (slots_in_epoch_pos (e + Z.of_nat k) ltac:(lia)). lia.
Qed.

Lemma first_slot_eq e : 0 <= e -> get_first_slot_in_epoch s e = Z.min (epoch_start s e) u64_max.
Proof.
  intros He. unfold get_first_slot_in_epoch, epoch_start. pose proof Hs as [Hl Hn Hf].
  destruct (Z.leb_spec e (first_normal_epoch s)).
  - unfold sat_mul, sat_sub, sat_pow2, MINIMUM_SLOTS_PER_EPOCH. rewrite Z.mod_small by lia.
    assert (2 ^ e < 2 ^ 59) by (apply Z.pow_lt_mono_r; lia).
    assert (0 < 2 ^ e) by (apply Z.pow_pos_nonneg; lia).
    rewrite (Z.min_l (2 ^ e)) by (unfold u64_max; lia). rewrite pow_split by lia. f_equal. lia.
  - unfold sat_add, sat_mul, sat_sub. assert (0 <= first_normal_slot s).
    { rewrite Hf. pose proof (Z.pow_le_mono_r 2 5 (first_normal_epoch s + 5)). lia. }
    rewrite (Z.max_l (e - _)) by lia. lia.
Qed.

(** In the warmup the epoch is read off the position of the highest bit. *)
Lemma warmup_epoch_and_index slot :
  0 <= slot < first_normal_slot s ->
  let '(e, i) := get_epoch_and_slot_index s slot in
  0 <= e /\ 0 <= i < get_slots_in_epoch s e /\ slot = epoch_start s e + i.
Proof.
  intros [Hs0 Hlt]. unfold get_epoch_and_slot_index. pose proof Hs as [Hl Hn Hf].
  change (trailing_zeros MINIMUM_SLOTS_PER_EPOCH) with 5. unfold MINIMUM_SLOTS_PER_EPOCH.
  rewrite (proj2 (Z.ltb_lt _ _)) by lia.
  assert (2 ^ (first_normal_epoch s + 5) <= 2 ^ 63) by (apply Z.pow_le_mono_r; lia).
  assert (sat_add u64_max (sat_add u64_max slot 32) 1 = slot + 32 + 1) as ->.
  { unfold sat_add, u64_max. lia. }
  rewrite next_power_of_two_eq by lia. set (m := Z.log2_up (slot + 32 + 1)).
  assert (6 <= m) by (apply (Z.log2_up_le_mono 33); lia).
  pose proof (Z.log2_up_spec (slot + 32 + 1) ltac:(lia)) as Hm. fold m in Hm.
  assert (m - 6 < first_normal_epoch s).
  { assert (Z.pred m < first_normal_epoch s + 5); [|lia]. apply (Z.pow_lt_mono_r_iff 2); lia. }
  rewrite trailing_zeros_pow2 by lia.
  assert (sat_sub (sat_sub m 5) 1 = m - 5 - 1) as -> by (unfold sat_sub; lia). split; [lia |].
  assert (sat_pow2 (sat_add u32_max (m - 5 - 1) 5) = 2 ^ (m - 1)) as ->.
  { unfold sat_add, sat_pow2, u32_max, u64_max. rewrite (Z.min_l (m - 5 - 1 + 5)) by lia.
    replace (m - 5 - 1 + 5) with (m - 1) by lia. apply Z.min_l.
    assert (2 ^ (m - 1) < 2 ^ 64) by (apply Z.pow_lt_mono_r; lia). lia. }
  rewrite slots_in_epoch_eq by lia. unfold epoch_start, sat_sub.
  rewrite (proj2 (Z.ltb_lt _ _)), (proj2 (Z.leb_le _ _)) by lia.
  replace (m - 5 - 1 + 5) with (m - 1) by lia.
  replace (Z.pred m) with (m - 1) in Hm by lia.
  assert (2 ^ m = 2 * 2 ^ (m - 1)) by (rewrite <- Z.pow_succ_r by lia; f_equal; lia).
  assert (2 ^ 5 <= 2 ^ (m - 1)) by (apply Z.pow_le_mono_r; lia). lia.
Qed.

(** After it, by division. *)
Lemma normal_epoch_and_index slot :
  in_u64 slot -> first_normal_slot s <= slot ->
  let '(e, i) := get_epoch_and_slot_index s slot in
  0 <= e /\ 0 <= i < get_slots_in_epoch s e /\ slot = epoch_start s e + i.
Proof.
  intros [Hs0 Hs1] Hge. unfold get_epoch_and_slot_index. pose proof Hs as [Hl Hn Hf].
  rewrite (proj2 (Z.ltb_ge _ _)) by lia.
  unfold checked_div, checked_rem, sat_sub, sat_add.
  destruct (Z.eqb_spec (slots_per_epoch s) 0); [lia |]. cbn [from_option id].
  rewrite (Z.max_l (slot - _)) by lia. set (x := slot - first_normal_slot s).
  pose proof (Z.div_mod x (slots_per_epoch s) ltac:(lia)) as Hd.
  pose proof (Z.mod_pos_bound x (slots_per_epoch s) ltac:(lia)).
  assert (0 <= first_normal_slot s).
  { rewrite Hf. pose proof (Z.pow_le_mono_r 2 5 (first_normal_epoch s + 5)). lia. }
  assert (0 <= x / slots_per_epoch s) by (apply Z.div_pos; lia).
  assert (x / slots_per_epoch s <= x / 32) by (apply Z.div_le_compat_l; lia).
  assert (x / 32 < 2 ^ 59) by (apply Z.div_lt_upper_bound; unfold u64_max in *; lia).
  rewrite Z.min_l by (unfold u64_max; lia). split; [lia |].
  rewrite slots_in_epoch_eq by lia. rewrite (proj2 (Z.ltb_ge _ _)) by lia. split; [lia |].
  unfold epoch_start. destruct (Z.leb_spec (first_normal_epoch s + x / slots_per_epoch s) (first_normal_epoch s)).
  + assert (x / slots_per_epoch s = 0) as E by lia. rewrite E in *. rewrite Z.add_0_r, <- Hf. lia.
  + lia.
Qed.

Lemma epoch_and_index_eq slot :
  in_u64 slot ->
  let '(e, i) := get_epoch_and_slot_index s slot in
  0 <= e /\ 0 <= i < get_slots_in_epoch s e /\ slot = epoch_start s e + i.
Proof.
  intros Hu. destruct (Z.lt_ge_cases slot (first_normal_slot s)).
  - apply warmup_epoch_and_index. destruct Hu. lia.
  - by apply normal_epoch_and_index.
Qed.
End schedule.

(** ** Properties *)

Lemma u64_slot_of {s e i} : schedule_ok s -> 0 <= e -> 0 <= i -> epoch_start s e + i <= u64_max ->
  in_u64 (epoch_start s e + i).
Proof.
  intros Hs He Hi Hle. split; [|done]. pose proof (epoch_start_mono s Hs 0 e ltac:(lia) He) as H.
  enough (epoch_start s 0 = 0) by lia. unfold epoch_start. destruct Hs as [_ [Hn _] _].
  by rewrite (proj2 (Z.leb_le 0 _)).
Qed.

(** For every schedule that [custom] builds, a slot lies in the epoch it
    is assigned to: it is the first slot of that epoch plus the offset, the
    offset is below the length of the epoch, and the slot, unless it is the last
    of the type, is not past the last one of the epoch. *)
Theorem slot_lies_in_its_epoch {E} spe off w s slot :
  32 <= spe <= 2 ^ 63 -> @custom E spe off w = Ok s -> in_u64 slot ->
  let '(e, i) := get_epoch_and_slot_index s slot in
  get_first_slot_in_epoch s e + i = slot /\ 0 <= i < get_slots_in_epoch s e /\
  (slot < u64_max -> slot <= get_last_slot_in_epoch s e).
Proof.
  intros Hspe Hc Hu. destruct (@custom_ok E spe off w Hspe) as (s' & Hc' & Hs & _).
  assert (s' = s) as -> by congruence. pose proof (epoch_and_index_eq s Hs slot Hu) as H.
  destruct (get_epoch_and_slot_index s slot) as [e i]. destruct H as (He & Hi & Heq), Hu as [_ Hu].
  unfold get_last_slot_in_epoch, sat_sub, sat_add. rewrite first_slot_eq by done. lia.
Qed.

Lemma slot_lies_in_its_epoch_witness :
  exists s, @custom unit 432000 432000 true = Ok s /\
  let '(e, i) := get_epoch_and_slot_index s 1000 in get_first_slot_in_epoch s e + i = 1000.
Proof.
  eexists. split; [reflexivity |].
  refine (proj1 (slot_lies_in_its_epoch (E := unit) 432000 432000 true _ 1000 _ eq_refl _)).
  - lia.
  - vm_compute. split; congruence.
Defined.

(** Conversely, every offset below the length of an epoch that does not
    leave the range of slots is found back: the epochs partition the slots. *)
Theorem epoch_slots_found_back {E} spe off w s e i :
  32 <= spe <= 2 ^ 63 -> @custom E spe off w = Ok s ->
  0 <= e -> 0 <= i < get_slots_in_epoch s e -> epoch_start s e + i <= u64_max ->
  get_epoch_and_slot_index s (get_first_slot_in_epoch s e + i) = (e, i).
Proof.
  intros Hspe Hc He Hi Hu. destruct (@custom_ok E spe off w Hspe) as (s' & Hc' & Hs & _).
  assert (s' = s) as -> by congruence. rewrite first_slot_eq, Z.min_l by (done || lia).
  pose proof (epoch_and_index_eq s Hs _ (u64_slot_of Hs He (proj1 Hi) Hu)) as H.
  destruct (get_epoch_and_slot_index s _) as [e' i']. destruct H as (He' & Hi' & Heq).
  assert (e' = e) as ->; [|f_equal; lia].
  destruct (Z.lt_trichotomy e e') as [Hlt|[->|Hlt]]; [|done|].
  - pose proof (epoch_start_mono s Hs (e + 1) e' ltac:(lia) ltac:(lia)) as Hm.
    rewrite epoch_start_succ in Hm by done. lia.
  - pose proof (epoch_start_mono s Hs (e' + 1) e ltac:(lia) ltac:(lia)) as Hm.
    rewrite epoch_start_succ in Hm by done. lia.
Qed.

Lemma epoch_slots_found_back_witness :
  exists s, @custom unit 100 100 true = Ok s /\
    get_epoch_and_slot_index s (get_first_slot_in_epoch s 5 + 7) = (5, 7).
Proof.
  eexists. split; [reflexivity |].
  apply (epoch_slots_found_back (E := unit) 100 100 true);
    [lia | reflexivity | lia | vm_compute; split; congruence | vm_compute; congruence].
Defined.

(** The leader schedule computed in a slot is that of the next epoch when
    the offset is a whole epoch, in the warmup as after it. *)
Theorem leader_schedule_one_epoch_ahead {E} spe w s slot :
  32 <= spe <= 2 ^ 63 -> @custom E spe spe w = Ok s -> in_u64 slot -> slot + spe <= u64_max ->
  get_leader_schedule_epoch s slot = get_epoch s slot + 1.
Proof.
  intros Hspe Hc [Hs0 Hs1] Hu. destruct (@custom_ok E spe spe w Hspe) as (s' & Hc' & Hs & Hl & Ho & _).
  assert (s' = s) as -> by congruence. unfold get_leader_schedule_epoch, get_epoch.
  pose proof Hs as [_ Hn Hf].
  destruct (Z.ltb_spec slot (first_normal_slot s)) as [Hlt|Hge].
  - pose proof (epoch_and_index_eq s Hs slot (conj Hs0 Hs1)) as H.
    destruct (get_epoch_and_slot_index s slot) as [e i]. destruct H as (He & Hi & Heq). cbn.
    unfold sat_add. apply Z.min_l.
    destruct (Z.lt_ge_cases e (first_normal_epoch s + 1)) as [|Hbig]; [unfold u64_max; lia |].
    pose proof (epoch_start_mono s Hs (first_normal_epoch s) e ltac:(lia) ltac:(lia)) as Hm.
    unfold epoch_start in Hm at 1. rewrite (proj2 (Z.leb_le _ _)) in Hm by lia. lia.
  - unfold get_epoch_and_slot_index. rewrite (proj2 (Z.ltb_ge _ _)) by lia.
    unfold checked_div, checked_rem. rewrite Hl, Ho. destruct (Z.eqb_spec spe 0); [lia |].
    cbn [from_option id fst].
    assert (0 <= first_normal_slot s).
    { rewrite Hf. pose proof (Z.pow_le_mono_r 2 5 (first_normal_epoch s + 5)). lia. }
    unfold sat_sub, sat_add. rewrite (Z.max_l (slot - _)) by lia.
    rewrite (Z.min_l (slot - first_normal_slot s + spe)) by lia.
    replace (slot - first_normal_slot s + spe) with (slot - first_normal_slot s + 1 * spe) by lia.
    rewrite Z.div_add by lia. set (q := (slot - first_normal_slot s) / spe).
    assert (q <= (slot - first_normal_slot s) / 32) by (apply Z.div_le_compat_l; lia).
    assert (0 <= q) by (apply Z.div_pos; lia).
    assert ((slot - first_normal_slot s) / 32 < 2 ^ 59) by (apply Z.div_lt_upper_bound; unfold u64_max in *; lia).
    rewrite !Z.min_l by (unfold u64_max; lia). lia.
Qed.

Lemma leader_schedule_one_epoch_ahead_witness :
  exists s, @custom unit 100 100 true = Ok s /\ get_leader_schedule_epoch s 250 = 4.
Proof.
  eexists. split; [reflexivity |].
  rewrite (leader_schedule_one_epoch_ahead (E := unit) 100 true);
    [reflexivity | lia | reflexivity | vm_compute; split; congruence | vm_compute; congruence].
Defined.
