(* ===== verification/Rent.v ===== *)
(** * Rent

    [sdk/program/src/rent.rs]: the balance that exempts an account from rent.
    The products of [u64]s wrap around as in a release build; the threshold is
    an [f64]. *)

From S2P Require Import Prelude EpochSchedule.

Definition DEFAULT_LAMPORTS_PER_BYTE_YEAR : Z := 1000000000 / 100 * 365 / (1024 * 1024).
Definition DEFAULT_EXEMPTION_THRESHOLD : f64 := f64_of_u64 2.
Definition DEFAULT_BURN_PERCENT : Z := 50.
Definition ACCOUNT_STORAGE_OVERHEAD : Z := 128.

Record Rent := mkRent {
  lamports_per_byte_year : Z;
  exemption_threshold : f64;
  burn_percent : Z;
}.

Inductive RentDue := Exempt | Paying (lamports : Z).

Definition rent_default : Rent :=
  mkRent DEFAULT_LAMPORTS_PER_BYTE_YEAR DEFAULT_EXEMPTION_THRESHOLD DEFAULT_BURN_PERCENT.

Definition calculate_burn (self : Rent) (rent_collected : Z) : Z * Z :=
  let burned_portion := wrap64 (rent_collected * burn_percent self) / 100 in
  (burned_portion, wrap64 (rent_collected - burned_portion)).

Definition minimum_balance (self : Rent) (data_len : Z) : Z :=
  f64_to_u64 (f64_mul (f64_of_u64 (wrap64 (wrap64 (ACCOUNT_STORAGE_OVERHEAD + data_len)
                                          * lamports_per_byte_year self)))
                      (exemption_threshold self)).

Definition is_exempt (self : Rent) (balance data_len : Z) : bool :=
  minimum_balance self data_len <=? balance.

Definition due_amount (self : Rent) (data_len : Z) (years_elapsed : f64) : Z :=
  let actual_data_len := wrap64 (data_len + ACCOUNT_STORAGE_OVERHEAD) in
  let lamports_per_year := wrap64 (lamports_per_byte_year self * actual_data_len) in
  f64_to_u64 (f64_mul (f64_of_u64 lamports_per_year) years_elapsed).

Definition due (self : Rent) (balance data_len : Z) (years_elapsed : f64) : RentDue :=
  if is_exempt self balance data_len then Exempt
  else Paying (due_amount self data_len years_elapsed).

Definition rent_due_lamports (self : RentDue) : Z :=
  match self with Exempt => 0 | Paying x => x end.

Definition rent_due_is_exempt (self : RentDue) : bool :=
  match self with Exempt => true | Paying _ => false end.

Definition rent_free : Rent := mkRent 0 DEFAULT_EXEMPTION_THRESHOLD DEFAULT_BURN_PERCENT.

Definition with_slots_per_epoch (slots_per_epoch : Z) : Rent :=
  let ratio := f64_div (f64_of_u64 slots_per_epoch) (f64_of_u64 DEFAULT_SLOTS_PER_EPOCH) in
  mkRent (f64_to_u64 (f64_div (f64_of_u64 DEFAULT_LAMPORTS_PER_BYTE_YEAR) ratio))
    (f64_mul DEFAULT_EXEMPTION_THRESHOLD ratio) DEFAULT_BURN_PERCENT.

(** The reserve of a vote account. *)
Lemma vote_account_reserve : minimum_balance rent_default 3762 = 27074400.
Proof. reflexivity. Qed.

(** ** Properties *)

(** burning rent loses nothing: the two parts add up to what was
    collected, and the burned part is the percentage rounded down. *)
Theorem burn_splits_rent r collected :
  0 <= burn_percent r <= 100 -> 0 <= collected -> collected * 100 <= u64_max ->
  let '(burned, rest) := calculate_burn r collected in
  burned = collected * burn_percent r / 100 /\ 0 <= burned <= collected /\ burned + rest = collected.
Proof.
  intros Hb Hc Hu. unfold calculate_burn, wrap64. unfold u64_max in Hu.
  rewrite (Z.mod_small (collected * _)) by nia.
  pose proof (Z.div_mod (collected * burn_percent r) 100 ltac:(lia)).
  pose proof (Z.mod_pos_bound (collected * burn_percent r) 100 ltac:(lia)).
  rewrite Z.mod_small by nia. split; [done |]. split; nia.
Qed.

Lemma burn_splits_rent_witness :
  let '(burned, rest) := calculate_burn rent_default 101 in burned + rest = 101.
Proof.
  refine (proj2 (proj2 (burn_splits_rent rent_default 101 _ _ _))); vm_compute; try split; congruence.
Defined.
