(* ===== verification/TransactionContext.v ===== *)
(** * Accounts of a transaction

    [sdk/src/transaction_context.rs]: the accounts a transaction loads, the
    stack of instructions that runs over them, and the account an instruction
    borrows. An account sits in a cell; a mutable borrow moves it out of the
    cell into the [BorrowedAccount], and dropping the borrow puts it back, so a
    second borrow of the same cell fails as it does in the source. The growth
    of the vector behind the data is not observable and is left out. *)

From S2P Require Import Prelude InstructionError AuthorizedVoters EpochSchedule Rent.

Definition MAX_PERMITTED_DATA_LENGTH : Z := 10 * 1024 * 1024.
Definition MAX_PERMITTED_ACCOUNTS_DATA_ALLOCATIONS_PER_TRANSACTION : Z :=
  MAX_PERMITTED_DATA_LENGTH * 2.

(** [len as IndexOfAccount] *)
Definition index_of_len (len : nat) : nat := Z.to_nat (Z.of_nat len mod 2 ^ 16).

(** [x.saturating_add(y)] for [IndexOfAccount] *)
Definition sat_add_index (x y : nat) : nat :=
  Z.to_nat (Z.min (Z.of_nat x + Z.of_nat y) (2 ^ 16 - 1)).

Record AccountSharedData := mkAccount {
  lamports : Z;
  data : list Z;
  owner : Pubkey;
  executable : bool;
  rent_epoch : Epoch;
}.

Definition account_set_lamports (a : AccountSharedData) (l : Z) : AccountSharedData :=
  mkAccount l (data a) (owner a) (executable a) (rent_epoch a).
Definition account_set_data (a : AccountSharedData) (d : list Z) : AccountSharedData :=
  mkAccount (lamports a) d (owner a) (executable a) (rent_epoch a).
Definition account_set_owner (a : AccountSharedData) (o : Pubkey) : AccountSharedData :=
  mkAccount (lamports a) (data a) o (executable a) (rent_epoch a).
Definition account_set_executable (a : AccountSharedData) (b : bool) : AccountSharedData :=
  mkAccount (lamports a) (data a) (owner a) b (rent_epoch a).

Record InstructionAccount := mkInstructionAccount {
  index_in_transaction : nat;
  index_in_caller : nat;
  index_in_callee : nat;
  ia_is_signer : bool;
  ia_is_writable : bool;
}.

Record InstructionContext := mkInstructionContext {
  nesting_level : nat;
  instruction_accounts_lamport_sum : Z;
  program_accounts : list nat;
  instruction_accounts : list InstructionAccount;
  instruction_data : list Z;
}.
Definition instruction_context_default : InstructionContext := mkInstructionContext 0 0 [] [] [].

Record TransactionContext := mkTransactionContext {
  account_keys : list Pubkey;
  accounts : list (option AccountSharedData);
  touched_flags : list bool;
  instruction_stack_capacity : nat;
  instruction_trace_capacity : nat;
  instruction_stack : list nat;
  instruction_trace : list InstructionContext;
  return_data : Pubkey * list Z;
  accounts_resize_delta : Z;
  tx_rent : Rent;
}.

Definition set_accounts (t : TransactionContext) (a : list (option AccountSharedData)) :=
  mkTransactionContext (account_keys t) a (touched_flags t) (instruction_stack_capacity t)
    (instruction_trace_capacity t) (instruction_stack t) (instruction_trace t) (return_data t)
    (accounts_resize_delta t) (tx_rent t).
Definition set_touched (t : TransactionContext) (f : list bool) :=
  mkTransactionContext (account_keys t) (accounts t) f (instruction_stack_capacity t)
    (instruction_trace_capacity t) (instruction_stack t) (instruction_trace t) (return_data t)
    (accounts_resize_delta t) (tx_rent t).
Definition set_stack (t : TransactionContext) (s : list nat) :=
  mkTransactionContext (account_keys t) (accounts t) (touched_flags t)
    (instruction_stack_capacity t) (instruction_trace_capacity t) s (instruction_trace t)
    (return_data t) (accounts_resize_delta t) (tx_rent t).
Definition set_trace (t : TransactionContext) (s : list InstructionContext) :=
  mkTransactionContext (account_keys t) (accounts t) (touched_flags t)
    (instruction_stack_capacity t) (instruction_trace_capacity t) (instruction_stack t) s
    (return_data t) (accounts_resize_delta t) (tx_rent t).
Definition set_resize_delta (t : TransactionContext) (d : Z) :=
  mkTransactionContext (account_keys t) (accounts t) (touched_flags t)
    (instruction_stack_capacity t) (instruction_trace_capacity t) (instruction_stack t)
    (instruction_trace t) (return_data t) d (tx_rent t).
Definition set_return_data (t : TransactionContext) (program_id : Pubkey) (d : list Z) :=
  mkTransactionContext (account_keys t) (accounts t) (touched_flags t)
    (instruction_stack_capacity t) (instruction_trace_capacity t) (instruction_stack t)
    (instruction_trace t) (program_id, d) (accounts_resize_delta t) (tx_rent t).

Definition transaction_context_new (transaction_accounts : list (Pubkey * AccountSharedData))
    (rent : Rent) (instruction_stack_capacity instruction_trace_capacity : nat)
    : TransactionContext :=
  mkTransactionContext (transaction_accounts.*1) (Some <$> transaction_accounts.*2)
    (replicate (length transaction_accounts) false) instruction_stack_capacity
    instruction_trace_capacity [] [instruction_context_default] (pubkey_default, []) 0 rent.

Abbreviation result := (outcome InstructionError).

(** ** [TransactionContext] *)

Definition get_key_of_account_at_index (self : TransactionContext) (index : nat) : result Pubkey :=
  ok_or (account_keys self !! index) NotEnoughAccountKeys.

(** The first and the last position of a key. *)
Fixpoint position {A} (p : A -> bool) (l : list A) : option nat :=
  match l with
  | [] => None
  | x :: l => if p x then Some 0%nat else S <$> position p l
  end.
Definition rposition {A} (p : A -> bool) (l : list A) : option nat :=
  (fun i => length l - 1 - i)%nat <$> position p (reverse l).

Definition find_index_of_account (self : TransactionContext) (pubkey : Pubkey) : option nat :=
  index_of_len <$> position (fun key => key =? pubkey) (account_keys self).
Definition find_index_of_program_account (self : TransactionContext) (pubkey : Pubkey)
    : option nat :=
  index_of_len <$> rposition (fun key => key =? pubkey) (account_keys self).

Definition get_number_of_accounts (self : TransactionContext) : nat :=
  index_of_len (length (accounts self)).

Definition get_instruction_trace_length (self : TransactionContext) : nat :=
  (length (instruction_trace self) - 1)%nat.

Definition get_instruction_context_at_index_in_trace (self : TransactionContext) (i : nat)
    : result InstructionContext :=
  ok_or (instruction_trace self !! i) CallDepth.

Definition get_instruction_context_at_nesting_level (self : TransactionContext) (level : nat)
    : result InstructionContext :=
  index_in_trace ←? ok_or (instruction_stack self !! level) CallDepth;
  get_instruction_context_at_index_in_trace self index_in_trace.

Definition get_instruction_context_stack_height (self : TransactionContext) : nat :=
  length (instruction_stack self).

Definition get_current_instruction_context (self : TransactionContext)
    : result InstructionContext :=
  if (get_instruction_context_stack_height self =? 0)%nat then Err CallDepth
  else get_instruction_context_at_nesting_level self
         (get_instruction_context_stack_height self - 1).

(** [TransactionAccounts::touch] and [touched_count]. *)
Definition touch (self : TransactionContext) (index : nat) : TransactionContext * result unit :=
  match touched_flags self !! index with
  | Some _ => (set_touched self (<[index := true]> (touched_flags self)), Ok tt)
  | None => (self, Err NotEnoughAccountKeys)
  end.
Definition touched_count (self : TransactionContext) : Z :=
  foldl (fun acc (was_touched : bool) => acc + if was_touched then 1 else 0) 0 (touched_flags self).

(** ** [InstructionContext] *)

Definition configure (self : InstructionContext) (programs : list nat)
    (accs : list InstructionAccount) (d : list Z) : InstructionContext :=
  mkInstructionContext (nesting_level self) (instruction_accounts_lamport_sum self) programs accs d.

Definition get_stack_height (self : InstructionContext) : nat := (nesting_level self + 1)%nat.

Definition get_number_of_program_accounts (self : InstructionContext) : nat :=
  index_of_len (length (program_accounts self)).
Definition get_number_of_instruction_accounts (self : InstructionContext) : nat :=
  index_of_len (length (instruction_accounts self)).

Definition check_number_of_instruction_accounts (self : InstructionContext) (expected : nat)
    : result unit :=
  ensure (negb (get_number_of_instruction_accounts self <? expected)%nat) NotEnoughAccountKeys.

Definition find_index_of_instruction_account (self : InstructionContext)
    (transaction_context : TransactionContext) (pubkey : Pubkey) : option nat :=
  index_of_len <$> position (fun ia => bool_decide
    (account_keys transaction_context !! index_in_transaction ia = Some pubkey))
    (instruction_accounts self).

Definition get_index_of_program_account_in_transaction (self : InstructionContext) (i : nat)
    : result nat :=
  ok_or (program_accounts self !! i) NotEnoughAccountKeys.

Definition get_index_of_instruction_account_in_transaction (self : InstructionContext) (i : nat)
    : result nat :=
  ok_or (index_in_transaction <$> instruction_accounts self !! i) NotEnoughAccountKeys.

Definition is_instruction_account_duplicate (self : InstructionContext) (i : nat)
    : result (option nat) :=
  ia ←? ok_or (instruction_accounts self !! i) NotEnoughAccountKeys;
  Ok (if (index_in_callee ia =? i)%nat then None else Some (index_in_callee ia)).

Definition get_last_program_key (self : InstructionContext)
    (transaction_context : TransactionContext) : result Pubkey :=
  i ←? get_index_of_program_account_in_transaction self (get_number_of_program_accounts self - 1);
  get_key_of_account_at_index transaction_context i.

Definition is_instruction_account_signer (self : InstructionContext) (i : nat) : result bool :=
  ok_or (ia_is_signer <$> instruction_accounts self !! i) MissingAccount.
Definition is_instruction_account_writable (self : InstructionContext) (i : nat) : result bool :=
  ok_or (ia_is_writable <$> instruction_accounts self !! i) MissingAccount.

Fixpoint get_signers_loop (transaction_context : TransactionContext)
    (ias : list InstructionAccount) (acc : gset Pubkey) : result (gset Pubkey) :=
  match ias with
  | [] => Ok acc
  | ia :: ias =>
      if ia_is_signer ia then
        key ←? get_key_of_account_at_index transaction_context (index_in_transaction ia);
        get_signers_loop transaction_context ias ({[key]} ∪ acc)
      else get_signers_loop transaction_context ias acc
  end.
Definition get_signers (self : InstructionContext) (transaction_context : TransactionContext)
    : result (gset Pubkey) :=
  get_signers_loop transaction_context (instruction_accounts self) ∅.

(** ** Entering and leaving an instruction *)


(** The loop of [instruction_accounts_lamport_sum] over the account indices. *)
Fixpoint lamport_sum_loop (self : TransactionContext) (ctx : InstructionContext)
    (indices : list nat) (sum : Z) : result Z :=
  match indices with
  | [] => Ok sum
  | i :: rest =>
      dup ←? is_instruction_account_duplicate ctx i;
      match dup with
      | Some _ => lamport_sum_loop self ctx rest sum
      | None =>
          idx ←? get_index_of_instruction_account_in_transaction ctx i;
          cell ←? ok_or (accounts self !! idx) NotEnoughAccountKeys;
          account ←? ok_or cell AccountBorrowOutstanding;
          sum ←? ok_or (checked_add u128_max (lamports account) sum) ArithmeticOverflow;
          lamport_sum_loop self ctx rest sum
      end
  end.
Definition lamport_sum (self : TransactionContext) (ctx : InstructionContext) : result Z :=
  lamport_sum_loop self ctx (seq 0 (get_number_of_instruction_accounts ctx)) 0.

Definition push : eff TransactionContext InstructionError unit :=
  fun self =>
  (caller_sum ←! eread (fun self =>
     next ←? ok_or (last (instruction_trace self)) CallDepth; lamport_sum self next);
   _ ←! eread (fun self =>
     if bool_decide (instruction_stack self = []) then Ok tt
     else caller ←? get_current_instruction_context self;
          current ←? lamport_sum self caller;
          ensure (instruction_accounts_lamport_sum caller =? current) UnbalancedInstruction);
   _ ←! ewrite (fun self => set_trace self (update_last (fun ctx =>
     mkInstructionContext (get_instruction_context_stack_height self) caller_sum
       (program_accounts ctx) (instruction_accounts ctx) (instruction_data ctx))
       (instruction_trace self)));
   index_in_trace ←! eread (fun self => Ok (get_instruction_trace_length self));
   _ ←! eread (fun self =>
     ensure (negb (instruction_trace_capacity self <=? index_in_trace)%nat)
       MaxInstructionTraceLengthExceeded);
   _ ←! ewrite (fun self => set_trace self (instruction_trace self ++ [instruction_context_default]));
   _ ←! eread (fun self =>
     ensure (negb (instruction_stack_capacity self <=? get_instruction_context_stack_height self)%nat)
       CallDepth);
   ewrite (fun self => set_stack self (instruction_stack self ++ [index_in_trace]))) self.

(** All program accounts can be borrowed mutably. *)
Fixpoint check_not_borrowed (self : TransactionContext) (indices : list nat) : result unit :=
  match indices with
  | [] => Ok tt
  | i :: rest =>
      cell ←? ok_or (accounts self !! i) NotEnoughAccountKeys;
      _ ←? ok_or cell AccountBorrowOutstanding;
      check_not_borrowed self rest
  end.

Definition pop : eff TransactionContext InstructionError unit :=
  fun self =>
  if bool_decide (instruction_stack self = []) then (self, Err CallDepth)
  else
    let detected_an_unbalanced_instruction :=
      (ctx ←? get_current_instruction_context self;
       _ ←? check_not_borrowed self (program_accounts ctx);
       sum ←? lamport_sum self ctx;
       Ok (negb (instruction_accounts_lamport_sum ctx =? sum))) in
    let self := set_stack self (removelast (instruction_stack self)) in
    (self, b ←? detected_an_unbalanced_instruction;
           if b : bool then Err UnbalancedInstruction else Ok tt).

(** ** [BorrowedAccount] *)

Record BorrowedAccount := mkBorrowedAccount {
  ba_instruction_context : InstructionContext;
  ba_index_in_transaction : nat;
  ba_index_in_instruction : nat;
  account : AccountSharedData;
}.
Definition set_account (b : BorrowedAccount) (a : AccountSharedData) : BorrowedAccount :=
  mkBorrowedAccount (ba_instruction_context b) (ba_index_in_transaction b)
    (ba_index_in_instruction b) a.

(** The state of a method of a borrowed account: the transaction and the
    account. *)
Abbreviation borrowed := (TransactionContext * BorrowedAccount)%type.

Definition try_borrow_account (ctx : InstructionContext) (index_in_transaction index_in_instruction : nat)
    : eff TransactionContext InstructionError BorrowedAccount :=
  fun tx =>
  match accounts tx !! index_in_transaction with
  | None => (tx, Err MissingAccount)
  | Some None => (tx, Err AccountBorrowFailed)
  | Some (Some a) =>
      (set_accounts tx (<[index_in_transaction := None]> (accounts tx)),
       Ok (mkBorrowedAccount ctx index_in_transaction index_in_instruction a))
  end.

Definition try_borrow_program_account (ctx : InstructionContext) (program_account_index : nat)
    : eff TransactionContext InstructionError BorrowedAccount :=
  i ←! eread (fun _ => get_index_of_program_account_in_transaction ctx program_account_index);
  try_borrow_account ctx i program_account_index.

Definition try_borrow_last_program_account (ctx : InstructionContext)
    : eff TransactionContext InstructionError BorrowedAccount :=
  try_borrow_program_account ctx (get_number_of_program_accounts ctx - 1).

Definition try_borrow_instruction_account (ctx : InstructionContext) (instruction_account_index : nat)
    : eff TransactionContext InstructionError BorrowedAccount :=
  i ←! eread (fun _ => get_index_of_instruction_account_in_transaction ctx instruction_account_index);
  try_borrow_account ctx i
    (sat_add_index (get_number_of_program_accounts ctx) instruction_account_index).

(** [drop(borrowed_account)] *)
Definition drop_account (s : borrowed) : TransactionContext :=
  set_accounts s.1 (<[ba_index_in_transaction s.2 := Some (account s.2)]> (accounts s.1)).

(** Runs [m] on an account of the instruction and drops the borrow, whatever
    [m] returns. *)
Definition with_instruction_account {A} (ctx : InstructionContext) (i : nat)
    (m : eff borrowed InstructionError A) : eff TransactionContext InstructionError A :=
  fun tx =>
  let '(tx, r) := try_borrow_instruction_account ctx i tx in
  match r with
  | Ok b => let '(s, r) := m (tx, b) in (drop_account s, r)
  | Err e => (tx, Err e)
  | Panic => (tx, Panic)
  end.

Section borrowed_account.
Context (s : borrowed).

Definition get_owner : Pubkey := owner (account s.2).
Definition get_lamports : Z := lamports (account s.2).
Definition get_data : list Z := data (account s.2).
Definition is_executable : bool := executable (account s.2).
Definition is_signer : bool :=
  let ctx := ba_instruction_context s.2 in
  if (ba_index_in_instruction s.2 <? get_number_of_program_accounts ctx)%nat then false
  else match is_instruction_account_signer ctx
               (ba_index_in_instruction s.2 - get_number_of_program_accounts ctx) with
       | Ok b => b
       | _ => false
       end.
Definition is_writable : bool :=
  let ctx := ba_instruction_context s.2 in
  if (ba_index_in_instruction s.2 <? get_number_of_program_accounts ctx)%nat then false
  else match is_instruction_account_writable ctx
               (ba_index_in_instruction s.2 - get_number_of_program_accounts ctx) with
       | Ok b => b
       | _ => false
       end.
Definition is_owned_by_current_program : bool :=
  match get_last_program_key (ba_instruction_context s.2) s.1 with
  | Ok key => key =? get_owner
  | _ => false
  end.
Definition is_rent_exempt_at_data_length (data_length : Z) : bool :=
  is_exempt (tx_rent s.1) get_lamports data_length.

Definition can_data_be_changed : result unit :=
  _ ←? ensure (negb is_executable) ExecutableDataModified;
  _ ←? ensure is_writable ReadonlyDataModified;
  ensure is_owned_by_current_program ExternalAccountDataModified.

Definition can_data_be_resized (new_length : Z) : result unit :=
  let old_length := zlength get_data in
  _ ←? ensure (negb (negb (new_length =? old_length) && negb is_owned_by_current_program))
         AccountDataSizeChanged;
  _ ←? ensure (negb (MAX_PERMITTED_DATA_LENGTH <? new_length)) InvalidRealloc;
  let length_delta := sat_sub_i64 new_length old_length in
  ensure (negb (MAX_PERMITTED_ACCOUNTS_DATA_ALLOCATIONS_PER_TRANSACTION
                <? sat_add_i64 (accounts_resize_delta s.1) length_delta))
    MaxAccountsDataAllocationsExceeded.
End borrowed_account.

(** [is_zeroed]: the chunks of 1024 bytes and the remainder are zero. *)
Definition is_zeroed (buf : list Z) : bool := forallb (fun b => b =? 0) buf.

Definition touch_account : eff borrowed InstructionError unit :=
  fun s => let '(tx, r) := touch s.1 (ba_index_in_transaction s.2) in ((tx, s.2), r).

Definition write_account (f : AccountSharedData -> AccountSharedData)
    : eff borrowed InstructionError unit :=
  ewrite (fun s => (s.1, set_account s.2 (f (account s.2)))).

Definition update_accounts_resize_delta (new_len : Z) : eff borrowed InstructionError unit :=
  ewrite (fun s => (set_resize_delta s.1
    (sat_add_i64 (accounts_resize_delta s.1) (sat_sub_i64 new_len (zlength (get_data s)))), s.2)).

Definition set_owner (pubkey : Pubkey) : eff borrowed InstructionError unit :=
  _ ←! eread (fun s => ensure (is_owned_by_current_program s) ModifiedProgramId);
  _ ←! eread (fun s => ensure (is_writable s) ModifiedProgramId);
  _ ←! eread (fun s => ensure (negb (is_executable s)) ModifiedProgramId);
  _ ←! eread (fun s => ensure (is_zeroed (get_data s)) ModifiedProgramId);
  same ←! eread (fun s => Ok (get_owner s =? pubkey));
  if same : bool then eret tt
  else _ ←! touch_account; write_account (fun a => account_set_owner a pubkey).

Definition set_lamports (l : Z) : eff borrowed InstructionError unit :=
  _ ←! eread (fun s => ensure (negb (negb (is_owned_by_current_program s) && (l <? get_lamports s)))
                         ExternalAccountLamportSpend);
  _ ←! eread (fun s => ensure (is_writable s) ReadonlyLamportChange);
  _ ←! eread (fun s => ensure (negb (is_executable s)) ExecutableLamportChange);
  same ←! eread (fun s => Ok (get_lamports s =? l));
  if same : bool then eret tt
  else _ ←! touch_account; write_account (fun a => account_set_lamports a l).

Definition checked_add_lamports (l : Z) : eff borrowed InstructionError unit :=
  new ←! eread (fun s => ok_or (checked_add u64_max (get_lamports s) l) ArithmeticOverflow);
  set_lamports new.
Definition checked_sub_lamports (l : Z) : eff borrowed InstructionError unit :=
  new ←! eread (fun s => ok_or (checked_sub (get_lamports s) l) ArithmeticOverflow);
  set_lamports new.

(** [get_data_mut]: the slice that follows the checks is written by the
    caller. *)
Definition get_data_mut : eff borrowed InstructionError (list Z) :=
  _ ←! eread can_data_be_changed;
  _ ←! touch_account;
  eread (fun s => Ok (get_data s)).

Definition set_data_from_slice (d : list Z) : eff borrowed InstructionError unit :=
  _ ←! eread (fun s => can_data_be_resized s (zlength d));
  _ ←! eread can_data_be_changed;
  _ ←! touch_account;
  _ ←! update_accounts_resize_delta (zlength d);
  write_account (fun a => account_set_data a d).

(** [Vec::resize(new_length, 0)] *)
Definition resize_data (d : list Z) (new_length : nat) : list Z :=
  take new_length d ++ replicate (new_length - length d) 0.

Definition set_data_length (new_length : nat) : eff borrowed InstructionError unit :=
  _ ←! eread (fun s => can_data_be_resized s (Z.of_nat new_length));
  _ ←! eread can_data_be_changed;
  same ←! eread (fun s => Ok (length (get_data s) =? new_length)%nat);
  if same : bool then eret tt
  else
    _ ←! touch_account;
    _ ←! update_accounts_resize_delta (Z.of_nat new_length);
    write_account (fun a => account_set_data a (resize_data (data a) new_length)).

Definition extend_from_slice (d : list Z) : eff borrowed InstructionError unit :=
  new_len ←! eread (fun s => Ok (sat_add u64_max (zlength (get_data s)) (zlength d)));
  _ ←! eread (fun s => can_data_be_resized s new_len);
  _ ←! eread can_data_be_changed;
  if bool_decide (d = []) then eret tt
  else
    _ ←! touch_account;
    _ ←! update_accounts_resize_delta new_len;
    write_account (fun a => account_set_data a (data a ++ d)).

Definition set_executable (b : bool) : eff borrowed InstructionError unit :=
  _ ←! eread (fun s => ensure (is_exempt (tx_rent s.1) (get_lamports s) (zlength (get_data s)))
                         ExecutableAccountNotRentExempt);
  _ ←! eread (fun s => ensure (is_owned_by_current_program s) ExecutableModified);
  _ ←! eread (fun s => ensure (is_writable s) ExecutableModified);
  _ ←! eread (fun s => ensure (negb (is_executable s && negb b)) ExecutableModified);
  same ←! eread (fun s => Ok (eqb (is_executable s) b));
  if same : bool then eret tt
  else _ ←! touch_account; write_account (fun a => account_set_executable a b).

(** ** Typed state

    The serialization of the state is [bincode]'s: an interface with the law
    that reading back what was written gives the value, whatever follows it
    in the account. *)

Class Codec (T : Type) := {
  bincode_serialize : T -> option (list Z);
  bincode_deserialize : list Z -> option T;
}.

Class CodecLaws (T : Type) `{Codec T} := {
  codec_roundtrip x bytes rest :
    bincode_serialize x = Some bytes -> bincode_deserialize (bytes ++ rest) = Some x;
}.

Section typed_state.
Context {T : Type} `{Codec T}.

Definition get_state (s : borrowed) : result T :=
  ok_or (bincode_deserialize (get_data s)) InvalidAccountData.

Definition set_state (state : T) : eff borrowed InstructionError unit :=
  d ←! get_data_mut;
  bytes ←! eread (fun _ => ok_or (bincode_serialize state) GenericError);
  _ ←! eread (fun _ => ensure (negb (length d <? length bytes)%nat) AccountDataTooSmall);
  write_account (fun a => account_set_data a (bytes ++ drop (length bytes) d)).
End typed_state.
