(* ===== verification/AccountRules.v ===== *)
(** * What a program may do to an account

    The rules that the methods of [BorrowedAccount] enforce, the budget of the
    resizing, and the balance of an instruction between its entry and exit. *)

From S2P Require Import Prelude InstructionError AuthorizedVoters EpochSchedule Rent TransactionContext.

(** ** What stays *)

(** A method touches the borrowed account, the touched flags and the resize
    counter, nothing else. *)
Record borrow_frame (s s' : borrowed) : Prop := {
  bf_keys : account_keys s'.1 = account_keys s.1;
  bf_accounts : accounts s'.1 = accounts s.1;
  bf_stack : instruction_stack s'.1 = instruction_stack s.1;
  bf_trace : instruction_trace s'.1 = instruction_trace s.1;
  bf_rent : tx_rent s'.1 = tx_rent s.1;
  bf_context : ba_instruction_context s'.2 = ba_instruction_context s.2;
  bf_index : ba_index_in_transaction s'.2 = ba_index_in_transaction s.2;
  bf_instruction : ba_index_in_instruction s'.2 = ba_index_in_instruction s.2;
}.

#[global] Instance borrow_frame_preorder : PreOrder borrow_frame.
Proof. split; [done |]. intros ? ? ? [] []. split; congruence. Qed.

(** A computation whose every run, successful or not, stays in the frame and
    relates the states it starts and ends in by [R]. *)
Definition runs_within {S E A} (R : S -> S -> Prop) (m : eff S E A) : Prop :=
  forall s, R s (m s).1.

Lemma runs_within_bind {S E A B} (R : S -> S -> Prop) `{!PreOrder R} (m : eff S E A) (f : A -> eff S E B) :
  runs_within R m -> (forall a, runs_within R (f a)) -> runs_within R (ebind m f).
Proof.
  intros Hm Hf s. unfold ebind. specialize (Hm s). destruct (m s) as [s1 [a|e|]]; cbn in *; [|done..].
  etrans; [exact Hm | apply Hf].
Qed.
Lemma runs_within_read {S E A} (R : S -> S -> Prop) `{!Reflexive R} (f : S -> outcome E A) :
  runs_within R (eread f).
Proof. by intros s. Qed.
Lemma runs_within_ret {S E A} (R : S -> S -> Prop) `{!Reflexive R} (a : A) :
  runs_within R (eret (E := E) a).
Proof. by intros s. Qed.

(** ** The rules *)

Record account_rules (s s' : borrowed) : Prop := {
  ar_spend : lamports (account s'.2) < lamports (account s.2) -> is_owned_by_current_program s = true;
  ar_lamports : lamports (account s'.2) <> lamports (account s.2) ->
    is_writable s = true /\ is_executable s = false;
  ar_data : data (account s'.2) <> data (account s.2) ->
    is_owned_by_current_program s = true /\ is_writable s = true /\ is_executable s = false;
  ar_owner : owner (account s'.2) <> owner (account s.2) ->
    is_owned_by_current_program s = true /\ is_writable s = true /\ is_executable s = false /\
    is_zeroed (get_data s) = true;
  ar_executable : executable (account s'.2) <> executable (account s.2) ->
    executable (account s.2) = false /\ is_owned_by_current_program s = true /\
    is_writable s = true /\ is_exempt (tx_rent s.1) (get_lamports s) (zlength (get_data s)) = true;
  ar_rent_epoch : rent_epoch (account s'.2) = rent_epoch (account s.2);
}.

Lemma account_rules_refl s s' : account s'.2 = account s.2 -> account_rules s s'.
Proof. intros E. split; rewrite E; try done. lia. Qed.

(** The operations of a program on an account. *)
Inductive account_op : eff borrowed InstructionError unit -> Prop :=
| op_set_owner k : account_op (set_owner k)
| op_set_lamports l : account_op (set_lamports l)
| op_add_lamports l : account_op (checked_add_lamports l)
| op_sub_lamports l : account_op (checked_sub_lamports l)
| op_set_data d : account_op (set_data_from_slice d)
| op_set_length n : account_op (set_data_length n)
| op_extend d : account_op (extend_from_slice d)
| op_set_executable b : account_op (set_executable b)
| op_set_state {T} `{Codec T} (x : T) : account_op (set_state x).

(** Runs an operation on a symbolic state, one case per guard. *)
Ltac run_op :=
  unfold ebind, eread, eret, ewrite, touch_account, write_account, update_accounts_resize_delta,
    get_data_mut, can_data_be_changed, can_data_be_resized, touch in *;
  repeat (match goal with
          | |- context [ensure ?b _] => destruct b eqn:?
          | |- context [ok_or ?o _] => destruct o eqn:?
          | |- context [match ?l !! ?i with _ => _ end] => destruct (l !! i) eqn:?
          | |- context [if ?b then _ else _] => destruct b eqn:?
          end; cbn [ensure ok_or obind fst snd]).

Lemma set_lamports_rules l s :
  borrow_frame s (set_lamports l s).1 /\ account_rules s (set_lamports l s).1.
Proof.
  unfold set_lamports. run_op; (split; [done |]); try (by apply account_rules_refl).
  split; cbn; try done.
  - unfold get_lamports in *. intros Hlt. destruct (is_owned_by_current_program s); [done |].
    rewrite (proj2 (Z.ltb_lt _ _)) in Heqb by done. done.
  - intros _. by destruct (is_executable s).
Qed.

Lemma set_owner_rules k s : borrow_frame s (set_owner k s).1 /\ account_rules s (set_owner k s).1.
Proof.
  unfold set_owner. run_op; (split; [done |]); try (by apply account_rules_refl).
  split; cbn; try done; try lia. intros _. by destruct (is_executable s).
Qed.

Lemma set_executable_rules b s :
  borrow_frame s (set_executable b s).1 /\ account_rules s (set_executable b s).1.
Proof.
  unfold set_executable. run_op; (split; [done |]); try (by apply account_rules_refl).
  split; cbn; try done; try lia. intros Hne. unfold is_executable in *.
  by destruct (executable (account s.2)), b.
Qed.

(** The data changes only after the check that it may. *)
Lemma data_write_rules (s s' : borrowed) d :
  can_data_be_changed s = Ok tt -> account s'.2 = account_set_data (account s.2) d -> account_rules s s'.
Proof.
  intros Hc E. unfold can_data_be_changed in Hc.
  apply bind_Ok in Hc as ([] & H1%ensure_Ok & Hc). apply bind_Ok in Hc as ([] & H2%ensure_Ok & H3%ensure_Ok).
  split; rewrite E; cbn; try done; try lia. intros _. by destruct (is_executable s).
Qed.

Ltac data_op :=
  unfold ebind, eread, eret, ewrite, touch_account, write_account, update_accounts_resize_delta;
  repeat (match goal with
          | |- context [match can_data_be_changed ?s with _ => _ end] =>
              destruct (can_data_be_changed s) as [[]|?|] eqn:?
          | |- context [match can_data_be_resized ?s ?n with _ => _ end] =>
              destruct (can_data_be_resized s n) as [[]|?|] eqn:?
          | |- context [touch ?t ?i] => unfold touch; destruct (touched_flags t !! i) eqn:?
          | |- context [ok_or ?o _] => destruct o eqn:?
          | |- context [ensure ?b _] => destruct b eqn:?
          | |- context [if ?b then _ else _] => destruct b eqn:?
          end; cbn [ensure ok_or obind fst snd]);
  (split; [done |]); try (by apply account_rules_refl); by eapply data_write_rules.

Lemma set_data_rules d s :
  borrow_frame s (set_data_from_slice d s).1 /\ account_rules s (set_data_from_slice d s).1.
Proof. unfold set_data_from_slice. data_op. Qed.

Lemma set_length_rules n s :
  borrow_frame s (set_data_length n s).1 /\ account_rules s (set_data_length n s).1.
Proof. unfold set_data_length. data_op. Qed.

Lemma extend_rules d s :
  borrow_frame s (extend_from_slice d s).1 /\ account_rules s (extend_from_slice d s).1.
Proof. unfold extend_from_slice. data_op. Qed.

Lemma set_state_rules {T} `{Codec T} (x : T) s :
  borrow_frame s (set_state x s).1 /\ account_rules s (set_state x s).1.
Proof. unfold set_state, get_data_mut. data_op. Qed.

Lemma account_op_rules op s : account_op op -> borrow_frame s (op s).1 /\ account_rules s (op s).1.
Proof.
  intros [k|l|l|l|d|n|d|b|T HT x].
  - apply set_owner_rules.
  - apply set_lamports_rules.
  - unfold checked_add_lamports, ebind, eread.
    destruct (ok_or _ _); [apply set_lamports_rules | split; [done | by apply account_rules_refl]..].
  - unfold checked_sub_lamports, ebind, eread.
    destruct (ok_or _ _); [apply set_lamports_rules | split; [done | by apply account_rules_refl]..].
  - apply set_data_rules.
  - apply set_length_rules.
  - apply extend_rules.
  - apply set_executable_rules.
  - apply set_state_rules.
Qed.

(** ** The budget of the resizing *)

(** The bytes of data in all accounts of a transaction. *)
Definition cell_length (c : option AccountSharedData) : Z := from_option (fun a => zlength (data a)) 0 c.
Definition total_data (tx : TransactionContext) : Z :=
  foldr (fun c acc => cell_length c + acc) 0 (accounts tx).

(** The counter is the growth of the data since it was [initial], and it is
    within what a transaction may allocate. *)
Record resize_within_budget (initial : Z) (tx : TransactionContext) : Prop := {
  rb_counter : accounts_resize_delta tx = total_data tx - initial;
  rb_budget : accounts_resize_delta tx <= MAX_PERMITTED_ACCOUNTS_DATA_ALLOCATIONS_PER_TRANSACTION;
}.

(** The counter of a borrowed account can still follow its length. *)
Record resizable (s : borrowed) : Prop := {
  rz_budget : accounts_resize_delta s.1 <= MAX_PERMITTED_ACCOUNTS_DATA_ALLOCATIONS_PER_TRANSACTION;
  rz_low : i64_min <= accounts_resize_delta s.1 - zlength (get_data s);
  rz_length : zlength (get_data s) <= i64_max;
}.

(** The counter moves with the length of the data, up to the budget. *)
Definition resized (s s' : borrowed) : Prop :=
  accounts_resize_delta s'.1 - accounts_resize_delta s.1 = zlength (get_data s') - zlength (get_data s) /\
  accounts_resize_delta s'.1 <= MAX_PERMITTED_ACCOUNTS_DATA_ALLOCATIONS_PER_TRANSACTION.

Lemma resized_same s s' :
  resizable s -> accounts_resize_delta s'.1 = accounts_resize_delta s.1 ->
  zlength (data (account s'.2)) = zlength (get_data s) -> resized s s'.
Proof. intros [] Hd Hl. unfold resized, get_data in *. rewrite Hd, Hl. split; [lia | done]. Qed.

Lemma can_data_be_resized_counts s s' n :
  can_data_be_resized s n = Ok tt -> resizable s -> 0 <= n ->
  accounts_resize_delta s'.1 = sat_add_i64 (accounts_resize_delta s.1) (sat_sub_i64 n (zlength (get_data s))) ->
  zlength (data (account s'.2)) = n -> resized s s'.
Proof.
  unfold can_data_be_resized. intros H [Hb Hlow Hlen] Hn Hd Hl.
  apply bind_Ok in H as ([] & _ & H).
  apply bind_Ok in H as ([] & Hmax%ensure_Ok%negb_true_iff%Z.ltb_ge & H%ensure_Ok%negb_true_iff%Z.ltb_ge).
  unfold resized. rewrite Hd. unfold get_data in *. rewrite Hl. split; [|done].
  assert (0 <= zlength (data (account s.2))) by lia.
  unfold sat_add_i64, sat_sub_i64, i64_max, i64_min, MAX_PERMITTED_ACCOUNTS_DATA_ALLOCATIONS_PER_TRANSACTION,
    MAX_PERMITTED_DATA_LENGTH in *. lia.
Qed.

Lemma resize_data_length d n : length (resize_data d n) = n.
Proof. unfold resize_data. rewrite length_app, length_take, length_replicate. lia. Qed.

Ltac count_op :=
  unfold ebind, eread, eret, ewrite, touch_account, write_account, update_accounts_resize_delta;
  repeat (match goal with
          | |- context [match can_data_be_resized ?s ?n with _ => _ end] =>
              destruct (can_data_be_resized s n) as [[]|?|] eqn:?
          | |- context [match can_data_be_changed ?s with _ => _ end] =>
              destruct (can_data_be_changed s) as [[]|?|] eqn:?
          | |- context [touch ?t ?i] => unfold touch; destruct (touched_flags t !! i) eqn:?
          | |- context [ok_or ?o _] => destruct o eqn:?
          | |- context [ensure ?b _] => destruct b eqn:?
          | |- context [if ?b then _ else _] => destruct b eqn:?
          end; cbn [ensure ok_or obind fst snd]);
  try (by apply resized_same).

Lemma set_data_counts d s : resizable s -> resized s (set_data_from_slice d s).1.
Proof.
  intros Hr. unfold set_data_from_slice. count_op.
  eapply can_data_be_resized_counts; [done | done | lia | done | done].
Qed.

Lemma set_length_counts n s : resizable s -> resized s (set_data_length n s).1.
Proof.
  intros Hr. unfold set_data_length. count_op.
  eapply can_data_be_resized_counts; [done | done | lia | done |]. cbn. by rewrite resize_data_length.
Qed.

Lemma extend_counts d s : resizable s -> resized s (extend_from_slice d s).1.
Proof.
  intros Hr. unfold extend_from_slice. count_op.
  assert (zlength (get_data s) + zlength d <= u64_max) as Hle.
  { unfold can_data_be_resized in Heqo. apply bind_Ok in Heqo as ([] & _ & Heqo).
    apply bind_Ok in Heqo as ([] & Hmax%ensure_Ok%negb_true_iff%Z.ltb_ge & _).
    unfold sat_add, MAX_PERMITTED_DATA_LENGTH, u64_max in *. lia. }
  assert (sat_add u64_max (zlength (get_data s)) (zlength d) = zlength (get_data s) + zlength d) as Hs
    by (unfold sat_add; lia).
  eapply can_data_be_resized_counts; [done | done | rewrite Hs; lia | done |].
  rewrite Hs. unfold get_data. cbn. rewrite length_app. lia.
Qed.

Lemma set_state_counts {T} `{Codec T} (x : T) s : resizable s -> resized s (set_state x s).1.
Proof.
  intros Hr. unfold set_state, get_data_mut. count_op. apply resized_same; [done | done |].
  apply negb_true_iff, Nat.ltb_ge in Heqb0. unfold get_data in *. cbn in *.
  rewrite length_app, length_drop. lia.
Qed.

Lemma account_op_counts op s : account_op op -> resizable s -> resized s (op s).1.
Proof.
  intros [k|l|l|l|d|n|d|b|T HT x] Hr;
    auto using set_data_counts, set_length_counts, extend_counts, set_state_counts;
    unfold set_owner, checked_add_lamports, checked_sub_lamports, set_lamports, set_executable; count_op.
Qed.

(** ** The balance of an instruction *)

(** The distinct accounts of an instruction, and the sum of their balances. *)
Definition distinct_accounts (ctx : InstructionContext) (indices : list nat) : list nat :=
  omap (fun i => ia ← instruction_accounts ctx !! i;
                 if (index_in_callee ia =? i)%nat then Some (index_in_transaction ia) else None) indices.
Definition cell_lamports (c : option AccountSharedData) : Z := from_option lamports 0 c.
Definition lamports_at (tx : TransactionContext) (i : nat) : Z := from_option cell_lamports 0 (accounts tx !! i).
Definition sum_at (tx : TransactionContext) (indices : list nat) : Z :=
  foldr (fun i acc => lamports_at tx i + acc) 0 indices.

Lemma lamport_sum_loop_Ok tx ctx indices acc sum :
  lamport_sum_loop tx ctx indices acc = Ok sum ->
  sum = acc + sum_at tx (distinct_accounts ctx indices) /\
  forall i, i ∈ distinct_accounts ctx indices -> exists a, accounts tx !! i = Some (Some a).
Proof.
  revert acc. induction indices as [|i indices IH]; intros acc; cbn [lamport_sum_loop].
  { intros [= <-]. split; [cbn; lia |]. intros i Hi. by apply elem_of_nil in Hi. }
  unfold is_instruction_account_duplicate, get_index_of_instruction_account_in_transaction.
  unfold distinct_accounts. cbn [omap list_omap]. fold (distinct_accounts ctx indices).
  destruct (instruction_accounts ctx !! i) as [ia|]; cbn; [|done].
  destruct (index_in_callee ia =? i)%nat; cbn; [|apply IH].
  destruct (accounts tx !! index_in_transaction ia) as [[a|]|] eqn:Ea; cbn; [|done|done].
  unfold checked_add. destruct (lamports a + acc <=? u128_max); cbn; [|done].
  intros [-> Hall]%IH. split.
  - unfold sum_at. cbn. fold (sum_at tx (distinct_accounts ctx indices)).
    unfold lamports_at at 1. rewrite Ea. cbn. lia.
  - intros j [->|Hj]%elem_of_cons; [by exists a | by apply Hall].
Qed.

Definition instruction_account_indices (ctx : InstructionContext) : list nat :=
  distinct_accounts ctx (seq 0 (get_number_of_instruction_accounts ctx)).

Lemma lamport_sum_Ok tx ctx sum :
  lamport_sum tx ctx = Ok sum -> sum = sum_at tx (instruction_account_indices ctx).
Proof. intros [-> _]%lamport_sum_loop_Ok. done. Qed.

(** What entering an instruction leaves on the stack. *)
Lemma push_Ok tx tx' :
  push tx = (tx', Ok tt) ->
  exists next sum, last (instruction_trace tx) = Some next /\ lamport_sum tx next = Ok sum /\
    get_current_instruction_context tx' =
      Ok (mkInstructionContext (length (instruction_stack tx)) sum (program_accounts next)
            (instruction_accounts next) (instruction_data next)) /\
    accounts tx' = accounts tx /\
    instruction_stack tx' = instruction_stack tx ++ [get_instruction_trace_length tx].
Proof.
  unfold push. intros H. eff_inv.
  apply bind_Ok in H0 as (next & Hn%ok_or_Ok & Hsum).
  match goal with H : Ok _ = Ok ?i |- context [[?i]] => injection H as <- end.
  exists next, x0. split; [done |]. split; [done |].
  apply last_Some in Hn as [l Hl].
  unfold get_current_instruction_context, get_instruction_context_at_nesting_level,
    get_instruction_context_at_index_in_trace, get_instruction_context_stack_height,
    get_instruction_trace_length. cbn [set_stack set_trace instruction_stack instruction_trace accounts].
  rewrite Hl, update_last_app, !length_app. cbn [length].
  replace (length (instruction_stack tx) + 1 - 1)%nat with (length (instruction_stack tx)) by lia.
  replace (length l + 1 - 1)%nat with (length l) by lia.
  rewrite (proj2 (Nat.eqb_neq (length (instruction_stack tx) + 1) 0)) by lia.
  rewrite list_lookup_middle by done. cbn [ok_or obind].
  rewrite <- app_assoc. cbn [app]. by rewrite list_lookup_middle.
Qed.

(** An instruction that leaves successfully has moved lamports between its
    accounts only. *)
Lemma pop_Ok tx tx' :
  pop tx = (tx', Ok tt) ->
  exists ctx, get_current_instruction_context tx = Ok ctx /\
    lamport_sum tx ctx = Ok (instruction_accounts_lamport_sum ctx) /\
    accounts tx' = accounts tx.
Proof.
  unfold pop. case_bool_decide; [done |]. intros [= <- Hr].
  apply bind_Ok in Hr as (b & Hb & Hr). destruct b; [done |].
  apply bind_Ok in Hb as (ctx & Hc & Hb). apply bind_Ok in Hb as (? & _ & Hb).
  apply bind_Ok in Hb as (sum & Hs & [= Hb]). exists ctx. split; [done |]. split; [|done].
  rewrite Hs. f_equal. apply negb_false_iff, Z.eqb_eq in Hb. done.
Qed.

(** ** Moving lamports *)

Lemma set_lamports_Ok l s s' :
  set_lamports l s = (s', Ok tt) ->
  borrow_frame s s' /\ get_lamports s' = l /\ get_data s' = get_data s /\
  owner (account s'.2) = owner (account s.2).
Proof.
  intros E. pose proof (set_lamports_rules l s) as [Hf _]. rewrite E in Hf. split; [exact Hf |].
  revert E. unfold set_lamports, get_lamports, get_data. run_op; try done.
  - intros [= <-]. apply Z.eqb_eq in Heqb2. done.
  - by intros [= <-].
Qed.

Lemma checked_sub_lamports_Ok l s s' :
  checked_sub_lamports l s = (s', Ok tt) ->
  borrow_frame s s' /\ get_lamports s' = get_lamports s - l /\ l <= get_lamports s /\
  get_data s' = get_data s /\ owner (account s'.2) = owner (account s.2).
Proof.
  unfold checked_sub_lamports. intros E. eff_inv.
  match goal with H : ok_or _ _ = Ok _ |- _ => apply ok_or_Ok, checked_sub_Some in H as [-> Hle] end.
  apply set_lamports_Ok in E as (? & -> & ? & ?). split; [done |]. split; [done |]. split; [lia | done].
Qed.

Lemma checked_add_lamports_Ok l s s' :
  checked_add_lamports l s = (s', Ok tt) ->
  borrow_frame s s' /\ get_lamports s' = get_lamports s + l /\ get_data s' = get_data s /\
  owner (account s'.2) = owner (account s.2).
Proof.
  unfold checked_add_lamports. intros E. eff_inv.
  match goal with H : ok_or _ _ = Ok _ |- _ => apply ok_or_Ok, checked_add_Some in H as [-> _] end.
  by apply set_lamports_Ok in E as (? & -> & ? & ?).
Qed.

(** The lamports in all accounts of a transaction. *)
Definition total_lamports (tx : TransactionContext) : Z :=
  foldr (fun c acc => cell_lamports c + acc) 0 (accounts tx).

Lemma foldr_sum_insert {A} (f : A -> Z) l i c c' :
  l !! i = Some c ->
  foldr (fun c acc => f c + acc) 0 (<[i := c']> l) = foldr (fun c acc => f c + acc) 0 l - f c + f c'.
Proof.
  revert i. induction l as [|x l IH]; intros i Hi; [done |]. destruct i as [|i].
  - cbn in *. injection Hi as ->. lia.
  - change (<[S i := c']> (x :: l)) with (x :: <[i := c']> l). cbn [foldr]. rewrite (IH i Hi). lia.
Qed.

Lemma total_insert l i c c' :
  l !! i = Some c ->
  foldr (fun c acc => cell_lamports c + acc) 0 (<[i := c']> l) =
  foldr (fun c acc => cell_lamports c + acc) 0 l - cell_lamports c + cell_lamports c'.
Proof. apply foldr_sum_insert. Qed.

(** A successful run on an account of the instruction. *)
Lemma with_account_Ok {A} ctx i (m : eff borrowed InstructionError A) tx tx' a :
  with_instruction_account ctx i m tx = (tx', Ok a) ->
  exists idx acc s s', get_index_of_instruction_account_in_transaction ctx i = Ok idx /\
    accounts tx !! idx = Some (Some acc) /\ account s.2 = acc /\ ba_index_in_transaction s.2 = idx /\
    tx_rent s.1 = tx_rent tx /\ account_keys s.1 = account_keys tx /\
    accounts s.1 = <[idx := None]> (accounts tx) /\
    m s = (s', Ok a) /\ tx' = drop_account s'.
Proof.
  unfold with_instruction_account, try_borrow_instruction_account, ebind, eread.
  destruct (get_index_of_instruction_account_in_transaction ctx i) as [idx|?|]; [|done|done].
  unfold try_borrow_account. destruct (accounts tx !! idx) as [[acc|]|] eqn:Ea; [|done|done].
  match goal with |- context [m ?s] => set (s0 := s) end.
  destruct (m s0) as [s' r] eqn:Em. intros [= <- ->]. by exists idx, acc, s0, s'.
Qed.

Lemma total_data_insert l i c c' :
  l !! i = Some c ->
  foldr (fun c acc => cell_length c + acc) 0 (<[i := c']> l) =
  foldr (fun c acc => cell_length c + acc) 0 l - cell_length c + cell_length c'.
Proof. apply foldr_sum_insert. Qed.

Lemma cell_length_nonneg c : 0 <= cell_length c.
Proof. destruct c; cbn; lia. Qed.

Lemma total_data_cell l i c :
  l !! i = Some c -> 0 <= cell_length c <= foldr (fun c acc => cell_length c + acc) 0 l.
Proof.
  assert (forall l, 0 <= foldr (fun c acc => cell_length c + acc) 0 l) as Hpos.
  { clear. induction l as [|x l IH]; cbn; [lia |]. pose proof (cell_length_nonneg x). lia. }
  revert i. induction l as [|x l IH]; intros i Hi; [done |]. destruct i as [|i]; cbn in *.
  - injection Hi as ->. specialize (Hpos l). pose proof (cell_length_nonneg c). lia.
  - specialize (IH i Hi). pose proof (cell_length_nonneg x). lia.
Qed.

(** An operation on an account, borrowed for it, keeps the count. *)
Lemma with_account_budget initial ctx i op tx :
  0 <= initial <= i64_max - MAX_PERMITTED_ACCOUNTS_DATA_ALLOCATIONS_PER_TRANSACTION ->
  account_op op -> resize_within_budget initial tx ->
  resize_within_budget initial (with_instruction_account ctx i op tx).1.
Proof.
  intros Hi Hop [Hc Hb]. unfold with_instruction_account, try_borrow_instruction_account, ebind, eread.
  destruct (get_index_of_instruction_account_in_transaction ctx i) as [idx|?|]; [|by split|by split].
  unfold try_borrow_account. destruct (accounts tx !! idx) as [[a|]|] eqn:Ea; [|by split|by split].
  match goal with |- context [op ?s] => set (s0 := s) end.
  pose proof (total_data_cell _ _ _ Ea) as Hl. fold (total_data tx) in Hl. cbn [cell_length from_option] in Hl.
  assert (resizable s0) as Hr.
  { split; unfold s0, get_data; cbn; [done | |];
    unfold i64_min, i64_max, MAX_PERMITTED_ACCOUNTS_DATA_ALLOCATIONS_PER_TRANSACTION, MAX_PERMITTED_DATA_LENGTH in *; lia. }
  destruct (account_op_counts op s0 Hop Hr) as [Hd Hm].
  destruct (account_op_rules op s0 Hop) as [Hf _].
  destruct (op s0) as [s1 r]. cbn [fst] in *.
  split; unfold drop_account; cbn [set_accounts accounts_resize_delta]; [|done].
  unfold total_data. cbn [set_accounts accounts].
  rewrite (bf_accounts _ _ Hf), (bf_index _ _ Hf). unfold s0 in *. cbn [fst snd set_accounts accounts ba_index_in_transaction].
  rewrite list_insert_insert_eq, (total_data_insert _ _ _ _ Ea). fold (total_data tx).
  unfold get_data in Hd. cbn in Hd |- *. lia.
Qed.

(** It puts the account back where it was. *)
Lemma with_account_accounts {A} ctx i (m : eff borrowed InstructionError A) tx tx' a :
  with_instruction_account ctx i m tx = (tx', Ok a) ->
  (forall s s', m s = (s', Ok a) -> borrow_frame s s') ->
  exists idx acc s s', get_index_of_instruction_account_in_transaction ctx i = Ok idx /\
    accounts tx !! idx = Some (Some acc) /\ account s.2 = acc /\ account_keys s.1 = account_keys tx /\
    m s = (s', Ok a) /\ accounts tx' = <[idx := Some (account s'.2)]> (accounts tx) /\
    account_keys tx' = account_keys tx.
Proof.
  intros (idx & acc & s & s' & Hi & Hacc & Hs & Hidx & _ & Hk & Ha & Hm & ->)%with_account_Ok Hf.
  specialize (Hf _ _ Hm). exists idx, acc, s, s'. repeat (split; [done |]). unfold drop_account.
  cbn [set_accounts accounts account_keys].
  rewrite (bf_accounts _ _ Hf), (bf_index _ _ Hf), (bf_keys _ _ Hf), Ha, Hidx, list_insert_insert_eq. done.
Qed.

Lemma with_account_total {A} ctx i (m : eff borrowed InstructionError A) tx tx' a d :
  with_instruction_account ctx i m tx = (tx', Ok a) ->
  (forall s s', m s = (s', Ok a) -> borrow_frame s s' /\ get_lamports s' = get_lamports s + d) ->
  total_lamports tx' = total_lamports tx + d.
Proof.
  intros (idx & acc & s & s' & _ & Hacc & Hs & Hidx & _ & _ & Ha & Hm & ->)%with_account_Ok Hd.
  destruct (Hd _ _ Hm) as [Hf Hl]. unfold get_lamports in Hl. rewrite Hs in Hl.
  unfold total_lamports, drop_account. cbn [set_accounts accounts].
  rewrite (bf_accounts _ _ Hf), (bf_index _ _ Hf), Ha, Hidx, list_insert_insert_eq.
  rewrite (total_insert _ _ _ _ Hacc). cbn. rewrite Hl. lia.
Qed.

(** ** Properties *)

(** Whatever it returns, an operation of a program on a borrowed account
    changes no other account, and: only the owner program spends lamports or
    changes data, only a writable and non-executable account changes at all,
    the owner changes only on zeroed data, and the executable flag is only ever
    set, on a rent-exempt account. *)
Theorem account_ops_respect_rules op s :
  account_op op -> borrow_frame s (op s).1 /\ account_rules s (op s).1.
Proof. apply account_op_rules. Qed.

Definition demo_account : AccountSharedData := mkAccount 100 [0; 0] 9 false 0.
Definition demo_instruction : InstructionContext :=
  mkInstructionContext 0 0 [1%nat] [mkInstructionAccount 0 0 0 true true] [].
Definition demo_transaction : TransactionContext :=
  mkTransactionContext [5; 9] [None; Some (mkAccount 1 [] 0 true 0)] [false; false] 5 5 [0%nat]
    [demo_instruction] (0, []) 0 rent_default.
Definition demo_borrowed : borrowed :=
  (demo_transaction, mkBorrowedAccount demo_instruction 0 1 demo_account).

Lemma account_ops_respect_rules_witness :
  lamports (account (checked_sub_lamports 30 demo_borrowed).1.2) = 70 /\
  is_owned_by_current_program demo_borrowed = true.
Proof.
  destruct (account_ops_respect_rules (checked_sub_lamports 30) demo_borrowed) as [_ [H _ _ _ _ _]];
    [constructor |].
  split; [reflexivity | apply H; vm_compute; reflexivity].
Defined.

(** C40: through any sequence of operations on accounts of a transaction, each on
    an account that is borrowed for it, succeeding or not, the counter of the
    resizing is exactly the growth of the data of all accounts, and the data never
    grows by more than a transaction may allocate. *)
Theorem resize_budget_kept initial ctx ops tx :
  0 <= initial <= i64_max - MAX_PERMITTED_ACCOUNTS_DATA_ALLOCATIONS_PER_TRANSACTION ->
  Forall (fun '(_, op) => account_op op) ops -> resize_within_budget initial tx ->
  let tx' := foldl (fun tx '(i, op) => (with_instruction_account ctx i op tx).1) tx ops in
  resize_within_budget initial tx' /\
  total_data tx' <= initial + MAX_PERMITTED_ACCOUNTS_DATA_ALLOCATIONS_PER_TRANSACTION.
Proof.
  intros Hi Hops. revert tx. induction Hops as [|[i op] ops Hop _ IH]; intros tx Hb; cbn.
  - split; [done |]. destruct Hb. lia.
  - apply IH. by apply with_account_budget.
Qed.

Definition demo_pair : TransactionContext :=
  mkTransactionContext [5; 9] [Some demo_account; Some (mkAccount 1 [] 0 true 0)] [false; false] 5 5 [0%nat]
    [demo_instruction] (0, []) 0 rent_default.

Lemma resize_budget_kept_witness :
  let tx' := foldl (fun tx '(i, op) => (with_instruction_account demo_instruction i op tx).1) demo_pair
    [(0%nat, set_data_length 5); (0%nat, extend_from_slice [1]); (7%nat, set_data_length 9)] in
  accounts_resize_delta tx' = 4 /\ total_data tx' = 6.
Proof.
  destruct (resize_budget_kept 2 demo_instruction
    [(0%nat, set_data_length 5); (0%nat, extend_from_slice [1]); (7%nat, set_data_length 9)] demo_pair) as [[H _] _].
  - vm_compute. split; congruence.
  - repeat constructor.
  - split; vm_compute; congruence.
  - split; [reflexivity |]. apply (f_equal (fun z => z + 2)) in H. cbv zeta. rewrite Z.sub_add in H. by rewrite <- H.
Defined.

(** C39: if an instruction is entered, runs, and leaves without an error, the
    distinct accounts it was given hold together exactly the lamports they held
    when it was entered, however it moved them. *)
Theorem instruction_conserves_lamports tx0 tx1 tx2 tx3 ctx :
  push tx0 = (tx1, Ok tt) ->
  get_current_instruction_context tx1 = Ok ctx ->
  get_current_instruction_context tx2 = Ok ctx ->
  pop tx2 = (tx3, Ok tt) ->
  sum_at tx3 (instruction_account_indices ctx) = sum_at tx0 (instruction_account_indices ctx).
Proof.
  intros (next & sum & _ & Hs & Hc & _)%push_Ok Hc1 Hc2 (ctx' & Hc' & Hs' & Ha)%pop_Ok.
  assert (ctx' = ctx) as -> by congruence. rewrite Hc in Hc1. injection Hc1 as <-.
  apply lamport_sum_Ok in Hs, Hs'. cbn in Hs'.
  transitivity sum; [|done].
  rewrite Hs' at 2. unfold sum_at, lamports_at. by rewrite Ha.
Qed.

Lemma instruction_conserves_lamports_witness :
  let tx0 := mkTransactionContext [5; 6; 9] [Some demo_account; Some demo_account; Some (mkAccount 1 [] 0 true 0)]
    [false; false; false] 5 5 []
    [mkInstructionContext 0 0 [2%nat] [mkInstructionAccount 0 0 0 true true; mkInstructionAccount 1 1 1 false true] []]
    (0, []) 0 rent_default in
  let tx1 := (push tx0).1 in
  let tx2 := set_accounts tx1 [Some (account_set_lamports demo_account 130);
    Some (account_set_lamports demo_account 70); Some (mkAccount 1 [] 0 true 0)] in
  sum_at (pop tx2).1 [0%nat; 1%nat] = 200.
Proof.
  intros tx0 tx1 tx2.
  refine (instruction_conserves_lamports tx0 tx1 tx2 (pop tx2).1
    (mkInstructionContext 0 200 [2%nat]
       [mkInstructionAccount 0 0 0 true true; mkInstructionAccount 1 1 1 false true] []) _ _ _ _);
    vm_compute; reflexivity.
Defined.
