(* ===== verification/Credits.v ===== *)
(** * Vote credits

    The credits of a vote account: what a vote earns for its latency, and the
    history of credits by epoch ([increment_credits] of [VoteState.v]). *)

From S2P Require Import Prelude InstructionError AuthorizedVoters VoteState.

Definition max_credits (deprecate : bool) : Z :=
  if deprecate then VOTE_CREDITS_MAXIMUM_PER_SLOT else VOTE_CREDITS_MAXIMUM_PER_SLOT_OLD.

Lemma max_credits_ge d : 8 <= max_credits d.
Proof. destruct d; vm_compute; discriminate. Qed.

(** ** Credits of one vote *)

(** The closed form of the nested matches of the source. *)
Lemma credits_for_latency_eq l t d :
  0 <= l ->
  credits_for_latency l t d =
  if (l =? 0) || (d && negb t) then 1
  else Z.max 1 (Z.min (max_credits d) (max_credits d + VOTE_CREDITS_GRACE_SLOTS - l)).
Proof.
  intros Hl. unfold credits_for_latency.
  destruct ((l =? 0) || (d && negb t)) eqn:E; [done |].
  fold (max_credits d).
  pose proof (max_credits_ge d).
  assert (VOTE_CREDITS_GRACE_SLOTS = 2) as -> by done.
  destruct (checked_sub l 2) as [diff|] eqn:E1.
  - apply checked_sub_Some in E1 as [-> ?].
    destruct (l - 2) as [|p|p] eqn:Ep; [lia | | lia].
    destruct (checked_sub (max_credits d) (Z.pos p)) as [c|] eqn:E2.
    + apply checked_sub_Some in E2 as [-> ?]. destruct (max_credits d - Z.pos p) eqn:E3; lia.
    + apply checked_sub_None in E2. lia.
  - apply checked_sub_None in E1. lia.
Qed.

Lemma credits_for_latency_bounds l t d :
  0 <= l -> 1 <= credits_for_latency l t d <= max_credits d.
Proof.
  intros Hl. rewrite credits_for_latency_eq by done.
  pose proof (max_credits_ge d).
  destruct ((l =? 0) || (d && negb t)); lia.
Qed.

(** ** The history *)

(** Consecutive entries: the newer one starts from the credits of the older
    one, which earned some. *)
Definition credits_next (a b : Epoch * Z * Z) : Prop :=
  a.1.2 = b.2 /\ a.2 < a.1.2.

Record credits_ok (l : list (Epoch * Z * Z)) : Prop := {
  co_length : (length l <= MAX_EPOCH_CREDITS_HISTORY)%nat;
  co_entry : Forall (fun e => 0 <= e.2 /\ e.2 <= e.1.2 <= u64_max) l;
  co_chain : Sorted credits_next l;
}.

(** The list that [increment_credits] adds the credits to: its last entry is
    that of [epoch]. *)
Definition open_epoch (l : list (Epoch * Z * Z)) (epoch : Epoch) : list (Epoch * Z * Z) :=
  match last l with
  | None => [(epoch, 0, 0)]
  | Some (last_epoch, last_credits, prev_credits) =>
      if negb (epoch =? last_epoch) then
        let ec :=
          if negb (last_credits =? prev_credits)
          then l ++ [(epoch, last_credits, last_credits)]
          else update_last (fun '(_, c, p) => (epoch, c, p)) l in
        if (MAX_EPOCH_CREDITS_HISTORY <? length ec)%nat then tail ec else ec
      else l
  end.

Definition add_credits (c : Z) : Epoch * Z * Z -> Epoch * Z * Z :=
  fun '(e, cr, p) => (e, sat_add u64_max cr c, p).

Lemma increment_credits_eq s epoch c :
  epoch_credits (increment_credits s epoch c) =
  update_last (add_credits c) (open_epoch (epoch_credits s) epoch).
Proof. done. Qed.

Lemma last_tail_app {A} (l : list A) x : l <> [] -> last (tail (l ++ [x])) = Some x.
Proof. destruct l; [done |]. intros _. cbn. by rewrite last_snoc. Qed.

(** The open entry carries the account's credits so far. *)
Lemma open_epoch_last l epoch :
  exists p, last (open_epoch l epoch) =
    Some (epoch, match last l with Some (_, c, _) => c | None => 0 end, p).
Proof.
  destruct l as [|[[e c] p] l _] using rev_ind; [by eexists |].
  unfold open_epoch. rewrite last_snoc.
  destruct (Z.eqb_spec epoch e) as [->|]; cbn [negb]; [eexists; apply last_snoc |].
  destruct (negb (c =? p)).
  - destruct (_ <? _)%nat.
    + rewrite last_tail_app; [by eexists | by destruct l].
    + rewrite last_snoc. by eexists.
  - rewrite update_last_app. destruct (Nat.ltb_spec MAX_EPOCH_CREDITS_HISTORY (length (l ++ [(epoch, c, p)]))) as [Hlt|].
    + rewrite last_tail_app; [by eexists |]. intros ->. cbn in Hlt. unfold MAX_EPOCH_CREDITS_HISTORY in Hlt. lia.
    + rewrite last_snoc. by eexists.
Qed.

Lemma credits_ok_tail l : credits_ok l -> credits_ok (tail l).
Proof.
  intros [H1 H2 H3]. destruct l as [|x l]; [done |]. split; cbn in *.
  - lia.
  - by apply Forall_cons in H2 as [_ ?].
  - by apply Sorted_inv in H3 as [? _].
Qed.

Lemma Sorted_replace_last l x y :
  x.2 = y.2 -> Sorted credits_next (l ++ [x]) -> Sorted credits_next (l ++ [y]).
Proof.
  intros E H. pose proof H as [H1 _]%Sorted_app_inv.
  apply Sorted_snoc; [done |]. clear H1.
  destruct l as [|z l _] using rev_ind; [done |]. rewrite last_snoc.
  rewrite <- app_assoc in H. cbn in H. apply Sorted_app_inv in H as [_ H].
  apply Sorted_inv in H as [_ H]. inversion H as [|? ? [E1 E2]]; subst. split; congruence.
Qed.

(** Adding to the open entry keeps the history well-formed. *)
Lemma add_credits_ok l c : 0 <= c -> credits_ok l -> credits_ok (update_last (add_credits c) l).
Proof.
  intros Hc [H1 H2 H3]. destruct l as [|[[e cr] p] l _] using rev_ind; [done |].
  rewrite update_last_app. apply Forall_app in H2 as [H2 H4].
  apply Forall_cons in H4 as [H4 _]. cbn in H4. unfold sat_add.
  split.
  - rewrite length_app in *. done.
  - apply Forall_app. split; [done |]. constructor; [|done]. cbn. unfold sat_add. lia.
  - by eapply Sorted_replace_last; [|exact H3].
Qed.

Lemma open_epoch_ok l epoch : credits_ok l -> credits_ok (open_epoch l epoch).
Proof.
  intros Hok. pose proof Hok as [H1 H2 H3].
  destruct l as [|[[e c] p] l _] using rev_ind.
  { split; cbn; [unfold MAX_EPOCH_CREDITS_HISTORY; lia | | auto with fdp].
    constructor; [|done]. cbn. unfold u64_max. lia. }
  unfold open_epoch. rewrite last_snoc. apply Forall_app in H2 as [H2 H4].
  apply Forall_cons in H4 as [H4 _]. cbn in H4.
  destruct (Z.eqb_spec epoch e) as [->|]; cbn [negb]; [done |].
  destruct (Z.eqb_spec c p) as [->|]; cbn [negb].
  - rewrite update_last_app.
    rewrite (proj2 (Nat.ltb_ge _ _)) by (rewrite length_app in *; cbn in *; lia). split.
    + by rewrite length_app in *.
    + apply Forall_app. split; [done |]. by constructor.
    + by eapply Sorted_replace_last; [|exact H3].
  - assert (Forall (fun e => 0 <= e.2 /\ e.2 <= e.1.2 <= u64_max) ((l ++ [(e, c, p)]) ++ [(epoch, c, c)])) as Hf.
    { rewrite !Forall_app. split; [split; [done |] |]; (constructor; [cbn; lia | done]). }
    assert (Sorted credits_next ((l ++ [(e, c, p)]) ++ [(epoch, c, c)])) as Hs.
    { apply Sorted_snoc; [done |]. rewrite last_snoc. split; cbn; [done | lia]. }
    destruct (Nat.ltb_spec MAX_EPOCH_CREDITS_HISTORY (length ((l ++ [(e, c, p)]) ++ [(epoch, c, c)]))) as [Hlt|Hge].
    + revert Hf Hs Hlt. destruct ((l ++ [(e, c, p)]) ++ [(epoch, c, c)]) as [|x r] eqn:E; [cbn; lia |].
      intros Hf Hs Hlt. split; cbn in *.
      * apply (f_equal length) in E. rewrite length_app in E. cbn in E. lia.
      * by apply Forall_cons in Hf as [_ ?].
      * by apply Sorted_inv in Hs as [? _].
    + by split.
Qed.

(** [increment_credits] keeps the history well-formed and adds exactly
    [c], saturating, to the account's credits, in the entry of [epoch]. *)
Lemma increment_credits_spec s epoch c :
  0 <= c -> credits_ok (epoch_credits s) ->
  let s' := increment_credits s epoch c in
  credits_ok (epoch_credits s') /\ current_epoch s' = epoch /\
  credits s' = sat_add u64_max (credits s) c.
Proof.
  intros Hc Hok. cbn zeta. unfold current_epoch, credits.
  destruct (open_epoch_last (epoch_credits s) epoch) as [p Hp].
  rewrite increment_credits_eq. split; [by apply add_credits_ok, open_epoch_ok |].
  rewrite last_update_last, Hp. cbn. split; [done |]. done.
Qed.

(** ** Splitting rewards by commission *)

Lemma split_parts on c :
  0 <= on -> 0 < c < 100 ->
  let mine := on * c / 100 in let theirs := on * (100 - c) / 100 in
  0 <= mine <= on /\ 0 <= theirs <= on /\ on - 1 <= mine + theirs <= on.
Proof.
  intros Ho Hc. cbn zeta.
  pose proof (Z.div_mod (on * c) 100 ltac:(lia)). pose proof (Z.mod_pos_bound (on * c) 100 ltac:(lia)).
  pose proof (Z.div_mod (on * (100 - c)) 100 ltac:(lia)).
  pose proof (Z.mod_pos_bound (on * (100 - c)) 100 ltac:(lia)).
  nia.
Qed.

(** ** Properties *)

(** the credits of a vote are, in closed form, the maximum up to the grace
    period of two slots and one less for each slot after it, never less than
    one; votes without a latency, and all votes before timely credits, earn
    exactly one. *)
Theorem credits_for_latency_closed_form l t d :
  0 <= l ->
  credits_for_latency l t d =
    (if (l =? 0) || (d && negb t) then 1
     else Z.max 1 (Z.min (max_credits d) (max_credits d + VOTE_CREDITS_GRACE_SLOTS - l))) /\
  1 <= credits_for_latency l t d <= max_credits d.
Proof. intros Hl. split; [by apply credits_for_latency_eq | by apply credits_for_latency_bounds]. Qed.

Lemma credits_for_latency_closed_form_witness : credits_for_latency 7 true true = 11.
Proof. destruct (credits_for_latency_closed_form 7 true true ltac:(lia)) as [-> _]. reflexivity. Defined.

(** Crediting an account adds exactly the credits earned, saturating at
    the width of the counter, to the entry of the epoch, and the history stays
    a bounded chain in which every entry starts where the previous one ended. *)
Theorem increment_credits_correct s epoch c :
  0 <= c -> credits_ok (epoch_credits s) ->
  let s' := increment_credits s epoch c in
  credits_ok (epoch_credits s') /\ current_epoch s' = epoch /\
  credits s' = sat_add u64_max (credits s) c.
Proof. apply increment_credits_spec. Qed.

Lemma increment_credits_correct_witness :
  credits (increment_credits (increment_credits vote_state_default 4 5) 6 7) = 12.
Proof.
  destruct (increment_credits_correct vote_state_default 4 5) as (H1 & _ & H2);
    [lia | split; cbn; [lia | constructor | constructor] |].
  destruct (increment_credits_correct (increment_credits vote_state_default 4 5) 6 7)
    as (_ & _ & H3); [lia | exact H1 |]. rewrite H3, H2. reflexivity.
Defined.

(** the split of a reward between the voter and its stakers gives each
    its percentage rounded down, never more than the reward in total and at
    most one lamport less, without wrapping around; at 0 and 100 percent and
    above the whole reward goes to one side. *)
Theorem commission_split_exact s on :
  in_u64 on -> 0 <= commission s ->
  let '(mine, theirs, was_split) := commission_split s on in
  0 <= mine /\ 0 <= theirs /\ on - 1 <= mine + theirs <= on /\
  (was_split = false -> mine + theirs = on) /\
  mine = on * Z.min (commission s) 100 / 100.
Proof.
  intros [Ho1 Ho2] Hc. unfold commission_split.
  destruct (Z.eqb_spec (Z.min (commission s) 100) 0) as [->|H0].
  { rewrite Z.mul_0_r. repeat split; try lia; done. }
  destruct (Z.eqb_spec (Z.min (commission s) 100) 100) as [->|H1].
  { rewrite Z.div_mul by lia. repeat split; lia. }
  destruct (split_parts on (Z.min (commission s) 100) Ho1 ltac:(lia)) as (Hm & Ht & Hs).
  unfold u64_max in Ho2. unfold wrap64. rewrite !Z.mod_small by lia. repeat split; try done; lia.
Qed.

Lemma commission_split_exact_witness :
  let '(mine, theirs, _) := commission_split (set_commission vote_state_default 33) 101 in
  100 <= mine + theirs <= 101 /\ mine = 33.
Proof.
  pose proof (commission_split_exact (set_commission vote_state_default 33) 101
    ltac:(by vm_compute) ltac:(by vm_compute)) as H.
  cbn in *. destruct H as (_ & _ & H & _). split; [exact H | reflexivity].
Defined.
