(* ===== verification/Tower.v ===== *)
(** * Invariant of a tower of votes

    The well-formedness of the [votes] of a vote state, the relation a new
    tower must bear to the one it replaces, and what the operations of
    [VoteState.v] do to them. [tower_ok] is the list of guarantees in the
    comment above [process_new_vote_state] in
    [programs/vote/src/vote_state/mod.rs]. *)

From S2P Require Import Prelude InstructionError AuthorizedVoters VoteState Credits.

(** ** The invariant *)

Definition vote_ok (v : LandedVote) : Prop :=
  in_u64 (slot v) /\ 1 <= confirmation_count v <= Z.of_nat MAX_LOCKOUT_HISTORY.

(** Consecutive votes: slots ascend, confirmations descend, and the older
    vote is still locked out when the newer one is cast. *)
Definition vote_next (v w : LandedVote) : Prop :=
  slot v < slot w /\ confirmation_count w < confirmation_count v /\
  slot w <= last_locked_out_slot (lockout v).

Record tower_ok (l : list LandedVote) : Prop := {
  tower_conf : Forall vote_ok l;
  tower_chain : Sorted vote_next l;
}.

(** A rooted slot is older than every vote; slot 0 is the root an empty tower
    is given, and a vote for it may remain. *)
Definition root_ok (root : option Slot) (l : list LandedVote) : Prop :=
  forall r, root = Some r -> l <> [] /\ (r = 0 \/ Forall (fun v => r < slot v) l).

Record vote_state_ok (s : VoteState) : Prop := {
  vs_tower : tower_ok (votes s);
  vs_root : root_ok (root_slot s) (votes s);
  vs_latency : Forall (fun v => in_u8 (latency v)) (votes s);
  vs_credits : credits_ok (epoch_credits s);
}.

(** ** Progress of a tower *)

Definition root_le (r r' : option Slot) : Prop :=
  match r, r' with
  | Some a, Some b => a <= b
  | Some _, None => False
  | None, _ => True
  end.

(** What becomes of an old vote [s]: it is rooted, or it is still in the tower
    with at least its confirmations, or a later vote was cast, and its lockout
    had expired before every later vote of the tower. *)
Inductive vote_kept (root : option Slot) (l : list LandedVote) (s : LandedVote) : Prop :=
| kept_rooted r : root = Some r -> slot s <= r -> vote_kept root l s
| kept_confirmed t : t ∈ l -> slot t = slot s -> confirmation_count s <= confirmation_count t ->
    vote_kept root l s
| kept_expired n : n ∈ l -> slot s < slot n -> (forall t, t ∈ l -> slot t <> slot s) ->
    (forall t, t ∈ l -> slot s < slot t -> last_locked_out_slot (lockout s) < slot t) ->
    vote_kept root l s.

Record tower_advance (old new : VoteState) : Prop := {
  adv_root : root_le (root_slot old) (root_slot new);
  adv_kept : Forall (vote_kept (root_slot new) (votes new)) (votes old);
}.

#[export] Hint Constructors vote_kept : fdp.

(** ** Lockouts *)

Lemma lockout_of_pow l :
  0 <= lo_confirmation_count l < 64 -> lockout_of l = 2 ^ lo_confirmation_count l.
Proof.
  intros H. unfold lockout_of, wrap64, INITIAL_LOCKOUT. apply Z.mod_small. split; [lia |].
  apply Z.pow_lt_mono_r; lia.
Qed.

Lemma last_locked_out_mono l l' :
  lo_slot l = lo_slot l' ->
  0 <= lo_confirmation_count l -> lo_confirmation_count l <= lo_confirmation_count l' ->
  lo_confirmation_count l' < 64 ->
  last_locked_out_slot l <= last_locked_out_slot l'.
Proof.
  intros Hs H1 H2 H3. unfold last_locked_out_slot, sat_add.
  rewrite !lockout_of_pow, Hs by lia.
  pose proof (Z.pow_le_mono_r 2 (lo_confirmation_count l) (lo_confirmation_count l')). lia.
Qed.

(** ** Consequences of the invariant *)

Lemma tower_ok_nil : tower_ok [].
Proof. split; constructor. Qed.

Lemma tower_ok_cons_inv v l : tower_ok (v :: l) -> vote_ok v /\ tower_ok l /\ HdRel vote_next v l.
Proof.
  intros [H1 H2]. apply Forall_cons in H1 as [H1 H3]. apply Sorted_inv in H2 as [H2 H4].
  split; [done |]. split; [by split | done].
Qed.

Lemma tower_ok_app_l l1 l2 : tower_ok (l1 ++ l2) -> tower_ok l1.
Proof.
  intros [H1 H2]. apply Forall_app in H1 as [H1 _]. apply Sorted_app_inv in H2 as [H2 _].
  by split.
Qed.

Lemma tower_ok_app_r l1 l2 : tower_ok (l1 ++ l2) -> tower_ok l2.
Proof.
  intros [H1 H2]. apply Forall_app in H1 as [_ H1]. apply Sorted_app_inv in H2 as [_ H2].
  by split.
Qed.

#[export] Hint Resolve tower_ok_nil tower_ok_app_l tower_ok_app_r tower_conf tower_chain : fdp.

Lemma tower_slots_sorted l : tower_ok l -> StronglySorted (fun v w => slot v < slot w) l.
Proof.
  intros [_ H]. eapply (Sorted_strong vote_next); [|by intros x y [? _] | done].
  intros x y z. lia.
Qed.

Lemma tower_head_confirmations v l :
  tower_ok (v :: l) -> zlength (v :: l) <= confirmation_count v.
Proof.
  revert v. induction l as [|w l IH]; intros v (Hv & Hl & Hd)%tower_ok_cons_inv.
  - destruct Hv as [_ Hv]. cbn. lia.
  - specialize (IH w Hl). inversion Hd as [|? ? (_ & ? & _)]; subst. cbn [length] in *. lia.
Qed.

(** A well-formed tower holds at most [MAX_LOCKOUT_HISTORY] votes. *)
Lemma tower_ok_length l : tower_ok l -> (length l <= MAX_LOCKOUT_HISTORY)%nat.
Proof.
  destruct l as [|v l]; intros H; [cbn; lia |].
  pose proof (tower_head_confirmations v l H).
  apply tower_ok_cons_inv in H as ((_ & _ & Hv) & _). lia.
Qed.

(** ** [double_lockouts] *)

Definition bump (depth i : Z) (v : LandedVote) : LandedVote :=
  if i + confirmation_count v <? depth
  then mkLandedVote (latency v) (increase_confirmation_count (lockout v) 1)
  else v.

Lemma double_lockouts_votes s :
  votes (double_lockouts s) =
  imap (fun i v => bump (zlength (votes s)) (Z.of_nat i) v) (votes s).
Proof. done. Qed.

Lemma bump_slot d i v : slot (bump d i v) = slot v.
Proof. unfold bump. by destruct (_ <? _). Qed.

Lemma bump_conf d i v : confirmation_count v <= Z.of_nat MAX_LOCKOUT_HISTORY ->
  confirmation_count (bump d i v) =
  if i + confirmation_count v <? d then confirmation_count v + 1 else confirmation_count v.
Proof.
  intros H. unfold bump. destruct (_ <? _); [|done].
  change (sat_add u32_max (confirmation_count v) 1 = confirmation_count v + 1).
  unfold sat_add, u32_max, MAX_LOCKOUT_HISTORY in *. lia.
Qed.

Lemma bump_locked d i v : vote_ok v ->
  last_locked_out_slot (lockout v) <= last_locked_out_slot (lockout (bump d i v)).
Proof.
  intros (_ & H1 & H2). pose proof (bump_conf d i v H2) as Hc.
  unfold MAX_LOCKOUT_HISTORY in *. pose proof (bump_slot d i v) as Hs.
  unfold confirmation_count, slot in *.
  apply last_locked_out_mono; [done | lia | |]; rewrite Hc; destruct (_ <? _); lia.
Qed.

(** Pushing a vote on a tower that has room and doubling the lockouts gives a
    tower again; [k] is the number of votes below [l]. *)
Lemma bump_tower k l w depth :
  0 <= k -> depth = k + zlength l + 1 -> depth <= Z.of_nat MAX_LOCKOUT_HISTORY ->
  tower_ok l -> in_u64 (slot w) -> confirmation_count w = 1 ->
  match last l with
  | Some v => slot v < slot w /\ slot w <= last_locked_out_slot (lockout v)
  | None => True
  end ->
  tower_ok (imap (fun i v => bump depth (k + Z.of_nat i) v) (l ++ [w])).
Proof.
  intros Hk Hd Hmax Hl Hu Hw Hlast. revert k Hk Hd Hl Hlast.
  induction l as [|v l IH]; intros k Hk Hd Hl Hlast; cbn.
  - cbn in Hd. split; [|auto with fdp]. constructor; [|done].
    unfold vote_ok. rewrite bump_slot. split; [done |]. unfold MAX_LOCKOUT_HISTORY in *.
    rewrite bump_conf by (unfold MAX_LOCKOUT_HISTORY; lia). rewrite Hw.
    destruct (_ <? _); lia.
  - apply tower_ok_cons_inv in Hl as (Hv & Hl & Hhd).
    assert (imap (fun i v => bump depth (k + Z.of_nat (S i)) v) (l ++ [w]) =
            imap (fun i v => bump depth (k + 1 + Z.of_nat i) v) (l ++ [w])) as Heq.
    { apply imap_ext. intros i x _. by replace (k + Z.of_nat (S i)) with (k + 1 + Z.of_nat i) by lia. }
    unfold compose. rewrite Heq. cbn [length] in Hd.
    destruct (IH (k + 1)) as [H1 H2]; [lia | lia | done | by destruct l |].
    pose proof Hv as (Hu1 & Hv1 & Hv2).
    split.
    + constructor; [|done]. unfold vote_ok. rewrite bump_slot, bump_conf by done.
      split; [done |].
      case_test; lia.
    + constructor; [done |].
      destruct l as [|x l]; cbn; constructor; unfold vote_next; rewrite !bump_slot.
      * cbn in Hlast, Hd. destruct Hlast as [? ?]. split; [done |]. split; [|by etrans; [|apply bump_locked]].
        rewrite !bump_conf by (unfold MAX_LOCKOUT_HISTORY in *; lia). rewrite Hw.
        repeat case_test; lia.
      * inversion Hhd as [|? ? (? & ? & ?)]; subst. split; [done |]. split; [|by etrans; [|apply bump_locked]].
        rewrite !bump_conf by lia. repeat case_test; lia.
Qed.

(** Every vote of a doubled tower comes from a vote for the same slot with at
    most its confirmations. *)
Lemma elem_of_bump d l x :
  x ∈ imap (fun i v => bump d (Z.of_nat i) v) l ->
  exists y, y ∈ l /\ slot x = slot y.
Proof.
  intros (i & y & -> & Hy)%elem_of_lookup_imap_1. exists y.
  split; [by eapply list_elem_of_lookup_2 |]. apply bump_slot.
Qed.

Lemma bump_elem_of d l y :
  vote_ok y -> y ∈ l ->
  exists x, x ∈ imap (fun i v => bump d (Z.of_nat i) v) l /\ slot x = slot y /\
    confirmation_count y <= confirmation_count x.
Proof.
  intros (_ & _ & Hc) (i & Hi)%list_elem_of_lookup. exists (bump d (Z.of_nat i) y).
  split; [by apply (elem_of_lookup_imap_2 (fun i v => bump d (Z.of_nat i) v) l y i) |].
  split; [apply bump_slot |]. rewrite bump_conf by done. case_test; lia.
Qed.

(** ** [process_next_vote_slot] *)

(** The votes above the one that is rooted, if any, below the expired ones. *)
Record next_vote_shape (s s' : VoteState) (next : Slot) (ep : Epoch) (t d : bool)
    (rooted kept expired : list LandedVote) (w : LandedVote) : Prop := {
  nv_split : votes s = rooted ++ kept ++ expired;
  nv_expired : forall v, v ∈ expired -> last_locked_out_slot (lockout v) < next;
  nv_locked : match last kept with
              | Some v => next <= last_locked_out_slot (lockout v)
              | None => True
              end;
  nv_newer : forall v, v ∈ votes s -> slot v < next;
  nv_slot : slot w = next;
  nv_conf : confirmation_count w = 1;
  nv_latency : in_u8 (latency w);
  nv_room : (length kept < MAX_LOCKOUT_HISTORY)%nat;
  nv_votes : votes s' =
    imap (fun i v => bump (zlength (kept ++ [w])) (Z.of_nat i) v) (kept ++ [w]);
  nv_root : (rooted = [] /\ root_slot s' = root_slot s /\ epoch_credits s' = epoch_credits s) \/
            (exists v, rooted = [v] /\ root_slot s' = Some (slot v) /\
               epoch_credits s' =
               epoch_credits (increment_credits s ep (credits_for_latency (latency v) t d)) /\ kept <> []);
}.

Lemma last_voted_slot_None s : last_voted_slot s = None -> votes s = [].
Proof.
  unfold last_voted_slot, last_lockout. intros H%fmap_None%fmap_None. by apply last_None.
Qed.

Lemma last_voted_slot_max s l :
  tower_ok (votes s) -> last_voted_slot s = Some l -> forall v, v ∈ votes s -> slot v <= l.
Proof.
  intros Hok H v Hv. apply tower_slots_sorted in Hok.
  unfold last_voted_slot, last_lockout in H.
  destruct (votes s) as [|w vs _] using rev_ind; [by apply elem_of_nil in Hv |].
  rewrite last_snoc in H. injection H as <-.
  apply elem_of_app in Hv as [Hv|Hv]; [|by apply list_elem_of_singleton in Hv as ->].
  apply StronglySorted_app_inv in Hok as (_ & _ & Hok).
  apply Z.lt_le_incl, Hok; [done |]. by apply list_elem_of_singleton.
Qed.

Lemma compute_vote_latency_u8 sl cur : in_u8 (compute_vote_latency sl cur).
Proof. unfold compute_vote_latency, in_u8, sat_sub, u8_max. lia. Qed.

Lemma process_next_vote_slot_shape s next ep cur t d :
  tower_ok (votes s) ->
  let s' := process_next_vote_slot s next ep cur t d in
  (s' = s /\ exists l, last_voted_slot s = Some l /\ next <= l) \/
  (exists rooted kept expired w, next_vote_shape s s' next ep t d rooted kept expired w).
Proof.
  intros Hok. unfold process_next_vote_slot.
  destruct (match last_voted_slot s with Some l => next <=? l | None => false end) eqn:E.
  { left. split; [done |]. destruct (last_voted_slot s) as [l|]; [|done]. bool_to_prop. eauto. }
  right.
  assert (forall v, v ∈ votes s -> slot v < next) as Hnew.
  { intros v Hv. destruct (last_voted_slot s) as [l|] eqn:El.
    - bool_to_prop. pose proof (last_voted_slot_max s l Hok El v Hv). lia.
    - apply last_voted_slot_None in El. rewrite El in Hv. by apply elem_of_nil in Hv. }
  clear E. cbn [votes set_votes pop_expired_votes].
  set (p := fun vote => negb (is_locked_out_at_slot (lockout vote) next)).
  destruct (pop_back_while_split p (votes s)) as (expired & Hsplit & Hexp & Hlast).
  set (kept := pop_back_while p (votes s)) in *.
  assert (tower_ok kept) as Hkept by (rewrite Hsplit in Hok; eauto with fdp).
  assert (forall v, v ∈ expired -> last_locked_out_slot (lockout v) < next) as Hexp'.
  { rewrite Forall_forall in Hexp. intros v Hv. specialize (Hexp v Hv). unfold p in Hexp.
    bool_to_prop. unfold is_locked_out_at_slot in Hexp. by bool_to_prop. }
  assert (forall l x, last (l ++ kept) = Some x -> kept <> [] -> next <= last_locked_out_slot (lockout x)) as Hlocked.
  { intros l x Hx Hne. destruct kept as [|k0 kept0 _] using rev_ind; [done |].
    rewrite app_assoc, last_snoc in Hx. rewrite last_snoc in Hlast. injection Hx as ->.
    unfold p in Hlast. bool_to_prop. unfold is_locked_out_at_slot in Hlast. by bool_to_prop. }
  set (w := mkLandedVote _ (lockout_new next)).
  assert (in_u8 (latency w)) as Hlat.
  { subst w. cbn [latency]. destruct (t || negb d); [apply compute_vote_latency_u8 |].
    unfold in_u8, u8_max. lia. }
  destruct (Nat.eqb_spec (length kept) MAX_LOCKOUT_HISTORY) as [Hfull|Hroom].
  - destruct kept as [|v rest] eqn:Ek; [done |].
    assert (credits_for_vote_at_index (pop_expired_votes s next) 0 t d =
            credits_for_latency (latency v) t d) as Hcr.
    { unfold credits_for_vote_at_index. change (votes (pop_expired_votes s next)) with kept.
      by rewrite Ek. }
    rewrite Hcr.
    exists [v], rest, expired, w. split; try done; [| |right; exists v; split_and!; try done; by intros ->].
    + destruct (last rest) as [x|] eqn:El; [|done]. apply (Hlocked []); [|done].
      cbn. rewrite last_cons, El. done.
    + cbn in Hfull. lia.
  - exists [], kept, expired, w. pose proof (tower_ok_length kept Hkept).
    split; try done; [|lia|by left].
    destruct (last kept) as [x|] eqn:El; [|done]. apply (Hlocked []); [done |].
    intros E. rewrite E in El. done.
Qed.

Section next_vote.
Context (s s' : VoteState) (next : Slot) (rooted kept expired : list LandedVote) (w : LandedVote).
Context (ep : Epoch) (t d : bool).
Context (Ht : tower_ok (votes s)) (Hnext : in_u64 next)
        (Hshape : next_vote_shape s s' next ep t d rooted kept expired w).

Lemma next_vote_kept_ok : tower_ok kept.
Proof.
  pose proof Hshape as []. pose proof Ht as Hok. rewrite nv_split0 in Hok. eauto with fdp.
Qed.

Lemma next_vote_tower_ok : tower_ok (votes s').
Proof.
  pose proof Hshape as []. rewrite nv_votes0.
  assert (zlength (kept ++ [w]) = 0 + zlength kept + 1) as Hlen by (rewrite length_app; cbn; lia).
  pose proof (bump_tower 0 kept w _ ltac:(lia) Hlen) as Hb. apply Hb.
  - lia.
  - apply next_vote_kept_ok.
  - by rewrite nv_slot0.
  - done.
  - destruct (last kept) as [v|] eqn:E; [|done]. rewrite nv_slot0. split; [|done].
    apply nv_newer0. rewrite nv_split0. apply last_Some_elem_of in E. set_solver.
Qed.

Lemma next_vote_elem v : v ∈ votes s' -> slot v = next \/ exists y, y ∈ kept /\ slot v = slot y.
Proof.
  pose proof Hshape as []. rewrite nv_votes0. intros (y & Hy & Heq)%elem_of_bump.
  apply elem_of_app in Hy as [Hy|Hy%list_elem_of_singleton]; [eauto |]. subst y. left. congruence.
Qed.

Lemma next_vote_last_elem : exists n, n ∈ votes s' /\ slot n = next.
Proof.
  pose proof Hshape as []. rewrite nv_votes0, imap_app. eexists. split.
  - apply elem_of_app. right. apply list_elem_of_singleton. reflexivity.
  - by rewrite bump_slot, nv_slot0.
Qed.

Lemma next_vote_nonempty : votes s' <> [].
Proof.
  pose proof Hshape as []. rewrite nv_votes0. intros H%(f_equal length).
  rewrite length_imap, length_app in H. cbn in H. lia.
Qed.

Lemma next_vote_rooted_lt v y : v ∈ rooted -> y ∈ kept -> slot v < slot y.
Proof.
  pose proof Hshape as []. pose proof (tower_slots_sorted _ Ht) as Hsort.
  rewrite nv_split0 in Hsort. apply StronglySorted_app_inv in Hsort as (_ & _ & H).
  intros Hv Hy. apply H; [done |]. set_solver.
Qed.

Context (Hs : vote_state_ok s).

Lemma next_vote_root_ok : root_ok (root_slot s') (votes s').
Proof.
  pose proof Hshape as [? _ _ Hnewer _ _ _ _ _ Hroot]. intros r Hr. split; [apply next_vote_nonempty |].
  assert (forall v, v ∈ rooted ++ kept -> v ∈ votes s) as Hin by (rewrite nv_split0; set_solver).
  destruct Hroot as [(Hrt & Hr' & _)|(v & Hrt & Hr' & _)].
  - rewrite Hr in Hr'. destruct (vs_root s Hs r ltac:(done)) as [Hne [->|Hlt]]; [by left |].
    right. rewrite Forall_forall in *. intros x [->|(y & Hy & ->)]%next_vote_elem.
    + destruct (votes s) as [|v0 vs]; [done |].
      specialize (Hlt v0 ltac:(set_solver)). specialize (Hnewer v0 ltac:(set_solver)). lia.
    + apply Hlt, Hin. set_solver.
  - rewrite Hr in Hr'. injection Hr' as ->. right. rewrite Forall_forall.
    intros x [->|(y & Hy & ->)]%next_vote_elem.
    + apply Hnewer, Hin. rewrite Hrt. set_solver.
    + apply next_vote_rooted_lt; [rewrite Hrt; set_solver | done].
Qed.

Lemma next_vote_root_le : root_le (root_slot s) (root_slot s').
Proof.
  pose proof Hshape as [? _ _ _ _ _ _ _ _ Hroot].
  destruct Hroot as [(Hrt & -> & _)|(v & Hrt & -> & _)]; [by destruct (root_slot s); cbn; [lia |] |].
  destruct (root_slot s) as [r|] eqn:Hr; [|done]. cbn.
  assert (v ∈ votes s) as Hv by (rewrite nv_split0, Hrt; set_solver).
  destruct (vs_root s Hs r Hr) as [_ [->|Hlt]]; rewrite ?Forall_forall in *.
  - pose proof (tower_conf _ (vs_tower s Hs)) as Hc. rewrite Forall_forall in Hc.
    destruct (Hc v Hv) as [[? _] _]. done.
  - specialize (Hlt v Hv). lia.
Qed.

Lemma next_vote_advance : tower_advance s s'.
Proof.
  split; [apply next_vote_root_le |].
  pose proof next_vote_kept_ok as [Hkc _]. pose proof next_vote_rooted_lt as Hrl.
  pose proof (tower_slots_sorted _ (vs_tower s Hs)) as Hsort.
  pose proof Hshape as []. rewrite nv_split0 in Hsort |- *. rewrite Forall_forall in *. intros v Hv.
  apply elem_of_app in Hv as [Hv|[Hv|Hv]%elem_of_app].
  - destruct nv_root0 as [(Hrt & _)|(u & Hrt & Hr & _)]; rewrite Hrt in Hv; [by apply elem_of_nil in Hv |].
    apply list_elem_of_singleton in Hv as ->. eapply kept_rooted; [done | lia].
  - destruct (bump_elem_of (zlength (kept ++ [w])) (kept ++ [w]) v) as (x & Hx & Hsl & Hc);
      [by apply Hkc | set_solver |].
    eapply kept_confirmed; [rewrite nv_votes0; exact Hx | done | done].
  - apply StronglySorted_app_inv in Hsort as (_ & Hsort & _).
    apply StronglySorted_app_inv in Hsort as (_ & _ & Hlt).
    assert (slot v < next) by (apply nv_newer0; rewrite nv_split0; set_solver).
    destruct next_vote_last_elem as (n & Hn & Hns).
    apply (kept_expired _ _ _ n); [done | lia | |]; intros x [->|(y & Hy & ->)]%next_vote_elem; try (specialize (Hlt y v Hy Hv)).
    all: try lia. intros _. by apply nv_expired0.
Qed.

Lemma next_vote_ok : vote_state_ok s'.
Proof.
  split; [apply next_vote_tower_ok | apply next_vote_root_ok | |].
  - pose proof Hshape as []. rewrite nv_votes0, Forall_forall.
    pose proof (vs_latency s Hs) as Hl. rewrite Forall_forall in Hl.
    intros x (i & y & -> & Hy%list_elem_of_lookup_2)%elem_of_lookup_imap_1.
    replace (latency (bump _ _ y)) with (latency y) by (unfold bump; by destruct (_ <? _)).
    apply elem_of_app in Hy as [Hy|Hy%list_elem_of_singleton]; [|by subst].
    apply Hl. rewrite nv_split0. set_solver.
  - pose proof (vs_credits s Hs) as Hc. pose proof (vs_latency s Hs) as Hl.
    pose proof Hshape as []. destruct nv_root0 as [(_ & _ & ->)|(v & Hrt & _ & -> & _)]; [done |].
    apply increment_credits_spec; [|done]. rewrite Forall_forall in Hl.
    destruct (Hl v) as [Hv _]; [rewrite nv_split0, Hrt; set_solver |].
    pose proof (credits_for_latency_bounds (latency v) t d Hv). lia.
Qed.
End next_vote.

(** A vote for a slot either changes nothing or pushes that slot. *)
Lemma process_next_vote_slot_spec s next ep cur t d :
  vote_state_ok s -> in_u64 next ->
  let s' := process_next_vote_slot s next ep cur t d in
  vote_state_ok s' /\ tower_advance s s'.
Proof.
  intros Hs Hn. pose proof (process_next_vote_slot_shape s next ep cur t d (vs_tower s Hs)) as Hsh.
  cbn zeta in *. destruct Hsh as [[-> _]|(rooted & kept & expired & w & Hsh)].
  - split; [done |]. split; [by destruct (root_slot s); cbn; [lia |] |].
    apply Forall_forall. intros v Hv. by eapply kept_confirmed.
  - pose proof (vs_tower s Hs). split; [by eapply next_vote_ok | by eapply next_vote_advance].
Qed.
