(* ===== verification/VoteVersions.v ===== *)
(** * Versions of the stored vote state

    [sdk/program/src/vote/state/vote_state_versions.rs],
    [vote_state_1_14_11.rs] and [vote_state_0_23_5.rs]: the layouts a vote
    account may hold, and their conversion to the current one. *)

From S2P Require Import Prelude InstructionError AuthorizedVoters VoteState Credits Tower.

(** The circular buffer of the first version has no flag for an empty one, and
    its prior voters have a fourth component; the conversion drops it. *)
Record CircBuf0_23_5 (I : Type) := mkCircBuf0_23_5 { v0_buf : list I; v0_idx : nat }.
#[global] Instance CircBuf0_23_5_eq_dec {A} `{EqDecision A} : EqDecision (CircBuf0_23_5 A).
Proof. solve_decision. Defined.

Record VoteState0_23_5 := mkVoteState0_23_5 {
  v0_node_pubkey : Pubkey;
  v0_authorized_voter : Pubkey;
  v0_authorized_voter_epoch : Epoch;
  v0_prior_voters : CircBuf0_23_5 (Pubkey * Epoch * Epoch * Slot);
  v0_authorized_withdrawer : Pubkey;
  v0_commission : Z;
  v0_votes : list Lockout;
  v0_root_slot : option Slot;
  v0_epoch_credits : list (Epoch * Z * Z);
  v0_last_timestamp : BlockTimestamp;
}.

Record VoteState1_14_11 := mkVoteState1_14_11 {
  v1_node_pubkey : Pubkey;
  v1_authorized_withdrawer : Pubkey;
  v1_commission : Z;
  v1_votes : list Lockout;
  v1_root_slot : option Slot;
  v1_authorized_voters : AuthorizedVoters;
  v1_prior_voters : CircBuf (Pubkey * Epoch * Epoch);
  v1_epoch_credits : list (Epoch * Z * Z);
  v1_last_timestamp : BlockTimestamp;
}.

Inductive VoteStateVersions :=
| V0_23_5 (state : VoteState0_23_5)
| V1_14_11 (state : VoteState1_14_11)
| Current (state : VoteState).

Definition vote_state_size_of_1_14_11 : Z := 3731.

Definition vote_state_1_14_11_from (vote_state : VoteState) : VoteState1_14_11 :=
  mkVoteState1_14_11 (node_pubkey vote_state) (authorized_withdrawer vote_state)
    (commission vote_state) (lockout <$> votes vote_state) (root_slot vote_state)
    (authorized_voters vote_state) (prior_voters vote_state) (epoch_credits vote_state)
    (last_timestamp vote_state).

Definition landed_votes_from_lockouts (lockouts : list Lockout) : list LandedVote :=
  landed_from_lockout <$> lockouts.

Definition convert_to_current (self : VoteStateVersions) : VoteState :=
  match self with
  | V0_23_5 state =>
      mkVoteState (v0_node_pubkey state) (v0_authorized_withdrawer state) (v0_commission state)
        (landed_votes_from_lockouts (v0_votes state)) (v0_root_slot state)
        (authorized_voters_new (v0_authorized_voter_epoch state) (v0_authorized_voter state))
        (circ_default prior_voter_default) (v0_epoch_credits state) (v0_last_timestamp state)
  | V1_14_11 state =>
      mkVoteState (v1_node_pubkey state) (v1_authorized_withdrawer state) (v1_commission state)
        (landed_votes_from_lockouts (v1_votes state)) (v1_root_slot state)
        (v1_authorized_voters state) (v1_prior_voters state) (v1_epoch_credits state)
        (v1_last_timestamp state)
  | Current state => state
  end.

Definition is_uninitialized (self : VoteStateVersions) : bool :=
  match self with
  | V0_23_5 vote_state => v0_authorized_voter vote_state =? pubkey_default
  | V1_14_11 vote_state => authorized_voters_is_empty (v1_authorized_voters vote_state)
  | Current vote_state => authorized_voters_is_empty (authorized_voters vote_state)
  end.

Definition vote_state_size_of (is_current : bool) : Z :=
  if is_current then vote_state_size_of_current else vote_state_size_of_1_14_11.

(** ** Properties *)

(** Storing the old version loses the latencies and nothing else. *)
Definition forget_latencies (vs : VoteState) : VoteState :=
  set_votes vs ((fun v => mkLandedVote 0 (lockout v)) <$> votes vs).

Lemma convert_downgraded vs :
  convert_to_current (V1_14_11 (vote_state_1_14_11_from vs)) = forget_latencies vs.
Proof.
  unfold forget_latencies, set_votes, vote_state_1_14_11_from, landed_votes_from_lockouts. cbn.
  by rewrite <- list_fmap_compose.
Qed.

Lemma downgraded_uninitialized vs :
  is_uninitialized (V1_14_11 (vote_state_1_14_11_from vs)) = is_uninitialized (Current vs).
Proof. done. Qed.
