(* ===== verification/Authority.v ===== *)
(** * Who may vote

    The history of the authorized voters of a vote state: what
    [get_and_update_authorized_voter] and [set_new_authorized_voter] of
    [VoteState.v] do to the voter of each epoch. *)

From S2P Require Import Prelude InstructionError AuthorizedVoters VoteState.

(** Everything but the authorized voters and their history is kept. *)
Record only_voters_changed (vs vs' : VoteState) : Prop := {
  ov_node : node_pubkey vs' = node_pubkey vs;
  ov_withdrawer : authorized_withdrawer vs' = authorized_withdrawer vs;
  ov_commission : commission vs' = commission vs;
  ov_votes : votes vs' = votes vs;
  ov_root : root_slot vs' = root_slot vs;
  ov_credits : epoch_credits vs' = epoch_credits vs;
  ov_timestamp : last_timestamp vs' = last_timestamp vs;
}.

#[global] Instance only_voters_changed_preorder : PreOrder only_voters_changed.
Proof. split; [done |]. intros ? ? ? [] []. split; congruence. Qed.

(** The voters of the epochs from [e] on are the same. *)
Definition same_voters_from (e : Epoch) (m m' : AuthorizedVoters) : Prop :=
  forall e' p, e <= e' -> voter_at m' e' p <-> voter_at m e' p.

(** The latest entry at or before [ep] is moved to [ep] and the older ones go. *)
Lemma cached_voters_same m m' ep p :
  voter_at m ep p -> m' !! ep = Some p ->
  (forall k, k < ep -> m' !! k = None) -> (forall k, ep < k -> m' !! k = m !! k) ->
  same_voters_from ep m m'.
Proof.
  intros (k0 & Hk0 & Hle0 & Hmax0) Hp Hlt Hgt e q He. split; intros (k & Hk & Hle & Hmax).
  - destruct (Z.lt_trichotomy k ep) as [H|[->|H]]; [rewrite Hlt in Hk by done; done | |].
    + exists k0. assert (q = p) as -> by congruence. split; [done |]. split; [lia |].
      intros k' Hk' Hle'. destruct (Z.le_gt_cases k' ep); [by apply Hmax0 |].
      specialize (Hmax k'). rewrite Hgt in Hmax by done. specialize (Hmax Hk' Hle'). lia.
    + exists k. rewrite Hgt in Hk by done. split; [done |]. split; [done |]. intros k' Hk' Hle'.
      destruct (Z.le_gt_cases k' ep); [lia |]. apply Hmax; [by rewrite Hgt | done].
  - destruct (Z.le_gt_cases k ep) as [H|H].
    + assert (k = k0) as ->.
      { apply Z.le_antisymm; [apply Hmax0; eauto | apply Hmax; [eauto | lia]]. }
      exists ep. split; [congruence |]. split; [done |]. intros k' [q' Hk'] Hle'.
      destruct (Z.le_gt_cases k' ep); [done |]. rewrite Hgt in Hk' by done.
      specialize (Hmax k' ltac:(eauto) Hle'). lia.
    + exists k. rewrite Hgt by done. split; [done |]. split; [done |]. intros k' [q' Hk'] Hle'.
      destruct (Z.le_gt_cases k' ep); [lia |]. rewrite Hgt in Hk' by done. apply Hmax; eauto.
Qed.

Definition keys_le (m : AuthorizedVoters) (e : Epoch) : Prop := forall k, is_Some (m !! k) -> k <= e.

(** The result, and what is left of the map. *)
Record updated_voters (vs vs' : VoteState) (ep : Epoch) (p : Pubkey) : Prop := {
  uv_voter : voter_at (authorized_voters vs) ep p;
  uv_entry : authorized_voters vs' !! ep = Some p;
  uv_old : forall k, k < ep -> authorized_voters vs' !! k = None;
  uv_later : forall k, ep < k -> authorized_voters vs' !! k = authorized_voters vs !! k;
}.

Lemma get_and_update_spec vs ep vs' r :
  epochs_nonneg (authorized_voters vs) -> 0 <= ep ->
  get_and_update_authorized_voter vs ep = (vs', r) ->
  only_voters_changed vs vs' /\ epochs_nonneg (authorized_voters vs') /\
  match r with
  | Ok p => updated_voters vs vs' ep p
  | Err e => e = InvalidAccountData /\ vs' = vs /\ forall p, ~ voter_at (authorized_voters vs) ep p
  | Panic => False
  end.
Proof.
  intros Hnn Hep. unfold get_and_update_authorized_voter.
  destruct (get_and_cache_authorized_voter_for_epoch _ ep) as [av o] eqn:E.
  destruct o as [p|].
  - destruct (get_and_cache_spec _ _ _ _ Hnn Hep E) as (Hv & He & Hnn' & Hother).
    destruct (purge_Ok (E := InstructionError) av ep) as [av' Hp]; [eauto |]. rewrite Hp.
    pose proof (purge_lookup _ _ _ Hp) as Hl. intros [= <- <-]. split; [done |].
    cbn [authorized_voters set_authorized_voters]. split; [|split; cbn; try done].
    + intros k. rewrite Hl. case_decide; [by intros [? ?] |]. apply Hnn'.
    + rewrite Hl, decide_False by lia. done.
    + intros k Hk. rewrite Hl. case_decide; [done |].
      destruct (av !! k) eqn:Ek; [|done]. specialize (Hnn' k ltac:(eauto)). lia.
    + intros k Hk. rewrite Hl, decide_False, Hother by lia. done.
  - unfold get_and_cache_authorized_voter_for_epoch in E.
    destruct (get_or_calculate_authorized_voter_for_epoch _ ep) as [[? ?]|] eqn:E2; [done |].
    injection E as <-. intros [= <- <-]. destruct vs. cbn in *. repeat split; try done.
    intros p Hp%get_authorized_voter_spec; [|done]. unfold av_get_authorized_voter in Hp.
    by rewrite E2 in Hp.
Qed.

(** Setting a voter from [target] on. *)
Lemma insert_voter_at m target p e q :
  keys_le m target ->
  voter_at (<[target := p]> m) e q <-> (if target <=? e then q = p else voter_at m e q).
Proof.
  intros Hle. destruct (Z.leb_spec target e) as [H|H]; split.
  - intros (k & Hk & Hke & Hmax). assert (target <= k) by (apply Hmax; [|lia]; by rewrite lookup_insert_eq).
    destruct (decide (k = target)) as [->|Hne]; [by rewrite lookup_insert_eq in Hk; congruence |].
    rewrite lookup_insert_ne in Hk by congruence. specialize (Hle k ltac:(eauto)). lia.
  - intros ->. exists target. rewrite lookup_insert_eq. split; [done |]. split; [done |].
    intros k. rewrite lookup_insert. case_decide; [lia |]. intros Hk _. by apply Hle.
  - intros (k & Hk & Hke & Hmax). rewrite lookup_insert_ne in Hk by lia. exists k. split; [done |].
    split; [done |]. intros k' Hk' Hle'. apply Hmax; [|done]. by rewrite lookup_insert_ne by lia.
  - intros (k & Hk & Hke & Hmax). exists k. rewrite lookup_insert_ne by lia. split; [done |].
    split; [done |]. intros k' Hk' Hle'. rewrite lookup_insert_ne in Hk' by lia. by apply Hmax.
Qed.

Lemma updated_voters_same vs vs' ep p :
  updated_voters vs vs' ep p -> same_voters_from ep (authorized_voters vs) (authorized_voters vs').
Proof. intros []. by eapply cached_voters_same. Qed.

Lemma updated_voters_keys vs vs' ep p e :
  updated_voters vs vs' ep p -> ep <= e -> keys_le (authorized_voters vs) e ->
  keys_le (authorized_voters vs') e.
Proof.
  intros [Hv He Ho Hl] Hle Hk k [q Hq]. destruct (Z.lt_trichotomy k ep) as [H|[->|H]]; [|done|].
  - rewrite Ho in Hq by done. done.
  - rewrite Hl in Hq by done. apply Hk. eauto.
Qed.

(** What a change of voter did. *)
Record voter_changed (vs vs' : VoteState) (new_voter : Pubkey) (cur target : Epoch)
    (verify : Pubkey -> outcome InstructionError unit) : Prop := {
  vc_signed : exists p, voter_at (authorized_voters vs) cur p /\ verify p = Ok tt;
  vc_once : authorized_voters vs !! target = None;
  vc_voters : forall e q, cur <= e ->
    voter_at (authorized_voters vs') e q <->
    if target <=? e then q = new_voter else voter_at (authorized_voters vs) e q;
}.

Lemma set_new_authorized_voter_spec vs pk cur target verify vs' r :
  epochs_nonneg (authorized_voters vs) -> 0 <= cur < target -> keys_le (authorized_voters vs) target ->
  (forall p, verify p <> Panic) ->
  set_new_authorized_voter vs pk cur target verify = (vs', r) ->
  only_voters_changed vs vs' /\ epochs_nonneg (authorized_voters vs') /\
  keys_le (authorized_voters vs') target /\
  match r with
  | Ok _ => voter_changed vs vs' pk cur target verify
  | Err _ => same_voters_from cur (authorized_voters vs) (authorized_voters vs')
  | Panic => False
  end.
Proof.
  intros Hnn [Hcur Hlt] Hk Hver. unfold set_new_authorized_voter.
  destruct (get_and_update_authorized_voter vs cur) as [vs1 r1] eqn:E.
  destruct (get_and_update_spec _ _ _ _ Hnn Hcur E) as (Hov & Hnn1 & Hr1).
  destruct r1 as [p|?|]; cbn [obind]; [|intros [= <- <-]; by destruct Hr1 as (_ & -> & _) | done].
  pose proof (updated_voters_same _ _ _ _ Hr1) as Hsame.
  pose proof (updated_voters_keys _ _ _ _ target Hr1 ltac:(lia) Hk) as Hk1.
  specialize (Hver p). destruct (verify p) as [[]|?|] eqn:Ev; [|by intros [= <- <-] | done].
  unfold authorized_voters_contains. case_bool_decide as Hc; [by intros [= <- <-] |].
  apply eq_None_not_Some in Hc.
  destruct (authorized_voters_last (authorized_voters vs1)) as [[le lp]|] eqn:El;
    [|intros [= <- <-]; done].
  apply btree_last_Some in El as [Hle1 Hle2].
  assert (le < target) as Hlast.
  { assert (le <> target) by (intros ->; congruence). specialize (Hk1 le ltac:(eauto)). lia. }
  assert (forall vs2, only_voters_changed vs vs2 ->
    authorized_voters vs2 = <[target := pk]> (authorized_voters vs1) ->
    only_voters_changed vs vs2 /\ epochs_nonneg (authorized_voters vs2) /\
    keys_le (authorized_voters vs2) target /\ voter_changed vs vs2 pk cur target verify) as Hdone.
  { intros vs2 Hov2 Hav. split; [done |]. split; [|split].
    - intros k. rewrite Hav, lookup_insert. case_decide; [lia | apply Hnn1].
    - intros k. rewrite Hav, lookup_insert. case_decide; [lia | apply Hk1].
    - split.
      + exists p. split; [apply Hr1 | done].
      + rewrite (uv_later _ _ _ _ Hr1) in Hc by lia. done.
      + intros e q He. rewrite Hav, insert_voter_at by done. destruct (target <=? e); [done | by apply Hsame]. }
  destruct Hov. destruct (negb _); [rewrite (proj2 (Z.ltb_lt le target)) by done |];
    intros [= <- <-]; by apply Hdone.
Qed.

(** ** Properties *)

(** Reading the voter of the current epoch returns the one of the latest
    entry at or before it, never panics, and the caching and purging it does
    change the voter of no later epoch and no other field. *)
Theorem authorized_voter_lookup_sound vs ep :
  epochs_nonneg (authorized_voters vs) -> 0 <= ep ->
  let '(vs', r) := get_and_update_authorized_voter vs ep in
  only_voters_changed vs vs' /\
  same_voters_from ep (authorized_voters vs) (authorized_voters vs') /\
  match r with
  | Ok p => voter_at (authorized_voters vs) ep p /\ forall k, k < ep -> authorized_voters vs' !! k = None
  | Err e => e = InvalidAccountData /\ forall p, ~ voter_at (authorized_voters vs) ep p
  | Panic => False
  end.
Proof.
  intros Hnn Hep. destruct (get_and_update_authorized_voter vs ep) as [vs' r] eqn:E.
  destruct (get_and_update_spec _ _ _ _ Hnn Hep E) as (Hov & _ & Hr). split; [done |].
  destruct r as [p|?|]; [| |done].
  - split; [by eapply updated_voters_same |]. by destruct Hr.
  - by destruct Hr as (-> & -> & ?).
Qed.

Definition demo_voters : VoteState :=
  set_authorized_voters vote_state_default (<[3 := 30]> (<[1 := 10]> ∅)).

Lemma demo_voters_nonneg : epochs_nonneg (authorized_voters demo_voters).
Proof.
  intros k [v Hv]. cbn in Hv. rewrite !lookup_insert in Hv.
  repeat case_decide; try lia. by rewrite lookup_empty in Hv.
Defined.

Lemma authorized_voter_lookup_sound_witness : voter_at (authorized_voters demo_voters) 2 10.
Proof.
  pose proof (authorized_voter_lookup_sound demo_voters 2 demo_voters_nonneg ltac:(lia)) as H.
  destruct (get_and_update_authorized_voter demo_voters 2) as [vs' r] eqn:E.
  assert (r = Ok 10) as -> by (vm_compute in E; congruence). apply H.
Defined.

(** A new voter is set only with the approval of the voter of the current
    epoch and at most once per target epoch; it votes from the target epoch
    on, and the voters of the epochs before are unchanged. The assertion on
    the order of the epochs does not fail while the clock moves forward. *)
Theorem new_voter_from_target_epoch vs pk cur target verify :
  epochs_nonneg (authorized_voters vs) -> 0 <= cur < target -> keys_le (authorized_voters vs) target ->
  (forall p, verify p <> Panic) ->
  let '(vs', r) := set_new_authorized_voter vs pk cur target verify in
  only_voters_changed vs vs' /\ keys_le (authorized_voters vs') target /\
  match r with
  | Ok _ => voter_changed vs vs' pk cur target verify
  | Err _ => same_voters_from cur (authorized_voters vs) (authorized_voters vs')
  | Panic => False
  end.
Proof.
  intros Hnn Hc Hk Hv. destruct (set_new_authorized_voter _ _ _ _ _) as [vs' r] eqn:E.
  by destruct (set_new_authorized_voter_spec _ _ _ _ _ _ _ Hnn Hc Hk Hv E) as (? & _ & ? & ?).
Qed.

Lemma new_voter_from_target_epoch_witness :
  let '(vs', r) := set_new_authorized_voter demo_voters 50 2 5 (fun _ => Ok tt) in
  r = Ok tt /\ voter_at (authorized_voters vs') 6 50 /\ voter_at (authorized_voters vs') 4 30.
Proof.
  assert (keys_le (authorized_voters demo_voters) 5) as Hk.
  { intros k [v Hv]. cbn in Hv. rewrite !lookup_insert in Hv.
    repeat case_decide; try lia. by rewrite lookup_empty in Hv. }
  pose proof (new_voter_from_target_epoch demo_voters 50 2 5 (fun _ => Ok tt)
    demo_voters_nonneg ltac:(lia) Hk ltac:(done)) as H.
  destruct (set_new_authorized_voter _ _ _ _ _) as [vs' r] eqn:E.
  assert (r = Ok tt) as -> by (vm_compute in E; congruence). destruct H as (_ & _ & [_ _ H]).
  split; [done |]. split; [by apply (H 6 50); [lia |] |].
  apply (H 4 30); [lia |]. cbn. exists 3. split; [done |]. split; [lia |].
  intros k [v Hv] _. cbn in Hv. rewrite !lookup_insert in Hv.
  repeat case_decide; try lia. by rewrite lookup_empty in Hv.
Defined.
