(* ===== verification/VoteProcess.v ===== *)
(** * Processing votes

    [programs/vote/src/vote_state/mod.rs], the part that works on a
    [VoteState]: the checks of a vote against the slot hashes of the bank, the
    replacement of a tower by a proposed one, and the vote-by-vote path. The
    loops of the source keep their index variables; a loop is a [Fixpoint] on
    fuel, and the fuel its caller passes is the measure that every iteration
    decreases. *)

From S2P Require Import Prelude InstructionError AuthorizedVoters VoteState.

(** A list of the bank's recent slots and their hashes, newest first. *)
Abbreviation SlotHash := (Z * Z)%type.

(** The two features of the runtime that these functions consult. *)
Record FeatureSet := mkFeatureSet {
  timely_vote_credits : bool;
  deprecate_unused_legacy_vote_plumbing : bool;
  vote_state_add_vote_latency : bool;
  allow_commission_decrease_at_any_time : bool;
  commission_updates_only_allowed_in_first_half_of_epoch : bool;
}.

(** ** Checking a proposed vote state *)

(** The root that replaces a proposed root too old to be in the history. *)
Fixpoint find_replacement_root (rev_votes : list LandedVote) (proposed_root : Slot)
    (root : option Slot) : option Slot :=
  match rev_votes with
  | [] => root
  | vote :: rest =>
      if slot vote <=? proposed_root then Some (slot vote)
      else find_replacement_root rest proposed_root root
  end.

Definition replace_old_root (vote_state : VoteState) (root : option Slot)
    (earliest_slot_hash_in_history : Slot) : option Slot :=
  match root with
  | Some proposed_root =>
      if proposed_root <? earliest_slot_hash_in_history
      then find_replacement_root (reverse (votes vote_state)) proposed_root (root_slot vote_state)
      else root
  | None => None
  end.

(** The variables of the [while] loop: [root_to_check],
    [vote_state_update_index], [slot_hashes_index] and
    [vote_state_update_indexes_to_filter]. *)
Record CheckLoop := mkCheckLoop {
  root_to_check : option Slot;
  vsu_index : nat;
  slot_hashes_index : nat;
  indexes_to_filter : list nat;
}.

Section check_update.
Context (vote_state : VoteState) (lockouts : list Lockout) (slot_hashes : list SlotHash)
        (earliest_slot_hash_in_history : Slot).

(** One iteration: [Ok (inl st)] continues with [st], [Ok (inr st)] leaves
    the loop. *)
Definition check_update_step (st : CheckLoop) : outcome VoteError (CheckLoop + CheckLoop) :=
  if ((vsu_index st <? length lockouts) && (0 <? slot_hashes_index st))%nat then
    proposed_vote_slot ←?
      match root_to_check st with
      | Some root => Ok root
      | None => expect (lo_slot <$> lockouts !! vsu_index st)
      end;
    out_of_order ←?
      (if negb (bool_decide (is_Some (root_to_check st))) && (0 <? vsu_index st)%nat
       then prev ←? expect (lockouts !! (vsu_index st - 1)%nat);
            Ok (proposed_vote_slot <=? lo_slot prev)
       else Ok false);
    _ ←? ensure (negb out_of_order) SlotsNotOrdered;
    ancestor_slot ←? expect (fst <$> slot_hashes !! (slot_hashes_index st - 1)%nat);
    match proposed_vote_slot ?= ancestor_slot with
    | Lt =>
        if (slot_hashes_index st =? length slot_hashes)%nat then
          _ ←? rust_assert (proposed_vote_slot <? earliest_slot_hash_in_history);
          let to_filter :=
            if negb (contains_slot vote_state proposed_vote_slot)
               && negb (bool_decide (is_Some (root_to_check st)))
            then indexes_to_filter st ++ [vsu_index st] else indexes_to_filter st in
          match root_to_check st with
          | Some new_proposed_root =>
              _ ←? rust_assert (new_proposed_root =? proposed_vote_slot);
              _ ←? rust_assert (new_proposed_root <? earliest_slot_hash_in_history);
              Ok (inl (mkCheckLoop None (vsu_index st) (slot_hashes_index st) to_filter))
          | None =>
              Ok (inl (mkCheckLoop None (vsu_index st + 1) (slot_hashes_index st) to_filter))
          end
        else
          match root_to_check st with
          | Some _ => Err RootOnDifferentFork
          | None => Err SlotsMismatch
          end
    | Gt =>
        Ok (inl (mkCheckLoop (root_to_check st) (vsu_index st) (slot_hashes_index st - 1)
                   (indexes_to_filter st)))
    | Eq =>
        match root_to_check st with
        | Some _ =>
            Ok (inl (mkCheckLoop None (vsu_index st) (slot_hashes_index st)
                       (indexes_to_filter st)))
        | None =>
            Ok (inl (mkCheckLoop None (vsu_index st + 1) (slot_hashes_index st - 1)
                       (indexes_to_filter st)))
        end
    end
  else Ok (inr st).

(** What is left to do decreases in every iteration. *)
Definition check_update_measure (st : CheckLoop) : nat :=
  (match root_to_check st with Some _ => 1 | None => 0 end
   + (length lockouts - vsu_index st) + slot_hashes_index st)%nat.

Fixpoint check_update_loop (fuel : nat) (st : CheckLoop) : outcome VoteError CheckLoop :=
  match fuel with
  | O => Panic
  | S fuel' =>
      r ←? check_update_step st;
      match r with
      | inl st' => check_update_loop fuel' st'
      | inr st' => Ok st'
      end
  end.
End check_update.

(** [lockouts.retain(..)]: the positions in [to_filter], which ascend, are
    dropped; [i] is [vote_state_update_index] and the head of [to_filter] is
    at [filter_votes_index]. *)
Fixpoint retain_unfiltered (lockouts : list Lockout) (i : nat) (to_filter : list nat) : list Lockout :=
  match lockouts with
  | [] => []
  | l :: rest =>
      match to_filter with
      | [] => l :: retain_unfiltered rest (i + 1) []
      | f :: to_filter' =>
          if (i =? f)%nat then retain_unfiltered rest (i + 1) to_filter'
          else l :: retain_unfiltered rest (i + 1) to_filter
      end
  end.

(** Returns the update with its root replaced and its stale votes removed. *)
Definition check_update_vote_state_slots_are_valid (vote_state : VoteState)
    (vote_state_update : VoteStateUpdate) (slot_hashes : list SlotHash)
    : outcome VoteError VoteStateUpdate :=
  match vsu_last_voted_slot vote_state_update with
  | None => Err EmptySlots
  | Some last_vote_state_update_slot =>
      _ ←? ensure (match slot <$> last (votes vote_state) with
                  | Some last_vote_slot => negb (last_vote_state_update_slot <=? last_vote_slot)
                  | None => true
                  end) VoteTooOld;
      earliest_slot_hash_in_history ←? ok_or (fst <$> last slot_hashes) SlotsMismatch;
      _ ←? ensure (negb (last_vote_state_update_slot <? earliest_slot_hash_in_history)) VoteTooOld;
      let root := replace_old_root vote_state (vsu_root vote_state_update)
                    earliest_slot_hash_in_history in
      let lockouts := vsu_lockouts vote_state_update in
      let st0 := mkCheckLoop root 0 (length slot_hashes) [] in
      st ←? check_update_loop vote_state lockouts slot_hashes earliest_slot_hash_in_history
             (S (check_update_measure lockouts st0)) st0;
      _ ←? ensure (vsu_index st =? length lockouts)%nat SlotsMismatch;
      found ←? expect (slot_hashes !! slot_hashes_index st);
      _ ←? rust_assert (last_vote_state_update_slot =? found.1);
      _ ←? ensure (found.2 =? vsu_hash vote_state_update) SlotHashMismatch;
      Ok (mkVoteStateUpdate (retain_unfiltered lockouts 0 (indexes_to_filter st)) root
            (vsu_hash vote_state_update) (vsu_timestamp vote_state_update))
  end.

(** ** Checking the slots of a vote *)

Section check_slots.
Context (vote_state : VoteState) (vote_slots : list Slot) (slot_hashes : list SlotHash).

(** The [while] loop on [i] and [j]; [None] is unreachable out-of-range
    indexing or exhausted fuel. *)
Fixpoint check_slots_loop (fuel i j : nat) : option (nat * nat) :=
  match fuel with
  | O => None
  | S fuel' =>
      if ((i <? length vote_slots) && (0 <? j))%nat then
        s ← vote_slots !! i;
        if match last_voted_slot vote_state with
           | Some last_voted_slot => s <=? last_voted_slot
           | None => false
           end
        then check_slots_loop fuel' (i + 1) j
        else
          h ← slot_hashes !! (j - 1)%nat;
          if negb (s =? h.1) then check_slots_loop fuel' i (j - 1)
          else check_slots_loop fuel' (i + 1) (j - 1)
      else Some (i, j)
  end.
End check_slots.

Definition check_slots_are_valid (vote_state : VoteState) (vote_slots : list Slot)
    (vote_hash : Hash) (slot_hashes : list SlotHash) : outcome VoteError unit :=
  '(i, j) ←? expect (check_slots_loop vote_state vote_slots slot_hashes
                      (S (length vote_slots + length slot_hashes)) 0 (length slot_hashes));
  _ ←? ensure (negb (j =? length slot_hashes)%nat) VoteTooOld;
  _ ←? ensure (i =? length vote_slots)%nat SlotsMismatch;
  found ←? expect (slot_hashes !! j);
  _ ←? ensure (found.2 =? vote_hash) SlotHashMismatch;
  Ok tt.

(** ** Replacing the tower by a proposed one *)

(** The checks of the votes of the proposed state, one after the other. *)
Fixpoint check_new_votes (new_root : option Slot) (previous_vote : option LandedVote)
    (new_state : list LandedVote) : outcome VoteError unit :=
  match new_state with
  | [] => Ok tt
  | vote :: rest =>
      _ ←? (if confirmation_count vote =? 0 then Err ZeroConfirmations
           else if Z.of_nat MAX_LOCKOUT_HISTORY <? confirmation_count vote
           then Err ConfirmationTooLarge
           else match new_root with
                | Some new_root =>
                    if (slot vote <=? new_root) && negb (new_root =? 0)
                    then Err SlotSmallerThanRoot else Ok tt
                | None => Ok tt
                end);
      _ ←? match previous_vote with
          | Some previous_vote =>
              if slot vote <=? slot previous_vote then Err SlotsNotOrdered
              else if confirmation_count previous_vote <=? confirmation_count vote
              then Err ConfirmationsNotOrdered
              else if last_locked_out_slot (lockout previous_vote) <? slot vote
              then Err NewVoteStateLockoutMismatch
              else Ok tt
          | None => Ok tt
          end;
      check_new_votes new_root (Some vote) rest
  end.

(** Walks over the votes that the new root roots: the credits they earn and
    the index of the first vote above the root. *)
Fixpoint rooted_credits (vote_state : VoteState) (timely deprecate : bool) (new_root : Slot)
    (votes : list LandedVote) (index : nat) (earned : Z) : outcome VoteError (Z * nat) :=
  match votes with
  | [] => Ok (earned, index)
  | current_vote :: rest =>
      if slot current_vote <=? new_root then
        earned ←? (if timely || negb (slot current_vote =? new_root)
                  then expect (checked_add u64_max earned
                                 (credits_for_vote_at_index vote_state index timely deprecate))
                  else Ok earned);
        rooted_credits vote_state timely deprecate new_root rest (index + 1) earned
      else Ok (earned, index)
  end.

(** The loop that compares the current votes above the root with the new
    ones: [current] and [new] are what is left of each, and the result is the
    rest of the new state with the latencies it takes from the current one. *)
Fixpoint reconcile (current : list LandedVote) : list LandedVote -> outcome VoteError (list LandedVote) :=
  fix inner (new : list LandedVote) : outcome VoteError (list LandedVote) :=
    match current, new with
    | current_vote :: current', new_vote :: new' =>
        match slot current_vote ?= slot new_vote with
        | Lt =>
            if slot new_vote <=? last_locked_out_slot (lockout current_vote)
            then Err LockoutConflict
            else reconcile current' new
        | Eq =>
            if confirmation_count new_vote <? confirmation_count current_vote
            then Err ConfirmationRollBack
            else rest ←? reconcile current' new';
                 Ok (mkLandedVote (latency current_vote) (lockout new_vote) :: rest)
        | Gt => rest ←? inner new'; Ok (new_vote :: rest)
        end
    | _, _ => Ok new
    end.

(** The computation that precedes the first write to [vote_state]: the new
    tower and the credits earned, or the error returned. *)
Definition check_new_vote_state (vote_state : VoteState) (new_state : list LandedVote)
    (new_root : option Slot) (current_slot : Slot) (timely deprecate : bool)
    : outcome VoteError (list LandedVote * Z) :=
  _ ←? rust_assert (negb (bool_decide (new_state = [])));
  _ ←? ensure (length new_state <=? MAX_LOCKOUT_HISTORY)%nat TooManyVotes;
  _ ←? match new_root, root_slot vote_state with
      | Some new_root, Some current_root => ensure (negb (new_root <? current_root)) RootRollBack
      | None, Some _ => Err RootRollBack
      | _, _ => Ok tt
      end;
  _ ←? check_new_votes new_root None new_state;
  let earned_credits := if timely then 0 else 1 in
  '(earned_credits, current_vote_state_index) ←?
    match new_root with
    | Some new_root =>
        rooted_credits vote_state timely deprecate new_root (votes vote_state) 0 earned_credits
    | None => Ok (earned_credits, 0%nat)
    end;
  new_state ←? reconcile (drop current_vote_state_index (votes vote_state)) new_state;
  let new_state :=
    if timely then
      (fun new_vote =>
         if latency new_vote =? 0
         then mkLandedVote (compute_vote_latency (slot new_vote) current_slot) (lockout new_vote)
         else new_vote) <$> new_state
    else new_state in
  Ok (new_state, earned_credits).

Definition process_new_vote_state (vote_state : VoteState) (new_state : list LandedVote)
    (new_root : option Slot) (timestamp : option UnixTimestamp) (epoch : Epoch)
    (current_slot : Slot) (feature_set : option FeatureSet)
    : VoteState * outcome VoteError unit :=
  let timely := match feature_set with Some f => timely_vote_credits f | None => false end in
  let deprecate :=
    match feature_set with Some f => deprecate_unused_legacy_vote_plumbing f | None => false end in
  match check_new_vote_state vote_state new_state new_root current_slot timely deprecate with
  | Err e => (vote_state, Err e)
  | Panic => (vote_state, Panic)
  | Ok (new_state, earned_credits) =>
      let vote_state :=
        if negb (bool_decide (root_slot vote_state = new_root))
        then increment_credits vote_state epoch earned_credits else vote_state in
      let '(vote_state, res) :=
        match timestamp, last new_state with
        | Some timestamp, Some last_vote => process_timestamp vote_state (slot last_vote) timestamp
        | Some _, None => (vote_state, Panic)
        | None, _ => (vote_state, Ok tt)
        end in
      match res with
      | Ok _ => (set_votes (set_root_slot vote_state new_root) new_state, Ok tt)
      | Err e => (vote_state, Err e)
      | Panic => (vote_state, Panic)
      end
  end.

Definition do_process_vote_state_update (vote_state : VoteState) (slot_hashes : list SlotHash)
    (epoch : Epoch) (slot : Slot) (vote_state_update : VoteStateUpdate)
    (feature_set : option FeatureSet) : VoteState * outcome VoteError unit :=
  match check_update_vote_state_slots_are_valid vote_state vote_state_update slot_hashes with
  | Err e => (vote_state, Err e)
  | Panic => (vote_state, Panic)
  | Ok vote_state_update =>
      process_new_vote_state vote_state (landed_from_lockout <$> vsu_lockouts vote_state_update)
        (vsu_root vote_state_update) (vsu_timestamp vote_state_update) epoch slot feature_set
  end.

(** ** Processing a vote slot by slot *)

Definition process_vote_unfiltered (vote_state : VoteState) (vote_slots : list Slot) (vote : Vote)
    (slot_hashes : list SlotHash) (epoch : Epoch) (current_slot : Slot) (timely deprecate : bool)
    : VoteState * outcome VoteError unit :=
  match check_slots_are_valid vote_state vote_slots (vote_hash vote) slot_hashes with
  | Err e => (vote_state, Err e)
  | Panic => (vote_state, Panic)
  | Ok _ =>
      (foldl (fun vs s => process_next_vote_slot vs s epoch current_slot timely deprecate)
         vote_state vote_slots, Ok tt)
  end.

Definition process_vote (vote_state : VoteState) (vote : Vote) (slot_hashes : list SlotHash)
    (epoch : Epoch) (current_slot : Slot) (timely deprecate : bool)
    : VoteState * outcome VoteError unit :=
  if bool_decide (vote_slots vote = []) then (vote_state, Err EmptySlots)
  else
    let earliest_slot_in_history := match last slot_hashes with Some (s, _) => s | None => 0 end in
    let vote_slots := filter (fun s => earliest_slot_in_history <= s) (vote_slots vote) in
    if bool_decide (vote_slots = []) then (vote_state, Err VotesTooOldAllFiltered)
    else process_vote_unfiltered vote_state vote_slots vote slot_hashes epoch current_slot
           timely deprecate.

Definition process_vote_unchecked (vote_state : VoteState) (vote : Vote)
    : VoteState * outcome VoteError unit :=
  if bool_decide (vote_slots vote = []) then (vote_state, Err EmptySlots)
  else
    let slot_hashes := (fun x => (x, vote_hash vote)) <$> reverse (vote_slots vote) in
    process_vote_unfiltered vote_state (vote_slots vote) vote slot_hashes
      (current_epoch vote_state) 0 true true.

Definition process_slot_vote_unchecked (vote_state : VoteState) (slot : Slot) : VoteState :=
  (process_vote_unchecked vote_state (vote_new [slot] hash_default)).1.
