(* ===== verification/NewVoteState.v ===== *)
(** * A proposed tower replaces the current one

    Properties of [process_new_vote_state] of [VoteProcess.v]: an accepted
    proposal is a well-formed tower, it rolls nothing back, the votes it roots
    earn their credits, and a rejected proposal changes neither tower nor
    root. *)

From S2P Require Import Prelude InstructionError AuthorizedVoters VoteState Credits Tower VoteProcess.

(** ** Towers up to latency

    The loop copies latencies between towers; the invariant and the progress
    relation only see the lockouts. *)

Definition same_lockout (v w : LandedVote) : Prop := lockout v = lockout w.
#[global] Instance same_lockout_equivalence : Equivalence same_lockout.
Proof. unfold same_lockout. split; red; congruence. Qed.

Definition same_lockouts : relation (list LandedVote) := Forall2 same_lockout.
#[global] Instance same_lockouts_equivalence : Equivalence same_lockouts.
Proof. unfold same_lockouts. apply _. Qed.

Lemma same_lockouts_elem l l' v :
  same_lockouts l l' -> v ∈ l -> exists w, w ∈ l' /\ lockout w = lockout v.
Proof.
  intros H (i & Hi)%list_elem_of_lookup. eapply Forall2_lookup_l in H as (w & Hw & ?); [|done].
  exists w. split; [by eapply list_elem_of_lookup_2 | done].
Qed.

Lemma tower_ok_same l l' : same_lockouts l l' -> tower_ok l -> tower_ok l'.
Proof.
  unfold same_lockouts. intros H. induction H as [|v w l l' Hvw Hll IH]; [done |].
  intros (Hv & Hl & Hd)%tower_ok_cons_inv. destruct (IH Hl) as [H1 H2].
  split; constructor; [|done|done|].
  - unfold vote_ok, slot, confirmation_count in *. by rewrite <- Hvw.
  - destruct Hll as [|v2 w2 l l' Hvw2 _]; constructor. inversion Hd as [|? ? Hn]; subst.
    unfold vote_next, slot, confirmation_count in *. by rewrite <- Hvw, <- Hvw2.
Qed.

#[global] Instance tower_ok_proper : Proper (same_lockouts ==> iff) tower_ok.
Proof. intros l l' H. split; apply tower_ok_same; [done | by symmetry]. Qed.

#[global] Instance vote_kept_proper root : Proper (same_lockouts ==> eq ==> impl) (vote_kept root).
Proof.
  intros l l' H v ? <- [r Hr Hle|t Ht Hs Hc|n Hn Hsn Hne Hlt].
  - by eapply kept_rooted.
  - destruct (same_lockouts_elem _ _ _ H Ht) as (w & Hw & E).
    eapply kept_confirmed; [done | |]; unfold slot, confirmation_count in *; by rewrite E.
  - destruct (same_lockouts_elem _ _ _ H Hn) as (n' & Hn' & En). symmetry in H.
    apply (kept_expired _ _ _ n'); [done | unfold slot in *; by rewrite En | |]; intros t Ht;
      destruct (same_lockouts_elem _ _ _ H Ht) as (w & Hw & E).
    + unfold slot in *. rewrite <- E. by apply Hne.
    + unfold slot in *. rewrite <- E. by apply Hlt.
Qed.

#[global] Instance root_ok_proper root : Proper (same_lockouts ==> impl) (root_ok root).
Proof.
  intros l l' H Hok r Hr. destruct (Hok r Hr) as [Hne Hlt]. split.
  - intros ->. by inversion H; subst.
  - destruct Hlt as [->|Hlt]; [by left |]. right. rewrite Forall_forall in *.
    intros v Hv. symmetry in H. destruct (same_lockouts_elem _ _ _ H Hv) as (w & Hw & E).
    unfold slot in *. rewrite <- E. by apply Hlt.
Qed.

(** ** The checks on the proposed votes *)

(** What the types of the source give: slots are [u64], counts are [u32],
    latencies are [u8]. *)
Definition typed_vote (v : LandedVote) : Prop :=
  in_u64 (slot v) /\ in_u32 (confirmation_count v) /\ in_u8 (latency v).
Definition latencies_u8 : list LandedVote -> Prop := Forall (fun v => in_u8 (latency v)).

Lemma check_new_votes_Ok root prev l u :
  check_new_votes root prev l = Ok u -> Forall typed_vote l ->
  tower_ok l /\
  match prev with Some v => HdRel vote_next v l | None => True end /\
  (forall r, root = Some r -> r = 0 \/ Forall (fun v => r < slot v) l).
Proof.
  revert prev. induction l as [|v l IH]; cbn; intros prev H Ht.
  { split; [auto with fdp |]. split; [by destruct prev; auto with fdp |]. auto. }
  apply Forall_cons in Ht as [(Hu & [Hc _] & _) Ht]. outcome_inv.
  destruct (IH _ H Ht) as (Hok & Hhd & Hroot).
  destruct (Z.eqb_spec (confirmation_count v) 0); [done |].
  destruct (Z.ltb_spec (Z.of_nat MAX_LOCKOUT_HISTORY) (confirmation_count v)); [done |].
  destruct Hok as [Hvc Hch]. split; [|split].
  - split; constructor; try done. unfold vote_ok. split; [done | lia].
  - destruct prev as [p|]; [|done]. constructor. unfold vote_next.
    destruct (Z.leb_spec (slot v) (slot p)); [done |].
    destruct (Z.leb_spec (confirmation_count p) (confirmation_count v)); [done |].
    destruct (Z.ltb_spec (last_locked_out_slot (lockout p)) (slot v)); [done |]. lia.
  - intros r ->. destruct (Z.eqb_spec r 0); [by left |]. right.
    destruct (Z.leb_spec (slot v) r); [done |].
    constructor; [lia |]. by destruct (Hroot r eq_refl).
Qed.

(** ** The credits of the rooted votes *)

Section rooted_credits.
Context (vs : VoteState) (timely deprecate : bool) (root : Slot).

(** What the votes at positions [i], [i + 1], ... earn. *)
Fixpoint credits_from (i : nat) (l : list LandedVote) : Z :=
  match l with
  | [] => 0
  | v :: l' =>
      (if timely || negb (slot v =? root)
       then credits_for_vote_at_index vs i timely deprecate else 0) + credits_from (i + 1) l'
  end.

Lemma rooted_credits_Ok l i e e' i' :
  rooted_credits vs timely deprecate root l i e = Ok (e', i') ->
  exists l1 l2, l = l1 ++ l2 /\ i' = (i + length l1)%nat /\
    Forall (fun v => slot v <= root) l1 /\
    match l2 with [] => True | v :: _ => root < slot v end /\
    e' = e + credits_from i l1.
Proof.
  revert i e. induction l as [|v l IH]; cbn; intros i e H.
  - injection H as <- <-. exists [], []. cbn. repeat split; try done; lia.
  - destruct (Z.leb_spec (slot v) root).
    + outcome_inv. apply IH in H as (l1 & l2 & -> & -> & Hl1 & Hl2 & ->).
      exists (v :: l1), l2. cbn. split; [done |]. split; [lia |]. split; [by constructor |]. split; [done |].
      destruct (timely || negb (slot v =? root)) in *; outcome_inv; [|by subst].
      apply checked_add_Some in H1 as [-> _]. lia.
    + injection H as <- <-. exists [], (v :: l). cbn. repeat split; try done; lia.
Qed.

Lemma credits_at_bounds i :
  latencies_u8 (votes vs) ->
  1 <= credits_for_vote_at_index vs i timely deprecate <= max_credits deprecate.
Proof.
  intros Hl. apply credits_for_latency_bounds. destruct (votes vs !! i) as [v|] eqn:E; [|lia].
  unfold latencies_u8 in Hl. rewrite Forall_lookup in Hl. by destruct (Hl i v E).
Qed.

Lemma credits_from_bounds i l :
  latencies_u8 (votes vs) -> 0 <= credits_from i l <= max_credits deprecate * zlength l.
Proof.
  intros Hl. pose proof (max_credits_ge deprecate). revert i.
  induction l as [|v l IH]; intros i; cbn [credits_from length]; [lia |].
  specialize (IH (i + 1)%nat). pose proof (credits_at_bounds i Hl).
  destruct (timely || negb (slot v =? root)); lia.
Qed.

(** The addition of the credits does not overflow. *)
Lemma rooted_credits_total l i e :
  latencies_u8 (votes vs) -> 0 <= e -> e + max_credits deprecate * zlength l <= u64_max ->
  exists r, rooted_credits vs timely deprecate root l i e = Ok r.
Proof.
  intros Hl. pose proof (max_credits_ge deprecate). revert i e.
  induction l as [|v l IH]; intros i e He Hb; cbn [rooted_credits]; [by eexists |].
  cbn [length] in Hb. pose proof (credits_at_bounds i Hl).
  destruct (slot v <=? root); [|by eexists].
  destruct (timely || negb (slot v =? root)); [|apply IH; lia].
  unfold checked_add. destruct (Z.leb_spec (e + credits_for_vote_at_index vs i timely deprecate) u64_max);
    [|lia]. cbn. apply IH; lia.
Qed.
End rooted_credits.

(** ** The comparison with the current votes *)

Lemma reconcile_same_lockouts cur new res :
  reconcile cur new = Ok res -> same_lockouts new res.
Proof.
  revert new res. induction cur as [|c cur IHc]; intros new.
  { destruct new; cbn; intros res [= <-]; reflexivity. }
  induction new as [|n new IHn]; cbn; intros res H; [injection H as <-; reflexivity |].
  destruct (slot c ?= slot n).
  - destruct (_ <? _); [done |]. outcome_inv. subst. constructor; [done | by apply IHc].
  - destruct (_ <=? _); [done |]. by apply IHc.
  - outcome_inv. subst. constructor; [done | by apply IHn].
Qed.

Lemma reconcile_latencies cur new res :
  reconcile cur new = Ok res -> latencies_u8 cur -> latencies_u8 new -> latencies_u8 res.
Proof.
  revert new res. induction cur as [|c cur IHc]; intros new.
  { by destruct new; cbn; intros res [= <-]. }
  induction new as [|n new IHn]; cbn; intros res H Hc Hn; [by injection H as <- |].
  pose proof Hc as [Hc1 Hcs]%Forall_cons. apply Forall_cons in Hn as [Hn Hns].
  destruct (slot c ?= slot n).
  - destruct (_ <? _); [done |]. outcome_inv. subst. constructor; [done | by eapply IHc].
  - destruct (_ <=? _); [done |]. eapply IHc; [done | done |]. by constructor.
  - outcome_inv. subst. constructor; [done |]. by eapply IHn.
Qed.

(** Every current vote that the loop passes is confirmed or expired in the
    new tower, if that has a later vote. *)
Lemma reconcile_kept root cur new res :
  reconcile cur new = Ok res ->
  StronglySorted (fun v w => slot v < slot w) cur ->
  StronglySorted (fun v w => slot v < slot w) new ->
  (forall v, v ∈ cur -> exists t, t ∈ new /\ slot v < slot t) ->
  Forall (vote_kept root new) cur.
Proof.
  revert new res. induction cur as [|c cur IHc]; [by constructor |].
  induction new as [|n new IHn]; intros res H Hcur Hnew Hlate.
  { apply Forall_forall. intros v Hv. destruct (Hlate v Hv) as (t & Ht & _). by apply elem_of_nil in Ht. }
  apply StronglySorted_inv in Hcur as [Hcur Hc]. pose proof Hnew as Hnew'.
  apply StronglySorted_inv in Hnew as [Hnew Hn]. rewrite Forall_forall in Hc, Hn.
  assert (forall s, slot n < slot s -> vote_kept root new s -> vote_kept root (n :: new) s) as Hext.
  { intros s Hs [r Hr Hle|t Ht E Hconf|m Hm Hsm Hne Hlt].
    - by eapply kept_rooted.
    - eapply kept_confirmed; [by right | done | done].
    - apply (kept_expired _ _ _ m); [by right | done | |]; intros t [->|Ht]%elem_of_cons; try lia; auto. }
  assert (forall v, v ∈ c :: cur -> slot n < slot v -> exists t, t ∈ new /\ slot v < slot t) as Hlate'.
  { intros v Hv Hn'. destruct (Hlate v Hv) as (t & [->|Ht]%elem_of_cons & Hlt); [lia | eauto]. }
  cbn in H. destruct (Z.compare_spec (slot c) (slot n)) as [E|E|E].
  - destruct (Z.ltb_spec (confirmation_count n) (confirmation_count c)); [done |].
    outcome_inv. constructor.
    + eapply kept_confirmed; [by left | done | lia].
    + eapply Forall_impl_in; [|eapply IHc; [done | done | done |]].
      * intros s Hs. apply Hext. specialize (Hc s Hs). lia.
      * intros v Hv. specialize (Hc v Hv). apply Hlate'; [by right | lia].
  - destruct (Z.leb_spec (slot n) (last_locked_out_slot (lockout c))); [done |].
    constructor; [|eapply IHc; [done | done | done |]; intros v Hv; apply Hlate; by right].
    apply (kept_expired _ _ _ n); [left | done | |]; intros t [->|Ht]%elem_of_cons; try lia.
    all: specialize (Hn t Ht); lia.
  - outcome_inv. assert (Forall (vote_kept root new) (c :: cur)) as Hk.
    { eapply IHn; [done | by constructor; [|apply Forall_forall] | done |]. intros v Hv. apply Hlate'; [done |].
      apply elem_of_cons in Hv as [->|Hv]; [lia |]. specialize (Hc v Hv). lia. }
    eapply Forall_impl_in; [|exact Hk]. intros s Hs. apply Hext.
    apply elem_of_cons in Hs as [->|Hs]; [lia |]. specialize (Hc s Hs). lia.
Qed.

(** ** The whole check *)

(** The votes of a tower at or below [r] are the prefix that the credit loop
    walks over. *)
Lemma rooted_prefix l1 l2 r :
  StronglySorted (fun v w => slot v < slot w) (l1 ++ l2) ->
  Forall (fun v => slot v <= r) l1 ->
  match l2 with [] => True | v :: _ => r < slot v end ->
  filter (fun v => slot v <= r) (l1 ++ l2) = l1.
Proof.
  intros Hs H1 H2. rewrite filter_app. rewrite filter_all by done.
  rewrite (filter_none _ l2), app_nil_r; [done |].
  apply StronglySorted_app_inv in Hs as (_ & Hs & _). destruct l2 as [|v l2]; [done |].
  apply StronglySorted_inv in Hs as [_ Hs]. constructor; [lia |].
  eapply Forall_impl; [exact Hs |]. intros w Hw. cbn in Hw. lia.
Qed.

(** The credits that rooting [new_root] is worth: one for the root itself
    before timely vote credits, and those of the votes it roots. *)
Definition earned_credits (vs : VoteState) (new_root : option Slot) (timely deprecate : bool) : Z :=
  (if timely then 0 else 1) +
  match new_root with
  | Some r => credits_from vs timely deprecate r 0 (filter (fun v => slot v <= r) (votes vs))
  | None => 0
  end.

Lemma earned_credits_nonneg vs r t d :
  latencies_u8 (votes vs) -> 0 <= earned_credits vs r t d.
Proof.
  intros Hl. unfold earned_credits. destruct r as [r|]; [|destruct t; lia].
  pose proof (credits_from_bounds vs t d r 0 (filter (fun v => slot v <= r) (votes vs)) Hl).
  destruct t; lia.
Qed.

Record accepted (vs : VoteState) (new : list LandedVote) (root : option Slot)
    (timely deprecate : bool) (res : list LandedVote) (earned : Z) : Prop := {
  acc_lockouts : same_lockouts new res;
  acc_tower : tower_ok new;
  acc_root : root_ok root new;
  acc_root_le : root_le (root_slot vs) root;
  acc_kept : (forall v, v ∈ votes vs -> exists t, t ∈ new /\ slot v < slot t) -> Forall (vote_kept root new) (votes vs);
  acc_latency : latencies_u8 res;
  acc_earned : earned = earned_credits vs root timely deprecate;
}.

Lemma fill_latency_same_lockouts cur l :
  same_lockouts l
    ((fun v => if latency v =? 0
               then mkLandedVote (compute_vote_latency (slot v) cur) (lockout v) else v) <$> l).
Proof.
  unfold same_lockouts. induction l as [|v l IH]; cbn; constructor; [|done].
  by destruct (latency v =? 0).
Qed.

Lemma fill_latency_u8 cur l :
  latencies_u8 l ->
  latencies_u8
    ((fun v => if latency v =? 0
               then mkLandedVote (compute_vote_latency (slot v) cur) (lockout v) else v) <$> l).
Proof.
  induction 1 as [|v l Hv Hl IH]; cbn; constructor; [|done].
  destruct (latency v =? 0); [apply compute_vote_latency_u8 | done].
Qed.

Lemma check_new_vote_state_Ok vs new root cur t d res e :
  check_new_vote_state vs new root cur t d = Ok (res, e) ->
  vote_state_ok vs -> Forall typed_vote new ->
  accepted vs new root t d res e.
Proof.
  unfold check_new_vote_state. intros H [Hok Hro Hlat _] Ht.
  apply bind_Ok in H as (u1 & Hne & H). apply bind_Ok in H as (u2 & Hlen & H).
  apply bind_Ok in H as (u3 & Hroot & H). apply bind_Ok in H as (u4 & Hchk & H).
  apply bind_Ok in H as ([e1 i1] & Hcr & H). apply bind_Ok in H as (new1 & Hrec & H).
  apply rust_assert_Ok in Hne. bool_to_prop. injection H as <- <-.
  destruct (check_new_votes_Ok _ _ _ _ Hchk Ht) as (Hnew & _ & Hr).
  pose proof (tower_slots_sorted _ Hok) as Hso. pose proof (tower_slots_sorted _ Hnew) as Hsn.
  assert (exists l1 l2, votes vs = l1 ++ l2 /\ i1 = length l1 /\
    Forall (vote_kept root new) l1 /\ e1 = earned_credits vs root t d) as (l1 & l2 & Hv & -> & Hk & ->).
  { unfold earned_credits. destruct root as [r|].
    - apply rooted_credits_Ok in Hcr as (l1 & l2 & Hv & -> & Hl1 & Hl2 & ->).
      exists l1, l2. split; [done |]. split; [done |]. split.
      + eapply Forall_impl; [exact Hl1 |]. intros v Hle. by eapply kept_rooted.
      + rewrite Hv in Hso |- *. by rewrite rooted_prefix.
    - injection Hcr as <- <-. exists [], (votes vs). cbn. repeat split; try done. lia. }
  rewrite Hv, drop_app_length in Hrec. split; try done.
  - etrans; [by eapply reconcile_same_lockouts |].
    destruct t; [apply fill_latency_same_lockouts | reflexivity].
  - intros r ->. split; [done |]. by apply Hr.
  - destruct root as [r|], (root_slot vs) as [r'|]; try done. cbn in *.
    apply ensure_Ok in Hroot. bool_to_prop. done.
  - intros Hlate. rewrite Hv in Hlate |- *. apply Forall_app. split; [done |].
    rewrite Hv in Hso. apply StronglySorted_app_inv in Hso as (_ & Hso & _).
    eapply reconcile_kept; [done.. |]. intros v Hv'. apply Hlate. apply elem_of_app. by right.
  - assert (latencies_u8 new1) as Hl1.
    { eapply reconcile_latencies; [done | |].
      - rewrite Hv in Hlat. by apply Forall_app in Hlat as [_ ?].
      - eapply Forall_impl; [exact Ht |]. by intros v (_ & _ & ?). }
    destruct t; [by apply fill_latency_u8 | done].
Qed.

(** ** The handler *)

Lemma increment_credits_votes s ep c :
  votes (increment_credits s ep c) = votes s /\ root_slot (increment_credits s ep c) = root_slot s /\
  last_timestamp (increment_credits s ep c) = last_timestamp s.
Proof. done. Qed.

Lemma process_timestamp_Ok s sl ts s' :
  process_timestamp s sl ts = (s', Ok tt) ->
  s' = set_last_timestamp s (mkBlockTimestamp sl ts) /\
  bt_slot (last_timestamp s) <= sl /\ bt_timestamp (last_timestamp s) <= ts.
Proof.
  unfold process_timestamp. destruct (_ || _) eqn:E; [done |]. intros [= <-].
  bool_to_prop. done.
Qed.

Lemma process_timestamp_Err s sl ts s' r :
  process_timestamp s sl ts = (s', r) -> r <> Ok tt -> s' = s /\ r = Err TimestampTooOld.
Proof. unfold process_timestamp. destruct (_ || _); intros [= <- <-]; [done |]. done. Qed.

(** The states a successful call goes through. *)
Lemma process_new_vote_state_Ok vs new root ts ep cur fs vs' :
  process_new_vote_state vs new root ts ep cur fs = (vs', Ok tt) ->
  let t := match fs with Some f => timely_vote_credits f | None => false end in
  let d := match fs with Some f => deprecate_unused_legacy_vote_plumbing f | None => false end in
  exists res e, check_new_vote_state vs new root cur t d = Ok (res, e) /\
    votes vs' = res /\ root_slot vs' = root /\
    epoch_credits vs' =
      epoch_credits (if negb (bool_decide (root_slot vs = root))
                     then increment_credits vs ep e else vs) /\
    last_timestamp vs' =
      match ts, last res with
      | Some ts, Some v => mkBlockTimestamp (slot v) ts
      | _, _ => last_timestamp vs
      end.
Proof.
  unfold process_new_vote_state. cbn zeta.
  destruct (check_new_vote_state _ _ _ _ _ _) as [[res e]|?|]; [|done|done].
  set (vs1 := if negb (bool_decide (root_slot vs = root)) then increment_credits vs ep e else vs).
  assert (last_timestamp vs1 = last_timestamp vs) as Hts by (unfold vs1; by destruct (negb _)).
  intros H. exists res, e. split; [done |].
  destruct ts as [ts|]; [destruct (last res) as [v|]; [|done] |].
  - destruct (process_timestamp vs1 (slot v) ts) as [vs2 r] eqn:E.
    destruct r as [[]|?|]; [|done|done]. apply process_timestamp_Ok in E as (-> & _).
    injection H as <-. done.
  - injection H as <-. done.
Qed.

Lemma process_new_vote_state_spec vs new root ts ep cur fs vs' :
  process_new_vote_state vs new root ts ep cur fs = (vs', Ok tt) ->
  vote_state_ok vs -> Forall typed_vote new ->
  vote_state_ok vs' /\ same_lockouts new (votes vs') /\ root_slot vs' = root /\
  ((forall v, v ∈ votes vs -> exists t, t ∈ new /\ slot v < slot t) -> tower_advance vs vs').
Proof.
  intros (res & e & Hc & Hv & Hr & Hcr & _)%process_new_vote_state_Ok Hok Ht.
  destruct (check_new_vote_state_Ok _ _ _ _ _ _ _ _ Hc Hok Ht) as [Hs Htw Hro Hle Hk Hl He].
  rewrite <- Hv in Hs. split; [|split; [done | split; [done |]]].
  - split; [by rewrite <- Hs | rewrite Hr; by rewrite <- Hs | by rewrite Hv |].
    rewrite Hcr. destruct (negb _); [|by apply vs_credits].
    apply increment_credits_spec; [|by apply vs_credits]. subst e.
    apply earned_credits_nonneg, Hok.
  - intros Hlate. split; rewrite Hr; [done |]. eapply Forall_impl; [exact (Hk Hlate) |]. intros v Hv'. by rewrite <- Hs.
Qed.

(** ** Properties *)

(** When an accepted vote state moves the root, the account earns exactly
    the credits of the votes that the new root roots, in the entry of the
    current epoch, saturating; when the root stays, its credits do not change. *)
Theorem accepted_state_earns_rooted_credits vs new root ts ep cur fs vs' :
  process_new_vote_state vs new root ts ep cur fs = (vs', Ok tt) ->
  vote_state_ok vs -> Forall typed_vote new ->
  let t := match fs with Some f => timely_vote_credits f | None => false end in
  let d := match fs with Some f => deprecate_unused_legacy_vote_plumbing f | None => false end in
  if bool_decide (root_slot vs = root) then epoch_credits vs' = epoch_credits vs
  else current_epoch vs' = ep /\
       credits vs' = sat_add u64_max (credits vs) (earned_credits vs root t d).
Proof.
  intros H Hok Ht. cbn zeta.
  apply process_new_vote_state_Ok in H as (res & e & Hc & _ & _ & Hcr & _).
  destruct (check_new_vote_state_Ok _ _ _ _ _ _ _ _ Hc Hok Ht) as [_ _ _ _ _ _ He].
  destruct (bool_decide (root_slot vs = root)); cbn in Hcr; [done |].
  destruct (increment_credits_spec vs ep e) as (_ & H1 & H2).
  - subst e. apply earned_credits_nonneg, Hok.
  - apply Hok.
  - subst e. rewrite <- H1, <- H2. unfold current_epoch, credits. by rewrite Hcr.
Qed.

Definition demo_tower : VoteState :=
  set_votes vote_state_default
    [mkLandedVote 1 (mkLockout 3 3); mkLandedVote 4 (mkLockout 5 2); mkLandedVote 1 (mkLockout 7 1)].
Definition demo_features : FeatureSet := mkFeatureSet true true true true true.
Definition demo_proposal : list LandedVote :=
  landed_from_lockout <$> [mkLockout 7 2; mkLockout 8 1].

Lemma demo_tower_ok : vote_state_ok demo_tower.
Proof.
  split; cbn.
  - split; repeat constructor; vm_compute; congruence.
  - intros r [=].
  - repeat constructor; vm_compute; congruence.
  - split; [vm_compute; lia | constructor | constructor].
Defined.

Lemma accepted_state_earns_rooted_credits_witness :
  credits (process_new_vote_state demo_tower demo_proposal (Some 5) None 2 9 (Some demo_features)).1 = 30.
Proof.
  pose proof (accepted_state_earns_rooted_credits demo_tower demo_proposal (Some 5) None 2 9
    (Some demo_features)
    (process_new_vote_state demo_tower demo_proposal (Some 5) None 2 9 (Some demo_features)).1) as H.
  destruct H as [_ ->]; [by vm_compute | exact demo_tower_ok | | reflexivity].
  repeat constructor; vm_compute; congruence.
Defined.
