(* ===== verification/CheckUpdate.v ===== *)
(** * A proposed vote state against the slot hashes

    Properties of [check_update_vote_state_slots_are_valid] of
    [VoteProcess.v]: the loop terminates within its fuel, none of its
    assertions fails, and what it accepts lies on the fork of the bank. *)

From S2P Require Import Prelude InstructionError AuthorizedVoters VoteState VoteProcess.

Lemma contains_slot_sound vs s : contains_slot vs s = true -> s ∈ tower vs.
Proof.
  unfold contains_slot. destruct (binary_search_by _ _) as [i|] eqn:E; [|done]. intros _.
  apply binary_search_by_found in E as (v & Hv & Hc).
  apply Z.compare_eq in Hc as <-. apply list_elem_of_fmap. exists v.
  split; [done |]. by eapply list_elem_of_lookup_2.
Qed.

Section loop.
Context (vs : VoteState) (lockouts : list Lockout) (sh : list SlotHash) (earliest : Slot)
        (root : option Slot).
Context (Hearliest : fst <$> last sh = Some earliest).

(** The votes passed so far are in the history, or too old for it; the old
    ones that the current tower does not have are marked. *)
Definition passed_ok (filtered : list nat) (i : nat) (l : Lockout) : Prop :=
  if decide (i ∈ filtered) then lo_slot l < earliest
  else lo_slot l ∈ sh.*1 \/ (lo_slot l < earliest /\ lo_slot l ∈ tower vs).

Record loop_inv (st : CheckLoop) : Prop := {
  li_index : (vsu_index st <= length lockouts)%nat;
  li_hashes : (slot_hashes_index st <= length sh)%nat;
  li_sorted : Sorted Z.lt (lo_slot <$> take (vsu_index st) lockouts);
  li_passed : forall i l, (i < vsu_index st)%nat -> lockouts !! i = Some l ->
                passed_ok (indexes_to_filter st) i l;
  li_filter : Sorted lt (indexes_to_filter st) /\
              forall i, i ∈ indexes_to_filter st -> (i < vsu_index st)%nat;
  li_root : match root_to_check st with
            | Some r => root = Some r
            | None => forall r, root = Some r -> r ∈ sh.*1 \/ r < earliest
            end;
  li_last : vsu_index st = length lockouts -> forall l, last lockouts = Some l ->
              lo_slot l < earliest \/ exists h, sh !! slot_hashes_index st = Some (lo_slot l, h);
  li_first : root_to_check st <> None -> vsu_index st = 0%nat;
}.

Lemma sorted_take_S i l :
  lockouts !! i = Some l ->
  match lockouts !! (i - 1)%nat with
  | Some p => i = 0%nat \/ lo_slot p < lo_slot l
  | None => True
  end ->
  Sorted Z.lt (lo_slot <$> take i lockouts) -> Sorted Z.lt (lo_slot <$> take (i + 1) lockouts).
Proof.
  intros Hl Hp Hs. rewrite Nat.add_1_r, (take_S_r _ _ l), fmap_app by done.
  apply Sorted_snoc; [done |]. rewrite fmap_last, last_lookup, length_take.
  pose proof (lookup_lt_Some _ _ _ Hl).
  replace (Nat.pred (i `min` length lockouts))%nat with (i - 1)%nat by lia.
  destruct i as [|i]; [done |]. rewrite lookup_take_lt by lia.
  destruct (lockouts !! (S i - 1)%nat) as [p|]; cbn; [|done]. by destruct Hp.
Qed.

(** Passing the vote at the current index. *)
Lemma loop_inv_next st l to_filter sh_index :
  loop_inv st -> root_to_check st = None -> lockouts !! vsu_index st = Some l ->
  match lockouts !! (vsu_index st - 1)%nat with
  | Some p => vsu_index st = 0%nat \/ lo_slot p < lo_slot l
  | None => True
  end ->
  (sh_index <= length sh)%nat ->
  (to_filter = indexes_to_filter st /\ (lo_slot l ∈ sh.*1 \/ (lo_slot l < earliest /\ lo_slot l ∈ tower vs))
   \/ to_filter = indexes_to_filter st ++ [vsu_index st] /\ lo_slot l < earliest) ->
  (lo_slot l < earliest \/ exists h, sh !! sh_index = Some (lo_slot l, h)) ->
  loop_inv (mkCheckLoop None (vsu_index st + 1) sh_index to_filter).
Proof.
  intros [Hi Hh Hs Hp [Hf1 Hf2] Hr _ _] Hrt Hl Hprev Hsh Hf Hlast.
  assert (forall j, j ∈ to_filter -> (j < vsu_index st + 1)%nat) as Hlt.
  { intros j Hj. destruct Hf as [[-> _]|[-> _]]; [specialize (Hf2 j Hj); lia |].
    apply elem_of_app in Hj as [Hj|Hj%list_elem_of_singleton]; [specialize (Hf2 j Hj) |]; lia. }
  pose proof (lookup_lt_Some _ _ _ Hl). rewrite Hrt in Hr.
  split; cbn [root_to_check vsu_index slot_hashes_index indexes_to_filter]; try done; [lia | | | |].
  - by eapply sorted_take_S.
  - intros j l' Hj Hl'. unfold passed_ok. destruct (decide (j = vsu_index st)) as [->|Hne].
    + assert (l' = l) as -> by congruence. destruct Hf as [[-> Hok]|[-> Hok]].
      * rewrite decide_False; [done |]. intros Hin%Hf2. lia.
      * rewrite decide_True by set_solver. done.
    + specialize (Hp j l' ltac:(lia) Hl'). unfold passed_ok in Hp.
      destruct Hf as [[-> _]|[-> _]]; [done |].
      destruct (decide (j ∈ indexes_to_filter st)).
      * by rewrite decide_True by set_solver.
      * by rewrite decide_False by set_solver.
  - split; [|done]. destruct Hf as [[-> _]|[-> _]]; [done |].
    apply Sorted_snoc; [done |]. destruct (last (indexes_to_filter st)) as [j|] eqn:E; [|done].
    apply Hf2. by apply last_Some_elem_of.
  - intros Heq l' Hl'. rewrite last_lookup in Hl'.
    replace (Nat.pred (length lockouts)) with (vsu_index st) in Hl' by lia.
    by assert (l' = l) as -> by congruence.
Qed.

(** The other iterations keep the index. *)
Lemma loop_inv_stay st root' sh_index :
  loop_inv st -> (root' <> None -> root_to_check st <> None) ->
  (vsu_index st < length lockouts)%nat -> (sh_index <= length sh)%nat ->
  match root' with
  | Some r => root = Some r
  | None => forall r, root = Some r -> r ∈ sh.*1 \/ r < earliest
  end ->
  loop_inv (mkCheckLoop root' (vsu_index st) sh_index (indexes_to_filter st)).
Proof. intros [] Hsome Hlt Hsh Hr. split; try done; cbn; [lia | auto]. Qed.

Lemma slot_hash_in i s : fst <$> sh !! i = Some s -> s ∈ sh.*1.
Proof.
  intros H. rewrite <- list_lookup_fmap in H. by eapply list_elem_of_lookup_2.
Qed.

Lemma oldest_slot i s : (0 < i)%nat -> i = length sh -> fst <$> sh !! (i - 1)%nat = Some s -> s = earliest.
Proof.
  intros Hi -> Hs. rewrite last_lookup in Hearliest.
  replace (Nat.pred (length sh)) with (length sh - 1)%nat in Hearliest by lia. congruence.
Qed.

(** One iteration keeps the invariant, makes progress and does not panic. *)
Lemma check_update_step_inv st :
  loop_inv st ->
  match check_update_step vs lockouts sh earliest st with
  | Ok (inl st') => loop_inv st' /\
      (check_update_measure lockouts st' < check_update_measure lockouts st)%nat
  | Ok (inr st') => st' = st
  | Err _ => True
  | Panic => False
  end.
Proof.
  intros Hinv. pose proof Hinv as [Hi Hh Hs Hp Hf Hr Hl Hfst0]. unfold check_update_step.
  destruct ((vsu_index st <? length lockouts) && (0 <? slot_hashes_index st))%nat eqn:Hg; [|done].
  apply andb_true_iff in Hg as [Hg1%Nat.ltb_lt Hg2%Nat.ltb_lt].
  destruct (lookup_lt_is_Some_2 lockouts (vsu_index st) Hg1) as [l Hlk].
  destruct (lookup_lt_is_Some_2 sh (slot_hashes_index st - 1)%nat ltac:(lia)) as [[a ah] Ha].
  assert (fst <$> sh !! (slot_hashes_index st - 1)%nat = Some a) as Hfst by (by rewrite Ha).
  unfold check_update_measure. destruct (root_to_check st) as [r|] eqn:Hrt; cbn [obind].
  - (* the root is compared *)
    rewrite bool_decide_eq_true_2 by done. cbn [negb andb]. cbn. rewrite Ha. cbn.
    destruct (Z.compare_spec r a) as [E|E|E].
    + split; [|cbn; lia]. apply loop_inv_stay; try done. intros r' Hr'. left.
      assert (r' = a) as -> by congruence. by eapply slot_hash_in.
    + destruct (Nat.eqb_spec (slot_hashes_index st) (length sh)) as [Hfull|]; [|done].
      pose proof (oldest_slot _ _ Hg2 Hfull Hfst) as ->.
      rewrite (proj2 (Z.ltb_lt r earliest)) by lia. cbn. rewrite Z.eqb_refl. cbn.
      rewrite andb_false_r. split; [|cbn; lia]. apply loop_inv_stay; try done.
      intros r' Hr'. right. by assert (r' = r) as -> by congruence.
    + split; [|cbn; lia]. by apply loop_inv_stay; try done; [by rewrite Hrt | lia].
  - (* a vote is compared *)
    rewrite Hlk. cbn [fmap option_fmap option_map expect obind].
    rewrite bool_decide_eq_false_2 by (by intros [? ?]). cbn [negb andb].
    assert (match lockouts !! (vsu_index st - 1)%nat with
            | Some p => vsu_index st = 0%nat \/ lo_slot p < lo_slot l
            | None => True end \/
            (0 <? vsu_index st)%nat = true /\
            exists p, lockouts !! (vsu_index st - 1)%nat = Some p /\ lo_slot l <= lo_slot p) as Hord.
    { destruct (lockouts !! (vsu_index st - 1)%nat) as [p|]; [|by left].
      destruct (Nat.ltb_spec 0 (vsu_index st)); [|left; left; lia].
      destruct (Z.lt_ge_cases (lo_slot p) (lo_slot l)); [left; by right |]. right. eauto. }
    destruct Hord as [Hord|[-> (p & -> & Hle)]]; cycle 1.
    { cbn. by rewrite (proj2 (Z.leb_le _ _)). }
    destruct (if (0 <? vsu_index st)%nat then _ else _) as [b|?|] eqn:Eb; cycle 1.
    { by destruct (0 <? vsu_index st)%nat; [destruct (lockouts !! _) |]. }
    { destruct (Nat.ltb_spec 0 (vsu_index st)); [|done].
      by destruct (lookup_lt_is_Some_2 lockouts (vsu_index st - 1)%nat ltac:(lia)) as [? E];
        rewrite E in Eb. }
    cbn. destruct b; cbn; [done |]. rewrite Ha. cbn.
    destruct (Z.compare_spec (lo_slot l) a) as [E|E|E].
    + split; [|cbn; lia]. eapply (loop_inv_next st l); [done | done | done | done | lia | |].
      * left. split; [done |]. left. rewrite E. by eapply slot_hash_in.
      * right. exists ah. by rewrite E.
    + destruct (Nat.eqb_spec (slot_hashes_index st) (length sh)) as [Hfull|]; [|done].
      pose proof (oldest_slot _ _ Hg2 Hfull Hfst) as ->.
      rewrite (proj2 (Z.ltb_lt (lo_slot l) earliest)) by lia. cbn. split; [|cbn; lia].
      eapply (loop_inv_next st l); [done | done | done | done | lia | | by left].
      rewrite andb_true_r. destruct (contains_slot vs (lo_slot l)) eqn:Ec; cbn.
      * left. split; [done |]. right. split; [done |]. by apply contains_slot_sound.
      * right. done.
    + split; [|cbn; lia]. apply loop_inv_stay; try done; lia.
Qed.

Lemma check_update_loop_inv fuel st :
  loop_inv st -> (check_update_measure lockouts st < fuel)%nat ->
  match check_update_loop vs lockouts sh earliest fuel st with
  | Ok st' => loop_inv st'
  | Err _ => True
  | Panic => False
  end.
Proof.
  revert st. induction fuel as [|fuel IH]; intros st Hst Hm; [lia |]. cbn.
  pose proof (check_update_step_inv st Hst) as Hstep.
  destruct (check_update_step _ _ _ _ st) as [[st'|st']|?|]; cbn; try done.
  - destruct Hstep. apply IH; [done | lia].
  - by subst.
Qed.
End loop.

(** ** Removing the stale votes *)

Lemma retain_sublist l i f : retain_unfiltered l i f `sublist_of` l.
Proof.
  revert i f. induction l as [|x l IH]; intros i f; cbn; [done |].
  destruct f as [|j f]; [by constructor |]. by destruct (i =? j)%nat; constructor.
Qed.

Lemma retain_elem l i f x :
  Sorted lt f -> (forall j, j ∈ f -> (i <= j)%nat) -> x ∈ retain_unfiltered l i f ->
  exists k, l !! k = Some x /\ (i + k)%nat ∉ f.
Proof.
  revert i f. induction l as [|y l IH]; intros i f Hs Hge; cbn.
  { intros Hx. by apply elem_of_nil in Hx. }
  assert (StronglySorted lt f) as Hss by (apply Sorted_StronglySorted; [intros ? ? ?; lia | done]).
  destruct f as [|j f].
  - intros [->|Hx]%elem_of_cons; [by exists 0%nat; split; [|apply not_elem_of_nil] |].
    destruct (IH (i + 1)%nat [] ltac:(auto with fdp)) as (k & Hk & _);
      [by intros ? ?%elem_of_nil | done |].
    exists (S k). split; [done | apply not_elem_of_nil].
  - apply StronglySorted_inv in Hss as [_ Hj]. rewrite Forall_forall in Hj.
    destruct (Nat.eqb_spec i j) as [->|Hne].
    + intros (k & Hk & Hn)%IH; [|by apply Sorted_inv in Hs as [? _] |].
      * exists (S k). split; [done |]. replace (j + S k)%nat with (j + 1 + k)%nat by lia.
        apply not_elem_of_cons. split; [lia | done].
      * intros j' Hj'. specialize (Hj j' Hj'). lia.
    + assert (i < j)%nat by (specialize (Hge j ltac:(set_solver)); lia).
      intros [->|Hx]%elem_of_cons.
      * exists 0%nat. split; [done |]. apply not_elem_of_cons. split; [lia |].
        intros Hin. specialize (Hj _ Hin). lia.
      * apply IH in Hx as (k & Hk & Hn); [| done |].
        -- exists (S k). split; [done |]. by replace (i + S k)%nat with (i + 1 + k)%nat by lia.
        -- intros j' [->|Hj']%elem_of_cons; [lia |]. specialize (Hj j' Hj'). lia.
Qed.

Lemma retain_last l i f x :
  last l = Some x -> (i + length l - 1)%nat ∉ f -> last (retain_unfiltered l i f) = Some x.
Proof.
  revert i f. induction l as [|y l IH]; intros i f Hl Hn; [done |]. cbn [retain_unfiltered].
  destruct (decide (l = [])) as [->|Hne].
  - cbn in Hl. injection Hl as ->. destruct f as [|j f]; [done |].
    destruct (Nat.eqb_spec i j) as [->|]; [|done]. exfalso. apply Hn.
    replace (j + length [x] - 1)%nat with j by (cbn; lia). set_solver.
  - assert (last l = Some x) as Hl' by (by destruct l).
    assert (forall f', (i + 1 + length l - 1)%nat ∉ f' -> last (y :: retain_unfiltered l (i + 1) f') = Some x) as Hc.
    { intros f' Hf'. rewrite last_cons. by rewrite (IH _ _ Hl' Hf'). }
    assert (0 < length l)%nat by (destruct l; [done | cbn; lia]).
    replace (i + length (y :: l) - 1)%nat with (i + 1 + length l - 1)%nat in Hn by (cbn; lia).
    destruct f as [|j f]; [by apply Hc |]. destruct (i =? j)%nat; [|by apply Hc].
    apply IH; [done |]. set_solver.
Qed.

(** ** The whole check *)

(** What an accepted update looks like. *)
Record update_checked (vs : VoteState) (u : VoteStateUpdate) (sh : list SlotHash)
    (u' : VoteStateUpdate) (earliest : Slot) : Prop := {
  uc_earliest : fst <$> last sh = Some earliest;
  uc_sublist : vsu_lockouts u' `sublist_of` vsu_lockouts u;
  uc_sorted : StronglySorted Z.lt (vsu_slots u');
  uc_slots : forall s, s ∈ vsu_slots u' -> s ∈ sh.*1 \/ (s < earliest /\ s ∈ tower vs);
  uc_last : exists s, vsu_last_voted_slot u' = Some s /\ vsu_last_voted_slot u = Some s /\
              (s, vsu_hash u) ∈ sh /\
              (forall l, slot <$> last (votes vs) = Some l -> l < s);
  uc_root_eq : vsu_root u' = replace_old_root vs (vsu_root u) earliest;
  uc_root : forall r, vsu_root u' = Some r -> r ∈ sh.*1 \/ r < earliest;
  uc_rest : vsu_hash u' = vsu_hash u /\ vsu_timestamp u' = vsu_timestamp u;
}.

Lemma loop_inv_init vs lockouts sh earliest root :
  fst <$> last sh = Some earliest -> lockouts <> [] ->
  loop_inv vs lockouts sh earliest root (mkCheckLoop root 0 (length sh) []).
Proof.
  intros He Hne. split; cbn; try done; try lia.
  - split; [constructor |]. intros i Hi. by apply elem_of_nil in Hi.
  - by destruct root.
  - intros H l _. by destruct lockouts.
Qed.

Definition check_result_ok (vs : VoteState) (u : VoteStateUpdate) (sh : list SlotHash)
    (r : outcome VoteError VoteStateUpdate) : Prop :=
  match r with
  | Ok u' => exists earliest, update_checked vs u sh u' earliest
  | Err _ => True
  | Panic => False
  end.

Lemma check_update_correct vs u sh :
  check_result_ok vs u sh (check_update_vote_state_slots_are_valid vs u sh).
Proof.
  unfold check_update_vote_state_slots_are_valid.
  destruct (vsu_last_voted_slot u) as [lst|] eqn:Hlast; [|done].
  match goal with |- context [ensure ?b VoteTooOld] => destruct b eqn:Hnew end;
    cbn [ensure obind]; [|done].
  destruct (fst <$> last sh) as [earliest|] eqn:He; cbn [ok_or obind]; [|done].
  destruct (Z.ltb_spec lst earliest) as [|Hge]; cbn [negb ensure obind]; [done |].
  set (root := replace_old_root vs (vsu_root u) earliest).
  assert (exists l, last (vsu_lockouts u) = Some l /\ lo_slot l = lst) as (l & Hl & Hlst).
  { unfold vsu_last_voted_slot in Hlast. destruct (last _) as [l|]; [|done].
    injection Hlast as <-. eauto. }
  assert (vsu_lockouts u <> []) as Hne by (intros E; by rewrite E in Hl).
  set (st0 := mkCheckLoop root 0 (length sh) []).
  pose proof (check_update_loop_inv vs (vsu_lockouts u) sh earliest root He
    (S (check_update_measure (vsu_lockouts u) st0)) st0
    (loop_inv_init _ _ _ _ _ He Hne) ltac:(lia)) as Hloop.
  destruct (check_update_loop _ _ _ _ _ _) as [st|?|]; cbn [obind]; try done.
  destruct Hloop as [_ _ Hs Hp [Hf1 Hf2] Hr Hend Hfirst].
  destruct (Nat.eqb_spec (vsu_index st) (length (vsu_lockouts u))) as [Hidx|]; cbn; [|done].
  destruct (Hend Hidx l Hl) as [Hbad|[h Hh]]; [lia |]. rewrite Hh. cbn.
  rewrite Hlst, Z.eqb_refl. cbn. destruct (Z.eqb_spec h (vsu_hash u)) as [->|]; cbn; [|done].
  rewrite Hidx, firstn_all in Hs. exists earliest.
  assert (StronglySorted Z.lt (vsu_slots u)) as Hss by (apply Sorted_StronglySorted; [intros ? ? ?; lia | done]).
  pose proof (retain_sublist (vsu_lockouts u) 0 (indexes_to_filter st)) as Hsub.
  split; cbn; try done.
  - eapply StronglySorted_sublist; [|exact Hss]. by apply sublist_map.
  - intros s (x & -> & Hx)%list_elem_of_fmap.
    apply retain_elem in Hx as (k & Hk & Hn); [|done|intros; lia].
    pose proof (Hp k x) as Hpk. unfold passed_ok in Hpk. rewrite decide_False in Hpk by done.
    apply Hpk; [|done]. rewrite Hidx. by eapply lookup_lt_Some.
  - exists lst. unfold vsu_last_voted_slot. cbn. split; [|split; [|split]].
    + erewrite retain_last; [cbn; by rewrite Hlst | done |]. cbn. intros Hin.
      assert (vsu_lockouts u !! (length (vsu_lockouts u) - 1)%nat = Some l) as Hlk.
      { rewrite last_lookup in Hl. by rewrite <- Nat.sub_1_r in Hl. }
      pose proof (Hp _ l (Hf2 _ Hin) Hlk) as Hpk. unfold passed_ok in Hpk.
      rewrite decide_True in Hpk by done. lia.
    + by rewrite Hl; cbn; rewrite Hlst.
    + rewrite <- Hlst. by eapply list_elem_of_lookup_2.
    + intros l' El. rewrite El in Hnew. bool_to_prop. done.
  - intros r Hr'. fold root in Hr'. destruct (root_to_check st) as [r2|] eqn:Ert; [|by apply Hr].
    rewrite Hidx in Hfirst. destruct (vsu_lockouts u); [done |]. by discriminate Hfirst.
Qed.

(** ** Properties *)

(** C13: the check of a vote state update terminates without failing one of
    its assertions, and an update it accepts keeps only votes of the proposal,
    in ascending order, each on the fork of the bank (its slot is in the slot
    hashes, or is older than them and already in the tower); the last vote is
    newer than the tower and has the hash of the update; the root is the
    proposed one or the replacement for a root older than the history. *)
Theorem check_update_accepts_only_fork vs u sh :
  match check_update_vote_state_slots_are_valid vs u sh with
  | Ok u' => exists earliest, update_checked vs u sh u' earliest
  | Err _ => True
  | Panic => False
  end.
Proof. apply check_update_correct. Qed.
