(* ===== verification/CheckSlots.v ===== *)
(** * The slots of a vote against the slot hashes

    [check_slots_are_valid] of [VoteProcess.v] walks over the slots of a vote
    and the history of the bank in one pass. For any slots, against a history in
    descending order as [SlotHashes] keeps it, it is the declarative check
    [check_slots_spec]. *)

From S2P Require Import Prelude InstructionError AuthorizedVoters VoteState VoteProcess.

(** A slot the tower has not voted past. *)
Definition is_new (vs : VoteState) (s : Slot) : bool :=
  match last_voted_slot vs with Some l => l <? s | None => true end.

(** The hash that the bank has for a slot. *)
Definition hash_of (sh : list SlotHash) (s : Slot) : option Hash :=
  snd <$> head (filter (fun h => h.1 = s) sh).

Fixpoint ascending (l : list Slot) : bool :=
  match l with
  | x :: ((y :: _) as l') => (x <? y) && ascending l'
  | _ => true
  end.

(** The reference: the new slots must ascend and be in the history, and the last
    must have the hash of the vote.  A slot that is not new is ignored, unless
    it follows the newest slot of the history. *)
Definition check_slots_spec (vs : VoteState) (slots : list Slot) (hash : Hash)
    (sh : list SlotHash) : outcome VoteError unit :=
  let new := filter (fun s => is_new vs s) slots in
  if bool_decide (new = []) || bool_decide (sh = []) then Err VoteTooOld
  else if negb (ascending new && forallb (fun s => bool_decide (s ∈ sh.*1)) new) then Err SlotsMismatch
  else if bool_decide (last new = head sh.*1) && negb (bool_decide (last slots = last new)) then Err SlotsMismatch
  else if negb (bool_decide ((s ← last new; hash_of sh s) = Some hash)) then Err SlotHashMismatch
  else Ok tt.

Lemma ascending_sorted l : ascending l = true <-> StronglySorted Z.lt l.
Proof.
  induction l as [|x l IH]; [by split; [constructor |]|]. destruct l as [|y l]; [by split; [repeat constructor |]|].
  cbn [ascending]. rewrite andb_true_iff, IH, Z.ltb_lt. split.
  - intros [Hxy Hs]. constructor; [done |]. apply StronglySorted_inv in Hs as Hs'. destruct Hs' as [_ Hy].
    constructor; [done |]. eapply Forall_impl; [exact Hy |]. cbn. lia.
  - intros [Hs Hx]%StronglySorted_inv. split; [by apply Forall_cons in Hx as [? _] | done].
Qed.

Section check_slots.
Context (vs : VoteState) (slots : list Slot) (sh : list SlotHash).
Context (Hsh : StronglySorted Z.gt sh.*1).

Lemma history_lookup_lt i j a b : (i < j)%nat -> sh !! i = Some a -> sh !! j = Some b -> b.1 < a.1.
Proof.
  intros Hij Ha Hb.
  enough (b.1 < a.1) by done. apply Z.gt_lt.
  eapply (StronglySorted_lookup Z.gt sh.*1); [done | exact Hij | |];
    by rewrite list_lookup_fmap, ?Ha, ?Hb.
Qed.

Lemma hash_of_lookup i s h : sh !! i = Some (s, h) -> hash_of sh s = Some h.
Proof.
  revert i. unfold hash_of. induction sh as [|[s' h'] sh' IH]; intros i Hi; [done |].
  apply StronglySorted_inv in Hsh as [Hs' Hall]. destruct i as [|i]; cbn in Hi.
  - injection Hi as -> ->. by rewrite filter_cons_True.
  - rewrite filter_cons_False; [by eapply IH |]. cbn. intros ->.
    rewrite Forall_forall in Hall.
    assert (s ∈ sh'.*1) by (apply list_elem_of_fmap; exists (s, h); split; [done | by eapply list_elem_of_lookup_2]).
    specialize (Hall s ltac:(done)). cbn in Hall. lia.
Qed.

(** The slots [new] ascend and are among the [j] newest slots of the history. *)
Definition matches (new : list Slot) (j : nat) : Prop :=
  StronglySorted Z.lt new /\ forall s, s ∈ new -> s ∈ (take j sh).*1.

Lemma take_history j a h : sh !! j = Some (a, h) -> forall x, x ∈ (take (S j) sh).*1 <-> x = a \/ x ∈ (take j sh).*1.
Proof. intros Hj x. rewrite (take_S_r _ _ _ Hj), fmap_app, elem_of_app. cbn. rewrite list_elem_of_singleton. tauto. Qed.

Lemma history_above j a h x : sh !! j = Some (a, h) -> x ∈ (take j sh).*1 -> a < x.
Proof.
  intros Hj (y & -> & [k Hk]%list_elem_of_lookup_1)%list_elem_of_fmap. apply lookup_take_Some in Hk as [Hk Hlt].
  exact (history_lookup_lt k j y (a, h) Hlt Hk Hj).
Qed.

(** A slot that is not the oldest one left waits for a newer one. *)
Lemma matches_skip s new j a h : sh !! j = Some (a, h) -> s <> a -> matches (s :: new) (S j) <-> matches (s :: new) j.
Proof.
  intros Hj Hne. unfold matches. setoid_rewrite (take_history j a h Hj). split; intros [Hs Hin]; (split; [done |]); intros x Hx; [|auto].
  destruct (Hin x Hx) as [->|]; [|done]. apply elem_of_cons in Hx as [->|Hx]; [done |].
  apply StronglySorted_inv in Hs as [_ Hs]. rewrite Forall_forall in Hs. specialize (Hs a Hx).
  destruct (Hin s ltac:(left)) as [->|Hs']; [done |]. pose proof (history_above j a h s Hj Hs'). lia.
Qed.

Lemma matches_hit new j a h : sh !! j = Some (a, h) -> matches (a :: new) (S j) <-> matches new j.
Proof.
  intros Hj. unfold matches. setoid_rewrite (take_history j a h Hj). split.
  - intros [[Hs Ha]%StronglySorted_inv Hin]. split; [done |]. intros x Hx. rewrite Forall_forall in Ha. specialize (Ha x Hx).
    destruct (Hin x ltac:(by right)) as [->|]; [lia | done].
  - intros [Hs Hin]. split.
    + constructor; [done |]. apply Forall_forall. intros x Hx. exact (history_above j a h x Hj (Hin x Hx)).
    + intros x [->|Hx]%elem_of_cons; auto.
Qed.

(** Nothing is left unread: there was nothing, or history is left, or the last slot was new. *)
Definition read_out (left : list Slot) (j : nat) : Prop :=
  left = [] \/ (0 < j)%nat \/ exists s, last left = Some s /\ is_new vs s = true.

Lemma read_out_cons s left j : left <> [] -> read_out (s :: left) j <-> read_out left j.
Proof. intros Hne. unfold read_out. rewrite last_cons. destruct (last left) eqn:E; [|by apply last_None in E]. naive_solver. Qed.

Lemma old_iff s : is_new vs s = negb (match last_voted_slot vs with Some l => s <=? l | None => false end).
Proof. unfold is_new. destruct (last_voted_slot vs); [|done]. by rewrite Z.leb_antisym, negb_involutive. Qed.

(** The loop, from the slots [left] and the [j] newest slots of the history. *)
Lemma check_slots_loop_spec fuel i j left :
  drop i slots = left -> (i <= length slots)%nat -> (j <= length sh)%nat -> (length left + j < fuel)%nat ->
  let new := filter (fun s => is_new vs s) left in
  exists i' j', check_slots_loop vs slots sh fuel i j = Some (i', j') /\ (j' <= j)%nat /\
    (new = [] -> j' = j) /\ (new <> [] -> (0 < j)%nat -> (j' < j)%nat) /\
    (i' = length slots <-> matches new j /\ read_out left j') /\
    (new <> [] -> matches new j -> exists s h, last new = Some s /\ sh !! j' = Some (s, h)).
Proof.
  revert i j left. induction fuel as [|fuel IH]; intros i j left Hl Hi Hj Hf; [lia |]. cbn [check_slots_loop]. cbn zeta.
  assert (length left = length slots - i)%nat as Hlen by (by rewrite <- Hl, length_drop).
  destruct left as [|s left].
  { cbn in Hlen. rewrite (proj2 (Nat.ltb_ge i (length slots))) by lia. cbn [andb]. exists i, j. cbn.
    split; [done |]. split; [done |]. split; [done |]. split; [done |]. split; [|done].
    split; [intros _ | lia]. split; [split; [constructor | by intros s ?%not_elem_of_nil] | by left]. }
  cbn in Hlen. rewrite (proj2 (Nat.ltb_lt i (length slots))) by lia. cbn [andb].
  assert (slots !! i = Some s) as Hs by (rewrite <- (Nat.add_0_r i), <- lookup_drop; by rewrite Hl).
  assert (drop (i + 1) slots = left) as Hl' by (rewrite Nat.add_1_r; rewrite (drop_S _ s) in Hl by done; congruence).
  destruct j as [|j].
  { cbn [Nat.ltb Nat.leb]. exists i, 0%nat. split; [done |]. split; [done |]. split; [done |]. split; [lia |]. split; [|].
    - split; [lia |]. intros [[_ Hin] [?|[?|(x & Hx & Hn)]]]; [done | lia |].
      exfalso. apply (elem_of_nil x). apply (Hin x). apply list_elem_of_filter. split; [by rewrite Hn | by apply last_Some_elem_of].
    - intros Hne [_ Hin]. destruct (filter _ _) as [|x l]; [done |]. by specialize (Hin x ltac:(left)); apply elem_of_nil in Hin. }
  change (0 <? S j)%nat with true. cbn [andb]. rewrite Hs. cbn [mbind option_bind]. pose proof (old_iff s) as Hold.
  destruct (match last_voted_slot vs with Some l => s <=? l | None => false end) eqn:Eo; cbn [negb] in Hold.
  - destruct (IH (i + 1)%nat (S j) left Hl') as (i' & j' & -> & H1 & H2 & H3 & H4 & H5); [lia.. | cbn in Hf; lia |].
    rewrite filter_cons_False by (rewrite Hold; exact id). exists i', j'. repeat (split; [done |]). split; [|done].
    rewrite H4. destruct left as [|y left]; [|rewrite (read_out_cons s (y :: left)) by done; tauto].
    cbn. rewrite (H2 eq_refl). unfold read_out. naive_solver lia.
  - destruct (lookup_lt_is_Some_2 sh j ltac:(lia)) as [[a h] Ha].
    replace (S j - 1)%nat with j by lia. rewrite Ha. cbn [mbind option_bind fst].
    rewrite filter_cons_True by (by rewrite Hold). destruct (Z.eqb_spec s a) as [->|Hne]; cbn [negb].
    + destruct (IH (i + 1)%nat j left Hl') as (i' & j' & -> & H1 & H2 & H3 & H4 & H5); [lia.. | cbn in Hf; lia |].
      exists i', j'. split; [done |]. split; [lia |]. split; [done |]. split; [lia |]. split.
      * rewrite H4, (matches_hit _ _ _ _ Ha). destruct left as [|y left]; [|rewrite (read_out_cons _ (y :: left)) by done; tauto]. unfold read_out. cbn. naive_solver.
      * intros _ Hm%(matches_hit _ _ _ _ Ha). rewrite last_cons. destruct (filter _ left) as [|y l] eqn:E.
        { rewrite (H2 eq_refl). exists a, h. done. }
        destruct (H5 ltac:(done) Hm) as (x & hx & Hx & Hjx). exists x, hx. by rewrite Hx.
    + destruct (IH i j (s :: left) Hl) as (i' & j' & -> & H1 & _ & H3 & H4 & H5); [lia.. | cbn in Hf; cbn; lia |].
      rewrite filter_cons_True in * by (by rewrite Hold).
      exists i', j'. split; [done |]. split; [lia |]. split; [done |]. split; [lia |].
      by rewrite (matches_skip _ _ _ _ _ Ha Hne).
Qed.

Lemma last_new : let new := filter (fun s => is_new vs s) slots in
  new <> [] -> (exists s, last slots = Some s /\ is_new vs s = true) <-> last slots = last new.
Proof.
  cbn zeta. destruct slots as [|x l _] using rev_ind; [done |]. rewrite filter_app, last_snoc. intros Hne. split.
  - intros (s & [= <-] & Hn). rewrite filter_cons_True by (by rewrite Hn). rewrite filter_nil. by rewrite last_snoc.
  - intros Hl. exists x. split; [done |]. symmetry in Hl.
    apply last_Some_elem_of in Hl. rewrite <- filter_app in Hl. apply list_elem_of_filter in Hl as [Hl _]. by apply Is_true_true in Hl.
Qed.

Lemma history_head j s h : sh !! j = Some (s, h) -> Some s = head sh.*1 <-> j = 0%nat.
Proof.
  intros Hj. rewrite head_lookup, list_lookup_fmap. destruct (sh !! 0%nat) as [a|] eqn:E0; cbn.
  2: { apply lookup_ge_None in E0. apply lookup_lt_Some in Hj. lia. }
  destruct j as [|j]; [rewrite E0 in Hj; by injection Hj as ->|]. pose proof (history_lookup_lt 0 (S j) a (s, h) ltac:(lia) E0 Hj). cbn in *.
  split; [|done]. intros [= ->]. lia.
Qed.

Lemma check_slots_are_valid_eq hash :
  check_slots_are_valid vs slots hash sh = check_slots_spec vs slots hash sh.
Proof.
  unfold check_slots_are_valid, check_slots_spec.
  destruct (check_slots_loop_spec (S (length slots + length sh)) 0 (length sh) slots eq_refl) as (i & j & -> & Hj & H2 & H3 & H4 & H5); [lia.. |].
  set (new := filter _ slots) in *. cbn [expect obind].
  case_bool_decide as Hnew; [by rewrite (H2 Hnew), Nat.eqb_refl|]. case_bool_decide as Hnil.
  { cbn [orb]. rewrite Hnil in Hj |- *. cbn in Hj |- *. by replace j with 0%nat by lia. }
  assert (0 < length sh)%nat as Hpos by (destruct sh; [done | cbn; lia]). specialize (H3 Hnew Hpos).
  rewrite (proj2 (Nat.eqb_neq j (length sh))) by lia. cbn [orb negb ensure obind].
  assert (matches new (length sh) <-> ascending new && forallb (fun s => bool_decide (s ∈ sh.*1)) new = true) as Hm.
  { unfold matches. rewrite firstn_all, andb_true_iff, ascending_sorted, forallb_forall. setoid_rewrite bool_decide_eq_true.
    split; intros [? Hin]; (split; [done |]); intros x Hx; apply Hin; by apply list_elem_of_In. }
  destruct (ascending new && _); cbn [negb].
  2: { rewrite (proj2 (Nat.eqb_neq i (length slots))); [done |]. rewrite H4, Hm. by intros [? _]. }
  specialize (proj2 Hm eq_refl) as Hmat. destruct (H5 Hnew Hmat) as (s & h & Hs & Hh).
  assert (i = length slots <-> ~ (last new = head sh.*1 /\ last slots <> last new)) as Hi.
  { rewrite H4. pose proof (last_new Hnew) as Hln. fold new in Hln. rewrite <- Hln, Hs, (history_head _ _ _ Hh).
    assert (slots <> []) by (by intros ->). unfold read_out.
    destruct (decide (last slots = last new)) as [E|E]; destruct (decide (j = 0%nat)); rewrite Hln; naive_solver lia. }
  rewrite Hh, Hs in *. cbn [expect obind mbind option_bind]. rewrite (hash_of_lookup _ _ _ Hh). cbn [snd].
  case_bool_decide as Ha; case_bool_decide as Hb; cbn [negb andb].
  2: { rewrite (proj2 (Nat.eqb_neq i (length slots))); [done |]. rewrite Hi. tauto. }
  all: rewrite (proj2 (Nat.eqb_eq i (length slots))) by (rewrite Hi; tauto); cbn [ensure obind].
  all: destruct (Z.eqb_spec h hash) as [->|Hne]; [by rewrite bool_decide_eq_true_2 | by rewrite bool_decide_eq_false_2 by congruence].
Qed.
End check_slots.

(** On ascending slots of a vote nothing can follow the newest slot of the history. *)
Lemma new_slots_last vs slots :
  StronglySorted Z.lt slots -> filter (fun s => is_new vs s) slots <> [] -> last (filter (fun s => is_new vs s) slots) = last slots.
Proof.
  intros Hs Hn. eapply last_filter_upper; [exact Hs | | done]. intros x y Hxy. unfold is_new.
  destruct (last_voted_slot vs); [|done]. intros Hx%Is_true_true%Z.ltb_lt. apply Is_true_true, Z.ltb_lt. lia.
Qed.

Lemma check_slots_spec_new vs slots hash sh :
  check_slots_spec vs slots hash sh = Ok tt ->
  filter (fun s => is_new vs s) slots <> [] /\ StronglySorted Z.lt (filter (fun s => is_new vs s) slots).
Proof.
  unfold check_slots_spec. case_bool_decide; [done |]. case_bool_decide; [done |]. cbn [orb].
  destruct (ascending _) eqn:Ha; [|done]. intros _. split; [done |]. by apply ascending_sorted.
Qed.

(** ** Properties *)

(** C33: against a history in descending order, as the slot hashes of a bank are,
    the one-pass check of any list of slots is the declarative one: too old when
    no slot is new or there is no history, a mismatch when the new slots do not
    ascend, are not all in the history, or the newest of the history is followed
    by a slot that is not new, a hash mismatch when the last new slot has another
    hash, accepted otherwise. *)
Theorem check_slots_matches_reference vs slots hash sh :
  StronglySorted Z.gt sh.*1 ->
  check_slots_are_valid vs slots hash sh = check_slots_spec vs slots hash sh.
Proof. intros Hsh. by apply check_slots_are_valid_eq. Qed.

Lemma check_slots_matches_reference_witness :
  check_slots_are_valid vote_state_default [2; 4] 40 [(5, 50); (4, 40); (2, 20)] = Ok tt /\
  check_slots_are_valid vote_state_default [5; 3] 30 [(5, 50); (3, 30)] = Err SlotsMismatch.
Proof. split; (rewrite check_slots_matches_reference; [reflexivity | repeat constructor]). Defined.
