(* ===== verification/VoteSafety.v ===== *)
(** * What a vote state goes through

    The operations that change a [VoteState] as one step relation, whatever
    result they return, and what holds in every state it reaches: the tower is
    well formed, the root does not move back, and no vote is dropped while it
    is locked out. *)

From S2P Require Import Prelude InstructionError AuthorizedVoters VoteState Credits Tower VoteProcess NewVoteState CheckUpdate CheckSlots VoteVersions Authority.

(** ** Failing operations *)

(** What a failing operation may still have changed: the credits. *)
Record same_tower (vs vs' : VoteState) : Prop := {
  st_votes : votes vs' = votes vs;
  st_root : root_slot vs' = root_slot vs;
  st_timestamp : last_timestamp vs' = last_timestamp vs;
  st_voters : authorized_voters vs' = authorized_voters vs;
}.

Lemma same_tower_refl vs : same_tower vs vs.
Proof. done. Qed.
#[export] Hint Resolve same_tower_refl : fdp.

Lemma increment_credits_tower vs ep c : same_tower vs (increment_credits vs ep c).
Proof. done. Qed.

Lemma process_new_vote_state_failed vs new root ts ep cur fs vs' r :
  process_new_vote_state vs new root ts ep cur fs = (vs', r) -> r <> Ok tt ->
  same_tower vs vs' /\ (vs' = vs \/ r = Err TimestampTooOld \/ r = Panic).
Proof.
  unfold process_new_vote_state. cbn zeta.
  destruct (check_new_vote_state _ _ _ _ _ _) as [[res e]|?|]; [|intros [= <- <-]; eauto with fdp..].
  set (vs1 := if negb (bool_decide (root_slot vs = root)) then increment_credits vs ep e else vs).
  assert (same_tower vs vs1) as Hsame by (unfold vs1; destruct (negb _); done).
  destruct ts as [ts|]; [|by intros [= <- <-]].
  destruct (last res) as [v|]; [|intros [= <- <-]; eauto].
  destruct (process_timestamp vs1 (slot v) ts) as [vs2 r2] eqn:E.
  destruct (decide (r2 = Ok tt)) as [->|Hne].
  { by intros [= <- <-]. }
  apply process_timestamp_Err in E as [-> ->]; [|done]. intros [= <- <-]. eauto.
Qed.

(** ** No operation panics *)

Lemma check_new_votes_no_panic root prev l : check_new_votes root prev l <> Panic.
Proof.
  revert prev. induction l as [|v l IH]; intros prev; cbn; [done |].
  destruct (if confirmation_count v =? 0 then _ else _) as [[]|?|] eqn:E; cbn; [|done|].
  - destruct prev as [p|]; [|apply IH]. repeat case_match; cbn; done.
  - repeat case_match; done.
Qed.

Lemma reconcile_no_panic current new : reconcile current new <> Panic.
Proof.
  revert new. induction current as [|c current IH]; [by intros [] |].
  induction new as [|v new IHn]; [done |]. cbn.
  destruct (slot c ?= slot v).
  - destruct (_ <? _); [done |]. specialize (IH new).
    destruct (reconcile current new); cbn; done.
  - destruct (_ <=? _); [done |]. apply IH.
  - destruct (reconcile (c :: current) new) eqn:E; cbn in *; rewrite E; done.
Qed.

Lemma max_credits_small d : 1 + max_credits d * 31 <= u64_max.
Proof. by destruct d. Qed.

Lemma check_new_vote_state_no_panic vs new root cur t d :
  vote_state_ok vs -> new <> [] -> check_new_vote_state vs new root cur t d <> Panic.
Proof.
  intros [Hok _ Hlat _] Hne. unfold check_new_vote_state.
  rewrite bool_decide_eq_false_2 by done. cbn [negb rust_assert obind].
  apply bind_no_panic; [apply ensure_no_panic | intros _ _].
  apply bind_no_panic; [by destruct root, (root_slot vs); cbn; try apply ensure_no_panic | intros _ _].
  apply bind_no_panic; [apply check_new_votes_no_panic | intros _ _].
  apply bind_no_panic; [|intros [e i] _].
  { destruct root as [r|]; [|done]. assert (zlength (votes vs) <= 31) by (pose proof (tower_ok_length _ Hok) as Hl; unfold MAX_LOCKOUT_HISTORY in Hl; lia).
    pose proof (max_credits_small d). pose proof (max_credits_ge d).
    destruct (rooted_credits_total vs t d r (votes vs) 0 (if t then 0 else 1)) as [? ->];
      [done | by destruct t | destruct t; nia | done]. }
  apply bind_no_panic; [apply reconcile_no_panic | done].
Qed.

(** ** Votes, slot by slot *)

#[global] Instance root_le_preorder : PreOrder root_le.
Proof.
  split.
  - intros [r|]; cbn; [lia | done].
  - intros [a|] [b|] [c|]; cbn; try done; lia.
Qed.

(** The tower after a sequence of accepted changes. *)
Definition vote_slots_fold (vs : VoteState) (slots : list Slot) (ep : Epoch) (cur : Slot)
    (t d : bool) : VoteState :=
  foldl (fun vs s => process_next_vote_slot vs s ep cur t d) vs slots.

Lemma vote_slots_fold_spec vs slots ep cur t d :
  vote_state_ok vs -> Forall in_u64 slots ->
  vote_state_ok (vote_slots_fold vs slots ep cur t d) /\
  rtc tower_advance vs (vote_slots_fold vs slots ep cur t d).
Proof.
  intros Hok Hs. revert vs Hok. induction Hs as [|s slots Hs Hss IH]; intros vs Hok; cbn; [done |].
  destruct (process_next_vote_slot_spec vs s ep cur t d Hok Hs) as [Hok' Hadv].
  destruct (IH _ Hok') as [? ?]. split; [done | by eapply rtc_l].
Qed.

Lemma rtc_advance_root vs vs' : rtc tower_advance vs vs' -> root_le (root_slot vs) (root_slot vs').
Proof. induction 1 as [|x y z [Hr _] _ IH]; [done | by etrans]. Qed.

Lemma last_voted_slot_last vs : last_voted_slot vs = slot <$> last (votes vs).
Proof. unfold last_voted_slot, last_lockout. by destruct (last (votes vs)). Qed.

Lemma next_vote_last vs s ep cur t d :
  tower_ok (votes vs) ->
  last_voted_slot (process_next_vote_slot vs s ep cur t d) =
  Some (match last_voted_slot vs with Some l => Z.max l s | None => s end).
Proof.
  intros Hok. destruct (process_next_vote_slot_shape vs s ep cur t d Hok)
    as [[-> (l & Hl & Hle)]|(rooted & kept & expired & w & [])].
  { rewrite Hl. f_equal. lia. }
  rewrite !last_voted_slot_last, nv_votes, imap_app, last_app. cbn.
  rewrite bump_slot, nv_slot.
  f_equal. destruct (last (votes vs)) as [v|] eqn:E; [|done]. cbn.
  apply last_Some_elem_of, nv_newer in E. lia.
Qed.

Lemma filter_ext_elem {A} (P Q : A -> Prop) `{!forall x, Decision (P x), !forall x, Decision (Q x)} (l : list A) :
  (forall x, x ∈ l -> P x <-> Q x) -> filter P l = filter Q l.
Proof.
  induction l as [|x l IH]; intros Hpq; [done |]. rewrite !filter_cons, IH by (intros; apply Hpq; by right).
  specialize (Hpq x ltac:(left)). destruct (decide (P x)), (decide (Q x)); tauto.
Qed.

(** Slots that are not new change nothing, and new ones that ascend are pushed. *)
Lemma vote_slots_fold_last vs slots ep cur t d :
  vote_state_ok vs -> Forall in_u64 slots -> StronglySorted Z.lt (filter (fun s => is_new vs s) slots) ->
  last_voted_slot (vote_slots_fold vs slots ep cur t d) =
  match last (filter (fun s => is_new vs s) slots) with Some s => Some s | None => last_voted_slot vs end.
Proof.
  intros Hok Hs. revert vs Hok. induction Hs as [|s slots Hs Hss IH]; intros vs Hok Hst; [done |].
  cbn [vote_slots_fold foldl]. fold (vote_slots_fold (process_next_vote_slot vs s ep cur t d) slots ep cur t d).
  destruct (process_next_vote_slot_spec vs s ep cur t d Hok Hs) as [Hok' _].
  pose proof (next_vote_last vs s ep cur t d (vs_tower _ Hok)) as Hl. set (vs' := process_next_vote_slot vs s ep cur t d) in *.
  destruct (is_new vs s) eqn:Hn.
  - rewrite filter_cons_True in Hst |- * by (by rewrite Hn). apply StronglySorted_inv in Hst as [Hst Hlt].
    assert (last_voted_slot vs' = Some s) as Hl'.
    { rewrite Hl. unfold is_new in Hn. destruct (last_voted_slot vs); [|done]. apply Z.ltb_lt in Hn. f_equal. lia. }
    assert (filter (fun x => is_new vs' x) slots = filter (fun x => is_new vs x) slots) as Hf.
    { apply filter_ext_elem. rewrite Forall_forall in *. intros x Hx. split.
      - intros Hx'%Is_true_true. apply Is_true_true. unfold is_new in *. rewrite Hl' in Hx'. apply Z.ltb_lt in Hx'.
        destruct (last_voted_slot vs); [|done]. apply Z.ltb_lt in Hn. apply Z.ltb_lt. lia.
      - intros Hx'. apply Is_true_true. unfold is_new. rewrite Hl'. apply Z.ltb_lt, Hlt. by apply list_elem_of_filter. }
    rewrite IH, Hf, last_cons, Hl' by (done || by rewrite Hf). by destruct (last _).
  - rewrite filter_cons_False in Hst |- * by (rewrite Hn; exact id).
    assert (last_voted_slot vs' = last_voted_slot vs) as Hl'.
    { rewrite Hl. unfold is_new in Hn. destruct (last_voted_slot vs); [|done]. apply Z.ltb_ge in Hn. f_equal. lia. }
    assert (filter (fun x => is_new vs' x) slots = filter (fun x => is_new vs x) slots) as Hf
      by (apply filter_ext_elem; intros x _; unfold is_new; by rewrite Hl').
    rewrite IH, Hf, Hl' by (done || by rewrite Hf). done.
Qed.

Lemma check_slots_loop_total vs slots sh fuel i j :
  (i <= length slots)%nat -> (j <= length sh)%nat -> (length slots - i + j < fuel)%nat ->
  exists i' j', check_slots_loop vs slots sh fuel i j = Some (i', j') /\ (j' <= j)%nat.
Proof.
  revert i j. induction fuel as [|fuel IH]; intros i j Hi Hj Hf; [lia |]. cbn [check_slots_loop].
  destruct ((i <? length slots) && (0 <? j))%nat eqn:E; [|exists i, j; split; [done | lia]].
  apply andb_true_iff in E as [H1%Nat.ltb_lt H2%Nat.ltb_lt].
  destruct (lookup_lt_is_Some_2 slots i H1) as [s ->]. cbn.
  destruct (match last_voted_slot vs with Some _ => _ | None => _ end); [apply IH; lia |].
  destruct (lookup_lt_is_Some_2 sh (j - 1)%nat ltac:(lia)) as [h ->]. cbn.
  destruct (negb _).
  - destruct (IH i (j - 1)%nat) as (i' & j' & -> & ?); try lia. exists i', j'. split; [done | lia].
  - destruct (IH (i + 1)%nat (j - 1)%nat) as (i' & j' & -> & ?); try lia. exists i', j'. split; [done | lia].
Qed.

Lemma check_slots_no_panic vs slots hash sh : check_slots_are_valid vs slots hash sh <> Panic.
Proof.
  unfold check_slots_are_valid.
  destruct (check_slots_loop_total vs slots sh (S (length slots + length sh)) 0 (length sh))
    as (i & j & -> & Hj); try lia. cbn [expect obind].
  destruct (Nat.eqb_spec j (length sh)); cbn [negb ensure obind]; [done |].
  destruct (_ =? _)%nat; cbn [ensure obind]; [|done].
  destruct (lookup_lt_is_Some_2 sh j ltac:(lia)) as [h ->]. cbn. by destruct (_ =? _).
Qed.

Definition process_vote_result (vs vs' : VoteState) (r : outcome VoteError unit) : Prop :=
  vote_state_ok vs' /\ rtc tower_advance vs vs' /\ r <> Panic /\ (r <> Ok tt -> vs' = vs).

Lemma process_vote_spec vs vote sh ep cur t d vs' r :
  vote_state_ok vs -> Forall in_u64 (vote_slots vote) ->
  process_vote vs vote sh ep cur t d = (vs', r) -> process_vote_result vs vs' r.
Proof.
  intros Hok Hs. unfold process_vote, process_vote_unfiltered, process_vote_result.
  case_bool_decide; [by intros [= <- <-]; eauto using rtc_refl |].
  case_bool_decide; [by intros [= <- <-]; eauto using rtc_refl |].
  match goal with |- context [check_slots_are_valid vs ?l ?h sh] =>
    pose proof (check_slots_no_panic vs l h sh) as Hp; set (slots := l) in * end.
  destruct (check_slots_are_valid _ _ _ _) as [[]|?|]; [| |done]; intros [= <- <-].
  - destruct (vote_slots_fold_spec vs slots ep cur t d Hok) as [H1 H2]; [|done].
    unfold slots. rewrite Forall_forall in *. intros x [_ Hx]%list_elem_of_filter. auto.
  - split; [done |]. split; [apply rtc_refl | done].
Qed.

(** ** Proposed vote states *)

(** What the types of an update give. *)
Definition typed_lockout (l : Lockout) : Prop :=
  in_u64 (lo_slot l) /\ in_u32 (lo_confirmation_count l).

Lemma typed_landed l : Forall typed_lockout l -> Forall typed_vote (landed_from_lockout <$> l).
Proof.
  intros H. apply Forall_fmap. eapply Forall_impl; [exact H |]. intros x [? ?].
  split; [done |]. split; [done |]. done.
Qed.

Definition process_update_result (vs vs' : VoteState) (r : outcome VoteError unit) : Prop :=
  vote_state_ok vs' /\ r <> Panic /\
  (r = Ok tt -> tower_advance vs vs') /\ (r <> Ok tt -> same_tower vs vs').

Lemma process_new_vote_state_no_panic vs new root ts ep cur fs vs' r :
  vote_state_ok vs -> Forall typed_vote new -> new <> [] ->
  process_new_vote_state vs new root ts ep cur fs = (vs', r) -> r <> Panic.
Proof.
  intros Hok Ht Hne. unfold process_new_vote_state. cbn zeta.
  match goal with |- context [check_new_vote_state _ _ _ _ ?t ?d] =>
    pose proof (check_new_vote_state_no_panic vs new root cur t d Hok Hne) as Hp end.
  destruct (check_new_vote_state _ _ _ _ _ _) as [[res e]|?|] eqn:E; [|by intros [= _ <-] | done].
  pose proof (check_new_vote_state_Ok _ _ _ _ _ _ _ _ E Hok Ht) as [Hs _ _ _ _ _ _].
  destruct ts as [ts|]; [|by intros [= _ <-]].
  destruct (last res) as [v|] eqn:El.
  - destruct (process_timestamp _ _ _) as [vs2 r2] eqn:E2.
    destruct r2 as [[]|?|]; [by intros [= _ <-] | by intros [= _ <-] |].
    by apply process_timestamp_Err in E2 as [_ ?].
  - apply last_None in El as ->. by apply Forall2_nil_inv_r in Hs.
Qed.

Lemma same_tower_ok vs vs' :
  same_tower vs vs' -> credits_ok (epoch_credits vs') -> vote_state_ok vs -> vote_state_ok vs'.
Proof. intros [Hv Hr _ _] Hc []. by split; rewrite ?Hv, ?Hr. Qed.

Lemma process_new_vote_state_credits_ok vs new root ts ep cur fs vs' r :
  vote_state_ok vs -> Forall typed_vote new ->
  process_new_vote_state vs new root ts ep cur fs = (vs', r) -> credits_ok (epoch_credits vs').
Proof.
  intros Hok Ht. unfold process_new_vote_state. cbn zeta.
  destruct (check_new_vote_state _ _ _ _ _ _) as [[res e]|?|] eqn:E; [|intros [= <- _]; apply Hok..].
  pose proof (check_new_vote_state_Ok _ _ _ _ _ _ _ _ E Hok Ht) as [_ _ _ _ _ _ He].
  set (vs1 := if negb (bool_decide (root_slot vs = root)) then increment_credits vs ep e else vs).
  assert (credits_ok (epoch_credits vs1)) as Hc.
  { unfold vs1. destruct (negb _); [|apply Hok].
    apply increment_credits_spec; [|apply Hok]. subst e. apply earned_credits_nonneg, Hok. }
  destruct ts as [ts|]; [|by intros [= <- _]]. destruct (last res) as [v|]; [|by intros [= <- _]].
  destruct (process_timestamp vs1 (slot v) ts) as [vs2 r2] eqn:E2.
  assert (epoch_credits vs2 = epoch_credits vs1) as Heq.
  { unfold process_timestamp in E2. destruct (_ || _); by injection E2 as <- _. }
  destruct r2; intros [= <- _]; cbn; by rewrite Heq.
Qed.

Lemma last_landed u s :
  vsu_last_voted_slot u = Some s -> exists t, t ∈ landed_from_lockout <$> vsu_lockouts u /\ slot t = s.
Proof.
  unfold vsu_last_voted_slot. destruct (last (vsu_lockouts u)) as [l|] eqn:El; [|done]. intros [= <-].
  exists (landed_from_lockout l). split; [|done]. by apply list_elem_of_fmap_2, last_Some_elem_of.
Qed.

Lemma tower_last_max l v : tower_ok l -> v ∈ l -> exists w, last l = Some w /\ slot v <= slot w.
Proof.
  intros Hs%tower_slots_sorted Hv. destruct (last l) as [w|] eqn:El; [|by apply last_None in El as ->; apply elem_of_nil in Hv].
  exists w. split; [done |]. apply last_Some in El as [l' ->]. apply elem_of_app in Hv as [Hv|Hv%list_elem_of_singleton]; [|subst; lia].
  apply StronglySorted_app_inv in Hs as (_ & _ & Hs). specialize (Hs v w Hv ltac:(by apply list_elem_of_singleton)). cbn in Hs. lia.
Qed.

Lemma do_process_update_spec vs sh ep cur u fs vs' r :
  vote_state_ok vs -> Forall typed_lockout (vsu_lockouts u) ->
  do_process_vote_state_update vs sh ep cur u fs = (vs', r) -> process_update_result vs vs' r.
Proof.
  intros Hok Ht. unfold do_process_vote_state_update, process_update_result.
  pose proof (check_update_correct vs u sh) as Hc.
  destruct (check_update_vote_state_slots_are_valid vs u sh) as [u'|?|]; [|by intros [= <- <-] | done].
  destruct Hc as (earliest & [_ Hsub _ _ (s & Hs & _ & _ & Hnewer) _ _ _]). intros H.
  assert (Forall typed_vote (landed_from_lockout <$> vsu_lockouts u')) as Ht'.
  { apply typed_landed. by eapply Forall_sublist. }
  assert (landed_from_lockout <$> vsu_lockouts u' <> []) as Hne.
  { unfold vsu_last_voted_slot in Hs. by destruct (vsu_lockouts u'). }
  pose proof (process_new_vote_state_no_panic _ _ _ _ _ _ _ _ _ Hok Ht' Hne H).
  pose proof (process_new_vote_state_credits_ok _ _ _ _ _ _ _ _ _ Hok Ht' H).
  destruct (decide (r = Ok tt)) as [->|Hr].
  - destruct (process_new_vote_state_spec _ _ _ _ _ _ _ _ H Hok Ht') as (? & _ & _ & Hadv).
    split; [done |]. split; [done |]. split; [|done]. intros _. apply Hadv. intros v Hv.
    destruct (last_landed u' s Hs) as (t & Hin & <-). exists t. split; [done |].
    destruct (tower_last_max (votes vs) v (vs_tower vs Hok) Hv) as (w & Hw & Hle).
    specialize (Hnewer (slot w)). rewrite Hw in Hnewer. specialize (Hnewer eq_refl). lia.
  - destruct (process_new_vote_state_failed _ _ _ _ _ _ _ _ _ H Hr) as [? _].
    split; [by eapply same_tower_ok | done].
Qed.

Lemma last_voted_slot_votes vs : last_voted_slot vs = slot <$> last (votes vs).
Proof. unfold last_voted_slot, last_lockout. by destruct (last (votes vs)). Qed.

Lemma same_lockouts_slots l l' : same_lockouts l l' -> slot <$> l = slot <$> l'.
Proof. induction 1 as [|v w l l' Hvw _ IH]; cbn; [done |]. rewrite IH. f_equal. unfold slot. by rewrite Hvw. Qed.

(** The last vote of an accepted update is later than the one before. *)
Lemma do_process_update_last vs sh ep cur u fs vs' :
  vote_state_ok vs -> Forall typed_lockout (vsu_lockouts u) ->
  do_process_vote_state_update vs sh ep cur u fs = (vs', Ok tt) ->
  exists s, last_voted_slot vs' = Some s /\ forall s0, last_voted_slot vs = Some s0 -> s0 < s.
Proof.
  intros Hok Ht. unfold do_process_vote_state_update.
  pose proof (check_update_correct vs u sh) as Hc.
  destruct (check_update_vote_state_slots_are_valid vs u sh) as [u'|?|]; [|done | done].
  destruct Hc as (earliest & [_ Hsub _ _ (s & Hs & _ & _ & Hnewer) _ _ _]). intros H.
  assert (Forall typed_vote (landed_from_lockout <$> vsu_lockouts u')) as Ht'.
  { apply typed_landed. by eapply Forall_sublist. }
  destruct (process_new_vote_state_spec _ _ _ _ _ _ _ _ H Hok Ht') as (_ & Hsame & _).
  exists s. split; [|intros s0 Hs0; apply Hnewer; by rewrite <- last_voted_slot_votes].
  rewrite last_voted_slot_votes. unfold vsu_last_voted_slot in Hs.
  assert (same_lockouts (landed_from_lockout <$> vsu_lockouts u') (votes vs')) as Hl by done.
  apply same_lockouts_slots in Hl. rewrite <- fmap_last, <- Hl, fmap_last, fmap_last, <- Hs.
  by destruct (last (vsu_lockouts u')).
Qed.

(** ** The life of a vote state *)

(** The operations of the vote program on the state of an account between its
    initialisation and its closing, with arguments of their types and whatever
    they return; the last one is the storage of the state in the old layout. *)
Inductive vote_step : VoteState -> VoteState -> Prop :=
| step_vote vs vote sh ep cur t d :
    Forall in_u64 (vote_slots vote) -> vote_step vs (process_vote vs vote sh ep cur t d).1
| step_update vs sh ep cur u fs :
    Forall typed_lockout (vsu_lockouts u) ->
    vote_step vs (do_process_vote_state_update vs sh ep cur u fs).1
| step_timestamp vs s ts : vote_step vs (process_timestamp vs s ts).1
| step_voter vs ep : 0 <= ep -> vote_step vs (get_and_update_authorized_voter vs ep).1
| step_authorize vs pk ep target verify :
    0 <= ep -> vote_step vs (set_new_authorized_voter vs pk ep target verify).1
| step_withdrawer vs pk : vote_step vs (set_authorized_withdrawer vs pk)
| step_identity vs pk : vote_step vs (set_node_pubkey vs pk)
| step_commission vs c : in_u8 c -> vote_step vs (set_commission vs c)
| step_downgrade vs : vote_step vs (convert_to_current (V1_14_11 (vote_state_1_14_11_from vs))).

Lemma forget_latencies_ok vs : vote_state_ok vs -> vote_state_ok (forget_latencies vs).
Proof.
  intros [Ht Hr Hl Hc].
  assert (same_lockouts (votes vs) (votes (forget_latencies vs))) as Hs.
  { cbn. clear. induction (votes vs); cbn; [constructor |]. by constructor. }
  split; [by rewrite <- Hs | cbn; by rewrite <- Hs | | done].
  cbn. apply Forall_fmap, Forall_true. intros v. cbn. by unfold in_u8, u8_max.
Qed.

(** The operations that leave the tower alone. *)
Definition tower_untouched (vs vs' : VoteState) : Prop :=
  votes vs' = votes vs /\ root_slot vs' = root_slot vs /\ epoch_credits vs' = epoch_credits vs.

Lemma tower_untouched_ok vs vs' : tower_untouched vs vs' -> vote_state_ok vs -> vote_state_ok vs'.
Proof. intros (Hv & Hr & Hc) []. by split; rewrite ?Hv, ?Hr, ?Hc. Qed.

Lemma get_and_update_untouched vs ep : tower_untouched vs (get_and_update_authorized_voter vs ep).1.
Proof.
  unfold get_and_update_authorized_voter, tower_untouched. by repeat case_match.
Qed.

Lemma set_new_voter_untouched vs pk ep target verify :
  tower_untouched vs (set_new_authorized_voter vs pk ep target verify).1.
Proof.
  pose proof (get_and_update_untouched vs ep) as H. unfold set_new_authorized_voter.
  destruct (get_and_update_authorized_voter vs ep) as [vs1 r1]. cbn in H. by repeat case_match.
Qed.

Lemma process_timestamp_untouched vs s ts : tower_untouched vs (process_timestamp vs s ts).1.
Proof. unfold process_timestamp, tower_untouched. by case_match. Qed.

#[export] Hint Resolve get_and_update_untouched set_new_voter_untouched process_timestamp_untouched : fdp.

Lemma vote_step_spec vs vs' :
  vote_step vs vs' -> vote_state_ok vs ->
  vote_state_ok vs' /\ root_le (root_slot vs) (root_slot vs').
Proof.
  assert (forall vs', tower_untouched vs vs' -> vote_state_ok vs ->
    vote_state_ok vs' /\ root_le (root_slot vs) (root_slot vs')) as Hun.
  { intros vs1 H Hok. split; [by eapply tower_untouched_ok |]. by destruct H as (_ & -> & _). }
  intros Hstep Hok. destruct Hstep; try (apply Hun; [solve [auto with fdp | by repeat split] | done]).
  - destruct (process_vote _ _ _ _ _ _ _) as [vs' r] eqn:E. cbn [fst].
    destruct (process_vote_spec _ _ _ _ _ _ _ _ _ Hok H E) as (Hok' & Hadv & _).
    split; [done | by apply rtc_advance_root].
  - destruct (do_process_vote_state_update _ _ _ _ _ _) as [vs' r] eqn:E. cbn [fst].
    destruct (do_process_update_spec _ _ _ _ _ _ _ _ Hok H E) as (Hok' & _ & Hadv & Hsame).
    split; [done |]. destruct (decide (r = Ok tt)) as [Hr|Hr]; [by apply Hadv |].
    by rewrite (st_root _ _ (Hsame Hr)).
  - rewrite convert_downgraded. split; [by apply forget_latencies_ok | done].
Qed.

Lemma rtc_vote_step_spec vs vs' :
  rtc vote_step vs vs' -> vote_state_ok vs ->
  vote_state_ok vs' /\ root_le (root_slot vs) (root_slot vs').
Proof.
  induction 1 as [|x y z Hxy _ IH]; intros Hok; [done |].
  destruct (vote_step_spec _ _ Hxy Hok) as [Hok' Hle]. destruct (IH Hok') as [? ?].
  split; [done | by etrans].
Qed.

Lemma vote_state_new_ok init clock : vote_state_ok (vote_state_new init clock).
Proof. split; cbn; [split; constructor | done | constructor |]. by repeat constructor. Qed.

(** ** Properties *)

(** C4: in every state that the vote program reaches from a freshly
    initialised one, whatever instructions succeed or fail, the tower is well
    formed (slots ascend, confirmations descend and are between 1 and 31, every
    vote is locked out when its successor is cast, the root is below the votes,
    the credit history is consistent), and the root never moves back. *)
Theorem reachable_states_ok init clock vs vs' :
  rtc vote_step (vote_state_new init clock) vs -> rtc vote_step vs vs' ->
  vote_state_ok vs /\ vote_state_ok vs' /\ root_le (root_slot vs) (root_slot vs').
Proof.
  intros H1 H2. destruct (rtc_vote_step_spec _ _ H1 (vote_state_new_ok _ _)) as [Hok _].
  by destruct (rtc_vote_step_spec _ _ H2 Hok) as [? ?].
Qed.

Definition demo_init : VoteInit := mkVoteInit 1 2 3 10.
Definition demo_clock : Clock := mkClock 0 0 0 0 0.
Definition demo_state : VoteState :=
  (process_vote (vote_state_new demo_init demo_clock) (mkVote [3; 5] 50 None)
     [(5, 50); (4, 40); (3, 30)] 0 6 true true).1.
Definition demo_update : VoteStateUpdate :=
  mkVoteStateUpdate [mkLockout 5 2; mkLockout 6 1] (Some 3) 60 (Some 1000).
Definition demo_history : list SlotHash := [(6, 60); (5, 50); (4, 40); (3, 30)].

Lemma demo_slots_u64 : Forall in_u64 [3; 5].
Proof. repeat constructor; vm_compute; congruence. Defined.

Lemma demo_lockouts_typed : Forall typed_lockout (vsu_lockouts demo_update).
Proof. repeat constructor; vm_compute; congruence. Defined.

Lemma reachable_states_ok_witness :
  let vs' := (do_process_vote_state_update demo_state demo_history 0 7 demo_update None).1 in
  vote_state_ok vs' /\ root_le None (Some 3).
Proof.
  destruct (reachable_states_ok demo_init demo_clock demo_state
    (do_process_vote_state_update demo_state demo_history 0 7 demo_update None).1) as (_ & H1 & H2).
  - eapply rtc_once, step_vote, demo_slots_u64.
  - eapply rtc_once, step_update, demo_lockouts_typed.
  - split; [exact H1 | exact H2].
Defined.

(** C6: a vote state update never panics; a rejected one leaves the votes, the
    root, the timestamp and the voters as they were; an accepted one gives a
    well formed tower with a later last vote, in which each old vote is rooted,
    is still there with no fewer confirmations, or was passed by a later vote
    and had expired before every one of them, and the root did not move back. *)
Theorem vote_state_update_safe vs sh ep cur u fs :
  vote_state_ok vs -> Forall typed_lockout (vsu_lockouts u) ->
  let '(vs', r) := do_process_vote_state_update vs sh ep cur u fs in
  r <> Panic /\ vote_state_ok vs' /\
  (r = Ok tt -> tower_advance vs vs' /\
     exists s, last_voted_slot vs' = Some s /\ forall s0, last_voted_slot vs = Some s0 -> s0 < s) /\
  (r <> Ok tt -> same_tower vs vs').
Proof.
  intros Hok Ht. destruct (do_process_vote_state_update _ _ _ _ _ _) as [vs' r] eqn:E.
  destruct (do_process_update_spec _ _ _ _ _ _ _ _ Hok Ht E) as (? & ? & Hadv & ?).
  split; [done |]. split; [done |]. split; [|done]. intros ->. split; [by apply Hadv |].
  by eapply do_process_update_last.
Qed.

Lemma vote_state_update_safe_witness :
  tower_advance demo_state (do_process_vote_state_update demo_state demo_history 0 7 demo_update None).1.
Proof.
  assert (vote_state_ok demo_state) as Hok.
  { eapply vote_step_spec; [eapply step_vote, demo_slots_u64 | apply vote_state_new_ok]. }
  pose proof (vote_state_update_safe demo_state demo_history 0 7 demo_update None Hok demo_lockouts_typed) as H.
  destruct (do_process_vote_state_update _ _ _ _ _ _) as [vs' r] eqn:E.
  apply H. vm_compute in E. congruence.
Defined.

(** C32: any vote, against a history in descending order, is accepted exactly when
    the reference check accepts its slots that are not older than the history;
    then the last voted slot is the last of its new slots (the last slot of the
    vote, if they ascend), the tower stays well formed and is reached by
    advances; otherwise the error is that of the reference and the state is
    unchanged. *)
Theorem process_vote_functional vs vote sh ep cur t d :
  vote_state_ok vs -> Forall in_u64 (vote_slots vote) -> StronglySorted Z.gt sh.*1 ->
  let earliest := match last sh with Some (s, _) => s | None => 0 end in
  let slots := filter (fun s => earliest <= s) (vote_slots vote) in
  let '(vs', r) := process_vote vs vote sh ep cur t d in
  r = (if bool_decide (vote_slots vote = []) then Err EmptySlots
       else if bool_decide (slots = []) then Err VotesTooOldAllFiltered
       else check_slots_spec vs slots (vote_hash vote) sh) /\
  match r with
  | Ok _ => last_voted_slot vs' = last (filter (fun s => is_new vs s) slots) /\
      (StronglySorted Z.lt (vote_slots vote) -> last_voted_slot vs' = last (vote_slots vote)) /\
      vote_state_ok vs' /\ rtc tower_advance vs vs'
  | _ => vs' = vs
  end.
Proof.
  intros Hok Hu Hsh. cbn zeta. unfold process_vote.
  case_bool_decide as He; [done |]. set (slots := filter _ (vote_slots vote)).
  case_bool_decide as Hf; [done |]. unfold process_vote_unfiltered. rewrite check_slots_are_valid_eq by done.
  assert (Forall in_u64 slots) as Hu' by (eapply Forall_sublist; [apply sublist_filter | done]).
  destruct (check_slots_spec vs slots (vote_hash vote) sh) as [[]|?|] eqn:E; [|done|done].
  fold (vote_slots_fold vs slots ep cur t d).
  destruct (vote_slots_fold_spec vs slots ep cur t d Hok Hu') as [? ?].
  destruct (check_slots_spec_new vs slots (vote_hash vote) sh E) as [Hne Hasc].
  assert (last_voted_slot (vote_slots_fold vs slots ep cur t d) = last (filter (fun s => is_new vs s) slots)) as Hl.
  { rewrite vote_slots_fold_last by done. destruct (last (filter _ slots)) eqn:El; [done |]. by apply last_None in El. }
  split; [done |]. split; [done |]. split; [|done]. intros Hs. rewrite Hl, new_slots_last; [|by eapply StronglySorted_sublist; [apply sublist_filter |]|done].
  eapply last_filter_upper; [exact Hs | cbn; lia | done].
Qed.

Lemma process_vote_functional_witness :
  last_voted_slot (process_vote (vote_state_new demo_init demo_clock) (mkVote [3; 5] 50 None)
     [(5, 50); (4, 40); (3, 30)] 0 6 true true).1 = Some 5.
Proof.
  assert (StronglySorted Z.gt [(5, 50); (4, 40); (3, 30)].*1) as H2 by (repeat constructor).
  pose proof (process_vote_functional (vote_state_new demo_init demo_clock) (mkVote [3; 5] 50 None)
    [(5, 50); (4, 40); (3, 30)] 0 6 true true (vote_state_new_ok _ _) demo_slots_u64 H2) as H.
  destruct (process_vote _ _ _ _ _ _ _) as [vs' r] eqn:E.
  assert (r = Ok tt) as -> by (vm_compute in E; congruence). destruct H as [_ [H _]]. exact H.
Defined.
