(* ===== verification/VoteProgram.v ===== *)
(** * The vote program

    [programs/vote/src/vote_state/mod.rs], the handlers on an account, and
    [programs/vote/src/vote_processor.rs], the dispatch of an instruction. The
    stored state is [bincode]'s serialization of [VoteStateVersions]; the hash
    that derives an address from a seed is a parameter. *)

From S2P Require Import Prelude InstructionError ProgramError AuthorizedVoters VoteState EpochSchedule Rent TransactionContext VoteVersions VoteProcess.

(** ** Constants: base58 keys as the numbers of their 32 bytes, big-endian *)

Definition vote_program_id : Pubkey :=
  3338071818571248938818993247932504658966148473698877128351861063997718528000.
Definition clock_id : Pubkey :=
  3010411245977774767103551433779408434046391008353408711474217313814305570816.
Definition rent_id : Pubkey :=
  3010411246019284437244212147455409835011261068170932596721577831542904848384.
Definition slot_hashes_id : Pubkey :=
  3010411246020387390845657635421930170267332101929006271628180992244983005184.

(** ** Signatures and commissions *)

Definition verify_authorized_signer (authorized : Pubkey) (signers : gset Pubkey) : result unit :=
  ensure (bool_decide (authorized ∈ signers)) MissingRequiredSignature.

Definition is_commission_increase (vote_state : VoteState) (commission : Z) : bool :=
  VoteState.commission vote_state <? commission.

Definition is_commission_update_allowed (slot : Slot) (epoch_schedule : EpochSchedule) : bool :=
  match checked_rem (sat_sub slot (first_normal_slot epoch_schedule)) (slots_per_epoch epoch_schedule) with
  | Some relative_slot => sat_mul u64_max relative_slot 2 <=? slots_per_epoch epoch_schedule
  | None => true
  end.

(** The [?] operator on a [VoteError]. *)
Definition from_vote_error {A} (m : outcome VoteError A) : result A := map_err instruction_error_from m.

(** ** Handlers on a vote account *)

Section handlers.
Context `{Codec VoteStateVersions}.

Definition set_vote_account_state (vote_state : VoteState) (feature_set : FeatureSet)
    : eff borrowed InstructionError unit :=
  fun s =>
  let new_size := vote_state_size_of true in
  if vote_state_add_vote_latency feature_set then
    if zlength (get_data s) <? new_size then
      if negb (is_rent_exempt_at_data_length s new_size)
      then set_state (V1_14_11 (vote_state_1_14_11_from vote_state)) s
      else
        let '(s, r) := set_data_length (Z.to_nat new_size) s in
        match r with
        | Ok _ => set_state (Current vote_state) s
        | Err _ => set_state (V1_14_11 (vote_state_1_14_11_from vote_state)) s
        | Panic => (s, Panic)
        end
    else set_state (Current vote_state) s
  else set_state (V1_14_11 (vote_state_1_14_11_from vote_state)) s.

(** [vote_account.get_state::<VoteStateVersions>()?.convert_to_current()] *)
Definition get_vote_state (s : borrowed) : result VoteState :=
  versioned ←? get_state s; Ok (convert_to_current versioned).

Definition authorize (authorized : Pubkey) (vote_authorize : VoteAuthorize) (signers : gset Pubkey)
    (clock : Clock) (feature_set : FeatureSet) : eff borrowed InstructionError unit :=
  vote_state ←! eread get_vote_state;
  vote_state ←! eread (fun _ =>
    match vote_authorize with
    | Voter =>
        let authorized_withdrawer_signer :=
          bool_decide (verify_authorized_signer (authorized_withdrawer vote_state) signers = Ok tt) in
        target_epoch ←? expect (checked_add u64_max (clock_leader_schedule_epoch clock) 1);
        let '(vote_state, r) :=
          set_new_authorized_voter vote_state authorized (clock_epoch clock) target_epoch
            (fun epoch_authorized_voter =>
               if authorized_withdrawer_signer then Ok tt
               else verify_authorized_signer epoch_authorized_voter signers) in
        _ ←? r; Ok vote_state
    | Withdrawer =>
        _ ←? verify_authorized_signer (authorized_withdrawer vote_state) signers;
        Ok (set_authorized_withdrawer vote_state authorized)
    end);
  set_vote_account_state vote_state feature_set.

Definition update_validator_identity (node_pubkey : Pubkey) (signers : gset Pubkey)
    (feature_set : FeatureSet) : eff borrowed InstructionError unit :=
  vote_state ←! eread get_vote_state;
  _ ←! eread (fun _ => verify_authorized_signer (authorized_withdrawer vote_state) signers);
  _ ←! eread (fun _ => verify_authorized_signer node_pubkey signers);
  set_vote_account_state (set_node_pubkey vote_state node_pubkey) feature_set.

Definition update_commission (commission : Z) (signers : gset Pubkey) (epoch_schedule : EpochSchedule)
    (clock : Clock) (feature_set : FeatureSet) : eff borrowed InstructionError unit :=
  enforce_commission_update_rule ←! eread (fun s => Ok (
    if allow_commission_decrease_at_any_time feature_set then
      match get_vote_state s with
      | Ok decoded_vote_state => is_commission_increase decoded_vote_state commission
      | _ => true
      end
    else true));
  _ ←! eread (fun _ =>
    if enforce_commission_update_rule && commission_updates_only_allowed_in_first_half_of_epoch feature_set
    then ensure (is_commission_update_allowed (clock_slot clock) epoch_schedule)
           (instruction_error_from CommissionUpdateTooLate)
    else Ok tt);
  vote_state ←! eread get_vote_state;
  _ ←! eread (fun _ => verify_authorized_signer (authorized_withdrawer vote_state) signers);
  set_vote_account_state (set_commission vote_state commission) feature_set.

Definition initialize_account (vote_init : VoteInit) (signers : gset Pubkey) (clock : Clock)
    (feature_set : FeatureSet) : eff borrowed InstructionError unit :=
  _ ←! eread (fun s =>
    ensure (zlength (get_data s) =? vote_state_size_of (vote_state_add_vote_latency feature_set))
      InvalidAccountData);
  versioned ←! eread get_state;
  _ ←! eread (fun _ => ensure (is_uninitialized versioned) AccountAlreadyInitialized);
  _ ←! eread (fun _ => verify_authorized_signer (vi_node_pubkey vote_init) signers);
  set_vote_account_state (vote_state_new vote_init clock) feature_set.

Definition verify_and_get_vote_state (clock : Clock) (signers : gset Pubkey) (s : borrowed)
    : result VoteState :=
  versioned ←? get_state s;
  _ ←? ensure (negb (is_uninitialized versioned)) UninitializedAccount;
  let '(vote_state, r) :=
    get_and_update_authorized_voter (convert_to_current versioned) (clock_epoch clock) in
  authorized_voter ←? r;
  _ ←? verify_authorized_signer authorized_voter signers;
  Ok vote_state.

Definition process_vote_with_account (slot_hashes : list SlotHash) (clock : Clock) (vote : Vote)
    (signers : gset Pubkey) (feature_set : FeatureSet) : eff borrowed InstructionError unit :=
  vote_state ←! eread (verify_and_get_vote_state clock signers);
  vote_state ←! eread (fun _ =>
    let '(vote_state, r) :=
      process_vote vote_state vote slot_hashes (clock_epoch clock) (clock_slot clock)
        (timely_vote_credits feature_set) (deprecate_unused_legacy_vote_plumbing feature_set) in
    _ ←? from_vote_error r;
    match vote_timestamp vote with
    | Some timestamp =>
        slot ←? from_vote_error (ok_or (max_list_Z (vote_slots vote)) EmptySlots);
        let '(vote_state, r) := process_timestamp vote_state slot timestamp in
        _ ←? from_vote_error r; Ok vote_state
    | None => Ok vote_state
    end);
  set_vote_account_state vote_state feature_set.

Definition process_vote_state_update (slot_hashes : list SlotHash) (clock : Clock)
    (vote_state_update : VoteStateUpdate) (signers : gset Pubkey) (feature_set : FeatureSet)
    : eff borrowed InstructionError unit :=
  vote_state ←! eread (verify_and_get_vote_state clock signers);
  vote_state ←! eread (fun _ =>
    let '(vote_state, r) :=
      do_process_vote_state_update vote_state slot_hashes (clock_epoch clock) (clock_slot clock)
        vote_state_update (Some feature_set) in
    _ ←? from_vote_error r; Ok vote_state);
  set_vote_account_state vote_state feature_set.

(** The part of [withdraw] that holds the vote account. *)
Definition withdraw_from_vote_account (lamports : Z) (signers : gset Pubkey) (rent_sysvar : Rent)
    (clock : Clock) (feature_set : FeatureSet) : eff borrowed InstructionError unit :=
  vote_state ←! eread get_vote_state;
  _ ←! eread (fun _ => verify_authorized_signer (authorized_withdrawer vote_state) signers);
  remaining_balance ←! eread (fun s => ok_or (checked_sub (get_lamports s) lamports) InsufficientFunds);
  _ ←! (if remaining_balance =? 0 then
          let reject_active_vote_account_close :=
            match last (epoch_credits vote_state) with
            | Some (last_epoch_with_credits, _, _) =>
                sat_sub (clock_epoch clock) last_epoch_with_credits <? 2
            | None => false
            end in
          if reject_active_vote_account_close
          then eread (fun _ => Err (instruction_error_from ActiveVoteAccountClose))
          else set_vote_account_state vote_state_default feature_set
        else
          eread (fun s =>
            ensure (negb (remaining_balance <? minimum_balance rent_sysvar (zlength (get_data s))))
              InsufficientFunds));
  checked_sub_lamports lamports.

Definition withdraw (ctx : InstructionContext) (vote_account_index : nat) (lamports : Z)
    (to_account_index : nat) (signers : gset Pubkey) (rent_sysvar : Rent) (clock : Clock)
    (feature_set : FeatureSet) : eff TransactionContext InstructionError unit :=
  _ ←! with_instruction_account ctx vote_account_index
         (withdraw_from_vote_account lamports signers rent_sysvar clock feature_set);
  with_instruction_account ctx to_account_index (checked_add_lamports lamports).
End handlers.

(** ** Dispatch *)

Record VoteAuthorizeWithSeedArgs := mkVoteAuthorizeWithSeedArgs {
  vas_authorization_type : VoteAuthorize;
  vas_current_authority_derived_key_owner : Pubkey;
  vas_current_authority_derived_key_seed : string;
  vas_new_authority : Pubkey;
}.

Record VoteAuthorizeCheckedWithSeedArgs := mkVoteAuthorizeCheckedWithSeedArgs {
  vacs_authorization_type : VoteAuthorize;
  vacs_current_authority_derived_key_owner : Pubkey;
  vacs_current_authority_derived_key_seed : string;
}.

Inductive VoteInstruction : Type :=
| InitializeAccount (vote_init : VoteInit)
| Authorize (pubkey : Pubkey) (vote_authorize : VoteAuthorize)
| IVote (vote : Vote)
| Withdraw (lamports : Z)
| UpdateValidatorIdentity
| UpdateCommission (commission : Z)
| VoteSwitch (vote : Vote) (hash : Hash)
| AuthorizeChecked (vote_authorize : VoteAuthorize)
| UpdateVoteState (update : VoteStateUpdate)
| UpdateVoteStateSwitch (update : VoteStateUpdate) (hash : Hash)
| AuthorizeWithSeed (args : VoteAuthorizeWithSeedArgs)
| AuthorizeCheckedWithSeed (args : VoteAuthorizeCheckedWithSeedArgs)
| CompactUpdateVoteState (update : VoteStateUpdate)
| CompactUpdateVoteStateSwitch (update : VoteStateUpdate) (hash : Hash).

(** What the vote program reads of the sysvar cache. *)
Record SysvarCache := mkSysvarCache {
  cache_clock : option Clock;
  cache_epoch_schedule : option EpochSchedule;
  cache_rent : option Rent;
  cache_slot_hashes : option (list SlotHash);
}.
Definition get_clock (c : SysvarCache) : result Clock := ok_or (cache_clock c) UnsupportedSysvar.
Definition get_epoch_schedule (c : SysvarCache) : result EpochSchedule :=
  ok_or (cache_epoch_schedule c) UnsupportedSysvar.
Definition get_rent (c : SysvarCache) : result Rent := ok_or (cache_rent c) UnsupportedSysvar.
Definition get_slot_hashes (c : SysvarCache) : result (list SlotHash) :=
  ok_or (cache_slot_hashes c) UnsupportedSysvar.

(** [get_sysvar_with_account_check]: the account at the index is that of the
    sysvar. *)
Definition check_sysvar_account (id : Pubkey) (tx : TransactionContext) (ctx : InstructionContext) (i : nat)
    : result unit :=
  index_in_transaction ←? get_index_of_instruction_account_in_transaction ctx i;
  key ←? get_key_of_account_at_index tx index_in_transaction;
  ensure (key =? id) InvalidArgument.

Definition MAX_SEED_LEN : nat := 32.
Definition PDA_MARKER : Z := 117573440328550331324708488306763978534806807212915.

Inductive PubkeyError := SeedTooLong | SeedsInvalid | OwnerIllegal.
Definition pubkey_error_code (e : PubkeyError) : Z :=
  match e with SeedTooLong => 0 | SeedsInvalid => 1 | OwnerIllegal => 2 end.

Section processor.
Context `{Codec VoteStateVersions}.
(** [limited_deserialize], the SHA-256 hash of [create_with_seed]. *)
Context (limited_deserialize : list Z -> result VoteInstruction).
Context (hashv : Pubkey -> string -> Pubkey -> Pubkey).
Context (sysvar_cache : SysvarCache) (feature_set : FeatureSet).

(** The last 21 bytes of the owner are compared with the marker. *)
Definition create_with_seed (base : Pubkey) (seed : string) (owner : Pubkey) : outcome PubkeyError Pubkey :=
  _ ←? ensure (negb (MAX_SEED_LEN <? String.length seed)%nat) SeedTooLong;
  _ ←? ensure (negb (owner mod 2 ^ 168 =? PDA_MARKER)) OwnerIllegal;
  Ok (hashv base seed owner).

Definition sysvar_with_check {A} (get : SysvarCache -> result A) (id : Pubkey) (ctx : InstructionContext)
    (i : nat) (s : borrowed) : result A :=
  _ ←? check_sysvar_account id s.1 ctx i;
  get sysvar_cache.

Definition process_authorize_with_seed_instruction (ctx : InstructionContext) (new_authority : Pubkey)
    (authorization_type : VoteAuthorize) (owner : Pubkey) (seed : string)
    : eff borrowed InstructionError unit :=
  clock ←! eread (sysvar_with_check get_clock clock_id ctx 1);
  expected_authority_keys ←! eread (fun s =>
    signer ←? is_instruction_account_signer ctx 2;
    if signer : bool then
      i ←? get_index_of_instruction_account_in_transaction ctx 2;
      base_pubkey ←? get_key_of_account_at_index s.1 i;
      key ←? map_err (fun e => instruction_error_of_code (pubkey_error_code e))
               (create_with_seed base_pubkey seed owner);
      Ok {[key]}
    else Ok ∅);
  authorize new_authority authorization_type expected_authority_keys clock feature_set.

(** The key of an account of the instruction. *)
Definition instruction_account_key (ctx : InstructionContext) (i : nat) (s : borrowed) : result Pubkey :=
  i ←? get_index_of_instruction_account_in_transaction ctx i;
  get_key_of_account_at_index s.1 i.

(** What [Withdraw] does after it has dropped the vote account. *)
Definition pending_withdrawal : Type := Z * gset Pubkey * Rent * Clock.

(** The last call of an arm that keeps the vote account to its end. *)
Definition with_vote_account (m : eff borrowed InstructionError unit)
    : eff borrowed InstructionError (option pending_withdrawal) :=
  _ ←! m; eret None.

(** The [match] on the instruction, up to where an arm drops the vote account. *)
Definition process_on_vote_account (ctx : InstructionContext) (signers : gset Pubkey)
    (instruction : VoteInstruction) : eff borrowed InstructionError (option pending_withdrawal) :=
  match instruction with
  | InitializeAccount vote_init =>
      rent ←! eread (sysvar_with_check get_rent rent_id ctx 1);
      _ ←! eread (fun s => ensure (is_exempt rent (get_lamports s) (zlength (get_data s))) InsufficientFunds);
      clock ←! eread (sysvar_with_check get_clock clock_id ctx 2);
      with_vote_account (initialize_account vote_init signers clock feature_set)
  | Authorize voter_pubkey vote_authorize =>
      clock ←! eread (sysvar_with_check get_clock clock_id ctx 1);
      with_vote_account (authorize voter_pubkey vote_authorize signers clock feature_set)
  | AuthorizeWithSeed args =>
      _ ←! eread (fun _ => check_number_of_instruction_accounts ctx 3);
      with_vote_account (process_authorize_with_seed_instruction ctx (vas_new_authority args) (vas_authorization_type args)
        (vas_current_authority_derived_key_owner args) (vas_current_authority_derived_key_seed args))
  | AuthorizeCheckedWithSeed args =>
      _ ←! eread (fun _ => check_number_of_instruction_accounts ctx 4);
      new_authority ←! eread (instruction_account_key ctx 3);
      signer ←! eread (fun _ => is_instruction_account_signer ctx 3);
      _ ←! eread (fun _ => ensure signer MissingRequiredSignature);
      with_vote_account (process_authorize_with_seed_instruction ctx new_authority (vacs_authorization_type args)
        (vacs_current_authority_derived_key_owner args) (vacs_current_authority_derived_key_seed args))
  | UpdateValidatorIdentity =>
      _ ←! eread (fun _ => check_number_of_instruction_accounts ctx 2);
      node_pubkey ←! eread (instruction_account_key ctx 1);
      with_vote_account (update_validator_identity node_pubkey signers feature_set)
  | UpdateCommission commission =>
      epoch_schedule ←! eread (fun _ => get_epoch_schedule sysvar_cache);
      clock ←! eread (fun _ => get_clock sysvar_cache);
      with_vote_account (update_commission commission signers epoch_schedule clock feature_set)
  | IVote vote | VoteSwitch vote _ =>
      slot_hashes ←! eread (sysvar_with_check get_slot_hashes slot_hashes_id ctx 1);
      clock ←! eread (sysvar_with_check get_clock clock_id ctx 2);
      with_vote_account (process_vote_with_account slot_hashes clock vote signers feature_set)
  | UpdateVoteState update | UpdateVoteStateSwitch update _
  | CompactUpdateVoteState update | CompactUpdateVoteStateSwitch update _ =>
      slot_hashes ←! eread (fun _ => get_slot_hashes sysvar_cache);
      clock ←! eread (fun _ => get_clock sysvar_cache);
      with_vote_account (process_vote_state_update slot_hashes clock update signers feature_set)
  | AuthorizeChecked vote_authorize =>
      _ ←! eread (fun _ => check_number_of_instruction_accounts ctx 4);
      voter_pubkey ←! eread (instruction_account_key ctx 3);
      signer ←! eread (fun _ => is_instruction_account_signer ctx 3);
      _ ←! eread (fun _ => ensure signer MissingRequiredSignature);
      clock ←! eread (sysvar_with_check get_clock clock_id ctx 1);
      with_vote_account (authorize voter_pubkey vote_authorize signers clock feature_set)
  | Withdraw lamports =>
      _ ←! eread (fun _ => check_number_of_instruction_accounts ctx 2);
      rent_sysvar ←! eread (fun _ => get_rent sysvar_cache);
      clock_sysvar ←! eread (fun _ => get_clock sysvar_cache);
      eret (Some (lamports, signers, rent_sysvar, clock_sysvar))
  end.

(** The entry point: [Withdraw] drops the vote account before it runs. *)
Definition entrypoint : eff TransactionContext InstructionError unit :=
  ctx ←! eread get_current_instruction_context;
  rest ←! with_instruction_account ctx 0 (
    _ ←! eread (fun s => ensure (get_owner s =? vote_program_id) InvalidAccountOwner);
    signers ←! eread (fun s => get_signers ctx s.1);
    instruction ←! eread (fun _ => limited_deserialize (instruction_data ctx));
    process_on_vote_account ctx signers instruction);
  match rest with
  | Some (lamports, signers, rent_sysvar, clock_sysvar) =>
      withdraw ctx 0 lamports 1 signers rent_sysvar clock_sysvar feature_set
  | None => eret tt
  end.
End processor.
