(* ===== verification/VoteProgramSpec.v ===== *)
(** * What the vote program promises

    The handlers of [VoteProgram.v] against the state that the account holds:
    every successful instruction writes back the state it calls for, made with
    the signatures it needs, which on an initialised account is a run of the
    steps of [VoteSafety.v]; and a withdrawal moves its lamports from the vote
    account to the recipient. *)

From S2P Require Import Prelude InstructionError ProgramError AuthorizedVoters VoteState Credits Tower EpochSchedule Rent TransactionContext AccountRules VoteVersions Authority VoteProcess NewVoteState CheckUpdate VoteSafety VoteProgram.

(** ** Writing the state *)

Section storage.
Context {T : Type} `{CodecLaws T}.

(** What a successful write of the state did. *)
Record written (s s' : borrowed) (x : T) : Prop := {
  wr_frame : borrow_frame s s';
  wr_state : get_state s' = Ok x;
  wr_lamports : get_lamports s' = get_lamports s;
  wr_allowed : can_data_be_changed s = Ok tt;
}.

Lemma set_state_Ok (x : T) s s' : set_state x s = (s', Ok tt) -> written s s' x.
Proof.
  intros E. pose proof (set_state_rules x s) as [Hf _]. rewrite E in Hf. cbn in Hf.
  unfold set_state, get_data_mut in E. eff_inv.
  match goal with H : touch_account _ = (?s1, _) |- _ =>
    assert (s1.2 = s.2) as E2;
      [unfold touch_account, touch in H; destruct (touched_flags _ !! _); by injection H as <- _ |] end.
  match goal with H : can_data_be_changed s = Ok ?u |- _ => destruct u end.
  match goal with H : ok_or (bincode_serialize x) _ = Ok _ |- _ => apply ok_or_Ok in H; rename H into Hser end.
  match goal with H : write_account _ _ = _ |- _ => unfold write_account, ewrite in H; injection H as <- end.
  split; [done | | |done].
  - unfold get_state, get_data. cbn. by erewrite codec_roundtrip.
  - unfold get_lamports. cbn. by rewrite E2.
Qed.
End storage.

Lemma set_data_length_frame n s :
  borrow_frame s (set_data_length n s).1 /\ get_lamports (set_data_length n s).1 = get_lamports s.
Proof.
  split; [apply set_length_rules |]. unfold set_data_length, get_lamports. run_op; done.
Qed.

Section vote_account.
Context `{CodecLaws VoteStateVersions}.

(** The state is stored as it is, or in the old layout, without latencies. *)
Record stored (s s' : borrowed) (vs : VoteState) : Prop := {
  sd_frame : borrow_frame s s';
  sd_lamports : get_lamports s' = get_lamports s;
  sd_state : exists v, get_state s' = Ok v /\
    (convert_to_current v = vs \/ convert_to_current v = forget_latencies vs) /\
    is_uninitialized v = authorized_voters_is_empty (authorized_voters vs);
  sd_owned : is_owned_by_current_program s = true /\ is_writable s = true;
}.

Lemma can_data_be_changed_Ok s :
  can_data_be_changed s = Ok tt -> is_owned_by_current_program s = true /\ is_writable s = true.
Proof.
  unfold can_data_be_changed. intros Hc.
  apply bind_Ok in Hc as ([] & _ & Hc). by apply bind_Ok in Hc as ([] & ?%ensure_Ok & ?%ensure_Ok).
Qed.

(** The tests on an account do not depend on its data. *)
Lemma frame_owned s s' :
  borrow_frame s s' -> owner (account s'.2) = owner (account s.2) ->
  is_owned_by_current_program s' = is_owned_by_current_program s /\ is_writable s' = is_writable s.
Proof.
  intros [] Ho. unfold is_owned_by_current_program, is_writable, get_owner, get_last_program_key,
    get_key_of_account_at_index. by rewrite bf_context, bf_keys, bf_instruction, Ho.
Qed.

Lemma set_data_length_owner n s : owner (account (set_data_length n s).1.2) = owner (account s.2).
Proof. unfold set_data_length. run_op; done. Qed.

Lemma written_stored s s1 s' v vs :
  borrow_frame s s1 -> get_lamports s1 = get_lamports s -> owner (account s1.2) = owner (account s.2) ->
  written s1 s' v ->
  v = Current vs \/ v = V1_14_11 (vote_state_1_14_11_from vs) -> stored s s' vs.
Proof.
  intros Hf Hl Ho [Hf' Hst Hl' Ha] Hv. apply can_data_be_changed_Ok in Ha.
  destruct (frame_owned _ _ Hf Ho) as [E1 E2]. split; [by etrans | congruence | |by rewrite <- E1, <- E2].
  exists v. split; [done |]. destruct Hv as [-> | ->]; (split; [|done]); [by left |].
  right. apply convert_downgraded.
Qed.

Lemma set_vote_account_state_Ok vs fs s s' :
  set_vote_account_state vs fs s = (s', Ok tt) -> stored s s' vs.
Proof.
  unfold set_vote_account_state. cbn zeta.
  assert (forall v, (v = Current vs \/ v = V1_14_11 (vote_state_1_14_11_from vs)) ->
    set_state v s = (s', Ok tt) -> stored s s' vs) as Hnow.
  { intros v Hv Hs%set_state_Ok. by eapply (written_stored s s). }
  destruct (vote_state_add_vote_latency fs); [|by apply Hnow; right].
  destruct (_ <? _); [|by apply Hnow; left].
  destruct (negb _); [by apply Hnow; right |].
  destruct (set_data_length_frame (Z.to_nat (vote_state_size_of true)) s) as [Hf Hl].
  pose proof (set_data_length_owner (Z.to_nat (vote_state_size_of true)) s) as Ho.
  destruct (set_data_length _ s) as [s1 r]. cbn in *.
  destruct r as [[]|?|]; [| |done]; intros Hs%set_state_Ok.
  - eapply (written_stored s s1); try done. by left.
  - eapply (written_stored s s1); try done. by right.
Qed.

Lemma get_vote_state_Ok s vs :
  get_vote_state s = Ok vs <-> exists v, get_state s = Ok v /\ convert_to_current v = vs.
Proof.
  unfold get_vote_state. rewrite bind_Ok. split.
  - intros (v & Hv & [= <-]). eauto.
  - intros (v & Hv & <-). eauto.
Qed.

(** The state an account holds after the write is a step away at most. *)
Lemma stored_steps s s' vs :
  stored s s' vs -> exists vs', get_vote_state s' = Ok vs' /\ rtc vote_step vs vs' /\
    authorized_voters vs' = authorized_voters vs /\ authorized_withdrawer vs' = authorized_withdrawer vs /\
    root_slot vs' = root_slot vs.
Proof.
  intros [_ _ (v & Hv & Hc & _) _]. exists (convert_to_current v).
  split; [apply get_vote_state_Ok; eauto |].
  destruct Hc as [-> | ->]; [done |]. split; [|done].
  rewrite <- convert_downgraded. apply rtc_once, step_downgrade.
Qed.

(** ** Handlers *)

Lemma verify_signer_Ok k signers : verify_authorized_signer k signers = Ok tt <-> k ∈ signers.
Proof. unfold verify_authorized_signer. rewrite ensure_Ok. apply bool_decide_eq_true. Qed.

Lemma verify_signer_no_panic k signers : verify_authorized_signer k signers <> Panic.
Proof. apply ensure_no_panic. Qed.

Lemma verify_and_get_Ok clock signers s vs :
  verify_and_get_vote_state clock signers s = Ok vs ->
  exists vs0 voter, get_vote_state s = Ok vs0 /\ voter ∈ signers /\
    get_and_update_authorized_voter vs0 (clock_epoch clock) = (vs, Ok voter).
Proof.
  unfold verify_and_get_vote_state. intros H1.
  apply bind_Ok in H1 as (v & Hv & H1). apply bind_Ok in H1 as ([] & _ & H1).
  destruct (get_and_update_authorized_voter _ _) as [vs1 r] eqn:E.
  apply bind_Ok in H1 as (voter & -> & H1). apply bind_Ok in H1 as ([] & Hs & [= <-]).
  exists (convert_to_current v), voter. rewrite <- verify_signer_Ok.
  split; [apply get_vote_state_Ok; eauto | done].
Qed.

(** What setting an authority did. *)
Definition authorized_by (vs : VoteState) (pk : Pubkey) (va : VoteAuthorize) (signers : gset Pubkey)
    (clock : Clock) (vs1 : VoteState) : Prop :=
  match va with
  | Voter => exists verify,
      set_new_authorized_voter vs pk (clock_epoch clock) (clock_leader_schedule_epoch clock + 1) verify
        = (vs1, Ok tt) /\
      (forall p, verify p <> Panic) /\
      (forall p, verify p = Ok tt -> authorized_withdrawer vs ∈ signers \/ p ∈ signers)
  | Withdrawer => authorized_withdrawer vs ∈ signers /\ vs1 = set_authorized_withdrawer vs pk
  end.

Lemma authorize_Ok pk va signers clock fs s s' :
  authorize pk va signers clock fs s = (s', Ok tt) ->
  exists vs vs1, get_vote_state s = Ok vs /\ authorized_by vs pk va signers clock vs1 /\ stored s s' vs1.
Proof.
  unfold authorize. intros E. eff_inv.
  match goal with H1 : get_vote_state s = Ok ?vs, H2 : _ = Ok ?vs1 |- _ =>
    exists vs, vs1; split; [exact H1 |]; rename H2 into Hn; rename vs into vs0 end.
  split; [|by eapply set_vote_account_state_Ok].
  destruct va.
  - apply bind_Ok in Hn as (target & Ht%expect_Ok & Hn). apply checked_add_Some in Ht as [-> _].
    destruct (set_new_authorized_voter _ _ _ _ _) as [vs2 r] eqn:Eset.
    apply bind_Ok in Hn as ([] & -> & [= <-]). eexists. split; [exact Eset |].
    split; intros p; case_bool_decide as Hw; try done.
    + apply verify_signer_no_panic.
    + intros _. left. by apply verify_signer_Ok.
    + intros Hp. right. by apply verify_signer_Ok.
  - apply bind_Ok in Hn as ([] & Hs%verify_signer_Ok & [= <-]). done.
Qed.

Lemma update_identity_Ok pk signers fs s s' :
  update_validator_identity pk signers fs s = (s', Ok tt) ->
  exists vs, get_vote_state s = Ok vs /\ authorized_withdrawer vs ∈ signers /\ pk ∈ signers /\
    stored s s' (set_node_pubkey vs pk).
Proof.
  unfold update_validator_identity. intros E. eff_inv.
  repeat match goal with H : verify_authorized_signer _ _ = Ok ?u |- _ =>
    destruct u; apply verify_signer_Ok in H end.
  eexists. split; [done |]. split; [done |]. split; [done |]. by eapply set_vote_account_state_Ok.
Qed.

Lemma update_commission_Ok c signers sched clock fs s s' :
  update_commission c signers sched clock fs s = (s', Ok tt) ->
  exists vs, get_vote_state s = Ok vs /\ authorized_withdrawer vs ∈ signers /\
    stored s s' (set_commission vs c) /\
    (commission_updates_only_allowed_in_first_half_of_epoch fs = true ->
     commission vs < c -> is_commission_update_allowed (clock_slot clock) sched = true).
Proof.
  unfold update_commission. intros E. eff_inv.
  repeat match goal with H : verify_authorized_signer _ _ = Ok ?u |- _ =>
    destruct u; apply verify_signer_Ok in H end.
  match goal with H : get_vote_state s = Ok ?v |- _ => exists v; rename H into Hv end.
  split; [done |]. split; [done |]. split; [by eapply set_vote_account_state_Ok |].
  intros Hfs Hlt.
  match goal with H : (if _ then ensure _ _ else _) = Ok _ |- _ => rename H into Hens end.
  match goal with H : Ok (if _ then _ else _) = Ok ?b |- _ => assert (b = true) as Hb end.
  { match goal with H : Ok (if _ then _ else _) = Ok _ |- _ => injection H as <- end.
    destruct (allow_commission_decrease_at_any_time fs); [|done]. rewrite Hv. by apply Z.ltb_lt. }
  rewrite Hb, Hfs in Hens. cbn in Hens. match type of Hens with _ = Ok ?u => destruct u end. by apply ensure_Ok in Hens.
Qed.

Lemma initialize_Ok init signers clock fs s s' :
  initialize_account init signers clock fs s = (s', Ok tt) ->
  exists v, get_state s = Ok v /\ is_uninitialized v = true /\ vi_node_pubkey init ∈ signers /\
    stored s s' (vote_state_new init clock).
Proof.
  unfold initialize_account. intros E. eff_inv.
  repeat match goal with H : verify_authorized_signer _ _ = Ok ?u |- _ =>
    destruct u; apply verify_signer_Ok in H end.
  repeat match goal with H : ensure _ _ = Ok ?u |- _ => destruct u; apply ensure_Ok in H end.
  eexists. split; [done |]. split; [done |]. split; [done |]. by eapply set_vote_account_state_Ok.
Qed.

Lemma map_err_Ok_inv {A} (m : outcome VoteError A) a : from_vote_error m = Ok a -> m = Ok a.
Proof. unfold from_vote_error. destruct m; cbn; congruence. Qed.

(** What an accepted vote made of the state: the slots, then the timestamp. *)
Definition voted (vs : VoteState) (sh : list SlotHash) (clock : Clock) (vote : Vote) (fs : FeatureSet)
    (vs' : VoteState) : Prop :=
  exists vs1, process_vote vs vote sh (clock_epoch clock) (clock_slot clock) (timely_vote_credits fs)
      (deprecate_unused_legacy_vote_plumbing fs) = (vs1, Ok tt) /\
    match vote_timestamp vote with
    | Some ts => exists sl, max_list_Z (vote_slots vote) = Some sl /\ process_timestamp vs1 sl ts = (vs', Ok tt)
    | None => vs' = vs1
    end.

Lemma voted_steps vs sh clock vote fs vs' :
  Forall in_u64 (vote_slots vote) -> voted vs sh clock vote fs vs' -> rtc vote_step vs vs'.
Proof.
  intros Hu (vs1 & Ep & Ht). pose proof (step_vote vs vote sh (clock_epoch clock) (clock_slot clock)
    (timely_vote_credits fs) (deprecate_unused_legacy_vote_plumbing fs) Hu) as Hst. rewrite Ep in Hst.
  destruct (vote_timestamp vote) as [ts|]; [|subst; by apply rtc_once].
  destruct Ht as (sl & _ & Et). eapply rtc_l; [exact Hst |]. apply rtc_once.
  pose proof (step_timestamp vs1 sl ts) as Hst'. by rewrite Et in Hst'.
Qed.

Lemma process_vote_account_Ok sh clock vote signers fs s s' :
  process_vote_with_account sh clock vote signers fs s = (s', Ok tt) ->
  exists vs0 vs1 voter vs, get_vote_state s = Ok vs0 /\ voter ∈ signers /\
    get_and_update_authorized_voter vs0 (clock_epoch clock) = (vs1, Ok voter) /\
    voted vs1 sh clock vote fs vs /\ stored s s' vs.
Proof.
  unfold process_vote_with_account. intros E. eff_inv.
  match goal with H : verify_and_get_vote_state _ _ _ = Ok ?v |- _ =>
    apply verify_and_get_Ok in H as (vs0 & voter & Hv & Hs & Hup); exists vs0, v, voter; rename v into w end.
  match goal with H : _ = Ok ?v |- context [stored] => exists v; rename H into Hn end.
  split; [done |]. split; [done |]. split; [done |].
  split; [|by eapply set_vote_account_state_Ok]. unfold voted.
  destruct (process_vote _ _ _ _ _ _ _) as [vs2 r] eqn:Ep.
  apply bind_Ok in Hn as ([] & ->%map_err_Ok_inv & Hn). exists vs2. split; [done |].
  destruct (vote_timestamp vote) as [ts|]; [|by injection Hn].
  apply bind_Ok in Hn as (sl & Hsl%map_err_Ok_inv%ok_or_Ok & Hn). exists sl. split; [done |].
  destruct (process_timestamp vs2 sl ts) as [vs3 r3] eqn:Et.
  by apply bind_Ok in Hn as ([] & ->%map_err_Ok_inv & [= <-]).
Qed.

Lemma process_update_account_Ok sh clock u signers fs s s' :
  process_vote_state_update sh clock u signers fs s = (s', Ok tt) ->
  exists vs0 vs1 voter vs, get_vote_state s = Ok vs0 /\ voter ∈ signers /\
    get_and_update_authorized_voter vs0 (clock_epoch clock) = (vs1, Ok voter) /\
    do_process_vote_state_update vs1 sh (clock_epoch clock) (clock_slot clock) u (Some fs) = (vs, Ok tt) /\
    stored s s' vs.
Proof.
  unfold process_vote_state_update. intros E. eff_inv.
  match goal with H : verify_and_get_vote_state _ _ _ = Ok ?v |- _ =>
    apply verify_and_get_Ok in H as (vs0 & voter & Hv & Hs & Hup); exists vs0, v, voter end.
  match goal with H : _ = Ok ?v |- context [stored] => exists v; rename H into Hn end.
  split; [done |]. split; [done |]. split; [done |].
  split; [|by eapply set_vote_account_state_Ok].
  destruct (do_process_vote_state_update _ _ _ _ _ _) as [vs2 r] eqn:Ep.
  by apply bind_Ok in Hn as ([] & ->%map_err_Ok_inv & [= <-]).
Qed.

(** ** Instructions *)

(** What the types of the arguments of an instruction give. *)
Definition typed_instruction (i : VoteInstruction) : Prop :=
  match i with
  | IVote v | VoteSwitch v _ => Forall in_u64 (vote_slots v)
  | UpdateVoteState u | UpdateVoteStateSwitch u _
  | CompactUpdateVoteState u | CompactUpdateVoteStateSwitch u _ => Forall typed_lockout (vsu_lockouts u)
  | UpdateCommission c => in_u8 c
  | _ => True
  end.

(** The instructions that work on an initialised account. *)
Definition updates_state (i : VoteInstruction) : bool :=
  match i with InitializeAccount _ | Withdraw _ => false | _ => true end.

Lemma authorized_by_step vs pk va signers clock vs1 :
  0 <= clock_epoch clock -> authorized_by vs pk va signers clock vs1 -> vote_step vs vs1.
Proof.
  intros Hep. destruct va; cbn.
  - intros (verify & E & _). pose proof (step_authorize vs pk (clock_epoch clock)
      (clock_leader_schedule_epoch clock + 1) verify Hep) as Hs. by rewrite E in Hs.
  - intros [_ ->]. constructor.
Qed.

Lemma updated_voter_step vs0 ep vs1 r :
  0 <= ep -> get_and_update_authorized_voter vs0 ep = (vs1, r) -> vote_step vs0 vs1.
Proof. intros Hep E. pose proof (step_voter vs0 ep Hep) as Hs. by rewrite E in Hs. Qed.
End vote_account.

Section instructions.
Context `{CodecLaws VoteStateVersions}.
Context (hashv : Pubkey -> string -> Pubkey -> Pubkey) (cache : SysvarCache) (fs : FeatureSet).

Lemma sysvar_check_Ok {A} (get : SysvarCache -> result A) id ctx i s a :
  sysvar_with_check cache get id ctx i s = Ok a -> get cache = Ok a.
Proof. unfold sysvar_with_check. by intros ([] & _ & ?)%bind_Ok. Qed.

(** ** The effect of an instruction *)

(** The key of an account of the instruction. *)
Definition key_at (tx : TransactionContext) (ctx : InstructionContext) (i : nat) (k : Pubkey) : Prop :=
  exists ia, instruction_accounts ctx !! i = Some ia /\ account_keys tx !! index_in_transaction ia = Some k.

(** The key that a base account, which must sign, and a seed derive. *)
Definition derived_keys (tx : TransactionContext) (ctx : InstructionContext) (seed : string) (owner : Pubkey)
    (keys : gset Pubkey) : Prop :=
  keys = ∅ \/ exists ia base, instruction_accounts ctx !! 2%nat = Some ia /\ ia_is_signer ia = true /\
    account_keys tx !! index_in_transaction ia = Some base /\ keys = {[hashv base seed owner]}.

(** What each instruction makes of the state: [v] is what the account held,
    [vs'] the state it is to hold, [balance] its lamports. *)
Definition instruction_effect (tx : TransactionContext) (ctx : InstructionContext) (signers : gset Pubkey)
    (balance : Z) (i : VoteInstruction) (v : VoteStateVersions) (vs' : VoteState) : Prop :=
  let vs := convert_to_current v in
  match i with
  | InitializeAccount init => exists clock, cache_clock cache = Some clock /\
      is_uninitialized v = true /\ vi_node_pubkey init ∈ signers /\ vs' = vote_state_new init clock
  | Authorize pk va => exists clock, cache_clock cache = Some clock /\ authorized_by vs pk va signers clock vs'
  | AuthorizeChecked va => exists clock pk, cache_clock cache = Some clock /\ key_at tx ctx 3 pk /\
      authorized_by vs pk va signers clock vs'
  | AuthorizeWithSeed a => exists clock keys, cache_clock cache = Some clock /\
      derived_keys tx ctx (vas_current_authority_derived_key_seed a) (vas_current_authority_derived_key_owner a) keys /\
      authorized_by vs (vas_new_authority a) (vas_authorization_type a) keys clock vs'
  | AuthorizeCheckedWithSeed a => exists clock keys pk, cache_clock cache = Some clock /\ key_at tx ctx 3 pk /\
      derived_keys tx ctx (vacs_current_authority_derived_key_seed a) (vacs_current_authority_derived_key_owner a) keys /\
      authorized_by vs pk (vacs_authorization_type a) keys clock vs'
  | UpdateValidatorIdentity => exists pk, key_at tx ctx 1 pk /\ pk ∈ signers /\
      authorized_withdrawer vs ∈ signers /\ vs' = set_node_pubkey vs pk
  | UpdateCommission c => authorized_withdrawer vs ∈ signers /\ vs' = set_commission vs c
  | IVote vote | VoteSwitch vote _ => exists clock sh vs1 voter, cache_clock cache = Some clock /\
      cache_slot_hashes cache = Some sh /\ voter ∈ signers /\
      get_and_update_authorized_voter vs (clock_epoch clock) = (vs1, Ok voter) /\ voted vs1 sh clock vote fs vs'
  | UpdateVoteState u | UpdateVoteStateSwitch u _ | CompactUpdateVoteState u | CompactUpdateVoteStateSwitch u _ =>
      exists clock sh vs1 voter, cache_clock cache = Some clock /\
      cache_slot_hashes cache = Some sh /\ voter ∈ signers /\
      get_and_update_authorized_voter vs (clock_epoch clock) = (vs1, Ok voter) /\
      do_process_vote_state_update vs1 sh (clock_epoch clock) (clock_slot clock) u (Some fs) = (vs', Ok tt)
  | Withdraw l => authorized_withdrawer vs ∈ signers /\ vs' = if balance =? l then vote_state_default else vs
  end.

(** On an initialised account the effect is a run of the abstract vote state. *)
Lemma effect_steps tx ctx signers balance i v vs' :
  (forall clock, cache_clock cache = Some clock -> 0 <= clock_epoch clock) ->
  typed_instruction i -> updates_state i = true -> instruction_effect tx ctx signers balance i v vs' ->
  rtc vote_step (convert_to_current v) vs'.
Proof.
  intros Hcl Ht Hu. destruct i; try done; cbn [instruction_effect];
    try (intros (clock & Hc & E); apply Hcl in Hc; by eapply rtc_once, authorized_by_step);
    try (intros (clock & pk & Hc & _ & E); apply Hcl in Hc; by eapply rtc_once, authorized_by_step);
    try (intros (clock & keys & pk & Hc & _ & _ & E); apply Hcl in Hc; by eapply rtc_once, authorized_by_step);
    try (intros (clock & sh & vs1 & voter & Hc & _ & _ & Hup & E); apply Hcl in Hc;
         eapply rtc_l; [by eapply updated_voter_step |]; try (by eapply voted_steps); apply rtc_once;
         pose proof (step_update vs1 sh (clock_epoch clock) (clock_slot clock) update (Some fs) Ht) as Hst;
         by rewrite E in Hst).
  - intros (pk & _ & _ & _ & ->). apply rtc_once, step_identity.
  - intros [_ ->]. apply rtc_once, step_commission, Ht.
Qed.

(** Of the transaction, only the keys of the accounts matter. *)
Lemma effect_keys tx1 tx2 ctx signers balance i v vs' :
  account_keys tx1 = account_keys tx2 -> instruction_effect tx1 ctx signers balance i v vs' ->
  instruction_effect tx2 ctx signers balance i v vs'.
Proof.
  intros Hk. unfold instruction_effect, key_at, derived_keys. rewrite Hk. done.
Qed.

Lemma seed_effect ctx pk va owner seed s s' :
  process_authorize_with_seed_instruction hashv cache fs ctx pk va owner seed s = (s', Ok tt) ->
  exists clock keys vs vs1, cache_clock cache = Some clock /\ derived_keys s.1 ctx seed owner keys /\
    get_vote_state s = Ok vs /\ authorized_by vs pk va keys clock vs1 /\ stored s s' vs1.
Proof.
  unfold process_authorize_with_seed_instruction. intros E. eff_inv.
  match goal with H : sysvar_with_check _ _ _ _ _ _ = Ok ?c |- _ =>
    apply sysvar_check_Ok, ok_or_Ok in H; exists c end.
  match goal with H : _ = Ok ?k, H2 : authorize _ _ ?k _ _ _ = _ |- _ =>
    exists k; rename H into Hk; apply authorize_Ok in H2 as (vs & vs1 & Hv & Ha & Hst) end.
  exists vs, vs1. split; [done |]. split; [|done].
  unfold is_instruction_account_signer, get_index_of_instruction_account_in_transaction,
    get_key_of_account_at_index in Hk.
  destruct (instruction_accounts ctx !! 2%nat) as [ia|] eqn:Eia; [|done]. cbn in Hk.
  destruct (ia_is_signer ia) eqn:Esig; [|injection Hk as <-; by left]. right.
  apply bind_Ok in Hk as (base & Hb%ok_or_Ok & Hk). apply bind_Ok in Hk as (key & Hkey & [= <-]).
  exists ia, base. repeat split; try done. f_equal. unfold create_with_seed in Hkey.
  destruct (ensure _ SeedTooLong); [|done|done]. cbn in Hkey.
  destruct (ensure _ OwnerIllegal); [|done|done]. by injection Hkey.
Qed.

Lemma instruction_key_Ok ctx i s k : instruction_account_key ctx i s = Ok k -> key_at s.1 ctx i k.
Proof.
  unfold instruction_account_key, get_index_of_instruction_account_in_transaction, get_key_of_account_at_index.
  destruct (instruction_accounts ctx !! i) as [ia|] eqn:E; [|done]. cbn. intros Hk%ok_or_Ok. by exists ia.
Qed.

Lemma effect_of_state tx ctx signers balance i s s' vs vs1 :
  get_vote_state s = Ok vs -> stored s s' vs1 ->
  (forall v, convert_to_current v = vs -> instruction_effect tx ctx signers balance i v vs1) ->
  exists v vs', get_state s = Ok v /\ instruction_effect tx ctx signers balance i v vs' /\ stored s s' vs'.
Proof. intros (v & Hv & Hc)%get_vote_state_Ok Hst Hi. exists v, vs1. auto. Qed.

Ltac read_sysvars :=
  repeat match goal with
  | H : sysvar_with_check _ _ _ _ _ _ = Ok _ |- _ => apply sysvar_check_Ok in H
  | H : get_clock _ = Ok _ |- _ => apply ok_or_Ok in H
  | H : get_slot_hashes _ = Ok _ |- _ => apply ok_or_Ok in H
  | H : instruction_account_key _ _ _ = Ok _ |- _ => apply instruction_key_Ok in H
  end.

(** A handler that keeps the vote account writes the effect back to it. *)
Lemma instruction_effect_Ok ctx signers i s s' :
  process_on_vote_account hashv cache fs ctx signers i s = (s', Ok None) ->
  exists v vs', get_state s = Ok v /\ instruction_effect s.1 ctx signers (get_lamports s) i v vs' /\
    stored s s' vs'.
Proof.
  intros E. destruct i; cbn [process_on_vote_account] in E; unfold with_vote_account in E; eff_inv; try done;
    read_sysvars;
    match goal with H : _ = (_, Ok ?u) |- _ => destruct u end;
    match goal with
    | H : initialize_account _ _ _ _ _ = _ |- _ =>
        apply initialize_Ok in H as (v & Hv & Hun & Hs & Hst); exists v; eexists; split; [done |];
        split; [|exact Hst]; cbn; eauto
    | H : authorize _ _ _ _ _ _ = _ |- _ =>
        apply authorize_Ok in H as (vs & vs1 & Hv & Ha & Hst);
        eapply effect_of_state; [done | done |]; intros v Hc; cbn; rewrite Hc; eauto
    | H : process_authorize_with_seed_instruction _ _ _ _ _ _ _ _ _ = _ |- _ =>
        apply seed_effect in H as (clock & keys & vs & vs1 & Hcl & Hk & Hv & Ha & Hst);
        eapply effect_of_state; [done | done |]; intros v Hc; cbn; rewrite Hc; eauto 8
    | H : update_validator_identity _ _ _ _ = _ |- _ =>
        apply update_identity_Ok in H as (vs & Hv & Hw & Hs & Hst);
        eapply effect_of_state; [done | done |]; intros v Hc; cbn; rewrite Hc; eauto 8
    | H : update_commission _ _ _ _ _ _ = _ |- _ =>
        apply update_commission_Ok in H as (vs & Hv & Hw & Hst & _);
        eapply effect_of_state; [done | done |]; intros v Hc; cbn; rewrite Hc; eauto 8
    | H : process_vote_with_account _ _ _ _ _ _ = _ |- _ =>
        apply process_vote_account_Ok in H as (vs0 & vs1 & voter & vs & Hv & Hs & Hup & Hst' & Hst);
        eapply effect_of_state; [done | done |]; intros v Hc; cbn; rewrite Hc; eauto 12
    | H : process_vote_state_update _ _ _ _ _ _ = _ |- _ =>
        apply process_update_account_Ok in H as (vs0 & vs1 & voter & vs & Hv & Hs & Hup & Hst' & Hst);
        eapply effect_of_state; [done | done |]; intros v Hc; cbn; rewrite Hc; eauto 12
    end.
Qed.

(** Only [Withdraw] leaves something to do, and it has not touched the account. *)
Lemma withdrawal_pending ctx signers i s s' w :
  process_on_vote_account hashv cache fs ctx signers i s = (s', Ok (Some w)) ->
  s' = s /\ exists l rent clock, i = Withdraw l /\ cache_rent cache = Some rent /\
    cache_clock cache = Some clock /\ w = (l, signers, rent, clock).
Proof.
  intros E. destruct i; cbn [process_on_vote_account] in E; unfold with_vote_account in E; eff_inv; try done.
  split; [done |]. repeat match goal with H : _ cache = Ok _ |- _ => apply ok_or_Ok in H end. eauto 8.
Qed.

(** ** Authority *)

(** The voter of the current epoch is among the signers. *)
Definition voter_signed (vs : VoteState) (epoch : Epoch) (signers : gset Pubkey) : Prop :=
  exists p, voter_at (authorized_voters vs) epoch p /\ p ∈ signers.

(** Who must have signed for a change of authority. *)
Definition authority_signed (vs : VoteState) (va : VoteAuthorize) (epoch : Epoch) (signers : gset Pubkey) : Prop :=
  match va with
  | Voter => authorized_withdrawer vs ∈ signers \/ voter_signed vs epoch signers
  | Withdrawer => authorized_withdrawer vs ∈ signers
  end.

Definition instruction_authority (tx : TransactionContext) (ctx : InstructionContext) (vs : VoteState)
    (epoch : Epoch) (signers : gset Pubkey) (i : VoteInstruction) : Prop :=
  match i with
  | Authorize _ va | AuthorizeChecked va => authority_signed vs va epoch signers
  | AuthorizeWithSeed a => exists keys,
      derived_keys tx ctx (vas_current_authority_derived_key_seed a) (vas_current_authority_derived_key_owner a) keys /\
      authority_signed vs (vas_authorization_type a) epoch keys
  | AuthorizeCheckedWithSeed a => exists keys,
      derived_keys tx ctx (vacs_current_authority_derived_key_seed a) (vacs_current_authority_derived_key_owner a) keys /\
      authority_signed vs (vacs_authorization_type a) epoch keys
  | UpdateValidatorIdentity | UpdateCommission _ => authorized_withdrawer vs ∈ signers
  | InitializeAccount _ | Withdraw _ => True
  | _ => voter_signed vs epoch signers
  end.

Lemma authorized_by_signed vs pk va signers clock vs1 :
  epochs_nonneg (authorized_voters vs) -> 0 <= clock_epoch clock ->
  authorized_by vs pk va signers clock vs1 -> authority_signed vs va (clock_epoch clock) signers.
Proof.
  intros Hnn Hep. destruct va; cbn; [|by intros [? _]].
  intros (verify & E & Hp & Hv). unfold set_new_authorized_voter in E.
  destruct (get_and_update_authorized_voter vs _) as [vs2 r] eqn:Eu.
  destruct (get_and_update_spec _ _ _ _ Hnn Hep Eu) as (_ & _ & Hr).
  destruct r as [p|?|]; [|done|done]. cbn [obind] in E.
  destruct (verify p) as [[]|?|] eqn:Ev; [|done|done].
  destruct (Hv p Ev) as [?|?]; [by left |]. right. exists p. split; [apply Hr | done].
Qed.

Lemma updated_voter_signed vs ep vs1 voter signers :
  epochs_nonneg (authorized_voters vs) -> 0 <= ep ->
  get_and_update_authorized_voter vs ep = (vs1, Ok voter) -> voter ∈ signers -> voter_signed vs ep signers.
Proof.
  intros Hnn Hep E Hs. destruct (get_and_update_spec _ _ _ _ Hnn Hep E) as (_ & _ & Hr).
  exists voter. split; [apply Hr | done].
Qed.

Lemma instruction_authority_needed ctx signers i s s' r vs clock :
  (forall clock, cache_clock cache = Some clock -> 0 <= clock_epoch clock) ->
  cache_clock cache = Some clock -> epochs_nonneg (authorized_voters vs) ->
  get_vote_state s = Ok vs ->
  process_on_vote_account hashv cache fs ctx signers i s = (s', Ok r) ->
  instruction_authority s.1 ctx vs (clock_epoch clock) signers i.
Proof.
  intros Hcl Hc Hnn Hv E. pose proof (Hcl _ Hc) as Hep. destruct r as [w|].
  { apply withdrawal_pending in E as (_ & l & rent & c & -> & _). done. }
  apply instruction_effect_Ok in E as (v & vs' & Hg & He & _).
  apply get_vote_state_Ok in Hv as (v0 & Hg' & <-). assert (v0 = v) as -> by congruence.
  destruct i; cbn [instruction_effect instruction_authority] in He |- *; try done;
    try (destruct He as (c & Hc' & E); assert (c = clock) as -> by congruence; by eapply authorized_by_signed);
    try (destruct He as (c & pk & Hc' & Hk & E); assert (c = clock) as -> by congruence;
         solve [eauto using authorized_by_signed]);
    try (destruct He as (c & keys & pk & Hc' & Hp & Hk & E); assert (c = clock) as -> by congruence;
         solve [eauto using authorized_by_signed]);
    try (destruct He as (c & sh & vs1 & voter & Hc' & _ & Hs & Hup & _); assert (c = clock) as -> by congruence;
         by eapply updated_voter_signed).
  - by destruct He as (pk & _ & _ & ? & _).
  - apply He.
Qed.
End instructions.

(** ** Withdrawals *)

Section withdrawals.
Context `{CodecLaws VoteStateVersions}.

(** The state stored in an account. *)
Definition account_state (a : AccountSharedData) : option VoteStateVersions := bincode_deserialize (data a).

Lemma get_state_account s v : get_state s = Ok v <-> account_state (account s.2) = Some v.
Proof. unfold get_state, account_state, get_data. split; [by intros ?%ok_or_Ok | by intros ->]. Qed.

(** What a withdrawal of [l] lamports made of the vote account. *)
Record withdrawn_from (a a' : AccountSharedData) (l : Z) (signers : gset Pubkey) (rent : Rent) (clock : Clock)
    : Prop := {
  wf_lamports : lamports a' = lamports a - l;
  wf_enough : l <= lamports a;
  wf_signed : exists v, account_state a = Some v /\ authorized_withdrawer (convert_to_current v) ∈ signers /\
    (lamports a = l -> forall e c p, last (epoch_credits (convert_to_current v)) = Some (e, c, p) ->
       e + 2 <= clock_epoch clock);
  wf_closed : lamports a = l -> exists v', account_state a' = Some v' /\ is_uninitialized v' = true /\
    convert_to_current v' = vote_state_default;
  wf_open : lamports a <> l -> data a' = data a /\ minimum_balance rent (zlength (data a)) <= lamports a - l;
}.

Lemma forget_default : forget_latencies vote_state_default = vote_state_default.
Proof. done. Qed.

Lemma withdraw_from_Ok l signers rent clock fs s s' :
  withdraw_from_vote_account l signers rent clock fs s = (s', Ok tt) ->
  borrow_frame s s' /\ withdrawn_from (account s.2) (account s'.2) l signers rent clock.
Proof.
  unfold withdraw_from_vote_account. intros E. eff_inv.
  match goal with H : get_vote_state s = Ok ?v |- _ =>
    apply get_vote_state_Ok in H as (v0 & Hv%get_state_account & <-) end.
  match goal with H : verify_authorized_signer _ _ = Ok ?u |- _ =>
    destruct u; apply verify_signer_Ok in H; rename H into Hsig end.
  match goal with H : ok_or _ _ = Ok _ |- _ => apply ok_or_Ok, checked_sub_Some in H as [-> Hle] end.
  match goal with H : (if _ then _ else _) s = (?s1, Ok ?u) |- _ =>
    rename H into Hb; rename s1 into s1; destruct u end.
  apply checked_sub_lamports_Ok in E as (Hf & Hl & _ & Hd & _).
  unfold get_lamports, get_data in *.
  destruct (Z.eqb_spec (lamports (account s.2) - l) 0) as [Hz|Hz].
  - destruct (match last _ with Some _ => _ | None => _ end) eqn:Erej; [done |].
    apply set_vote_account_state_Ok in Hb as [Hf1 Hl1 (v & Hst%get_state_account & Hcv & Hun) _].
    unfold get_lamports in Hl1. split; [by etrans |]. split; [by rewrite Hl, Hl1 | lia | | |intros; lia].
    + exists v0. split; [done |]. split; [done |]. intros _ e c p El. rewrite El in Erej.
      apply Z.ltb_ge in Erej. unfold sat_sub in Erej. lia.
    + intros _. exists v. unfold account_state in *. rewrite Hd, Hun. split; [done |].
      split; [by apply bool_decide_eq_true |]. rewrite forget_default in Hcv. by destruct Hcv.
  - apply eread_Ok in Hb as [-> Hb%ensure_Ok%negb_true_iff%Z.ltb_ge].
    split; [done |]. split; [done | done | | intros; lia | done].
    exists v0. split; [done |]. split; [done | intros; lia].
Qed.

(** What a withdrawal made of the transaction: [l] lamports leave the account
    [from] and arrive at the account [to], which may be the same. *)
Record withdrawn (tx tx' : TransactionContext) (from to : nat) (l : Z) (signers : gset Pubkey) (rent : Rent)
    (clock : Clock) : Prop := {
  wd_lamports j : lamports_at tx' j =
    lamports_at tx j - (if decide (j = from) then l else 0) + (if decide (j = to) then l else 0);
  wd_others j : j <> from -> j <> to -> accounts tx' !! j = accounts tx !! j;
  wd_recipient : to <> from -> exists b b', accounts tx !! to = Some (Some b) /\
    accounts tx' !! to = Some (Some b') /\ data b' = data b /\ owner b' = owner b;
  wd_vote : exists a a1 a', accounts tx !! from = Some (Some a) /\ accounts tx' !! from = Some (Some a') /\
    withdrawn_from a a1 l signers rent clock /\ data a' = data a1 /\
    lamports a' = lamports a1 + (if decide (from = to) then l else 0);
}.

Lemma withdraw_Ok ctx vi l ti signers rent clock fs tx tx' :
  withdraw ctx vi l ti signers rent clock fs tx = (tx', Ok tt) ->
  exists from to, get_index_of_instruction_account_in_transaction ctx vi = Ok from /\
    get_index_of_instruction_account_in_transaction ctx ti = Ok to /\
    withdrawn tx tx' from to l signers rent clock.
Proof.
  unfold withdraw. intros E. apply ebind_Ok in E as (tx1 & [] & E1 & E2).
  apply with_account_accounts in E1 as (from & a & s & s1 & Hi & Ha & <- & _ & Hm & Htx1 & _);
    [|by intros ? ? [? _]%withdraw_from_Ok].
  apply with_account_accounts in E2 as (to & b & s2 & s3 & Hi' & Hb & <- & _ & Hm' & Htx2 & _);
    [|by intros ? ? [? _]%checked_add_lamports_Ok].
  apply withdraw_from_Ok in Hm as [_ Hw]. apply checked_add_lamports_Ok in Hm' as (_ & Hl & Hd & Ho).
  unfold get_lamports, get_data in Hl, Hd.
  exists from, to. split; [done |]. split; [done |].
  assert (from < length (accounts tx))%nat as Hlf by by eapply lookup_lt_Some.
  assert (to < length (accounts tx1))%nat as Hlt by by eapply lookup_lt_Some.
  pose proof Hlt as Hlt'. rewrite Htx1, length_insert in Hlt'. pose proof Hb as Hb'. rewrite Htx1 in Hb'.
  split.
  - intros j. unfold lamports_at. rewrite Htx2.
    destruct (decide (j = to)) as [->|Hjt].
    + rewrite list_lookup_insert_eq by done. cbn. rewrite Hl. destruct (decide (to = from)) as [->|].
      * rewrite list_lookup_insert_eq in Hb' by done. injection Hb' as Hs21. rewrite <- Hs21, Ha. cbn.
        rewrite (wf_lamports _ _ _ _ _ _ Hw). lia.
      * rewrite list_lookup_insert_ne in Hb' by done. rewrite Hb'. cbn. lia.
    + rewrite list_lookup_insert_ne, Htx1 by done. destruct (decide (j = from)) as [->|].
      * rewrite list_lookup_insert_eq, Ha by done. cbn. rewrite (wf_lamports _ _ _ _ _ _ Hw). lia.
      * rewrite list_lookup_insert_ne by done. lia.
  - intros j ? ?. by rewrite Htx2, Htx1, !list_lookup_insert_ne by done.
  - intros Hne. rewrite list_lookup_insert_ne in Hb' by done. do 2 eexists. split; [done |].
    rewrite Htx2, list_lookup_insert_eq by done. done.
  - exists (account s.2), (account s1.2). rewrite Htx2, Htx1. case_decide as Hft.
    + subst to. exists (account s3.2). rewrite list_lookup_insert_eq by (by rewrite length_insert).
      rewrite list_lookup_insert_eq in Hb' by done. injection Hb' as Hs21. by rewrite Hs21 in *.
    + exists (account s1.2). rewrite list_lookup_insert_ne, list_lookup_insert_eq by done.
      repeat (split; [done |]). lia.
Qed.

(** A transfer between two accounts that exist keeps the sum. *)
Lemma withdraw_total ctx vi l ti signers rent clock fs tx tx' :
  withdraw ctx vi l ti signers rent clock fs tx = (tx', Ok tt) -> total_lamports tx' = total_lamports tx.
Proof.
  unfold withdraw. intros E. apply ebind_Ok in E as (tx1 & [] & E1 & E2).
  rewrite (with_account_total _ _ _ _ _ _ l E2); cycle 1.
  { intros s s' (? & ? & _)%checked_add_lamports_Ok. done. }
  rewrite (with_account_total _ _ _ _ _ _ (- l) E1); [lia |].
  intros s s' [? []]%withdraw_from_Ok. split; [done |]. unfold get_lamports. lia.
Qed.
End withdrawals.

(** ** The entry point *)

Section refinement.
Context `{CodecLaws VoteStateVersions}.
Context (limited_deserialize : list Z -> result VoteInstruction).
Context (hashv : Pubkey -> string -> Pubkey -> Pubkey) (cache : SysvarCache) (fs : FeatureSet).

(** What an instruction [i], with its context, made of the vote account [a] at
    [idx]: it holds the state that the instruction calls for, as it is or
    without latencies, and no lamports move unless it is a withdrawal. *)
Record instruction_done (tx tx' : TransactionContext) (ctx : InstructionContext) (i : VoteInstruction)
    (idx : nat) (a a' : AccountSharedData) : Prop := {
  id_context : get_current_instruction_context tx = Ok ctx;
  id_instruction : limited_deserialize (instruction_data ctx) = Ok i;
  id_index : get_index_of_instruction_account_in_transaction ctx 0 = Ok idx;
  id_before : accounts tx !! idx = Some (Some a);
  id_after : accounts tx' !! idx = Some (Some a');
  id_owner : owner a = vote_program_id;
  id_effect : exists signers v v' vs', get_signers ctx tx = Ok signers /\
    account_state a = Some v /\ account_state a' = Some v' /\
    instruction_effect hashv cache fs tx ctx signers (lamports a) i v vs' /\
    (convert_to_current v' = vs' \/ convert_to_current v' = forget_latencies vs');
  id_frame : (forall l, i <> Withdraw l) ->
    lamports a' = lamports a /\ forall j, j <> idx -> accounts tx' !! j = accounts tx !! j;
}.

Lemma signers_keys tx1 tx2 ctx :
  account_keys tx1 = account_keys tx2 -> get_signers ctx tx1 = get_signers ctx tx2.
Proof.
  intros Hk. unfold get_signers. generalize (∅ : gset Pubkey). induction (instruction_accounts ctx); intros acc; cbn; [done |].
  unfold get_key_of_account_at_index. rewrite Hk. destruct (ia_is_signer a); [|done].
  destruct (ok_or _ _); cbn; auto.
Qed.

Lemma dispatch_frame ctx signers i s s' r :
  process_on_vote_account hashv cache fs ctx signers i s = (s', Ok r) -> borrow_frame s s'.
Proof.
  destruct r as [w|]; [by intros [-> _]%withdrawal_pending |].
  by intros (v & vs' & _ & _ & [])%instruction_effect_Ok.
Qed.

Lemma entrypoint_Ok tx tx' :
  entrypoint limited_deserialize hashv cache fs tx = (tx', Ok tt) ->
  exists ctx i idx a a', instruction_done tx tx' ctx i idx a a'.
Proof.
  unfold entrypoint. intros E. apply ebind_Ok in E as (? & ctx & [-> Hctx]%eread_Ok & E).
  apply ebind_Ok in E as (tx1 & rest & E1 & E2).
  apply with_account_accounts in E1 as (idx & a & s & s' & Hi & Ha & <- & Hk & Hm & Htx1 & _); cycle 1.
  { intros s s' Hm. eff_inv. by eapply dispatch_frame. }
  apply ebind_Ok in Hm as (? & [] & [-> Hown%ensure_Ok%Z.eqb_eq]%eread_Ok & Hm).
  apply ebind_Ok in Hm as (? & signers & [-> Hsig]%eread_Ok & Hm).
  apply ebind_Ok in Hm as (? & i & [-> Hins]%eread_Ok & Hm).
  rewrite (signers_keys _ tx) in Hsig by done.
  assert (idx < length (accounts tx))%nat as Hlt by by eapply lookup_lt_Some.
  exists ctx, i, idx, (account s.2). destruct rest as [w|].
  - apply withdrawal_pending in Hm as (-> & l & rent & clock & -> & _ & Hcl & ->).
    rewrite list_insert_id in Htx1 by done.
    apply withdraw_Ok in E2 as (from & to & Hf & _ & [_ _ _ (a & a1 & a' & Hfrom & Hfrom' & Hw & Hd & _)]).
    assert (from = idx) as -> by congruence. rewrite Htx1 in Hfrom.
    assert (a = account s.2) as -> by congruence. destruct Hw as [_ _ (v & Hv & Hwd & _) Hclosed Hopen].
    exists a'. split; try done; [|intros Hn; by destruct (Hn l)].
    destruct (decide (lamports (account s.2) = l)) as [Heq|Hne].
    + destruct (Hclosed Heq) as (v' & Hv' & _ & Hdef). exists signers, v, v', vote_state_default.
      unfold account_state in *. rewrite Hd. repeat (split; [done |]). split; [|by left].
      cbn. by rewrite Heq, Z.eqb_refl.
    + destruct (Hopen Hne) as [Hd' _]. exists signers, v, v, (convert_to_current v).
      unfold account_state in *. rewrite Hd, Hd'. repeat (split; [done |]). split; [|by left].
      cbn. by rewrite (proj2 (Z.eqb_neq _ _) Hne).
  - apply instruction_effect_Ok in Hm as (v & vs' & Hg%get_state_account & He & [_ Hl (v' & Hg'%get_state_account & Hc & _) _]).
    unfold eret in E2. injection E2 as <-. exists (account s'.2).
    split; try done; [by rewrite Htx1, list_lookup_insert_eq | |].
    + exists signers, v, v', vs'. split; [done |]. split; [done |]. split; [done |]. split; [|done].
      by eapply effect_keys.
    + intros _. split; [done |]. intros j Hj. by rewrite Htx1, list_lookup_insert_ne.
Qed.

(** The steps of the abstract vote state that an instruction makes. *)
Lemma done_steps tx tx' ctx i idx a a' :
  (forall clock, cache_clock cache = Some clock -> 0 <= clock_epoch clock) ->
  typed_instruction i -> updates_state i = true -> instruction_done tx tx' ctx i idx a a' ->
  exists v v', account_state a = Some v /\ account_state a' = Some v' /\
    rtc vote_step (convert_to_current v) (convert_to_current v').
Proof.
  intros Hcl Ht Hu []. destruct id_effect0 as (signers & v & v' & vs' & _ & Hv & Hv' & He & Hc).
  exists v, v'. split; [done |]. split; [done |]. etrans; [by eapply effect_steps |].
  destruct Hc as [-> | ->]; [done |]. rewrite <- convert_downgraded. apply rtc_once, step_downgrade.
Qed.
End refinement.

(** ** A codec for a finite table of states

    It shows that the law asked of the serialization can hold. *)

#[global] Instance VoteState1_14_11_eq_dec : EqDecision VoteState1_14_11.
Proof. solve_decision. Defined.
#[global] Instance VoteState0_23_5_eq_dec : EqDecision VoteState0_23_5.
Proof. solve_decision. Defined.
#[global] Instance VoteStateVersions_eq_dec : EqDecision VoteStateVersions.
Proof. solve_decision. Defined.

Definition table_codec (table : list VoteStateVersions) : Codec VoteStateVersions := {|
  bincode_serialize x := (fun i => [Z.of_nat i]) <$> position (fun y => bool_decide (y = x)) table;
  bincode_deserialize bytes := b ← head bytes; table !! Z.to_nat b;
|}.

Lemma position_lookup {A} (p : A -> bool) l i :
  position p l = Some i -> exists x, l !! i = Some x /\ p x = true.
Proof.
  revert i. induction l as [|y l IH]; intros i; cbn; [done |]. destruct (p y) eqn:E.
  - intros [= <-]. by exists y.
  - destruct (position p l) as [j|]; [|done]. intros [= <-]. by apply IH.
Qed.

Lemma table_codec_laws table : CodecLaws VoteStateVersions (H := table_codec table).
Proof.
  split. intros x bytes rest. cbn. destruct (position _ table) as [i|] eqn:E; [|done].
  intros [= <-]. cbn. rewrite Nat2Z.id. apply position_lookup in E as (y & -> & Hy).
  by apply bool_decide_eq_true in Hy as ->.
Qed.

(** ** Properties *)


Definition demo_vote_state : VoteState := vote_state_new (mkVoteInit 1 2 3 10) (mkClock 0 0 0 0 0).
Definition demo_codec : Codec VoteStateVersions :=
  table_codec [V1_14_11 (vote_state_1_14_11_from demo_vote_state);
    V1_14_11 (vote_state_1_14_11_from (set_commission demo_vote_state 7));
    V1_14_11 (vote_state_1_14_11_from vote_state_default)].
Definition demo_flags : FeatureSet := mkFeatureSet true true false true true.
Definition demo_codec_laws : CodecLaws VoteStateVersions (H := demo_codec) := table_codec_laws _.
Definition demo_cache : SysvarCache :=
  mkSysvarCache (Some (mkClock 40 0 1 2 0)) (Some (mkEpochSchedule 100 100 false 0 0)) (Some rent_free)
    (Some [(5, 50)]).
Definition vote_context : InstructionContext :=
  mkInstructionContext 0 0 [2%nat]
    [mkInstructionAccount 0 0 0 false true; mkInstructionAccount 1 1 1 true true] [].
Definition vote_account : AccountSharedData := mkAccount 500 [0; 0] vote_program_id false 0.
Definition vote_transaction : TransactionContext :=
  mkTransactionContext [77; 3; vote_program_id]
    [Some vote_account; Some (mkAccount 20 [] 0 false 0); Some (mkAccount 1 [] 0 true 0)]
    [false; false; false] 5 5 [0%nat] [vote_context] (0, []) 0 rent_free.
Definition vote_borrowed : borrowed :=
  (set_accounts vote_transaction (<[0%nat := None]> (accounts vote_transaction)),
   mkBorrowedAccount vote_context 0 1 vote_account).

Lemma demo_cache_epochs clock : cache_clock demo_cache = Some clock -> 0 <= clock_epoch clock.
Proof. intros [= <-]. vm_compute. congruence. Defined.

Definition demo_run : borrowed * result (option pending_withdrawal) :=
  process_on_vote_account (H := demo_codec) (fun b _ _ => b) demo_cache demo_flags vote_context {[3]}
    (UpdateCommission 7) vote_borrowed.

Lemma demo_run_Ok : demo_run = (demo_run.1, Ok None).
Proof. vm_compute. reflexivity. Qed.

Definition demo_entry : TransactionContext * result unit :=
  entrypoint (H := demo_codec) (fun _ => Ok (UpdateCommission 7)) (fun b _ _ => b) demo_cache demo_flags
    vote_transaction.

Lemma demo_entry_Ok : demo_entry = (demo_entry.1, Ok tt).
Proof. vm_compute. reflexivity. Qed.


(** C37: an instruction on a vote account succeeds only with the authority it
    needs: the voter of the current epoch for votes, the withdrawer for the
    identity, the commission and the withdrawer, one of the two for the voter;
    a derived authority only through its base account, which signed. *)
Theorem vote_instruction_needs_authority `{CodecLaws VoteStateVersions} hashv cache fs ctx signers i s s' r vs clock :
  (forall clock, cache_clock cache = Some clock -> 0 <= clock_epoch clock) ->
  cache_clock cache = Some clock -> epochs_nonneg (authorized_voters vs) ->
  get_vote_state s = Ok vs ->
  process_on_vote_account hashv cache fs ctx signers i s = (s', Ok r) ->
  instruction_authority hashv s.1 ctx vs (clock_epoch clock) signers i.
Proof. intros. eapply instruction_authority_needed; eassumption. Qed.

Lemma demo_vote_state_nonneg : epochs_nonneg (authorized_voters demo_vote_state).
Proof.
  intros k [v Hv]. cbn in Hv. unfold authorized_voters_new in Hv. rewrite lookup_insert in Hv.
  case_decide; [lia | by rewrite lookup_empty in Hv].
Defined.

Lemma vote_instruction_needs_authority_witness :
  authorized_withdrawer demo_vote_state ∈ ({[3]} : gset Pubkey).
Proof.
  refine (@vote_instruction_needs_authority demo_codec demo_codec_laws (fun b _ _ => b) demo_cache demo_flags
    vote_context {[3]} (UpdateCommission 7) vote_borrowed demo_run.1 None demo_vote_state (mkClock 40 0 1 2 0)
    demo_cache_epochs eq_refl demo_vote_state_nonneg _ demo_run_Ok).
  vm_compute. reflexivity.
Defined.

(** C38: a successful withdrawal is signed by the withdrawer of the state that the
    vote account held; exactly its lamports leave the vote account and arrive at
    the recipient (which may be the vote account itself), the balance of no other
    account changes and the sum stays; the vote account is left rent exempt with
    its data as it was, or emptied, uninitialised and in the default state, the
    latter only when it has earned no credits in this epoch and the one before. *)
Theorem withdraw_safe `{CodecLaws VoteStateVersions} ctx vi l ti signers rent clock fs tx tx' :
  withdraw ctx vi l ti signers rent clock fs tx = (tx', Ok tt) ->
  total_lamports tx' = total_lamports tx /\
  exists from to, get_index_of_instruction_account_in_transaction ctx vi = Ok from /\
    get_index_of_instruction_account_in_transaction ctx ti = Ok to /\
    withdrawn tx tx' from to l signers rent clock.
Proof. intros E. split; [by eapply withdraw_total | by eapply withdraw_Ok]. Qed.

Definition demo_withdrawal : TransactionContext * result unit :=
  withdraw (H := demo_codec) vote_context 0 120 1 {[3]} rent_default (mkClock 40 0 1 2 0) demo_flags
    (set_accounts vote_transaction [Some (account_set_lamports vote_account 2000000);
       Some (mkAccount 20 [] 0 false 0); Some (mkAccount 1 [] 0 true 0)]).

Lemma demo_withdrawal_Ok : demo_withdrawal = (demo_withdrawal.1, Ok tt).
Proof. vm_compute. reflexivity. Qed.

Lemma withdraw_safe_witness :
  total_lamports demo_withdrawal.1 = 2000021 /\
  lamports_at demo_withdrawal.1 0 = 1999880 /\ lamports_at demo_withdrawal.1 1 = 140.
Proof.
  destruct (@withdraw_safe demo_codec demo_codec_laws _ _ _ _ _ _ _ _ _ _ demo_withdrawal_Ok)
    as [-> (from & to & Hf & Ht & [Hl _ _ _])].
  injection Hf as <-. injection Ht as <-. rewrite !Hl. repeat split.
Defined.

(** An account is initialised only once, only when rent exempt, and only
    with the signature of the node; it then holds the initial state. *)
Theorem initialize_once `{CodecLaws VoteStateVersions} hashv cache fs ctx signers init s s' :
  process_on_vote_account hashv cache fs ctx signers (InitializeAccount init) s = (s', Ok None) ->
  exists v clock rent, get_state s = Ok v /\ is_uninitialized v = true /\ vi_node_pubkey init ∈ signers /\
    cache_rent cache = Some rent /\ is_exempt rent (get_lamports s) (zlength (get_data s)) = true /\
    cache_clock cache = Some clock /\ get_vote_state s' = Ok (vote_state_new init clock) /\
    exists v', get_state s' = Ok v' /\ is_uninitialized v' = false.
Proof.
  cbn [process_on_vote_account]. unfold with_vote_account. intros E. eff_inv.
  match goal with H : initialize_account _ _ _ _ _ = (_, Ok ?u) |- _ => destruct u; rename H into E end.
  repeat match goal with H : sysvar_with_check _ _ _ _ _ _ = Ok _ |- _ =>
    apply sysvar_check_Ok, ok_or_Ok in H end.
  match goal with H : ensure _ _ = Ok ?u |- _ => destruct u; apply ensure_Ok in H end.
  apply initialize_Ok in E as (v & Hv & Hun & Hs & Hst).
  exists v. do 2 eexists. repeat (split; [eassumption |]).
  destruct Hst as [_ _ (v' & Hv' & Hc & Hu) _]. split.
  - apply get_vote_state_Ok. exists v'. split; [done |]. by destruct Hc as [-> | ->].
  - exists v'. split; [done |]. rewrite Hu. unfold authorized_voters_is_empty, vote_state_new,
      authorized_voters_new. cbn. apply bool_decide_eq_false. apply insert_non_empty.
Qed.

Definition init_context : InstructionContext :=
  mkInstructionContext 0 0 [3%nat] [mkInstructionAccount 0 0 0 false true; mkInstructionAccount 1 1 1 false false;
    mkInstructionAccount 2 2 2 false false; mkInstructionAccount 4 3 3 true false] [].
Definition init_borrowed : borrowed :=
  (mkTransactionContext [77; rent_id; clock_id; vote_program_id; 1] [None; None; None; None; None]
     [false; false; false; false; false] 5 5 [0%nat] [init_context] (0, []) 0 rent_free,
   mkBorrowedAccount init_context 0 1 (mkAccount 500 (2 :: replicate 3730 0) vote_program_id false 0)).
Definition init_cache : SysvarCache :=
  mkSysvarCache (Some (mkClock 0 0 0 0 0)) None (Some rent_free) None.
Definition demo_initialization : borrowed * result (option pending_withdrawal) :=
  process_on_vote_account (H := demo_codec) (fun b _ _ => b) init_cache demo_flags init_context {[1]}
    (InitializeAccount (mkVoteInit 1 2 3 10)) init_borrowed.

Lemma demo_initialization_Ok : demo_initialization = (demo_initialization.1, Ok None).
Proof. vm_compute. reflexivity. Qed.

Lemma initialize_once_witness :
  get_vote_state (H := demo_codec) demo_initialization.1 =
  Ok (vote_state_new (mkVoteInit 1 2 3 10) (mkClock 0 0 0 0 0)).
Proof.
  destruct (@initialize_once demo_codec demo_codec_laws (fun b _ _ => b) init_cache demo_flags init_context {[1]}
    (mkVoteInit 1 2 3 10) init_borrowed demo_initialization.1 demo_initialization_Ok)
    as (v & clock & rent & _ & _ & _ & _ & _ & Hc & Hs & _).
  injection Hc as <-. exact Hs.
Defined.
