(* ===== verification/BitVec.v ===== *)
(** * Bit vectors

    [fdp-aptos/crates/aptos-bitvec/src/lib.rs]: the vector of bytes in which
    aggregate signatures record which validators signed.  Position [8 * i + j]
    is bit [7 - j] of byte [i]. *)

From S2P Require Import Prelude.

Module BitVec.

Definition BUCKET_SIZE : Z := 8.
Definition MAX_BUCKETS : Z := 8192.

Record BitVec := mkBitVec { inner : list Z }.

#[global] Instance BitVec_eq_dec : EqDecision BitVec.
Proof. solve_decision. Defined.

Definition num_buckets (bv : BitVec) : Z := Z.of_nat (length (inner bv)).

Definition required_buckets (num_bits : Z) : Z :=
  match checked_sub num_bits 1 with
  | None => 0
  | Some pos => pos / BUCKET_SIZE + 1
  end.

Definition with_num_bits (num_bits : Z) : BitVec :=
  mkBitVec (replicate (Z.to_nat (required_buckets num_bits)) 0).

Definition default : BitVec := mkBitVec [].

(** [0b1000_0000 >> bucket_pos] *)
Definition mask (bucket_pos : Z) : Z := Z.shiftr 128 bucket_pos.

Definition set (bv : BitVec) (pos : Z) : BitVec :=
  let bucket := pos / BUCKET_SIZE in
  let grown :=
    if num_buckets bv <=? bucket
    then inner bv ++ replicate (Z.to_nat (bucket + 1 - num_buckets bv)) 0
    else inner bv in
  let bucket_pos := pos - bucket * BUCKET_SIZE in
  mkBitVec (alter (fun byte => Z.lor byte (mask bucket_pos)) (Z.to_nat bucket) grown).

Definition is_set (bv : BitVec) (pos : Z) : bool :=
  let bucket := pos / BUCKET_SIZE in
  let bucket_pos := pos - bucket * BUCKET_SIZE in
  match inner bv !! Z.to_nat bucket with
  | None => false
  | Some byte => negb (Z.land byte (mask bucket_pos) =? 0)
  end.

Definition all_zeros (bv : BitVec) : bool := forallb (fun byte => byte =? 0) (inner bv).

(** [u8::count_ones] and [u8::trailing_zeros]. *)
Definition byte_count_ones (byte : Z) : Z :=
  Z.of_nat (length (filter (fun i => Z.testbit byte i) (seqZ 0 8))).

Definition byte_trailing_zeros (byte : Z) : Z :=
  from_option id 8 (head (filter (fun i => Z.testbit byte i) (seqZ 0 8))).

Definition count_ones (bv : BitVec) : Z :=
  foldr Z.add 0 (map byte_count_ones (inner bv)).

(** The bytes from the last one, each with its distance [i] from the end; the
    first non-zero one holds the last set bit. *)
Fixpoint last_set_bit_from (len : Z) (i : Z) (rev_bytes : list Z) : option Z :=
  match rev_bytes with
  | [] => None
  | byte :: rest =>
      if negb (byte =? 0)
      then Some ((8 * (len - i) - byte_trailing_zeros byte - 1) mod 2 ^ 16)
      else last_set_bit_from len (i + 1) rest
  end.

Definition last_set_bit (bv : BitVec) : option Z :=
  last_set_bit_from (num_buckets bv) 0 (rev (inner bv)).

Definition iter_ones (bv : BitVec) : list Z :=
  filter (fun idx => is_set bv (idx mod 2 ^ 16)) (seqZ 0 (num_buckets bv * BUCKET_SIZE)).

Definition bitand (bv other : BitVec) : BitVec :=
  mkBitVec (zip_with Z.land (inner bv) (inner other)).

Fixpoint bitor_bytes (a b : list Z) : list Z :=
  match a, b with
  | [], _ => b
  | _, [] => a
  | x :: a', y :: b' => Z.lor x y :: bitor_bytes a' b'
  end.

Definition bitor (bv other : BitVec) : BitVec :=
  mkBitVec (bitor_bytes (inner bv) (inner other)).

(** [impl From<&Vec<bool>> for BitVec] *)
Definition from_bools (bits : list bool) : outcome unit BitVec :=
  _ ←? rust_assert (Z.of_nat (length bits) <=? MAX_BUCKETS * BUCKET_SIZE);
  Ok (foldl (fun bv '(index, b) => if b : bool then set bv (Z.of_nat index mod 2 ^ 16) else bv)
        (with_num_bits (Z.of_nat (length bits) mod 2 ^ 16))
        (zip (seq 0 (length bits)) bits)).

(** ** Well-formed vectors: bytes, at most [MAX_BUCKETS] of them *)
Definition bitvec_ok (bv : BitVec) : Prop :=
  Forall in_u8 (inner bv) /\ num_buckets bv <= MAX_BUCKETS.

(** The set positions of one byte. *)
Definition byte_ones (byte : Z) : list Z :=
  filter (fun j => negb (Z.land byte (mask j) =? 0)) (seqZ 0 8).

Lemma byte_cases (P : Z -> bool) :
  forallb P (seqZ 0 256) = true -> forall b, in_u8 b -> P b = true.
Proof.
  intros HP b Hb. rewrite forallb_forall in HP. apply HP.
  apply list_elem_of_In, elem_of_seqZ. unfold in_u8, u8_max in Hb. lia.
Qed.

Lemma byte_count_ones_eq b :
  in_u8 b -> byte_count_ones b = Z.of_nat (length (byte_ones b)).
Proof.
  intros Hb. apply Z.eqb_eq.
  refine (byte_cases (fun b => byte_count_ones b =? Z.of_nat (length (byte_ones b))) _ b Hb).
  vm_compute. reflexivity.
Qed.

Lemma byte_last_one b :
  in_u8 b -> b <> 0 -> last (byte_ones b) = Some (8 - byte_trailing_zeros b - 1).
Proof.
  intros Hb Hne.
  pose proof (byte_cases (fun b => (b =? 0) ||
    bool_decide (last (byte_ones b) = Some (8 - byte_trailing_zeros b - 1)))) as H.
  specialize (H ltac:(vm_compute; reflexivity) b Hb). apply orb_true_iff in H as [H|H].
  - apply Z.eqb_eq in H. lia.
  - by apply bool_decide_eq_true in H.
Qed.

Lemma byte_ones_zero b : in_u8 b -> byte_ones b = [] <-> b = 0.
Proof.
  intros Hb. split; [|intros ->; reflexivity].
  intros Hn. destruct (decide (b = 0)) as [|Hne]; [done|].
  apply byte_last_one in Hne; [|done]. by rewrite Hn in Hne.
Qed.

(** The positions of a vector, byte by byte, from byte [k] on. *)
Fixpoint ones_from (k : Z) (bytes : list Z) : list Z :=
  match bytes with
  | [] => []
  | b :: rest => map (fun j => 8 * k + j) (byte_ones b) ++ ones_from (k + 1) rest
  end.

Lemma filter_seqZ_shift (P Q : Z -> bool) d n :
  (forall j, 0 <= j < n -> P (d + j) = Q j) ->
  filter (fun i => P i) (seqZ d n) = map (fun j => d + j) (filter (fun j => Q j) (seqZ 0 n)).
Proof.
  intros HPQ. destruct (Z.le_gt_cases 0 n) as [Hn|Hn].
  2: { rewrite !seqZ_nil by lia. done. }
  replace (seqZ d n) with (map (Z.add d) (seqZ 0 n)).
  2: { pose proof (fmap_add_seqZ d 0 n) as H. rewrite Z.add_0_r in H. exact H. }
  assert (HF : Forall (fun j => P (d + j) = Q j) (seqZ 0 n)).
  { apply Forall_forall. intros j Hj%elem_of_seqZ. apply HPQ. lia. }
  induction HF as [|j js Hj _ IH]; [done|]. cbn [map].
  rewrite !filter_cons.
  rewrite Hj. destruct (decide (Q j)); cbn [map]; rewrite IH; done.
Qed.

Lemma is_set_byte bv k b j :
  inner bv !! k = Some b -> 0 <= j < 8 ->
  is_set bv (8 * Z.of_nat k + j) = negb (Z.land b (mask j) =? 0).
Proof.
  intros Hb Hj. unfold is_set, BUCKET_SIZE.
  replace ((8 * Z.of_nat k + j) / 8) with (Z.of_nat k)
    by (apply Z.div_unique with j; lia).
  rewrite Nat2Z.id, Hb. by replace (8 * Z.of_nat k + j - Z.of_nat k * 8) with j by lia.
Qed.

Lemma iter_ones_suffix bv pre suf :
  inner bv = pre ++ suf -> num_buckets bv <= MAX_BUCKETS ->
  filter (fun idx => is_set bv (idx mod 2 ^ 16))
    (seqZ (8 * Z.of_nat (length pre)) (8 * Z.of_nat (length suf))) =
  ones_from (Z.of_nat (length pre)) suf.
Proof.
  unfold num_buckets, MAX_BUCKETS. revert pre.
  induction suf as [|b suf IH]; intros pre Hin Hlen; [done|].
  cbn [ones_from length].
  replace (8 * Z.of_nat (S (length suf))) with (8 + 8 * Z.of_nat (length suf)) by lia.
  rewrite seqZ_app by lia. rewrite filter_app. f_equal.
  - unfold byte_ones.
    apply (filter_seqZ_shift (fun i => is_set bv (i mod 2 ^ 16))).
    intros j Hj. rewrite Z.mod_small.
    + apply is_set_byte; [|done]. rewrite Hin. by rewrite list_lookup_middle.
    + rewrite Hin, length_app in Hlen. cbn [length] in Hlen. lia.
  - specialize (IH (pre ++ [b])). rewrite length_app in IH. cbn [length] in IH.
    replace (8 * Z.of_nat (length pre + 1)) with (8 * Z.of_nat (length pre) + 8) in IH by lia.
    replace (Z.of_nat (length pre + 1)) with (Z.of_nat (length pre) + 1) in IH by lia.
    apply IH; [|done]. by rewrite <- app_assoc.
Qed.

Lemma iter_ones_bytes bv :
  num_buckets bv <= MAX_BUCKETS -> iter_ones bv = ones_from 0 (inner bv).
Proof.
  intros Hlen. pose proof (iter_ones_suffix bv [] (inner bv) eq_refl Hlen) as H.
  cbn [length] in H. unfold iter_ones, BUCKET_SIZE, num_buckets. rewrite Z.mul_comm. exact H.
Qed.

Lemma count_ones_from k bytes :
  Forall in_u8 bytes ->
  foldr Z.add 0 (map byte_count_ones bytes) = Z.of_nat (length (ones_from k bytes)).
Proof.
  intros HF. revert k. induction HF as [|b bytes Hb _ IH]; intros k; [done|].
  cbn [map foldr ones_from]. rewrite length_app, length_map, (IH (k + 1)).
  rewrite byte_count_ones_eq by done. lia.
Qed.

Lemma last_app_list {A} (l l' : list A) :
  last (l ++ l') = match last l' with Some x => Some x | None => last l end.
Proof. rewrite last_app. destruct (last l'); reflexivity. Qed.

Lemma ones_from_app k l1 l2 :
  ones_from k (l1 ++ l2) = ones_from k l1 ++ ones_from (k + Z.of_nat (length l1)) l2.
Proof.
  revert k. induction l1 as [|b l1 IH]; intros k; cbn [app ones_from length].
  - by rewrite Z.add_0_r.
  - rewrite IH, <- app_assoc. do 2 f_equal. f_equal. lia.
Qed.

(** The search from the last byte ends on the last position of the vector. *)
Lemma last_set_bit_from_spec bytes i :
  Forall in_u8 bytes -> 0 <= i -> Z.of_nat (length bytes) + i <= MAX_BUCKETS ->
  last_set_bit_from (Z.of_nat (length bytes) + i) i (rev bytes) = last (ones_from 0 bytes).
Proof.
  unfold MAX_BUCKETS. intros HF. revert i.
  induction bytes as [|b bytes IH] using rev_ind; intros i Hi Hlen; [done|].
  apply Forall_app in HF as [HF Hb]. apply Forall_inv in Hb.
  rewrite rev_unit, ones_from_app, last_app_list. rewrite length_app in *. cbn [length] in *.
  cbn [last_set_bit_from ones_from]. rewrite app_nil_r.
  destruct (b =? 0) eqn:E; cbn [negb].
  - apply Z.eqb_eq in E as ->.
    replace (Z.of_nat (length bytes + 1) + i) with (Z.of_nat (length bytes) + (i + 1)) by lia.
    apply IH; lia || done.
  - apply Z.eqb_neq in E.
    assert (Hl := byte_last_one b Hb E).
    change (map (fun j => 8 * (0 + Z.of_nat (length bytes)) + j) (byte_ones b))
      with ((fun j => 8 * (0 + Z.of_nat (length bytes)) + j) <$> byte_ones b).
    rewrite fmap_last, Hl. cbn [fmap option_fmap option_map].
    assert (0 <= 8 - byte_trailing_zeros b - 1 < 8).
    { apply last_Some_elem_of in Hl. unfold byte_ones in Hl.
      apply list_elem_of_filter in Hl as [_ Hl%elem_of_seqZ]. lia. }
    f_equal. rewrite Z.mod_small by lia. lia.
Qed.

Lemma all_zeros_ones bytes k :
  Forall in_u8 bytes -> forallb (fun b => b =? 0) bytes = true <-> ones_from k bytes = [].
Proof.
  intros HF. revert k. induction HF as [|b bytes Hb _ IH]; intros k; [done|].
  cbn [forallb ones_from]. rewrite andb_true_iff, Z.eqb_eq, (IH (k + 1)).
  rewrite <- (byte_ones_zero b Hb). split.
  - intros [-> ->]. done.
  - intros [H%map_eq_nil H2]%app_eq_nil. done.
Qed.

(** [set] changes exactly one position. *)
Lemma masks_meet j k :
  0 <= j < 8 -> 0 <= k < 8 -> (Z.land (mask j) (mask k) =? 0) = negb (j =? k).
Proof.
  intros Hj Hk.
  assert (Hall : forallb (fun j => forallb (fun k =>
            Bool.eqb (Z.land (mask j) (mask k) =? 0) (negb (j =? k))) (seqZ 0 8)) (seqZ 0 8) = true)
    by (vm_compute; reflexivity).
  rewrite forallb_forall in Hall. specialize (Hall j).
  rewrite <- list_elem_of_In, elem_of_seqZ in Hall. specialize (Hall ltac:(lia)).
  rewrite forallb_forall in Hall. specialize (Hall k).
  rewrite <- list_elem_of_In, elem_of_seqZ in Hall. specialize (Hall ltac:(lia)).
  by apply Bool.eqb_prop in Hall.
Qed.

Lemma lor_mask_test b j k :
  0 <= j < 8 -> 0 <= k < 8 ->
  negb (Z.land (Z.lor b (mask j)) (mask k) =? 0) =
  (j =? k) || negb (Z.land b (mask k) =? 0).
Proof.
  intros Hj Hk. rewrite Z.land_lor_distr_l.
  assert (Hor : forall x y, (Z.lor x y =? 0) = (x =? 0) && (y =? 0)).
  { intros x y. apply eq_true_iff_eq. rewrite andb_true_iff, !Z.eqb_eq. apply Z.lor_eq_0_iff. }
  rewrite Hor, masks_meet by done.
  destruct (j =? k), (Z.land b (mask k) =? 0); reflexivity.
Qed.

Lemma grown_lookup bytes (n k : nat) :
  (if Z.of_nat (length bytes) <=? Z.of_nat n
   then bytes ++ replicate (Z.to_nat (Z.of_nat n + 1 - Z.of_nat (length bytes))) 0
   else bytes) !! k =
  match bytes !! k with
  | Some b => Some b
  | None => if (Z.of_nat k <=? Z.of_nat n) then Some 0 else None
  end.
Proof.
  destruct (bytes !! k) as [b|] eqn:E.
  - case_match; [|done]. by apply lookup_app_l_Some.
  - apply lookup_ge_None in E. case_match eqn:H; bool_to_prop.
    + rewrite lookup_app_r by done. case_match eqn:H'; bool_to_prop.
      * apply lookup_replicate. lia.
      * apply lookup_replicate_None. lia.
    + case_match eqn:H'; bool_to_prop; [lia|]. by apply lookup_ge_None.
Qed.

Lemma is_set_pos bv (k : nat) j :
  0 <= j < 8 ->
  is_set bv (8 * Z.of_nat k + j) =
  match inner bv !! k with Some b => negb (Z.land b (mask j) =? 0) | None => false end.
Proof.
  intros Hj. destruct (inner bv !! k) as [b|] eqn:E; [by apply is_set_byte|].
  unfold is_set, BUCKET_SIZE.
  replace ((8 * Z.of_nat k + j) / 8) with (Z.of_nat k) by (apply Z.div_unique with j; lia).
  by rewrite Nat2Z.id, E.
Qed.

Lemma inner_set bv (n : nat) j :
  0 <= j < 8 ->
  inner (set bv (8 * Z.of_nat n + j)) =
  alter (fun b => Z.lor b (mask j)) n
    (if num_buckets bv <=? Z.of_nat n
     then inner bv ++ replicate (Z.to_nat (Z.of_nat n + 1 - num_buckets bv)) 0
     else inner bv).
Proof.
  intros Hj. unfold set, BUCKET_SIZE.
  replace ((8 * Z.of_nat n + j) / 8) with (Z.of_nat n) by (apply Z.div_unique with j; lia).
  replace (8 * Z.of_nat n + j - Z.of_nat n * 8) with j by lia.
  by rewrite Nat2Z.id.
Qed.

Lemma pos_split p : 0 <= p -> exists (k : nat) j, p = 8 * Z.of_nat k + j /\ 0 <= j < 8.
Proof.
  intros Hp. exists (Z.to_nat (p / 8)), (p mod 8).
  pose proof (Z.div_pos p 8 Hp ltac:(lia)). pose proof (Z.mod_pos_bound p 8 ltac:(lia)).
  pose proof (Z.div_mod p 8 ltac:(lia)). rewrite Z2Nat.id by lia. lia.
Qed.

(** setting a position makes exactly that position set: every other
    position answers [is_set] as before, whether or not the vector had to
    grow. *)
Theorem bitvec_set_spec bv p q :
  0 <= p -> 0 <= q -> is_set (set bv p) q = (p =? q) || is_set bv q.
Proof.
  intros (n & j & -> & Hj)%pos_split (k & i & -> & Hi)%pos_split.
  rewrite !is_set_pos, inner_set by done. unfold num_buckets.
  destruct (decide (n = k)) as [->|Hnk].
  - rewrite list_lookup_alter, decide_True, grown_lookup by done.
    replace (8 * Z.of_nat k + j =? 8 * Z.of_nat k + i) with (j =? i)
      by (apply eq_true_iff_eq; rewrite !Z.eqb_eq; lia).
    rewrite Z.leb_refl. destruct (inner bv !! k); cbn [fmap option_fmap option_map];
      rewrite lor_mask_test by done; [done|].
    rewrite Z.land_0_l. cbn. done.
  - rewrite list_lookup_alter, decide_False, grown_lookup by done.
    replace (8 * Z.of_nat n + j =? 8 * Z.of_nat k + i) with false
      by (symmetry; apply Z.eqb_neq; lia).
    cbn [orb]. destruct (inner bv !! k); [done|].
    by destruct (Z.of_nat k <=? Z.of_nat n).
Qed.

Lemma bitvec_set_spec_witness :
  is_set (set (mkBitVec [1]) 21) 7 = true /\ is_set (set (mkBitVec [1]) 21) 20 = false.
Proof.
  split; rewrite bitvec_set_spec by lia; vm_compute; reflexivity.
Defined.

(** The four readings of a well-formed vector agree: the number of set bits
    is the number of positions listed, the last set bit is the last position
    listed, the vector is all zeros exactly when no position is listed, and the
    positions listed are those below the capacity that answer [is_set]. *)
Theorem bitvec_observations_agree bv :
  bitvec_ok bv ->
  count_ones bv = Z.of_nat (length (iter_ones bv)) /\
  last_set_bit bv = last (iter_ones bv) /\
  (all_zeros bv = true <-> iter_ones bv = []) /\
  (forall i, i ∈ iter_ones bv <-> 0 <= i < 8 * num_buckets bv /\ is_set bv i = true).
Proof.
  intros [HF Hlen]. split_and!.
  - rewrite iter_ones_bytes by done. by apply count_ones_from.
  - rewrite iter_ones_bytes by done. unfold last_set_bit, num_buckets in *.
    rewrite <- (last_set_bit_from_spec (inner bv) 0) by (done || lia). by rewrite Z.add_0_r.
  - rewrite iter_ones_bytes by done. by apply all_zeros_ones.
  - intros i. unfold iter_ones, BUCKET_SIZE, MAX_BUCKETS in *.
    rewrite list_elem_of_filter, elem_of_seqZ.
    split; intros [H1 H2]; (split; [|lia || idtac]).
    + lia.
    + rewrite Z.mod_small in H1 by lia. by apply Is_true_true in H1.
    + rewrite Z.mod_small by lia. by apply Is_true_true.
Qed.

Lemma bitvec_observations_agree_witness :
  bitvec_ok (mkBitVec [16; 0; 1; 0]) /\ last_set_bit (mkBitVec [16; 0; 1; 0]) = Some 23.
Proof.
  assert (H : bitvec_ok (mkBitVec [16; 0; 1; 0])).
  { split; [repeat constructor; unfold in_u8, u8_max; lia|]. vm_compute. discriminate. }
  split; [done|].
  destruct (bitvec_observations_agree _ H) as (_ & -> & _). vm_compute. reflexivity.
Defined.

End BitVec.
