(* ===== verification/AptosTypes.v ===== *)
(** * Aptos consensus data

    The data of [fdp-aptos/types/src] and
    [fdp-aptos/consensus/consensus-types/src] that the safety rules read: blocks
    and block infos, ledger infos, votes, quorum and timeout certificates,
    validator sets, epoch change proofs and waypoints.  SHA3 and BLS12-381 are
    external libraries: their types are the class [CryptoTypes] and their
    functions the class [CryptoFns]. *)

From stdpp Require Import countable.
From S2P Require Import Prelude BitVec.
Import BitVec.

(** Types of the external libraries, and of the transactions and accumulator
    proofs that the safety rules carry without looking inside. *)
Class CryptoTypes := {
  HashValue : Type;
  HashValue_eq_dec :: EqDecision HashValue;
  HashValue_zero : HashValue;
  ACCUMULATOR_PLACEHOLDER_HASH : HashValue;
  PublicKey : Type;
  PublicKey_eq_dec :: EqDecision PublicKey;
  PrivateKey : Type;
  Signature : Type;
  SignedTransaction : Type;
  ValidatorTransaction : Type;
  AccumulatorExtensionProof : Type
}.

Definition AccountAddress : Type := Z.
Definition Author : Type := AccountAddress.
Definition Round : Type := Z.

Section Data.
Context `{CryptoTypes}.

(** ** Validator sets *)
Record ValidatorConsensusInfo := mkValidatorConsensusInfo {
  vi_address : AccountAddress;
  vi_public_key : PublicKey;
  vi_voting_power : Z
}.

Record ValidatorVerifier := mkValidatorVerifier {
  validator_infos : list ValidatorConsensusInfo;
  quorum_voting_power : Z;
  total_voting_power : Z;
  address_to_validator_index : gmap AccountAddress nat
}.

Record EpochState := mkEpochState {
  es_epoch : Z;
  es_verifier : ValidatorVerifier
}.

(** ** Block and ledger infos *)
Record BlockInfo := mkBlockInfo {
  bi_epoch : Z;
  bi_round : Round;
  bi_id : HashValue;
  bi_executed_state_id : HashValue;
  bi_version : Z;
  bi_timestamp_usecs : Z;
  bi_next_epoch_state : option EpochState
}.

Record LedgerInfo := mkLedgerInfo {
  li_commit_info : BlockInfo;
  li_consensus_data_hash : HashValue
}.

Record AggregateSignature := mkAggregateSignature {
  validator_bitmask : BitVec;
  agg_sig : option Signature
}.

(** [LedgerInfoWithSignatures::V0(LedgerInfoWithV0)] *)
Record LedgerInfoWithSignatures := mkLedgerInfoWithSignatures {
  ls_ledger_info : LedgerInfo;
  ls_signatures : AggregateSignature
}.

Record VoteData := mkVoteData {
  vd_proposed : BlockInfo;
  vd_parent : BlockInfo
}.

Record QuorumCert := mkQuorumCert {
  qc_vote_data : VoteData;
  qc_signed_ledger_info : LedgerInfoWithSignatures
}.

(** ** Payloads *)
Record BatchInfo := mkBatchInfo {
  batch_author : AccountAddress;
  batch_id : Z * Z;
  batch_epoch : Z;
  batch_expiration : Z;
  batch_digest : HashValue;
  batch_num_txns : Z;
  batch_num_bytes : Z;
  batch_gas_bucket_start : Z
}.

Inductive BatchKind := BatchKind_Normal | BatchKind_Encrypted.

Inductive BatchInfoExt :=
| BatchInfoExt_V1 (info : BatchInfo)
| BatchInfoExt_V2 (info : BatchInfo) (batch_kind : BatchKind).

Record ProofOfStore (T : Type) := mkProofOfStore {
  proof_info : T;
  proof_multi_signature : AggregateSignature
}.

Inductive PayloadExecutionLimit :=
| NoExecutionLimit
| MaxTransactionsToExecute (max : Z)
| TxnAndGasLimits (transaction_limit gas_limit : option Z).

Record OptQuorumStorePayloadV1 (T : Type) := mkOptQuorumStorePayloadV1 {
  opt_inline_batches : list (T * list SignedTransaction);
  opt_opt_batches : list T;
  opt_proofs : list (ProofOfStore T);
  opt_execution_limits : PayloadExecutionLimit
}.

Inductive OptQuorumStorePayload :=
| OptQuorumStorePayload_V1 (p : OptQuorumStorePayloadV1 BatchInfo)
| OptQuorumStorePayload_V2 (p : OptQuorumStorePayloadV1 BatchInfoExt).

Inductive Payload :=
| DirectMempool (txns : list SignedTransaction)
| InQuorumStore (proofs : list (ProofOfStore BatchInfo))
| InQuorumStoreWithLimit (proofs : list (ProofOfStore BatchInfo)) (max_txns_to_execute : option Z)
| QuorumStoreInlineHybrid (inline_batches : list (BatchInfo * list SignedTransaction))
    (proofs : list (ProofOfStore BatchInfo)) (max_txns_to_execute : option Z)
| OptQuorumStore (p : OptQuorumStorePayload)
| QuorumStoreInlineHybridV2 (inline_batches : list (BatchInfo * list SignedTransaction))
    (proofs : list (ProofOfStore BatchInfo)) (limit : PayloadExecutionLimit).

(** ** Blocks *)
Inductive OptBlockBody :=
| OptBlockBody_V0 (validator_txns : list ValidatorTransaction) (payload : Payload)
    (author : Author) (grandparent_qc : QuorumCert).

Inductive ProposalExt :=
| ProposalExt_V0 (validator_txns : list ValidatorTransaction) (payload : Payload)
    (author : Author) (failed_authors : list (Round * Author)).

Inductive BlockType :=
| Proposal (payload : Payload) (author : Author) (failed_authors : list (Round * Author))
| NilBlock (failed_authors : list (Round * Author))
| Genesis
| BlockProposalExt (p : ProposalExt)
| OptimisticProposal (p : OptBlockBody)
| DAGBlock (author : Author) (failed_authors : list (Round * Author))
    (validator_txns : list ValidatorTransaction) (payload : Payload)
    (node_digests : list HashValue) (parent_block_id : HashValue) (parents_bitvec : BitVec).

Record BlockData := mkBlockData {
  bd_epoch : Z;
  bd_round : Round;
  bd_timestamp_usecs : Z;
  bd_quorum_cert : QuorumCert;
  bd_block_type : BlockType
}.

Record Block := mkBlock {
  b_id : HashValue;
  b_block_data : BlockData;
  b_signature : option Signature
}.

Record VoteProposal := mkVoteProposal {
  vp_accumulator_extension_proof : AccumulatorExtensionProof;
  vp_block : Block;
  vp_next_epoch_state : option EpochState;
  vp_decoupled_execution : bool
}.

Record OrderVoteProposal := mkOrderVoteProposal {
  ov_block : Block;
  ov_block_info : BlockInfo;
  ov_quorum_cert : QuorumCert
}.

(** ** Votes and timeouts *)
Record TwoChainTimeout := mkTwoChainTimeout {
  to_epoch : Z;
  to_round : Round;
  to_quorum_cert : QuorumCert
}.

Record TimeoutSigningRepr := mkTimeoutSigningRepr {
  tr_epoch : Z;
  tr_round : Round;
  tr_hqc_round : Round
}.

Record AggregateSignatureWithRounds := mkAggregateSignatureWithRounds {
  ar_sig : AggregateSignature;
  ar_rounds : list Round
}.

Record TwoChainTimeoutCertificate := mkTwoChainTimeoutCertificate {
  tc_timeout : TwoChainTimeout;
  tc_signatures_with_rounds : AggregateSignatureWithRounds
}.

(** The [SignatureWithStatus] of a vote is its signature: the cached
    verification status is not part of the value. *)
Record Vote := mkVote {
  v_vote_data : VoteData;
  v_author : Author;
  v_ledger_info : LedgerInfo;
  v_signature : Signature;
  v_two_chain_timeout : option (TwoChainTimeout * Signature)
}.

Record OrderVote := mkOrderVote {
  o_author : Author;
  o_ledger_info : LedgerInfo;
  o_signature : Signature
}.

Record SafetyData := mkSafetyData {
  sd_epoch : Z;
  sd_last_voted_round : Round;
  sd_preferred_round : Round;
  sd_one_chain_round : Round;
  sd_last_vote : option Vote;
  sd_highest_timeout_round : Round
}.

(** ** Waypoints and epoch change proofs *)
Record Waypoint := mkWaypoint {
  wp_version : Z;
  wp_value : HashValue
}.

Record Ledger2WaypointConverter := mkLedger2WaypointConverter {
  lw_epoch : Z;
  lw_root_hash : HashValue;
  lw_version : Z;
  lw_timestamp_usecs : Z;
  lw_next_epoch_state : option EpochState
}.

Record EpochChangeProof := mkEpochChangeProof {
  ep_ledger_info_with_sigs : list LedgerInfoWithSignatures;
  ep_more : bool
}.

(** What a validator signs. *)
Inductive Message :=
| MLedgerInfo (li : LedgerInfo)
| MTimeout (t : TimeoutSigningRepr)
| MBlockData (b : BlockData).

End Data.

Arguments proof_info {H T}.
Arguments opt_inline_batches {H T}.
Arguments opt_opt_batches {H T}.
Arguments opt_proofs {H T}.

#[global] Instance ValidatorConsensusInfo_eq_dec `{CryptoTypes} : EqDecision ValidatorConsensusInfo.
Proof. unfold EqDecision, Decision. repeat decide equality; apply PublicKey_eq_dec. Defined.
#[global] Instance ValidatorVerifier_eq_dec `{CryptoTypes} : EqDecision ValidatorVerifier.
Proof. solve_decision. Defined.
#[global] Instance EpochState_eq_dec `{CryptoTypes} : EqDecision EpochState.
Proof. solve_decision. Defined.
#[global] Instance BlockInfo_eq_dec `{CryptoTypes} : EqDecision BlockInfo.
Proof. solve_decision. Defined.
#[global] Instance LedgerInfo_eq_dec `{CryptoTypes} : EqDecision LedgerInfo.
Proof. solve_decision. Defined.
#[global] Instance VoteData_eq_dec `{CryptoTypes} : EqDecision VoteData.
Proof. solve_decision. Defined.

(** Functions of the external libraries. *)
Class CryptoFns `{CryptoTypes} := {
  hash_vote_data : VoteData -> HashValue;
  hash_block_data : BlockData -> HashValue;
  hash_waypoint : Ledger2WaypointConverter -> HashValue;
  public_key_of : PrivateKey -> PublicKey;
  sign_message : PrivateKey -> Message -> option Signature;
  verify_signature : PublicKey -> Message -> Signature -> bool;
  aggregate_public_keys : list PublicKey -> option PublicKey;
  verify_aggregate : list Message -> list PublicKey -> Signature -> bool;
  verify_extension_proof : AccumulatorExtensionProof -> HashValue -> option (HashValue * Z)
}.

(** ** A concrete instance

    Hashes are trees that spell out the hashed value, an aggregate key is the
    list of the keys it aggregates, and a signature is accepted when every key
    it is checked against is listed, with the message, in a given table of
    signed messages; [proposer] is the key that signs blocks. *)
Module Sample.

#[local] Instance types : CryptoTypes := {|
  HashValue := gen_tree Z;
  HashValue_zero := GenLeaf 0;
  ACCUMULATOR_PLACEHOLDER_HASH := GenLeaf 1;
  PublicKey := list Z;
  PrivateKey := Z;
  Signature := unit;
  SignedTransaction := unit;
  ValidatorTransaction := unit;
  AccumulatorExtensionProof := unit
|}.

Definition enc_Z (z : Z) : gen_tree Z := GenLeaf z.
Definition enc_list {A} (f : A -> gen_tree Z) (l : list A) : gen_tree Z := GenNode 0 (map f l).
Definition enc_option {A} (f : A -> gen_tree Z) (o : option A) : gen_tree Z :=
  enc_list f (match o with Some a => [a] | None => [] end).
Definition enc_info (i : ValidatorConsensusInfo) : gen_tree Z :=
  GenNode 0 [enc_Z (vi_address i); enc_list enc_Z (vi_public_key i); enc_Z (vi_voting_power i)].
Definition enc_index (ai : AccountAddress * nat) : gen_tree Z :=
  GenNode 0 [enc_Z ai.1; enc_Z (Z.of_nat ai.2)].
Definition enc_verifier (v : ValidatorVerifier) : gen_tree Z :=
  GenNode 0 [enc_list enc_info (validator_infos v); enc_Z (quorum_voting_power v);
             enc_Z (total_voting_power v);
             enc_list enc_index (map_to_list (address_to_validator_index v))].
Definition enc_epoch_state (e : EpochState) : gen_tree Z :=
  GenNode 0 [enc_Z (es_epoch e); enc_verifier (es_verifier e)].
Definition enc_block_info (b : BlockInfo) : gen_tree Z :=
  GenNode 0 [enc_Z (bi_epoch b); enc_Z (bi_round b); bi_id b; bi_executed_state_id b;
             enc_Z (bi_version b); enc_Z (bi_timestamp_usecs b);
             enc_option enc_epoch_state (bi_next_epoch_state b)].
Definition enc_vote_data (v : VoteData) : gen_tree Z :=
  GenNode 1 [enc_block_info (vd_proposed v); enc_block_info (vd_parent v)].
Definition enc_waypoint (w : Ledger2WaypointConverter) : gen_tree Z :=
  GenNode 2 [enc_Z (lw_epoch w); lw_root_hash w; enc_Z (lw_version w);
             enc_Z (lw_timestamp_usecs w); enc_option enc_epoch_state (lw_next_epoch_state w)].
(** Enough of a block to tell blocks of different epochs or rounds apart. *)
Definition enc_block_data (b : BlockData) : gen_tree Z :=
  GenNode 3 [enc_Z (bd_epoch b); enc_Z (bd_round b); enc_Z (bd_timestamp_usecs b);
             enc_vote_data (qc_vote_data (bd_quorum_cert b))].

#[local] Instance TimeoutSigningRepr_eq_dec : EqDecision TimeoutSigningRepr.
Proof. solve_decision. Defined.

Definition in_table (proposer : Z) (lis : list (Z * LedgerInfo)) (tos : list (Z * TimeoutSigningRepr))
    (key : Z) (m : Message) : bool :=
  match m with
  | MLedgerInfo li => bool_decide ((key, li) ∈ lis)
  | MTimeout t => bool_decide ((key, t) ∈ tos)
  | MBlockData _ => key =? proposer
  end.

Definition fns (proposer : Z) (lis : list (Z * LedgerInfo)) (tos : list (Z * TimeoutSigningRepr))
    : @CryptoFns types := {|
  hash_vote_data := enc_vote_data;
  hash_block_data := enc_block_data;
  hash_waypoint := enc_waypoint;
  public_key_of sk := [sk];
  sign_message _ _ := Some tt;
  verify_signature keys m _ := forallb (fun key => in_table proposer lis tos key m) keys;
  aggregate_public_keys keys := Some (concat keys);
  verify_aggregate ms keys _ :=
    (length ms =? length keys)%nat &&
    forallb (fun '(m, ks) => forallb (fun key => in_table proposer lis tos key m) ks) (zip ms keys);
  verify_extension_proof _ _ := None
|}.

Lemma map_inj {A} (f : A -> gen_tree Z) (Hf : Inj (=) (=) f) l1 l2 :
  map f l1 = map f l2 -> l1 = l2.
Proof. intros Hl. exact (list_fmap_eq_inj f Hf l1 l2 Hl). Qed.

Lemma enc_Z_inj : Inj (=) (=) enc_Z.
Proof. by intros ?? [= ->]. Qed.

Lemma enc_epoch_state_inj : Inj (=) (=) enc_epoch_state.
Proof.
  assert (Hinfo : Inj (=) (=) enc_info).
  { intros [a1 k1 p1] [a2 k2 p2] [= -> Hk ->]. apply (map_inj _ enc_Z_inj) in Hk. by subst. }
  assert (Hindex : Inj (=) (=) enc_index).
  { intros [a1 n1] [a2 n2] [= -> Hn]. apply Nat2Z.inj in Hn. by subst. }
  intros [e1 [i1 q1 t1 m1]] [e2 [i2 q2 t2 m2]] [= -> Hi -> -> Hm].
  apply (map_inj _ Hinfo) in Hi. apply (map_inj _ Hindex) in Hm. subst.
  do 2 f_equal. by rewrite <- (list_to_map_to_list m1), Hm, list_to_map_to_list.
Qed.

Lemma enc_block_info_inj : Inj (=) (=) enc_block_info.
Proof.
  intros [????? ? o1] [????? ? o2] [= -> -> -> -> -> -> He].
  apply (map_inj _ enc_epoch_state_inj) in He. destruct o1, o2; by simplify_eq.
Qed.

Lemma enc_vote_data_inj : Inj (=) (=) enc_vote_data.
Proof.
  intros [p1 q1] [p2 q2] Hv. unfold enc_vote_data in Hv. cbn [vd_proposed vd_parent] in Hv.
  assert (enc_block_info p1 = enc_block_info p2 /\ enc_block_info q1 = enc_block_info q2)
    as [->%enc_block_info_inj ->%enc_block_info_inj]; [|done].
  generalize dependent (enc_block_info p2). generalize dependent (enc_block_info q2).
  generalize (enc_block_info p1), (enc_block_info q1). naive_solver.
Qed.

Lemma enc_vote_data_not_zero v : enc_vote_data v <> GenLeaf 0.
Proof. done. Qed.

End Sample.
