(* ===== verification/ValidatorVerifier.v ===== *)
(** * Validator sets and their signature checks

    [fdp-aptos/types/src/validator_verifier.rs]: voting power, quorums, and the
    verification of single, multi- and aggregate signatures. *)

From S2P Require Import Prelude BitVec AptosTypes.
Import BitVec.

Inductive VerifyError :=
| UnknownAuthor
| TooLittleVotingPower (voting_power expected_voting_power : Z)
| EmptySignature
| InvalidMultiSignature
| InvalidAggregatedSignature
| InconsistentBlockInfo
| FailedToAggregatePubKey
| FailedToAggregateSignature
| FailedToVerifyMultiSignature
| InvalidBitVec
| FailedToVerifyAggregatedSignature.

Section Verifier.
Context `{CryptoFns}.

(** [sum_voting_power]: the checked [u128] sum over the set. *)
Definition sum_voting_power_of {E} (infos : list ValidatorConsensusInfo) : outcome E Z :=
  foldl (fun sum x =>
      sum ←? sum;
      expect (checked_add u128_max sum (vi_voting_power x))) (Ok 0) infos.

Definition build_index (infos : list ValidatorConsensusInfo) (quorum total : Z) : ValidatorVerifier :=
  {| validator_infos := infos;
     quorum_voting_power := quorum;
     total_voting_power := total;
     address_to_validator_index :=
       foldl (fun m '(index, info) => <[vi_address info := index]> m) ∅
         (zip (seq 0 (length infos)) infos) |}.

Definition ValidatorVerifier_new (infos : list ValidatorConsensusInfo) : outcome VerifyError ValidatorVerifier :=
  total ←? sum_voting_power_of infos;
  quorum ←? (match infos with
             | [] => Ok 0
             | _ => if total * 2 <=? u128_max then Ok (total * 2 / 3 + 1) else Panic
             end);
  Ok (build_index infos quorum total).

(** [validator_infos[*index]]: the entry an address is indexed under; an index
    out of range panics. *)
Definition indexed_info (v : ValidatorVerifier) (author : AccountAddress)
    : outcome VerifyError (option ValidatorConsensusInfo) :=
  match address_to_validator_index v !! author with
  | None => Ok None
  | Some index =>
      match validator_infos v !! index with
      | Some info => Ok (Some info)
      | None => Panic
      end
  end.

Definition get_public_key (v : ValidatorVerifier) (author : AccountAddress)
    : outcome VerifyError (option PublicKey) :=
  info ←? indexed_info v author; Ok (vi_public_key <$> info).

Definition get_voting_power (v : ValidatorVerifier) (author : AccountAddress)
    : outcome VerifyError (option Z) :=
  info ←? indexed_info v author; Ok (vi_voting_power <$> info).

Definition verify (v : ValidatorVerifier) (author : AccountAddress) (message : Message)
    (signature : Signature) : outcome VerifyError unit :=
  key ←? get_public_key v author;
  match key with
  | Some public_key =>
      ensure (verify_signature public_key message signature) InvalidMultiSignature
  | None => Err UnknownAuthor
  end.

(** The sum over the signers; at most [2^16] of them, each a [u64], so the
    [u128] accumulator does not overflow. *)
Fixpoint sum_voting_power (v : ValidatorVerifier) (aggregated_voting_power : Z)
    (authors : list AccountAddress) : outcome VerifyError Z :=
  match authors with
  | [] => Ok aggregated_voting_power
  | account_address :: rest =>
      power ←? get_voting_power v account_address;
      match power with
      | Some voting_power => sum_voting_power v (aggregated_voting_power + voting_power) rest
      | None => Err UnknownAuthor
      end
  end.

Definition check_aggregated_voting_power (v : ValidatorVerifier)
    (aggregated_voting_power : Z) (check_super_majority : bool) : outcome VerifyError Z :=
  let target :=
    if check_super_majority then quorum_voting_power v
    else total_voting_power v - quorum_voting_power v + 1 in
  if aggregated_voting_power <? target
  then Err (TooLittleVotingPower aggregated_voting_power target)
  else Ok aggregated_voting_power.

Definition check_voting_power (v : ValidatorVerifier) (authors : list AccountAddress)
    (check_super_majority : bool) : outcome VerifyError Z :=
  aggregated_voting_power ←? sum_voting_power v 0 authors;
  check_aggregated_voting_power v aggregated_voting_power check_super_majority.

Definition check_num_of_voters (num_validators : Z) (bitvec : BitVec) : outcome VerifyError unit :=
  _ ←? ensure (num_buckets bitvec =? required_buckets num_validators) InvalidBitVec;
  match last_set_bit bitvec with
  | Some last_bit => ensure (negb (num_validators <=? last_bit)) InvalidBitVec
  | None => Ok tt
  end.

(** The validators at the positions set in a bit mask. *)
Fixpoint signers_at (infos : list ValidatorConsensusInfo) (indices : list Z)
    : outcome VerifyError (list ValidatorConsensusInfo) :=
  match indices with
  | [] => Ok []
  | index :: rest =>
      validator ←? ok_or (infos !! Z.to_nat index) UnknownAuthor;
      validators ←? signers_at infos rest;
      Ok (validator :: validators)
  end.

Definition len (v : ValidatorVerifier) : Z := Z.of_nat (length (validator_infos v)).

Definition verify_multi_signatures (v : ValidatorVerifier) (message : Message)
    (multi_signature : AggregateSignature) : outcome VerifyError unit :=
  _ ←? check_num_of_voters (len v mod 2 ^ 16) (validator_bitmask multi_signature);
  signers ←? signers_at (validator_infos v) (iter_ones (validator_bitmask multi_signature));
  _ ←? check_voting_power v (map vi_address signers) true;
  multi_sig ←? ok_or (agg_sig multi_signature) EmptySignature;
  aggregated_key ←? ok_or (aggregate_public_keys (map vi_public_key signers)) FailedToAggregatePubKey;
  ensure (verify_signature aggregated_key message multi_sig) InvalidMultiSignature.

Definition verify_aggregate_signatures (v : ValidatorVerifier) (messages : list Message)
    (aggregated_signature : AggregateSignature) : outcome VerifyError unit :=
  _ ←? check_num_of_voters (len v mod 2 ^ 16) (validator_bitmask aggregated_signature);
  signers ←? signers_at (validator_infos v) (iter_ones (validator_bitmask aggregated_signature));
  _ ←? check_voting_power v (map vi_address signers) true;
  aggregated_sig ←? ok_or (agg_sig aggregated_signature) EmptySignature;
  ensure (verify_aggregate messages (map vi_public_key signers) aggregated_sig)
    InvalidAggregatedSignature.

(** [AggregateSignature::get_signers_addresses] and [get_num_voters]. *)
Definition get_signers_addresses (sig : AggregateSignature) (validator_addresses : list AccountAddress)
    : list AccountAddress :=
  omap (fun '(index, addr) =>
      if is_set (validator_bitmask sig) (Z.of_nat index mod 2 ^ 16) then Some addr else None)
    (zip (seq 0 (length validator_addresses)) validator_addresses).

Definition get_num_voters (sig : AggregateSignature) : Z := count_ones (validator_bitmask sig).

Definition get_ordered_account_addresses (v : ValidatorVerifier) : list AccountAddress :=
  map vi_address (validator_infos v).

(** ** Well-formed sets: built by [ValidatorVerifier_new] from distinct
    addresses with [u64] powers *)
Definition verifier_ok (v : ValidatorVerifier) : Prop :=
  ValidatorVerifier_new (validator_infos v) = Ok v /\
  NoDup (map vi_address (validator_infos v)) /\
  Forall (fun i => in_u64 (vi_voting_power i)) (validator_infos v) /\
  0 < len v < 2 ^ 16.

(** The total power of the validators selected by [P]. *)
Definition power_where (P : ValidatorConsensusInfo -> bool) (infos : list ValidatorConsensusInfo) : Z :=
  foldr (fun i acc => (if P i then vi_voting_power i else 0) + acc) 0 infos.

(** The validator at position [k] is among the signers of a mask. *)
Definition signed_at (sig : AggregateSignature) (k : nat) : Prop :=
  Z.of_nat k ∈ iter_ones (validator_bitmask sig).

(** ** Lemmas *)
Lemma sum_voting_power_of_fold (infos : list ValidatorConsensusInfo) acc t :
  foldl (fun sum x =>
      sum ←? sum; expect (checked_add u128_max sum (vi_voting_power x))) acc infos
    = @Ok VerifyError Z t ->
  exists a, acc = Ok a /\ t = a + power_where (fun _ => true) infos.
Proof.
  revert acc. induction infos as [|x infos IH]; intros acc; cbn [foldl power_where foldr].
  - intros ->. exists t. split; [done|lia].
  - intros (a & Ha & ->)%IH. destruct acc as [b| |]; cbn [obind] in Ha; try done.
    exists b. split; [done|]. unfold checked_add in Ha. case_match; simplify_eq/=.
    unfold power_where. lia.
Qed.

Lemma index_fold_other (infos : list ValidatorConsensusInfo) j (m : gmap AccountAddress nat) a :
  a ∉ map vi_address infos ->
  foldl (fun m '(index, info) => <[vi_address info := index]> m) m
    (zip (seq j (length infos)) infos) !! a = m !! a.
Proof.
  revert j m. induction infos as [|x infos IH]; intros j m Ha; [done|]. cbn.
  cbn in Ha. apply not_elem_of_cons in Ha as [Hne Ha].
  rewrite IH by done. by rewrite lookup_insert_ne.
Qed.

Lemma index_fold_lookup (infos : list ValidatorConsensusInfo) j (m : gmap AccountAddress nat) k info :
  NoDup (map vi_address infos) -> infos !! k = Some info ->
  foldl (fun m '(index, info) => <[vi_address info := index]> m) m
    (zip (seq j (length infos)) infos) !! vi_address info = Some (j + k)%nat.
Proof.
  revert j m k. induction infos as [|x infos IH]; intros j m k Hnd Hk; [done|]. cbn.
  cbn in Hnd. apply NoDup_cons in Hnd as [Hx Hnd]. destruct k as [|k]; cbn in Hk.
  - simplify_eq. rewrite index_fold_other by done.
    rewrite lookup_insert_eq. f_equal. lia.
  - rewrite (IH (S j) _ k) by done. f_equal. lia.
Qed.

Lemma verifier_fields v :
  verifier_ok v ->
  total_voting_power v = power_where (fun _ => true) (validator_infos v) /\
  quorum_voting_power v = total_voting_power v * 2 / 3 + 1 /\
  (forall k info, validator_infos v !! k = Some info ->
     indexed_info v (vi_address info) = Ok (Some info)).
Proof.
  intros (Hnew & Hnd & _ & Hlen). unfold ValidatorVerifier_new, len in *.
  destruct (sum_voting_power_of (validator_infos v)) as [t| |] eqn:Ht; try done.
  apply sum_voting_power_of_fold in Ht as (a & [= <-] & ->). cbn [obind] in Hnew.
  destruct (validator_infos v) as [|i0 infos] eqn:Hi; [cbn in Hlen; lia|].
  rewrite <- Hi in *. case_match; try done. cbn [obind] in Hnew. injection Hnew as Hv.
  split_and!.
  - by rewrite <- Hv at 1.
  - rewrite <- Hv at 1 2. done.
  - intros k info Hk. unfold indexed_info.
    replace (address_to_validator_index v !! vi_address info) with (Some k).
    + by rewrite Hk.
    + rewrite <- Hv at 1. symmetry. cbn [address_to_validator_index build_index].
      by rewrite (index_fold_lookup (validator_infos v) 0 ∅ k info).
Qed.

Definition total_of (infos : list ValidatorConsensusInfo) : Z := power_where (fun _ => true) infos.

Lemma sum_voting_power_Ok v signers acc p :
  Forall (fun i => indexed_info v (vi_address i) = Ok (Some i)) signers ->
  sum_voting_power v acc (map vi_address signers) = Ok p -> p = acc + total_of signers.
Proof.
  intros HF. revert acc. induction HF as [|i signers Hi _ IH]; intros acc; cbn.
  - intros [= ->]. lia.
  - unfold get_voting_power. rewrite Hi. cbn. intros ->%IH. unfold total_of, power_where. lia.
Qed.

Lemma signers_at_lookup infos idx signers :
  signers_at infos idx = Ok signers ->
  Forall2 (fun i info => infos !! Z.to_nat i = Some info) idx signers.
Proof.
  revert signers. induction idx as [|i idx IH]; intros signers; cbn [signers_at].
  - intros [= <-]. constructor.
  - intros Hs. outcome_inv. destruct (infos !! Z.to_nat i) eqn:E; cbn in *; simplify_eq.
    constructor; [done|]. by apply IH.
Qed.

Lemma power_where_app P l1 l2 : power_where P (l1 ++ l2) = power_where P l1 + power_where P l2.
Proof. induction l1 as [|i l1 IH]; unfold power_where in *; cbn [app foldr]; lia. Qed.

Lemma power_where_perm P l1 l2 : l1 ≡ₚ l2 -> power_where P l1 = power_where P l2.
Proof. induction 1; unfold power_where in *; cbn [foldr]; lia. Qed.

Lemma power_where_ext P Q infos :
  (forall i, i ∈ infos -> P i = Q i) -> power_where P infos = power_where Q infos.
Proof.
  induction infos as [|i infos IH]; intros HPQ; [done|]. unfold power_where in *. cbn.
  rewrite (HPQ i) by left. rewrite IH; [done|]. intros j Hj. apply HPQ. by right.
Qed.

(** The power of a duplicate-free part of a set, as a selection of the set. *)
Lemma total_of_part infos part :
  NoDup (map vi_address infos) -> NoDup part -> part ⊆ infos ->
  total_of part = power_where (fun i => bool_decide (i ∈ part)) infos.
Proof.
  revert part. induction infos as [|i infos IH]; intros part Hnd Hp Hsub.
  - destruct part as [|j part]; [done|]. exfalso. specialize (Hsub j (list_elem_of_here _ _)).
    by apply elem_of_nil in Hsub.
  - cbn in Hnd. apply NoDup_cons in Hnd as [Hi Hnd].
    assert (Hi' : i ∉ infos). { intros Hin. apply Hi. by apply list_elem_of_fmap_2. }
    destruct (decide (i ∈ part)) as [Hin|Hin].
    + apply elem_of_Permutation in Hin as [part' Hperm].
      unfold total_of. rewrite (power_where_perm _ _ _ Hperm). rewrite Hperm in Hp.
      apply NoDup_cons in Hp as [Hip Hp'].
      assert (Hsub' : part' ⊆ infos).
      { intros j Hj. assert (j ∈ i :: infos) as [->|]%elem_of_cons; [|done|done].
        apply Hsub. rewrite Hperm. by right. }
      unfold power_where at 1 2. cbn [foldr]. rewrite bool_decide_true by (rewrite Hperm; by left).
      f_equal. specialize (IH part' Hnd Hp' Hsub'). unfold total_of, power_where in IH. rewrite IH.
      apply power_where_ext. intros j Hj. apply bool_decide_ext. rewrite Hperm, elem_of_cons.
      split; [by right|]. intros [->|]; done.
    + unfold power_where. cbn [foldr]. rewrite bool_decide_false by done. cbn.
      apply IH; try done. intros j Hj. assert (j ∈ i :: infos) as [->|]%elem_of_cons; try done.
      by apply Hsub.
Qed.

Lemma power_where_incl_excl P Q infos :
  Forall (fun i => 0 <= vi_voting_power i) infos ->
  power_where P infos + power_where Q infos <=
  power_where (fun i => P i && Q i) infos + total_of infos.
Proof.
  induction 1 as [|i infos Hi _ IH]; [done|]. unfold total_of, power_where in *. cbn [foldr].
  destruct (P i), (Q i); cbn; lia.
Qed.

Lemma power_where_negb P infos :
  power_where P infos = total_of infos - power_where (fun i => negb (P i)) infos.
Proof.
  unfold total_of, power_where. induction infos as [|i infos IH]; [done|].
  cbn [foldr]. destruct (P i); cbn [negb]; lia.
Qed.

Lemma power_where_none P infos :
  Forall (fun i => 0 <= vi_voting_power i) infos ->
  (forall i, i ∈ infos -> P i = false) -> power_where P infos = 0.
Proof.
  intros _ HP. rewrite (power_where_ext P (fun _ => false)) by done.
  induction infos as [|i infos IH]; [done|]. unfold power_where in *. cbn.
  rewrite IH; [done|]. intros j Hj. apply HP. by right.
Qed.

(** ** Quorums *)
Definition quorum_signers (v : ValidatorVerifier) (sig : AggregateSignature)
    (signers : list ValidatorConsensusInfo) : Prop :=
  signers_at (validator_infos v) (iter_ones (validator_bitmask sig)) = Ok signers /\
  exists p, check_voting_power v (map vi_address signers) true = Ok p.

Lemma verify_multi_Ok v m sig :
  verify_multi_signatures v m sig = Ok tt ->
  exists signers s k, quorum_signers v sig signers /\ agg_sig sig = Some s /\
    aggregate_public_keys (map vi_public_key signers) = Some k /\
    verify_signature k m s = true.
Proof.
  unfold verify_multi_signatures. intros Hv. outcome_inv.
  destruct (agg_sig sig) as [s|] eqn:Es; cbn in *; simplify_eq.
  destruct (aggregate_public_keys _) as [k|] eqn:Ek; cbn in *; simplify_eq.
  do 3 eexists. split_and!; try done.
  split; eauto.
Qed.

Lemma verify_aggregate_Ok v ms sig :
  verify_aggregate_signatures v ms sig = Ok tt ->
  exists signers s, quorum_signers v sig signers /\ agg_sig sig = Some s /\
    verify_aggregate ms (map vi_public_key signers) s = true.
Proof.
  unfold verify_aggregate_signatures. intros Hv. outcome_inv.
  destruct (agg_sig sig) as [s|] eqn:Es; cbn in *; simplify_eq.
  do 2 eexists. split_and!; try done.
  split; eauto.
Qed.

Lemma iter_ones_NoDup bv : NoDup (iter_ones bv) /\ Forall (fun i => 0 <= i) (iter_ones bv).
Proof.
  unfold iter_ones. split.
  - apply NoDup_filter, NoDup_seqZ.
  - apply Forall_forall. intros i [_ Hi%elem_of_seqZ]%list_elem_of_filter. lia.
Qed.

Lemma signers_NoDup (infos : list ValidatorConsensusInfo) idx signers :
  NoDup infos -> NoDup idx -> Forall (fun i => 0 <= i) idx ->
  Forall2 (fun i info => infos !! Z.to_nat i = Some info) idx signers -> NoDup signers.
Proof.
  intros Hinfos Hidx Hpos HF. induction HF as [|i info idx signers Hi HF IH]; [constructor|].
  apply NoDup_cons in Hidx as [Hni Hidx]. apply Forall_cons in Hpos as [Hi0 Hpos].
  constructor; [|by apply IH]. intros Hin. apply list_elem_of_lookup in Hin as [k Hk].
  destruct (Forall2_lookup_r _ _ _ _ _ HF Hk) as (j & Hj & Hjl).
  assert (Z.to_nat i = Z.to_nat j) by (by apply (NoDup_lookup infos _ _ info)).
  assert (Hjin : j ∈ idx) by (by eapply list_elem_of_lookup_2).
  rewrite Forall_forall in Hpos. pose proof (Hpos j Hjin).
  assert (i = j) by lia. by subst.
Qed.

(** The signers of a quorum: distinct validators of the set whose power reaches
    the quorum. *)
Lemma quorum_signers_power v sig signers :
  verifier_ok v -> quorum_signers v sig signers ->
  NoDup signers /\ signers ⊆ validator_infos v /\
  quorum_voting_power v <= total_of signers.
Proof.
  intros Hv [Hs [p Hp]]. pose proof (verifier_fields v Hv) as (_ & _ & Hidx).
  destruct Hv as (_ & Hnd & _ & _). apply signers_at_lookup in Hs as HF.
  destruct (iter_ones_NoDup (validator_bitmask sig)) as [Hnd1 Hpos].
  assert (Hsub : signers ⊆ validator_infos v).
  { intros i [k Hk]%list_elem_of_lookup.
    destruct (Forall2_lookup_r _ _ _ _ _ HF Hk) as (j & _ & Hj). by eapply list_elem_of_lookup_2. }
  split_and!; [|done|].
  - eapply signers_NoDup; try done. by eapply NoDup_fmap_1.
  - unfold check_voting_power in Hp. apply bind_Ok in Hp as (x & Hx & Hp).
    apply sum_voting_power_Ok in Hx.
    2: { apply Forall_forall. intros i [k Hk]%Hsub%list_elem_of_lookup. by eapply Hidx. }
    subst. unfold check_aggregated_voting_power in *. case_match eqn:E; simplify_eq. bool_to_prop. lia.
Qed.

(** Two quorums share a validator outside any set of at most
    [total - quorum] power. *)
Lemma quorums_share_honest v s1 s2 l1 l2 (honest : ValidatorConsensusInfo -> bool) :
  verifier_ok v -> quorum_signers v s1 l1 -> quorum_signers v s2 l2 ->
  power_where (fun i => negb (honest i)) (validator_infos v) <=
    total_voting_power v - quorum_voting_power v ->
  exists i, i ∈ l1 /\ i ∈ l2 /\ honest i = true.
Proof.
  intros Hv H1 H2 Hbyz.
  destruct (verifier_fields v Hv) as (Htot & Hq & _).
  destruct (quorum_signers_power v s1 l1 Hv H1) as (Hn1 & Hs1 & Hp1).
  destruct (quorum_signers_power v s2 l2 Hv H2) as (Hn2 & Hs2 & Hp2).
  destruct Hv as (_ & Hnd & HF & _).
  assert (HF' : Forall (fun i => 0 <= vi_voting_power i) (validator_infos v)).
  { eapply Forall_impl; [done|]. intros i [? _]. done. }
  rewrite (total_of_part _ _ Hnd Hn1 Hs1) in Hp1. rewrite (total_of_part _ _ Hnd Hn2 Hs2) in Hp2.
  pose proof (power_where_incl_excl (fun i => bool_decide (i ∈ l1))
    (fun i => bool_decide (i ∈ l2)) _ HF') as Hie.
  pose proof (power_where_incl_excl
    (fun i => bool_decide (i ∈ l1) && bool_decide (i ∈ l2)) honest _ HF') as Hie2. cbv beta in Hie2.
  pose proof (power_where_negb honest (validator_infos v)) as Hh.
  destruct (existsb (fun i => bool_decide (i ∈ l1) && bool_decide (i ∈ l2) && honest i)
              (validator_infos v)) eqn:Ex.
  - apply existsb_exists in Ex as (i & _ & Hi). exists i.
    bool_to_prop. done.
  - exfalso. rewrite (power_where_none (fun i => bool_decide (i ∈ l1) && bool_decide (i ∈ l2) && honest i)) in Hie2; [|done|].
    + unfold total_of in *. rewrite <- Htot in *.
      pose proof (Z.div_mod (total_voting_power v * 2) 3 ltac:(lia)).
      pose proof (Z.mod_pos_bound (total_voting_power v * 2) 3 ltac:(lia)). lia.
    + intros i Hi. destruct (bool_decide (i ∈ l1) && bool_decide (i ∈ l2) && honest i) eqn:E; [|done].
      rewrite <- not_true_iff_false in Ex. exfalso. apply Ex. apply existsb_exists.
      exists i. split; [by apply list_elem_of_In|done].
Qed.

(** C31: any two accepted multi-signatures of a well-formed validator set have a
    common signer outside every coalition of at most [total - quorum] voting
    power, that is of less than a third: quorums intersect in an honest
    validator. *)
Theorem accepted_quorums_share_honest v m1 m2 s1 s2 (honest : ValidatorConsensusInfo -> bool) :
  verifier_ok v ->
  verify_multi_signatures v m1 s1 = Ok tt -> verify_multi_signatures v m2 s2 = Ok tt ->
  power_where (fun i => negb (honest i)) (validator_infos v) <=
    total_voting_power v - quorum_voting_power v ->
  3 * (total_voting_power v - quorum_voting_power v) < total_voting_power v /\
  exists k i, validator_infos v !! k = Some i /\ honest i = true /\
    signed_at s1 k /\ signed_at s2 k.
Proof.
  intros Hv (l1 & _ & _ & H1 & _)%verify_multi_Ok (l2 & _ & _ & H2 & _)%verify_multi_Ok Hbyz.
  split.
  { destruct (verifier_fields v Hv) as (_ & Hq & _).
    pose proof (Z.div_mod (total_voting_power v * 2) 3 ltac:(lia)).
    pose proof (Z.mod_pos_bound (total_voting_power v * 2) 3 ltac:(lia)). lia. }
  destruct (quorums_share_honest v s1 s2 l1 l2 honest Hv H1 H2 Hbyz) as (i & Hi1 & Hi2 & Hh).
  assert (Hat : forall s l, quorum_signers v s l -> i ∈ l ->
            exists k, validator_infos v !! k = Some i /\ signed_at s k).
  { intros s l [Hs _] [n Hn]%list_elem_of_lookup. apply signers_at_lookup in Hs.
    destruct (Forall2_lookup_r _ _ _ _ _ Hs Hn) as (j & Hj & Hji).
    exists (Z.to_nat j). split; [done|]. unfold signed_at.
    apply list_elem_of_lookup_2 in Hj.
    destruct (iter_ones_NoDup (validator_bitmask s)) as [_ Hpos].
    rewrite Forall_forall in Hpos. pose proof (Hpos j Hj). by rewrite Z2Nat.id. }
  destruct (Hat s1 l1 H1 Hi1) as (k1 & Hk1 & Hs1). destruct (Hat s2 l2 H2 Hi2) as (k2 & Hk2 & Hs2).
  destruct Hv as (_ & Hnd & _). assert (k1 = k2) as ->.
  { apply (NoDup_lookup (validator_infos v) _ _ i); [by eapply NoDup_fmap_1|done|done]. }
  by exists k2, i.
Qed.

End Verifier.

(** Four validators of power one; three of them make a quorum. *)
Module SampleSet.
Import Sample.
#[local] Existing Instance types.

Definition infos : list ValidatorConsensusInfo :=
  map (fun k => mkValidatorConsensusInfo k [k] 1) [10; 11; 12; 13].
Definition verifier : ValidatorVerifier := build_index infos 3 4.
Definition quorum_sig (byte : Z) : AggregateSignature :=
  mkAggregateSignature (mkBitVec [byte]) (Some tt).

Lemma verifier_is_ok : verifier_ok verifier.
Proof.
  unfold verifier_ok. split_and!.
  - vm_compute. reflexivity.
  - apply (bool_decide_unpack _). vm_compute. exact I.
  - repeat constructor; vm_compute; discriminate.
  - vm_compute. reflexivity.
  - vm_compute. reflexivity.
Qed.

End SampleSet.

Lemma accepted_quorums_share_honest_witness :
  exists k i, validator_infos SampleSet.verifier !! k = Some i /\
    signed_at (SampleSet.quorum_sig 224) k /\ signed_at (SampleSet.quorum_sig 208) k.
Proof.
  set (m := @MTimeout Sample.types {| tr_epoch := 1; tr_round := 5; tr_hqc_round := 4 |}).
  set (tos := map (fun k => (k, {| tr_epoch := 1; tr_round := 5; tr_hqc_round := 4 |}))
                [10; 11; 12; 13]).
  destruct (@accepted_quorums_share_honest Sample.types (Sample.fns 13 [] tos) SampleSet.verifier m m
      (SampleSet.quorum_sig 224) (SampleSet.quorum_sig 208) (fun i => negb (vi_address i =? 12)))
    as [_ (k & i & Hk & _ & H1 & H2)].
  - exact SampleSet.verifier_is_ok.
  - vm_compute. reflexivity.
  - vm_compute. reflexivity.
  - vm_compute. discriminate.
  - exists k, i. split; [exact Hk|]. split; [exact H1|exact H2].
Defined.
