(* ===== verification/Certificates.v ===== *)
(** * Blocks, certificates and epoch change proofs

    The checks of [fdp-aptos/types/src] ([block_info.rs], [ledger_info.rs],
    [waypoint.rs], [epoch_state.rs], [epoch_change.rs]) and of
    [fdp-aptos/consensus/consensus-types/src] ([vote_data.rs],
    [quorum_cert.rs], [timeout_2chain.rs], [block.rs], [block_data.rs],
    [vote_proposal.rs]). *)

From S2P Require Import Prelude BitVec AptosTypes ValidatorVerifier.
Import BitVec.

(** The reason in an [anyhow] error: a message, or the error of the signature
    check. *)
Inductive reason :=
| Msg (s : string)
| Verify (e : VerifyError).
Arguments Msg s%_string.

Section Certificates.
Context `{CryptoFns}.

(** ** Block and ledger infos *)
Definition BlockInfo_empty : BlockInfo :=
  {| bi_epoch := 0; bi_round := 0; bi_id := HashValue_zero;
     bi_executed_state_id := HashValue_zero; bi_version := 0;
     bi_timestamp_usecs := 0; bi_next_epoch_state := None |}.

Definition BlockInfo_is_empty (b : BlockInfo) : bool := bool_decide (b = BlockInfo_empty).

Definition has_reconfiguration (b : BlockInfo) : bool := bool_decide (is_Some (bi_next_epoch_state b)).

Definition next_block_epoch (b : BlockInfo) : Z :=
  match bi_next_epoch_state b with Some e => es_epoch e | None => bi_epoch b end.

Definition match_ordered_only (b executed : BlockInfo) : bool :=
  (bi_epoch b =? bi_epoch executed)
  && (bi_round b =? bi_round executed)
  && bool_decide (bi_id b = bi_id executed)
  && ((bi_timestamp_usecs b =? bi_timestamp_usecs executed)
      || ((bi_timestamp_usecs executed <? bi_timestamp_usecs b) && has_reconfiguration executed)).

Definition is_ordered_only (b : BlockInfo) : bool :=
  bool_decide (b <> BlockInfo_empty)
  && bool_decide (bi_next_epoch_state b = None)
  && bool_decide (bi_executed_state_id b = ACCUMULATOR_PLACEHOLDER_HASH)
  && (bi_version b =? 0).

Definition allow_timestamp_change (b : BlockInfo) (timestamp : Z) : bool :=
  has_reconfiguration b && (timestamp <=? bi_timestamp_usecs b).

Definition change_timestamp (b : BlockInfo) (timestamp : Z) : outcome reason BlockInfo :=
  _ ←? rust_assert (allow_timestamp_change b timestamp);
  Ok {| bi_epoch := bi_epoch b; bi_round := bi_round b; bi_id := bi_id b;
        bi_executed_state_id := bi_executed_state_id b; bi_version := bi_version b;
        bi_timestamp_usecs := timestamp; bi_next_epoch_state := bi_next_epoch_state b |}.

Definition li_epoch (li : LedgerInfo) : Z := bi_epoch (li_commit_info li).
Definition li_version (li : LedgerInfo) : Z := bi_version (li_commit_info li).
Definition li_next_epoch_state (li : LedgerInfo) : option EpochState :=
  bi_next_epoch_state (li_commit_info li).
Definition ends_epoch (li : LedgerInfo) : bool := bool_decide (is_Some (li_next_epoch_state li)).

Definition verify_signatures (ls : LedgerInfoWithSignatures) (v : ValidatorVerifier)
    : outcome VerifyError unit :=
  verify_multi_signatures v (MLedgerInfo (ls_ledger_info ls)) (ls_signatures ls).

(** ** Vote data and quorum certificates *)
Definition VoteData_verify (vd : VoteData) : outcome reason unit :=
  _ ←? ensure (bi_epoch (vd_parent vd) =? bi_epoch (vd_proposed vd))
        (Msg "Parent and proposed epochs do not match");
  _ ←? ensure (bi_round (vd_parent vd) <? bi_round (vd_proposed vd))
        (Msg "Proposed round is less than parent round");
  _ ←? ensure (bi_timestamp_usecs (vd_parent vd) <=? bi_timestamp_usecs (vd_proposed vd))
        (Msg "Proposed happened before parent");
  ensure ((bi_version (vd_proposed vd) =? 0)
          || (bi_version (vd_parent vd) <=? bi_version (vd_proposed vd)))
    (Msg "Proposed version is less than parent version").

Definition certified_block (qc : QuorumCert) : BlockInfo := vd_proposed (qc_vote_data qc).
Definition parent_block (qc : QuorumCert) : BlockInfo := vd_parent (qc_vote_data qc).
Definition commit_info (qc : QuorumCert) : BlockInfo :=
  li_commit_info (ls_ledger_info (qc_signed_ledger_info qc)).
Definition qc_ends_epoch (qc : QuorumCert) : bool :=
  ends_epoch (ls_ledger_info (qc_signed_ledger_info qc)).

Definition QuorumCert_verify (qc : QuorumCert) (v : ValidatorVerifier) : outcome reason unit :=
  let li := ls_ledger_info (qc_signed_ledger_info qc) in
  _ ←? ensure (bool_decide (li_consensus_data_hash li = hash_vote_data (qc_vote_data qc)))
        (Msg "Quorum Cert's hash mismatch LedgerInfo");
  if bi_round (certified_block qc) =? 0 then
    _ ←? ensure (bool_decide (parent_block qc = certified_block qc))
          (Msg "Genesis QC has inconsistent parent block with certified block");
    _ ←? ensure (bool_decide (certified_block qc = li_commit_info li))
          (Msg "Genesis QC has inconsistent commit block with certified block");
    ensure (get_num_voters (ls_signatures (qc_signed_ledger_info qc)) =? 0)
      (Msg "Genesis QC should not carry signatures")
  else
    _ ←? map_err Verify (verify_signatures (qc_signed_ledger_info qc) v);
    VoteData_verify (qc_vote_data qc).

Definition create_merged_with_executed_state (qc : QuorumCert) (executed : LedgerInfoWithSignatures)
    : outcome reason QuorumCert :=
  _ ←? ensure (match_ordered_only (commit_info qc) (li_commit_info (ls_ledger_info executed)))
        (Msg "Block info from QC and executed LI need to match");
  Ok {| qc_vote_data := qc_vote_data qc; qc_signed_ledger_info := executed |}.

Definition certificate_for_genesis_from_ledger_info (li : LedgerInfo) (genesis_id : HashValue)
    : outcome reason QuorumCert :=
  next_epoch ←? expect (checked_add u64_max (li_epoch li) 1);
  let ancestor :=
    {| bi_epoch := next_epoch; bi_round := 0; bi_id := genesis_id;
       bi_executed_state_id := bi_executed_state_id (li_commit_info li);
       bi_version := li_version li;
       bi_timestamp_usecs := bi_timestamp_usecs (li_commit_info li);
       bi_next_epoch_state := None |} in
  let vote_data := mkVoteData ancestor ancestor in
  let genesis_li := mkLedgerInfo ancestor (hash_vote_data vote_data) in
  next_epoch_state ←? expect (li_next_epoch_state li);
  let validator_set_size := len (es_verifier next_epoch_state) in
  Ok (mkQuorumCert vote_data
        (mkLedgerInfoWithSignatures genesis_li
           (mkAggregateSignature (with_num_bits (validator_set_size mod 2 ^ 16)) None))).

(** ** Timeouts *)
Definition to_hqc_round (t : TwoChainTimeout) : Round := bi_round (certified_block (to_quorum_cert t)).

Definition signing_format (t : TwoChainTimeout) : TimeoutSigningRepr :=
  {| tr_epoch := to_epoch t; tr_round := to_round t; tr_hqc_round := to_hqc_round t |}.

Definition TwoChainTimeout_verify (t : TwoChainTimeout) (v : ValidatorVerifier) : outcome reason unit :=
  _ ←? ensure (to_hqc_round t <? to_round t) (Msg "Timeout round should be larger than the QC round");
  QuorumCert_verify (to_quorum_cert t) v.

Definition tc_epoch (tc : TwoChainTimeoutCertificate) : Z := to_epoch (tc_timeout tc).
Definition tc_round (tc : TwoChainTimeoutCertificate) : Round := to_round (tc_timeout tc).
Definition highest_hqc_round (tc : TwoChainTimeoutCertificate) : Round := to_hqc_round (tc_timeout tc).

Definition get_voters_and_rounds (ar : AggregateSignatureWithRounds)
    (ordered_validator_addresses : list AccountAddress) : list (AccountAddress * Round) :=
  zip (get_signers_addresses (ar_sig ar) ordered_validator_addresses) (ar_rounds ar).

(** [rayon::join] runs both checks; the timeout's result is looked at first. *)
Definition TimeoutCertificate_verify (tc : TwoChainTimeoutCertificate) (v : ValidatorVerifier)
    : outcome reason unit :=
  let hqc_round := to_hqc_round (tc_timeout tc) in
  let timeout_messages :=
    map (fun '(_, round) =>
        MTimeout {| tr_epoch := to_epoch (tc_timeout tc); tr_round := to_round (tc_timeout tc);
                    tr_hqc_round := round |})
      (get_voters_and_rounds (tc_signatures_with_rounds tc) (get_ordered_account_addresses v)) in
  _ ←? TwoChainTimeout_verify (tc_timeout tc) v;
  _ ←? map_err Verify
        (verify_aggregate_signatures v timeout_messages (ar_sig (tc_signatures_with_rounds tc)));
  signed_hqc ←? ok_or (max_list_Z (ar_rounds (tc_signatures_with_rounds tc))) (Msg "Empty rounds");
  ensure (hqc_round =? signed_hqc) (Msg "Inconsistent hqc round").

(** ** Payloads *)
Definition batch_ext_epoch (b : BatchInfoExt) : Z :=
  match b with BatchInfoExt_V1 info | BatchInfoExt_V2 info _ => batch_epoch info end.

Definition is_nil {A} (l : list A) : bool := match l with [] => true | _ => false end.

Definition opt_payload_is_empty {T} (p : OptQuorumStorePayloadV1 T) : bool :=
  is_nil (opt_opt_batches p) && is_nil (opt_proofs p) && is_nil (opt_inline_batches p).

Definition opt_payload_check_epoch {T} (epoch_of : T -> Z) (p : OptQuorumStorePayloadV1 T) (epoch : Z)
    : outcome reason unit :=
  _ ←? ensure (forallb (fun b => epoch_of b.1 =? epoch) (opt_inline_batches p))
        (Msg "OptQS InlineBatch epoch doesn't match given epoch");
  _ ←? ensure (forallb (fun b => epoch_of b =? epoch) (opt_opt_batches p))
        (Msg "OptQS OptBatch epoch doesn't match given epoch");
  ensure (forallb (fun b => epoch_of (proof_info b) =? epoch) (opt_proofs p))
    (Msg "OptQS Proof epoch doesn't match given epoch").

Definition payload_is_empty (p : Payload) : bool :=
  match p with
  | DirectMempool txns => is_nil txns
  | InQuorumStore proofs => is_nil proofs
  | InQuorumStoreWithLimit proofs _ => is_nil proofs
  | QuorumStoreInlineHybrid inline_batches proofs _
  | QuorumStoreInlineHybridV2 inline_batches proofs _ => is_nil proofs && is_nil inline_batches
  | OptQuorumStore (OptQuorumStorePayload_V1 p) => opt_payload_is_empty p
  | OptQuorumStore (OptQuorumStorePayload_V2 p) => opt_payload_is_empty p
  end.

Definition payload_verify_epoch (p : Payload) (epoch : Z) : outcome reason unit :=
  let proofs_match (proofs : list (ProofOfStore BatchInfo)) :=
    forallb (fun b => batch_epoch (proof_info b) =? epoch) proofs in
  match p with
  | DirectMempool _ => Ok tt
  | InQuorumStore proofs =>
      ensure (proofs_match proofs) (Msg "Payload epoch doesn't match given epoch")
  | InQuorumStoreWithLimit proofs _ =>
      ensure (proofs_match proofs) (Msg "Payload epoch doesn't match given epoch")
  | QuorumStoreInlineHybrid inline_batches proofs _
  | QuorumStoreInlineHybridV2 inline_batches proofs _ =>
      _ ←? ensure (proofs_match proofs) (Msg "Payload proof epoch doesn't match given epoch");
      ensure (forallb (fun b => batch_epoch b.1 =? epoch) inline_batches)
        (Msg "Payload inline batch epoch doesn't match given epoch")
  | OptQuorumStore (OptQuorumStorePayload_V1 p) => opt_payload_check_epoch batch_epoch p epoch
  | OptQuorumStore (OptQuorumStorePayload_V2 p) => opt_payload_check_epoch batch_ext_epoch p epoch
  end.

(** ** Blocks *)
Definition bd_author (bd : BlockData) : option Author :=
  match bd_block_type bd with
  | Proposal _ author _ | DAGBlock author _ _ _ _ _ _ => Some author
  | BlockProposalExt (ProposalExt_V0 _ _ author _) => Some author
  | OptimisticProposal (OptBlockBody_V0 _ _ author _) => Some author
  | _ => None
  end.

Definition bd_payload (bd : BlockData) : option Payload :=
  match bd_block_type bd with
  | Proposal payload _ _ | DAGBlock _ _ _ payload _ _ _ => Some payload
  | BlockProposalExt (ProposalExt_V0 _ payload _ _) => Some payload
  | OptimisticProposal (OptBlockBody_V0 _ payload _ _) => Some payload
  | _ => None
  end.

Definition bd_failed_authors (bd : BlockData) : option (list (Round * Author)) :=
  match bd_block_type bd with
  | Proposal _ _ failed_authors | NilBlock failed_authors
  | DAGBlock _ failed_authors _ _ _ _ _ => Some failed_authors
  | BlockProposalExt (ProposalExt_V0 _ _ _ failed_authors) => Some failed_authors
  | OptimisticProposal _ | Genesis => None
  end.

Definition is_genesis_block (bd : BlockData) : bool :=
  match bd_block_type bd with Genesis => true | _ => false end.
Definition is_nil_block (bd : BlockData) : bool :=
  match bd_block_type bd with NilBlock _ => true | _ => false end.

Definition b_epoch (b : Block) : Z := bd_epoch (b_block_data b).
Definition b_round (b : Block) : Round := bd_round (b_block_data b).
Definition b_quorum_cert (b : Block) : QuorumCert := bd_quorum_cert (b_block_data b).

Definition gen_block_info (b : Block) (executed_state_id : HashValue) (version : Z)
    (next_epoch_state : option EpochState) : BlockInfo :=
  {| bi_epoch := b_epoch b; bi_round := b_round b; bi_id := b_id b;
     bi_executed_state_id := executed_state_id; bi_version := version;
     bi_timestamp_usecs := bd_timestamp_usecs (b_block_data b);
     bi_next_epoch_state := next_epoch_state |}.

Definition validate_signature (b : Block) (v : ValidatorVerifier) : outcome reason unit :=
  let signed_by author :=
    signature ←? ok_or (b_signature b) (Msg "Missing signature in Proposal");
    _ ←? map_err Verify (verify v author (MBlockData (b_block_data b)) signature);
    QuorumCert_verify (b_quorum_cert b) v in
  match bd_block_type (b_block_data b) with
  | Genesis => Err (Msg "We should not accept genesis from others")
  | NilBlock _ => QuorumCert_verify (b_quorum_cert b) v
  | Proposal _ author _ => signed_by author
  | BlockProposalExt (ProposalExt_V0 _ _ author _) => signed_by author
  | OptimisticProposal (OptBlockBody_V0 _ _ _ grandparent_qc) =>
      _ ←? QuorumCert_verify grandparent_qc v;
      QuorumCert_verify (b_quorum_cert b) v
  | DAGBlock _ _ _ _ _ _ _ => Err (Msg "We should not accept DAG block from others")
  end.

(** The rounds of the failed authors increase strictly between the parent's
    round and the block's. *)
Fixpoint check_failed_authors (bound succ_round : Round) (failed : list (Round * Author))
    : outcome reason unit :=
  match failed with
  | [] => Ok tt
  | (round, _) :: rest =>
      _ ←? ensure ((bound <? round) && (round <? succ_round))
            (Msg "Incorrect round in failed authors");
      check_failed_authors round succ_round rest
  end.

Definition TIMEBOUND : Z := 300000000.

(** [now] is [duration_since_epoch().as_micros()].  Release builds of this
    workspace check integer overflow, so [round + 1] panics at [u64::MAX].  The
    debug-only id check is not part of a release build. *)
Definition verify_well_formed (b : Block) (now : Z) : outcome reason unit :=
  let bd := b_block_data b in
  let parent := certified_block (b_quorum_cert b) in
  _ ←? ensure (negb (is_genesis_block bd)) (Msg "We must not accept genesis from others");
  _ ←? ensure (bi_round parent <? b_round b)
        (Msg "Block must have a greater round than parent's block");
  _ ←? ensure (bi_epoch parent =? b_epoch b) (Msg "block's parent should be in the same epoch");
  _ ←? (if has_reconfiguration parent then
          ensure (match bd_payload bd with None => true | Some p => payload_is_empty p end)
            (Msg "Reconfiguration suffix should not carry payload")
        else Ok tt);
  _ ←? (match bd_payload bd with
        | Some payload => payload_verify_epoch payload (b_epoch b)
        | None => Ok tt
        end);
  _ ←? (match bd_failed_authors bd with
        | Some failed_authors =>
            succ_round ←? expect (checked_add u64_max (b_round b) (if is_nil_block bd then 1 else 0));
            skipped_rounds ←? ok_or (checked_sub succ_round (bi_round parent + 1))
                               (Msg "Block round is smaller than block's parent round");
            _ ←? ensure (Z.of_nat (length failed_authors) <=? skipped_rounds)
                  (Msg "Block has more failed authors than missed rounds");
            check_failed_authors (bi_round parent) succ_round failed_authors
        | None => Ok tt
        end);
  _ ←? (if is_nil_block bd || has_reconfiguration parent then
          ensure (bd_timestamp_usecs bd =? bi_timestamp_usecs parent)
            (Msg "Nil/reconfig suffix block must have same timestamp as parent")
        else
          _ ←? ensure (bi_timestamp_usecs parent <? bd_timestamp_usecs bd)
                (Msg "Blocks must have strictly increasing timestamps");
          ensure (bd_timestamp_usecs bd <=? sat_add u64_max (wrap64 now) TIMEBOUND)
            (Msg "Blocks must not be too far in the future"));
  ensure (negb (qc_ends_epoch (b_quorum_cert b)))
    (Msg "Block cannot be proposed in an epoch that has ended").

(** ** Vote proposals *)
Definition vote_data_ordering_only (vp : VoteProposal) : VoteData :=
  mkVoteData
    (gen_block_info (vp_block vp) ACCUMULATOR_PLACEHOLDER_HASH 0 (vp_next_epoch_state vp))
    (certified_block (b_quorum_cert (vp_block vp))).

Definition vote_data_with_extension_proof (vp : VoteProposal) (new_tree : HashValue * Z) : VoteData :=
  mkVoteData
    (gen_block_info (vp_block vp) new_tree.1 new_tree.2 (vp_next_epoch_state vp))
    (certified_block (b_quorum_cert (vp_block vp))).

Definition gen_vote_data (vp : VoteProposal) : outcome reason VoteData :=
  if vp_decoupled_execution vp then Ok (vote_data_ordering_only vp)
  else
    new_tree ←? ok_or (verify_extension_proof (vp_accumulator_extension_proof vp)
                         (bi_executed_state_id (certified_block (b_quorum_cert (vp_block vp)))))
                  (Msg "Invalid accumulator extension");
    Ok (vote_data_with_extension_proof vp new_tree).

(** ** Waypoints and epoch change proofs *)
Definition Ledger2WaypointConverter_new (li : LedgerInfo) : Ledger2WaypointConverter :=
  {| lw_epoch := li_epoch li;
     lw_root_hash := bi_executed_state_id (li_commit_info li);
     lw_version := li_version li;
     lw_timestamp_usecs := bi_timestamp_usecs (li_commit_info li);
     lw_next_epoch_state := li_next_epoch_state li |}.

Definition Waypoint_new_any (li : LedgerInfo) : Waypoint :=
  {| wp_version := li_version li; wp_value := hash_waypoint (Ledger2WaypointConverter_new li) |}.

Definition Waypoint_new_epoch_boundary (li : LedgerInfo) : outcome reason Waypoint :=
  _ ←? ensure (ends_epoch li) (Msg "No validator set");
  Ok (Waypoint_new_any li).

Definition Waypoint_verify (w : Waypoint) (li : LedgerInfo) : outcome reason unit :=
  _ ←? ensure (li_version li =? wp_version w) (Msg "Waypoint version mismatch");
  ensure (bool_decide (hash_waypoint (Ledger2WaypointConverter_new li) = wp_value w))
    (Msg "Waypoint value mismatch").

(** The implementations of the trait [Verifier] that the safety rules use; the
    client's [TrustedState] is a third one. *)
Inductive Verifier :=
| ByWaypoint (w : Waypoint)
| ByEpochState (e : EpochState).

Definition Verifier_verify (r : Verifier) (ls : LedgerInfoWithSignatures) : outcome reason unit :=
  match r with
  | ByWaypoint w => Waypoint_verify w (ls_ledger_info ls)
  | ByEpochState e =>
      _ ←? ensure (es_epoch e =? li_epoch (ls_ledger_info ls)) (Msg "LedgerInfo has unexpected epoch");
      map_err Verify (verify_signatures ls (es_verifier e))
  end.

Definition is_ledger_info_stale (r : Verifier) (li : LedgerInfo) : bool :=
  match r with
  | ByWaypoint w => li_version li <? wp_version w
  | ByEpochState e => li_epoch li <? es_epoch e
  end.

Fixpoint skip_stale (r : Verifier) (l : list LedgerInfoWithSignatures) : list LedgerInfoWithSignatures :=
  match l with
  | [] => []
  | ls :: rest => if is_ledger_info_stale r (ls_ledger_info ls) then skip_stale r rest else l
  end.

(** Each epoch change is checked by the validator set its predecessor
    announces. *)
Fixpoint verify_chain (verifier_ref : Verifier) (l : list LedgerInfoWithSignatures) : outcome reason unit :=
  match l with
  | [] => Ok tt
  | ls :: rest =>
      _ ←? Verifier_verify verifier_ref ls;
      next ←? ok_or (li_next_epoch_state (ls_ledger_info ls))
                (Msg "LedgerInfo doesn't carry a ValidatorSet");
      verify_chain (ByEpochState next) rest
  end.

Definition EpochChangeProof_verify (proof : EpochChangeProof) (verifier : Verifier)
    : outcome reason LedgerInfoWithSignatures :=
  match last (ep_ledger_info_with_sigs proof) with
  | None => Err (Msg "The EpochChangeProof is empty")
  | Some last_li =>
      _ ←? ensure (negb (is_ledger_info_stale verifier (ls_ledger_info last_li)))
            (Msg "The EpochChangeProof is stale");
      _ ←? verify_chain verifier (skip_stale verifier (ep_ledger_info_with_sigs proof));
      Ok last_li
  end.

(** ** The chain of trust of an epoch change proof *)

(** Every ledger info ends its epoch, and is signed by a quorum of the validators
    its predecessor announces for that very epoch. *)
Inductive trust_chain : list LedgerInfoWithSignatures -> Prop :=
| trust_one ls : ends_epoch (ls_ledger_info ls) = true -> trust_chain [ls]
| trust_next ls ls' rest es :
    li_next_epoch_state (ls_ledger_info ls) = Some es ->
    es_epoch es = li_epoch (ls_ledger_info ls') ->
    verify_signatures ls' (es_verifier es) = Ok tt ->
    trust_chain (ls' :: rest) -> trust_chain (ls :: ls' :: rest).

Lemma verify_chain_Ok r ls rest :
  verify_chain r (ls :: rest) = Ok tt ->
  Verifier_verify r ls = Ok tt /\ trust_chain (ls :: rest).
Proof.
  revert r ls. induction rest as [|ls' rest IH]; intros r ls Hv; cbn [verify_chain] in Hv;
    apply bind_Ok in Hv as ([] & Hr & Hv); apply bind_Ok in Hv as (es & Hes & Hv); apply ok_or_Ok in Hes;
    (split; [done|]).
  - constructor. unfold ends_epoch. rewrite Hes. reflexivity.
  - apply (IH (ByEpochState es) ls') in Hv as [Hv Ht]. cbn in Hv.
    apply bind_Ok in Hv as ([] & He & Hs). outcome_inv. bool_to_prop. by econstructor.
Qed.

Lemma skip_stale_split r l :
  exists stale, l = stale ++ skip_stale r l /\
    Forall (fun ls => is_ledger_info_stale r (ls_ledger_info ls) = true) stale.
Proof.
  induction l as [|ls l (stale & Hl & HF)]; cbn.
  - by exists [].
  - case_match eqn:E; [|by exists []]. exists (ls :: stale). split; [by rewrite Hl at 1|by constructor].
Qed.

(** An accepted epoch change proof is a chain of trust.  Past a prefix of
    ledger infos that the verifier already is ahead of, the first one is accepted
    by the verifier itself (the stored waypoint), each further one is signed by a
    quorum of the validators that its predecessor announces for its epoch, and
    the one returned is the last; every one ends its epoch. *)
Theorem epoch_change_proof_trusted proof r li :
  EpochChangeProof_verify proof r = Ok li ->
  exists stale first rest,
    ep_ledger_info_with_sigs proof = stale ++ first :: rest /\
    Forall (fun ls => is_ledger_info_stale r (ls_ledger_info ls) = true) stale /\
    Verifier_verify r first = Ok tt /\ trust_chain (first :: rest) /\
    last (first :: rest) = Some li.
Proof.
  unfold EpochChangeProof_verify. destruct (last _) as [l|] eqn:El; [|done]. intros Hv.
  apply bind_Ok in Hv as (? & Hns & Hv). apply bind_Ok in Hv as ([] & Hc & Hv). outcome_inv. subst l.
  destruct (skip_stale_split r (ep_ledger_info_with_sigs proof)) as (stale & Hl & HF).
  destruct (skip_stale r (ep_ledger_info_with_sigs proof)) as [|first rest].
  - exfalso. rewrite app_nil_r in Hl. rewrite Hl in El. apply last_Some_elem_of in El.
    rewrite Forall_forall in HF. rewrite (HF li El) in Hns. done.
  - exists stale, first, rest. apply verify_chain_Ok in Hc as [? ?]. split_and!; try done.
    rewrite Hl, last_app in El. destruct (last (first :: rest)) eqn:E; [by simplify_eq|].
    by apply last_None in E.
Qed.

End Certificates.

(** A waypoint for the end of epoch 1, and a proof up to the end of epoch 2 that
    starts with a stale entry. *)
Module SampleProof.
Import Sample SampleSet.
#[local] Existing Instance types.

Definition end_of_epoch (epoch version : Z) : LedgerInfo :=
  mkLedgerInfo
    {| bi_epoch := epoch; bi_round := 9; bi_id := GenLeaf epoch;
       bi_executed_state_id := GenLeaf version; bi_version := version;
       bi_timestamp_usecs := 100 * version;
       bi_next_epoch_state := Some (mkEpochState (epoch + 1) verifier) |} (GenLeaf 5).
Definition signed (li : LedgerInfo) : LedgerInfoWithSignatures :=
  mkLedgerInfoWithSignatures li (quorum_sig 224).
#[local] Instance crypto : CryptoFns := fns 13 (map (fun k => (k, end_of_epoch 2 60)) [10; 11; 12]) [].
Definition waypoint : Waypoint := Waypoint_new_any (end_of_epoch 1 50).
Definition proof : EpochChangeProof :=
  mkEpochChangeProof (map signed [end_of_epoch 0 40; end_of_epoch 1 50; end_of_epoch 2 60]) false.
End SampleProof.

Lemma epoch_change_proof_trusted_witness :
  EpochChangeProof_verify (H0 := SampleProof.crypto) SampleProof.proof (ByWaypoint SampleProof.waypoint)
    = Ok (SampleProof.signed (SampleProof.end_of_epoch 2 60)) /\
  exists first rest, trust_chain (H0 := SampleProof.crypto) (first :: rest).
Proof.
  assert (Hv : EpochChangeProof_verify (H0 := SampleProof.crypto) SampleProof.proof
                 (ByWaypoint SampleProof.waypoint)
               = Ok (SampleProof.signed (SampleProof.end_of_epoch 2 60)))
    by (vm_compute; reflexivity).
  split; [exact Hv|].
  destruct (@epoch_change_proof_trusted _ SampleProof.crypto _ _ _ Hv)
    as (stale & first & rest & _ & _ & _ & Ht & _).
  exists first, rest. exact Ht.
Defined.
