(* ===== verification/SafetyRules.v ===== *)
(** * Aptos safety rules

    [fdp-aptos/consensus/safety-rules/src]: the persistent safety storage
    ([persistent_safety_storage.rs]), the handlers of [safety_rules.rs] and the
    2-chain rules of [safety_rules_2chain.rs]. *)

From S2P Require Import Prelude BitVec AptosTypes ValidatorVerifier Certificates.

(** [aptos_secure_storage::Error] *)
Inductive StorageError :=
| EntropyError (s : string)
| StorageInternalError (s : string)
| KeyAlreadyExists (s : string)
| KeyNotSet (s : string)
| PermissionDenied
| StorageSerializationError (s : string)
| KeyVersionNotFound (key version : string).

(** The texts of errors from storage, formatted from a storage error or fixed. *)
Inductive storage_text :=
| FromStorage (e : StorageError)
| StorageMsg (s : string).
Arguments StorageMsg s%_string.

Section Errors.
Context `{CryptoTypes}.

(** [error.rs] *)
Inductive Error :=
| IncorrectEpoch (provided expected : Z)
| IncorrectRound (round : Round)
| IncorrectLastVotedRound (round last_voted : Round)
| IncorrectPreferredRound (round preferred : Round)
| InvalidAccumulatorExtension (r : reason)
| InvalidEpochChangeProof (r : reason)
| InternalError (r : reason)
| InvalidLedgerInfo
| InvalidProposal (r : reason)
| InvalidQuorumCertificate (r : reason)
| NotInitialized (s : string)
| NotSafeForOrderVote (round highest_timeout_round : Round)
| SecureStorageMissingDataError (t : storage_text)
| SecureStorageUnexpectedError (t : storage_text)
| SerializationError (s : string)
| ValidatorKeyNotFound (t : storage_text)
| ValidatorNotInSet (a : Author)
| VoteProposalSignatureNotFound
| NotSafeToVote (round qc_round tc_round hqc_round : Round)
| NotSafeToTimeout (round qc_round tc_round one_chain_round : Round)
| InvalidTimeoutCertificate (r : reason)
| InconsistentExecutionResult (ordered executed : BlockInfo)
| InvalidOrderedLedgerInfo (li : LedgerInfo)
| WaypointOutOfDate (previous updated current_epoch provided_epoch : Z)
| InvalidTimeout (r : reason)
| InvalidOneChainQuorumCertificate (qc_id block_id : HashValue).

(** [impl From<aptos_secure_storage::Error> for Error], applied by [?]. *)
Definition from_storage {A} (m : StorageError + A) : outcome Error A :=
  match m with
  | inr a => Ok a
  | inl PermissionDenied => Panic
  | inl (KeyVersionNotFound _ _ as e) | inl (KeyNotSet _ as e) =>
      Err (SecureStorageMissingDataError (FromStorage e))
  | inl e => Err (SecureStorageUnexpectedError (FromStorage e))
  end.

(** The backend behind [aptos_secure_storage::Storage]: reading and writing the
    entries of the safety rules.  [kv_get_safety_data_as_result] reads the entry
    [SAFETY_DATA] at the type [Result<SafetyData, Error>]. *)
Class KVStorage (S : Type) := {
  kv_get_author : S -> (StorageError + Author);
  kv_get_waypoint : S -> (StorageError + Waypoint);
  kv_get_safety_data : S -> (StorageError + SafetyData);
  kv_get_safety_data_as_result : S -> (StorageError + outcome Error SafetyData);
  kv_get_consensus_key : S -> (StorageError + PrivateKey);
  kv_get_consensus_key_of : S -> PublicKey -> (StorageError + PrivateKey);
  kv_set_author : S -> Author -> S * (StorageError + unit);
  kv_set_consensus_key : S -> PrivateKey -> S * (StorageError + unit);
  kv_set_safety_data : S -> SafetyData -> S * (StorageError + unit);
  kv_set_waypoint : S -> Waypoint -> S * (StorageError + unit)
}.

(** What the safety rules rely on: [stored] is the safety data on stable
    storage; a successful read returns it, a successful write replaces it, and a
    failed write leaves either the old or the new value. *)
Class KVStorageLaws (S : Type) `{!KVStorage S} := {
  stored : S -> SafetyData;
  kv_get_stored s d : kv_get_safety_data s = inr d -> d = stored s;
  kv_get_result_stored s d : kv_get_safety_data_as_result s = inr (Ok d) -> d = stored s;
  kv_set_stored s d s' : kv_set_safety_data s d = (s', inr tt) -> stored s' = d;
  kv_set_failed s d s' r :
    kv_set_safety_data s d = (s', r) -> stored s' = d \/ stored s' = stored s;
  kv_set_waypoint_stored s w : stored (kv_set_waypoint s w).1 = stored s
}.

End Errors.

Section SafetyRules.
Context `{CryptoFns} {S : Type} `{!KVStorage S}.

(** ** Persistent safety storage *)
Record PersistentSafetyStorage := mkPersistentSafetyStorage {
  enable_cached_safety_data : bool;
  cached_safety_data : option SafetyData;
  internal_store : S
}.

Definition set_cache (c : option SafetyData) (ps : PersistentSafetyStorage) : PersistentSafetyStorage :=
  mkPersistentSafetyStorage (enable_cached_safety_data ps) c (internal_store ps).
Definition set_store (s : S) (ps : PersistentSafetyStorage) : PersistentSafetyStorage :=
  mkPersistentSafetyStorage (enable_cached_safety_data ps) (cached_safety_data ps) s.

Definition PersistentSafetyStorage_new (s : S) (enable_cached : bool) : PersistentSafetyStorage :=
  mkPersistentSafetyStorage enable_cached None s.

Definition ps_author (ps : PersistentSafetyStorage) : outcome Error Author :=
  from_storage (kv_get_author (internal_store ps)).

Definition ps_waypoint (ps : PersistentSafetyStorage) : outcome Error Waypoint :=
  from_storage (kv_get_waypoint (internal_store ps)).

Definition ps_set_waypoint (w : Waypoint) : eff PersistentSafetyStorage Error unit := fun ps =>
  let '(s, r) := kv_set_waypoint (internal_store ps) w in
  (set_store s ps, from_storage r).

Definition consensus_sk_by_pk (ps : PersistentSafetyStorage) (pk : PublicKey) : outcome Error PrivateKey :=
  let explicit_sk := kv_get_consensus_key_of (internal_store ps) pk in
  let default_sk := kv_get_consensus_key (internal_store ps) in
  key ←? (match explicit_sk, default_sk with
          | inr sk_0, _ => Ok sk_0
          | inl _, inr sk_1 => Ok sk_1
          | inl _, inl _ => Err (ValidatorKeyNotFound (StorageMsg "not found!"))
          end);
  _ ←? ensure (bool_decide (public_key_of key = pk))
        (SecureStorageMissingDataError (StorageMsg "Incorrect sk saved for the expected pk"));
  Ok key.

(** The uncached branch reads the entry at the function's own return type,
    [Result<SafetyData, Error>], and returns what it holds. *)
Definition safety_data : eff PersistentSafetyStorage Error SafetyData := fun ps =>
  if negb (enable_cached_safety_data ps) then
    (ps, r ←? from_storage (kv_get_safety_data_as_result (internal_store ps)); r)
  else
    match cached_safety_data ps with
    | Some cached => (ps, Ok cached)
    | None =>
        match from_storage (kv_get_safety_data (internal_store ps)) with
        | Ok d => (set_cache (Some d) ps, Ok d)
        | Err e => (ps, Err e)
        | Panic => (ps, Panic)
        end
    end.

Definition set_safety_data (data : SafetyData) : eff PersistentSafetyStorage Error unit := fun ps =>
  let '(s, r) := kv_set_safety_data (internal_store ps) data in
  match r with
  | inr _ => (set_cache (Some data) (set_store s ps), Ok tt)
  | inl error => (set_cache None (set_store s ps), Err (SecureStorageUnexpectedError (FromStorage error)))
  end.

Definition fresh_safety_data (epoch : Z) : SafetyData := mkSafetyData epoch 0 0 0 None 0.

(** [initialize_keys_and_accounts] leaves an already initialised store alone. *)
Definition initialize_keys_and_accounts (s : S) (author : Author) (key : PrivateKey)
    : S * outcome Error unit :=
  match kv_set_consensus_key s key with
  | (s, inl (KeyAlreadyExists _)) => (s, Ok tt)
  | (s, _) => let '(s, r) := kv_set_author s author in (s, from_storage r)
  end.

Definition PersistentSafetyStorage_initialize (s : S) (author : Author) (key : PrivateKey)
    (waypoint : Waypoint) (enable_cached : bool) : outcome Error PersistentSafetyStorage :=
  let '(s, r) := initialize_keys_and_accounts s author key in
  match r with
  | Ok _ =>
      let data := fresh_safety_data 1 in
      let ps := mkPersistentSafetyStorage enable_cached (Some data) s in
      let '(ps, r) := set_safety_data data ps in
      match r with
      | Ok _ => let '(ps, r) := ps_set_waypoint waypoint ps in
                match r with Ok _ => Ok ps | _ => Panic end
      | _ => Panic
      end
  | _ => Panic
  end.

(** ** Safety rules *)
Record ValidatorSigner := mkValidatorSigner {
  vs_author : Author;
  vs_private_key : PrivateKey
}.

Record SafetyRules := mkSafetyRules {
  persistent_storage : PersistentSafetyStorage;
  validator_signer : option ValidatorSigner;
  epoch_state : option EpochState;
  skip_sig_verify : bool
}.

Definition SafetyRules_new (ps : PersistentSafetyStorage) (skip : bool) : SafetyRules :=
  mkSafetyRules ps None None skip.

Definition set_signer (o : option ValidatorSigner) (sr : SafetyRules) : SafetyRules :=
  mkSafetyRules (persistent_storage sr) o (epoch_state sr) (skip_sig_verify sr).
Definition set_epoch_state (o : option EpochState) (sr : SafetyRules) : SafetyRules :=
  mkSafetyRules (persistent_storage sr) (validator_signer sr) o (skip_sig_verify sr).

(** A call on [self.persistent_storage]. *)
Definition storage {A} (m : eff PersistentSafetyStorage Error A) : eff SafetyRules Error A := fun sr =>
  let '(ps, r) := m (persistent_storage sr) in
  (mkSafetyRules ps (validator_signer sr) (epoch_state sr) (skip_sig_verify sr), r).

Definition signer (sr : SafetyRules) : outcome Error ValidatorSigner :=
  ok_or (validator_signer sr) (NotInitialized "validator_signer").

Definition get_epoch_state (sr : SafetyRules) : outcome Error EpochState :=
  ok_or (epoch_state sr) (NotInitialized "epoch_state").

Definition sign (m : Message) (sr : SafetyRules) : outcome Error Signature :=
  s ←? signer sr;
  ok_or (sign_message (vs_private_key s) m) (SerializationError "sign").

Definition next_round (round : Round) : outcome Error Round :=
  ok_or (checked_add u64_max round 1) (IncorrectRound round).

(** ** Rules on the safety data *)
Definition observe_qc (qc : QuorumCert) (sd : SafetyData) : SafetyData * bool :=
  let one_chain := bi_round (certified_block qc) in
  let two_chain := bi_round (parent_block qc) in
  let '(one_chain_round, updated) :=
    if sd_one_chain_round sd <? one_chain then (one_chain, true) else (sd_one_chain_round sd, false) in
  let '(preferred_round, updated) :=
    if sd_preferred_round sd <? two_chain then (two_chain, true) else (sd_preferred_round sd, updated) in
  (mkSafetyData (sd_epoch sd) (sd_last_voted_round sd) preferred_round one_chain_round
     (sd_last_vote sd) (sd_highest_timeout_round sd), updated).

Definition update_highest_timeout_round (timeout : TwoChainTimeout) (sd : SafetyData) : SafetyData :=
  if sd_highest_timeout_round sd <? to_round timeout
  then mkSafetyData (sd_epoch sd) (sd_last_voted_round sd) (sd_preferred_round sd)
         (sd_one_chain_round sd) (sd_last_vote sd) (to_round timeout)
  else sd.

Definition verify_and_update_preferred_round (qc : QuorumCert) (sd : SafetyData)
    : outcome Error (SafetyData * bool) :=
  let preferred_round := sd_preferred_round sd in
  let one_chain_round := bi_round (certified_block qc) in
  if one_chain_round <? preferred_round
  then Err (IncorrectPreferredRound one_chain_round preferred_round)
  else Ok (observe_qc qc sd).

Definition verify_epoch (epoch : Z) (sd : SafetyData) : outcome Error unit :=
  ensure (epoch =? sd_epoch sd) (IncorrectEpoch epoch (sd_epoch sd)).

Definition verify_and_update_last_vote_round (round : Round) (sd : SafetyData) : outcome Error SafetyData :=
  if round <=? sd_last_voted_round sd
  then Err (IncorrectLastVotedRound round (sd_last_voted_round sd))
  else Ok (mkSafetyData (sd_epoch sd) round (sd_preferred_round sd) (sd_one_chain_round sd)
             (sd_last_vote sd) (sd_highest_timeout_round sd)).

Definition set_last_vote (v : Vote) (sd : SafetyData) : SafetyData :=
  mkSafetyData (sd_epoch sd) (sd_last_voted_round sd) (sd_preferred_round sd)
    (sd_one_chain_round sd) (Some v) (sd_highest_timeout_round sd).

Definition safe_to_timeout (timeout : TwoChainTimeout) (maybe_tc : option TwoChainTimeoutCertificate)
    (sd : SafetyData) : outcome Error unit :=
  let round := to_round timeout in
  let qc_round := to_hqc_round timeout in
  let tcr := match maybe_tc with Some tc => tc_round tc | None => 0 end in
  let err := NotSafeToTimeout round qc_round tcr (sd_one_chain_round sd) in
  next_qc ←? next_round qc_round;
  next_ok ←? (if round =? next_qc then Ok true
              else next_tc ←? next_round tcr; Ok (round =? next_tc));
  ensure (next_ok && (sd_one_chain_round sd <=? qc_round)) err.

Definition safe_to_vote (block : Block) (maybe_tc : option TwoChainTimeoutCertificate)
    : outcome Error unit :=
  let round := b_round block in
  let qc_round := bi_round (certified_block (b_quorum_cert block)) in
  let tcr := match maybe_tc with Some tc => tc_round tc | None => 0 end in
  let hqc_round := match maybe_tc with Some tc => highest_hqc_round tc | None => 0 end in
  let err := NotSafeToVote round qc_round tcr hqc_round in
  next_qc ←? next_round qc_round;
  if round =? next_qc then Ok tt
  else
    next_tc ←? next_round tcr;
    ensure ((round =? next_tc) && (hqc_round <=? qc_round)) err.

Definition safe_for_order_vote (block : Block) (sd : SafetyData) : outcome Error unit :=
  let round := b_round block in
  ensure (sd_highest_timeout_round sd <? round)
    (NotSafeForOrderVote round (sd_highest_timeout_round sd)).

Definition construct_ledger_info_2chain (proposed_block : Block) (consensus_data_hash : HashValue)
    : outcome Error LedgerInfo :=
  let block1 := b_round proposed_block in
  let block0 := bi_round (certified_block (b_quorum_cert proposed_block)) in
  next0 ←? next_round block0;
  let commit := next0 =? block1 in
  let commit_info :=
    if commit then certified_block (b_quorum_cert proposed_block) else BlockInfo_empty in
  Ok (mkLedgerInfo commit_info consensus_data_hash).

(** ** Verification against the epoch's validators *)
Definition verify_qc (qc : QuorumCert) (sr : SafetyRules) : outcome Error unit :=
  es ←? get_epoch_state sr;
  if negb (skip_sig_verify sr)
  then map_err InvalidQuorumCertificate (QuorumCert_verify qc (es_verifier es))
  else Ok tt.

Definition verify_tc (tc : TwoChainTimeoutCertificate) (sr : SafetyRules) : outcome Error unit :=
  es ←? get_epoch_state sr;
  if negb (skip_sig_verify sr)
  then map_err InvalidTimeoutCertificate (TimeoutCertificate_verify tc (es_verifier es))
  else Ok tt.

Definition verify_maybe_tc (o : option TwoChainTimeoutCertificate) (sr : SafetyRules) : outcome Error unit :=
  match o with Some tc => verify_tc tc sr | None => Ok tt end.

Definition verify_author (author : option Author) (sr : SafetyRules) : outcome Error unit :=
  s ←? signer sr;
  a ←? ok_or author (InvalidProposal (Msg "No author found in the proposal"));
  ensure (vs_author s =? a) (InvalidProposal (Msg "Proposal author is not validator signer!")).

(** [now] is the wall clock that [verify_well_formed] reads. *)
Definition verify_proposal (now : Z) (vote_proposal : VoteProposal) : eff SafetyRules Error VoteData :=
  let proposed_block := vp_block vote_proposal in
  sd ←! storage safety_data;
  _ ←! eread (fun _ => verify_epoch (b_epoch proposed_block) sd);
  _ ←! eread (verify_qc (b_quorum_cert proposed_block));
  _ ←! eread (fun sr =>
        if negb (skip_sig_verify sr) then
          es ←? get_epoch_state sr;
          map_err InvalidProposal (validate_signature proposed_block (es_verifier es))
        else Ok tt);
  _ ←! eread (fun _ => map_err InvalidProposal (verify_well_formed proposed_block now));
  eread (fun _ => map_err InvalidAccumulatorExtension (gen_vote_data vote_proposal)).

Definition verify_order_vote_proposal (p : OrderVoteProposal) : eff SafetyRules Error unit :=
  let proposed_block := ov_block p in
  sd ←! storage safety_data;
  _ ←! eread (fun _ => verify_epoch (b_epoch proposed_block) sd);
  let qc := ov_quorum_cert p in
  _ ←! eread (fun _ => ensure (bool_decide (certified_block qc = ov_block_info p))
        (InvalidOneChainQuorumCertificate (bi_id (certified_block qc)) (bi_id (ov_block_info p))));
  _ ←! eread (fun _ => ensure (bool_decide (bi_id (certified_block qc) = b_id proposed_block))
        (InvalidOneChainQuorumCertificate (bi_id (certified_block qc)) (b_id proposed_block)));
  eread (verify_qc qc).

(** ** The 2-chain handlers *)
Definition guarded_sign_timeout_with_qc (timeout : TwoChainTimeout)
    (timeout_cert : option TwoChainTimeoutCertificate) : eff SafetyRules Error Signature :=
  _ ←! eread signer;
  sd ←! storage safety_data;
  _ ←! eread (fun _ => verify_epoch (to_epoch timeout) sd);
  _ ←! eread (fun sr =>
        if negb (skip_sig_verify sr) then
          es ←? get_epoch_state sr;
          map_err InvalidTimeout (TwoChainTimeout_verify timeout (es_verifier es))
        else Ok tt);
  _ ←! eread (verify_maybe_tc timeout_cert);
  _ ←! eread (fun _ => safe_to_timeout timeout timeout_cert sd);
  _ ←! eread (fun _ => ensure (negb (to_round timeout <? sd_last_voted_round sd))
        (IncorrectLastVotedRound (to_round timeout) (sd_last_voted_round sd)));
  sd ←! eread (fun _ =>
        if sd_last_voted_round sd <? to_round timeout
        then verify_and_update_last_vote_round (to_round timeout) sd
        else Ok sd);
  _ ←! storage (set_safety_data (update_highest_timeout_round timeout sd));
  eread (sign (MTimeout (signing_format timeout))).

Definition guarded_construct_and_sign_vote_two_chain (now : Z) (vote_proposal : VoteProposal)
    (timeout_cert : option TwoChainTimeoutCertificate) : eff SafetyRules Error Vote :=
  _ ←! eread signer;
  vote_data ←! verify_proposal now vote_proposal;
  _ ←! eread (verify_maybe_tc timeout_cert);
  let proposed_block := vp_block vote_proposal in
  sd ←! storage safety_data;
  let previous :=
    match sd_last_vote sd with
    | Some vote => if bi_round (vd_proposed (v_vote_data vote)) =? b_round proposed_block
                   then Some vote else None
    | None => None
    end in
  match previous with
  | Some vote => eret vote
  | None =>
      sd ←! eread (fun _ => verify_and_update_last_vote_round (b_round proposed_block) sd);
      _ ←! eread (fun _ => safe_to_vote proposed_block timeout_cert);
      let sd := (observe_qc (b_quorum_cert proposed_block) sd).1 in
      s ←! eread signer;
      let author := vs_author s in
      ledger_info ←! eread (fun _ => construct_ledger_info_2chain proposed_block (hash_vote_data vote_data));
      signature ←! eread (sign (MLedgerInfo ledger_info));
      let vote := mkVote vote_data author ledger_info signature None in
      _ ←! storage (set_safety_data (set_last_vote vote sd));
      eret vote
  end.

Definition guarded_construct_and_sign_order_vote (p : OrderVoteProposal) : eff SafetyRules Error OrderVote :=
  _ ←! eread signer;
  _ ←! verify_order_vote_proposal p;
  let proposed_block := ov_block p in
  sd ←! storage safety_data;
  let sd := (observe_qc (ov_quorum_cert p) sd).1 in
  _ ←! eread (fun _ => safe_for_order_vote proposed_block sd);
  s ←! eread signer;
  let author := vs_author s in
  let ledger_info := mkLedgerInfo (ov_block_info p) HashValue_zero in
  signature ←! eread (sign (MLedgerInfo ledger_info));
  let order_vote := mkOrderVote author ledger_info signature in
  _ ←! storage (set_safety_data sd);
  eret order_vote.

(** ** The other handlers *)
Record ConsensusState := mkConsensusState {
  cs_safety_data : SafetyData;
  cs_waypoint : Waypoint;
  cs_in_validator_set : bool
}.

Definition guarded_consensus_state : eff SafetyRules Error ConsensusState :=
  _ ←! eread (fun sr => ps_waypoint (persistent_storage sr));
  _ ←! storage safety_data;
  sd ←! storage safety_data;
  w ←! eread (fun sr => ps_waypoint (persistent_storage sr));
  in_set ←! eread (fun sr => Ok (bool_decide (is_Some (validator_signer sr))));
  eret (mkConsensusState sd w in_set).

(** The key reconciliation at the end of [guarded_initialize]: the signer for
    the key the validator set expects. *)
Definition reconcile_key (author : Author) (expected_key : option PublicKey) : eff SafetyRules Error unit :=
  fun sr =>
  match expected_key with
  | None => (sr, Err (ValidatorNotInSet author))
  | Some expected_key =>
      let current_key := (fun s => public_key_of (vs_private_key s)) <$> validator_signer sr in
      if bool_decide (current_key = Some expected_key) then (sr, Ok tt)
      else
        match consensus_sk_by_pk (persistent_storage sr) expected_key with
        | Ok consensus_key => (set_signer (Some (mkValidatorSigner author consensus_key)) sr, Ok tt)
        | Err (SecureStorageMissingDataError error) => (sr, Err (ValidatorKeyNotFound error))
        | Err error => (sr, Err error)
        | Panic => (sr, Panic)
        end
  end.

(** [initialize_result.inspect_err(...)]: a failure drops the signer. *)
Definition drop_signer_on_error (m : eff SafetyRules Error unit) : eff SafetyRules Error unit := fun sr =>
  match m sr with
  | (sr, Err e) => (set_signer None sr, Err e)
  | res => res
  end.

Definition guarded_initialize (proof : EpochChangeProof) : eff SafetyRules Error unit :=
  waypoint ←! eread (fun sr => ps_waypoint (persistent_storage sr));
  last_li ←! eread (fun _ => map_err InvalidEpochChangeProof (EpochChangeProof_verify proof (ByWaypoint waypoint)));
  let ledger_info := ls_ledger_info last_li in
  es ←! eread (fun _ => ok_or (li_next_epoch_state ledger_info) InvalidLedgerInfo);
  new_waypoint ←! eread (fun _ => map_err InternalError (Waypoint_new_epoch_boundary ledger_info));
  _ ←! (if wp_version waypoint <? wp_version new_waypoint
        then storage (ps_set_waypoint new_waypoint) else eret tt);
  sd ←! storage safety_data;
  let current_epoch := sd_epoch sd in
  _ ←! (match current_epoch ?= es_epoch es with
        | Gt => eread (fun _ => Err (WaypointOutOfDate (wp_version waypoint) (wp_version new_waypoint)
                                       current_epoch (es_epoch es)))
        | Lt => storage (set_safety_data (fresh_safety_data (es_epoch es)))
        | Eq => eret tt
        end);
  _ ←! ewrite (set_epoch_state (Some es));
  author ←! eread (fun sr => ps_author (persistent_storage sr));
  expected_key ←! eread (fun _ =>
      match get_public_key (es_verifier es) author with Ok k => Ok k | _ => Panic end);
  drop_signer_on_error (reconcile_key author expected_key).

Definition guarded_sign_proposal (block_data : BlockData) : eff SafetyRules Error Signature :=
  _ ←! eread signer;
  _ ←! eread (verify_author (bd_author block_data));
  sd ←! storage safety_data;
  _ ←! eread (fun _ => verify_epoch (bd_epoch block_data) sd);
  _ ←! eread (fun _ => ensure (negb (bd_round block_data <=? sd_last_voted_round sd))
        (InvalidProposal (Msg "Proposed round is not higher than last voted round")));
  _ ←! eread (verify_qc (bd_quorum_cert block_data));
  _ ←! eread (fun _ => verify_and_update_preferred_round (bd_quorum_cert block_data) sd);
  eread (sign (MBlockData block_data)).

Definition guarded_sign_commit_vote (ledger_info : LedgerInfoWithSignatures) (new_ledger_info : LedgerInfo)
    : eff SafetyRules Error Signature :=
  _ ←! eread signer;
  let old_ledger_info := ls_ledger_info ledger_info in
  _ ←! eread (fun _ =>
        if negb (is_ordered_only (li_commit_info old_ledger_info))
           && negb (bool_decide (li_commit_info old_ledger_info = li_commit_info new_ledger_info))
        then Err (InvalidOrderedLedgerInfo old_ledger_info) else Ok tt);
  _ ←! eread (fun _ =>
        ensure (match_ordered_only (li_commit_info old_ledger_info) (li_commit_info new_ledger_info))
          (InconsistentExecutionResult (li_commit_info old_ledger_info) (li_commit_info new_ledger_info)));
  _ ←! eread (fun sr =>
        if negb (skip_sig_verify sr) then
          es ←? get_epoch_state sr;
          map_err (fun e => InvalidQuorumCertificate (Verify e)) (verify_signatures ledger_info (es_verifier es))
        else Ok tt);
  eread (sign (MLedgerInfo new_ledger_info)).

End SafetyRules.

(** ** In-memory storage

    [fdp-aptos/secure/storage/src/in_memory.rs], entry by entry: reading an
    absent entry fails with [KeyNotSet], writing always succeeds.  An entry is
    the JSON text of a value, and the text of a [SafetyData] record is not that
    of a [Result], which serde tags with [Ok] or [Err]. *)
Module InMemory.

Record InMemoryStorage `{CryptoTypes} := mkInMemoryStorage {
  mem_author : option Author;
  mem_waypoint : option Waypoint;
  mem_safety_data : option SafetyData;
  mem_consensus_key : option PrivateKey;
  mem_consensus_keys : list (PublicKey * PrivateKey)
}.

Definition get_entry {A} (key : string) (o : option A) : StorageError + A :=
  match o with Some a => inr a | None => inl (KeyNotSet key) end.

#[export] Instance kv `{CryptoTypes} : KVStorage InMemoryStorage := {|
  kv_get_author s := get_entry "owner_account" (mem_author s);
  kv_get_waypoint s := get_entry "waypoint" (mem_waypoint s);
  kv_get_safety_data s := get_entry "safety_data" (mem_safety_data s);
  kv_get_safety_data_as_result s :=
    match mem_safety_data s with
    | Some _ => inl (StorageSerializationError "unknown variant")
    | None => inl (KeyNotSet "safety_data")
    end;
  kv_get_consensus_key s := get_entry "consensus" (mem_consensus_key s);
  kv_get_consensus_key_of s pk :=
    get_entry "consensus_pk"
      (match list_find (fun entry => entry.1 = pk) (mem_consensus_keys s) with
       | Some (_, entry) => Some entry.2
       | None => None
       end);
  kv_set_author s a := (mkInMemoryStorage _ (Some a) (mem_waypoint s) (mem_safety_data s)
                          (mem_consensus_key s) (mem_consensus_keys s), inr tt);
  kv_set_consensus_key s k := (mkInMemoryStorage _ (mem_author s) (mem_waypoint s) (mem_safety_data s)
                                 (Some k) (mem_consensus_keys s), inr tt);
  kv_set_safety_data s d := (mkInMemoryStorage _ (mem_author s) (mem_waypoint s) (Some d)
                               (mem_consensus_key s) (mem_consensus_keys s), inr tt);
  kv_set_waypoint s w := (mkInMemoryStorage _ (mem_author s) (Some w) (mem_safety_data s)
                            (mem_consensus_key s) (mem_consensus_keys s), inr tt)
|}.

#[export] Instance kv_laws `{CryptoTypes} : KVStorageLaws InMemoryStorage.
Proof.
  refine {| stored := fun s => from_option id (mkSafetyData 0 0 0 0 None 0) (mem_safety_data s) |}.
  - intros s d. cbn. destruct (mem_safety_data s); cbn; by intros [= ->].
  - intros s d. cbn. by destruct (mem_safety_data s).
  - by intros s d s' [= <-].
  - intros s d s' r [= <- _]. by left.
  - done.
Defined.

End InMemory.
