(* ===== verification/SafetyRulesSpec.v ===== *)
(** * What the safety rules guarantee

    The effect of each handler of [SafetyRules] on the safety data on stable
    storage, for every outcome, and the rules a signature obeys. *)

From S2P Require Import Prelude BitVec AptosTypes ValidatorVerifier Certificates SafetyRules.

Section Spec.
Context `{CryptoFns} {S : Type} `{!KVStorage S, !KVStorageLaws S}.
Implicit Types (s : SafetyRules (S := S)) (sd : SafetyData).

Definition stored_data s : SafetyData := stored (internal_store (persistent_storage s)).

(** The cache, when it is filled, agrees with stable storage. *)
Definition coherent s : Prop :=
  forall d, cached_safety_data (persistent_storage s) = Some d -> d = stored_data s.

(** Everything but the safety data is as before. *)
Definition env_eq s s' : Prop :=
  epoch_state s' = epoch_state s /\ skip_sig_verify s' = skip_sig_verify s /\
  validator_signer s' = validator_signer s /\
  enable_cached_safety_data (persistent_storage s') = enable_cached_safety_data (persistent_storage s).

Lemma env_eq_refl s : env_eq s s.
Proof. done. Qed.
Lemma env_eq_trans s1 s2 s3 : env_eq s1 s2 -> env_eq s2 s3 -> env_eq s1 s3.
Proof. unfold env_eq. naive_solver congruence. Qed.

(** ** The storage operations *)
Lemma wp_safety_data s (Q : SafetyRules -> outcome Error SafetyData -> Prop) :
  coherent s ->
  (forall s1 r, env_eq s s1 -> coherent s1 -> stored_data s1 = stored_data s ->
     (forall d, r = Ok d -> d = stored_data s) -> Q s1 r) ->
  wp (storage safety_data) s Q.
Proof.
  intros Hc HQ. unfold wp, storage, safety_data.
  destruct (enable_cached_safety_data (persistent_storage s)) eqn:Ef; cbn [negb].
  - destruct (cached_safety_data (persistent_storage s)) as [c|] eqn:Ec.
    + apply HQ; cbn; try done. intros d [= <-]. by apply Hc.
    + destruct (kv_get_safety_data (internal_store (persistent_storage s))) as [e|d] eqn:Eg.
      * destruct e; cbn; apply HQ; cbn; done.
      * cbn. apply kv_get_stored in Eg as Hd.
        apply HQ; cbn; try done; by intros ? [= <-].
  - destruct (kv_get_safety_data_as_result _) as [e|r] eqn:Eg.
    + destruct e; cbn; apply HQ; cbn; done.
    + cbn. apply HQ; cbn; try done. intros d ->. by apply kv_get_result_stored in Eg.
Qed.

Lemma wp_set_safety_data s d (Q : SafetyRules -> outcome Error unit -> Prop) :
  (forall s1 r, env_eq s s1 -> coherent s1 ->
     stored_data s1 = d \/ stored_data s1 = stored_data s ->
     (r = Ok tt -> stored_data s1 = d) -> Q s1 r) ->
  wp (storage (set_safety_data d)) s Q.
Proof.
  intros HQ. unfold wp, storage, set_safety_data.
  destruct (kv_set_safety_data (internal_store (persistent_storage s)) d) as [st r] eqn:Es.
  apply kv_set_failed in Es as Hor. destruct r as [e|[]].
  - apply HQ; cbn; done.
  - apply kv_set_stored in Es. apply HQ; cbn; try done. intros ? [= <-]. done.
Qed.

(** ** Rules a new vote obeys *)
Record fresh_vote (now : Z) (vp : VoteProposal) (tc : option TwoChainTimeoutCertificate)
    (author : Author) (sd : SafetyData) (v : Vote) : Prop := {
  fv_round : sd_last_voted_round sd < b_round (vp_block vp);
  fv_safe : @safe_to_vote _ (vp_block vp) tc = Ok tt;
  fv_well_formed : verify_well_formed (vp_block vp) now = Ok tt;
  fv_data : gen_vote_data vp = Ok (v_vote_data v);
  fv_author : v_author v = author;
  fv_ledger_info :
    construct_ledger_info_2chain (vp_block vp) (hash_vote_data (v_vote_data v)) = Ok (v_ledger_info v);
  fv_timeout : v_two_chain_timeout v = None
}.

(** The safety data that goes with a new vote. *)
Definition voted_data (vp : VoteProposal) (v : Vote) (sd : SafetyData) : SafetyData :=
  set_last_vote v
    (observe_qc (b_quorum_cert (vp_block vp))
       (mkSafetyData (sd_epoch sd) (b_round (vp_block vp)) (sd_preferred_round sd)
          (sd_one_chain_round sd) (sd_last_vote sd) (sd_highest_timeout_round sd))).1.

(** What the handler checked about its inputs. *)
Definition qc_checked s (qc : QuorumCert) : Prop :=
  exists es, epoch_state s = Some es /\
    (skip_sig_verify s = false -> QuorumCert_verify qc (es_verifier es) = Ok tt).
Definition tc_checked s (o : option TwoChainTimeoutCertificate) : Prop :=
  forall tc, o = Some tc -> skip_sig_verify s = false ->
  exists es, epoch_state s = Some es /\ TimeoutCertificate_verify tc (es_verifier es) = Ok tt.

Lemma verify_qc_checked qc s u : verify_qc qc s = Ok u -> qc_checked s qc.
Proof.
  unfold verify_qc, get_epoch_state, qc_checked. intros Hv. outcome_inv.
  destruct (epoch_state s) as [es|] eqn:E; [|done]. simplify_eq/=.
  eexists. split; [done|]. intros Hs. rewrite Hs in Hv. cbn in Hv. outcome_inv. by destruct u.
Qed.

Lemma verify_tc_checked o s u : verify_maybe_tc o s = Ok u -> tc_checked s o.
Proof.
  unfold tc_checked. intros Hv tc -> Hs. cbn in Hv. unfold verify_tc, get_epoch_state in Hv.
  rewrite Hs in Hv. cbn in Hv. outcome_inv. destruct u. eauto.
Qed.

Lemma checked_env s s' qc : env_eq s s' -> qc_checked s' qc -> qc_checked s qc.
Proof. unfold qc_checked, env_eq. intros (-> & -> & _). done. Qed.
Lemma tc_checked_env s s' o : env_eq s s' -> tc_checked s' o -> tc_checked s o.
Proof. unfold tc_checked, env_eq. intros (-> & -> & _). done. Qed.

Definition vote_post (now : Z) (vp : VoteProposal) (tc : option TwoChainTimeoutCertificate)
    s s' (r : outcome Error Vote) : Prop :=
  env_eq s s' /\ coherent s' /\
  (stored_data s' = stored_data s \/
   exists v a, validator_signer s = Some a /\
     fresh_vote now vp tc (vs_author a) (stored_data s) v /\
     stored_data s' = voted_data vp v (stored_data s) /\
     b_epoch (vp_block vp) = sd_epoch (stored_data s) /\
     qc_checked s (b_quorum_cert (vp_block vp)) /\ tc_checked s tc) /\
  (forall v, r = Ok v ->
     b_epoch (vp_block vp) = sd_epoch (stored_data s) /\ sd_last_vote (stored_data s') = Some v /\
     bi_round (vd_proposed (v_vote_data v)) = b_round (vp_block vp)).

Lemma gen_vote_data_fields vp vd :
  gen_vote_data vp = Ok vd ->
  bi_round (vd_proposed vd) = b_round (vp_block vp) /\
  bi_epoch (vd_proposed vd) = b_epoch (vp_block vp) /\
  bi_id (vd_proposed vd) = b_id (vp_block vp) /\
  vd_parent vd = certified_block (b_quorum_cert (vp_block vp)).
Proof.
  unfold gen_vote_data. case_match; intros Hv; outcome_inv; subst; done.
Qed.
(** A handler that reads the safety data and then only looks at values. *)
Lemma wp_bind_safety_data {A} s (k : SafetyData -> eff SafetyRules Error A)
    (Q : SafetyRules -> outcome Error A -> Prop) :
  coherent s ->
  (forall s1 e, env_eq s s1 -> coherent s1 -> stored_data s1 = stored_data s -> Q s1 (Err e)) ->
  (forall s1, env_eq s s1 -> coherent s1 -> stored_data s1 = stored_data s -> Q s1 Panic) ->
  (forall s1, env_eq s s1 -> coherent s1 -> stored_data s1 = stored_data s ->
     wp (k (stored_data s)) s1 Q) ->
  wp (ebind (storage safety_data) k) s Q.
Proof.
  intros Hc He Hp Hk. apply wp_bind, wp_safety_data; [done|]. intros s1 r Henv Hc1 Hs Hr.
  destruct r as [d|e|]; auto. rewrite (Hr d eq_refl). auto.
Qed.

Lemma wp_bind_set {A} s d (k : unit -> eff SafetyRules Error A)
    (Q : SafetyRules -> outcome Error A -> Prop) :
  (forall s1 r, env_eq s s1 -> coherent s1 ->
     stored_data s1 = d \/ stored_data s1 = stored_data s -> (forall a, r <> Ok a) -> Q s1 r) ->
  (forall s1, env_eq s s1 -> coherent s1 -> stored_data s1 = d -> wp (k tt) s1 Q) ->
  wp (ebind (storage (set_safety_data d)) k) s Q.
Proof.
  intros Hf Hk. apply wp_bind, wp_set_safety_data. intros s1 r Henv Hc1 Hor Hr.
  destruct r as [[]|e|]; auto.
Qed.

Lemma wp_verify_proposal now vp s (Q : SafetyRules -> outcome Error VoteData -> Prop) :
  coherent s ->
  (forall s1 r, env_eq s s1 -> coherent s1 -> stored_data s1 = stored_data s ->
     (forall vd, r = Ok vd ->
        gen_vote_data vp = Ok vd /\ b_epoch (vp_block vp) = sd_epoch (stored_data s) /\
        qc_checked s (b_quorum_cert (vp_block vp)) /\
        verify_well_formed (vp_block vp) now = Ok tt) -> Q s1 r) ->
  wp (verify_proposal now vp) s Q.
Proof.
  intros Hc HQ. unfold verify_proposal.
  apply wp_bind_safety_data; [done|by intros; apply HQ|by intros; apply HQ|].
  intros s1 Henv Hc1 Hs.
  apply wp_bind_read; [by intros; apply HQ|by apply HQ|]. intros u1 He.
  apply wp_bind_read; [by intros; apply HQ|by apply HQ|]. intros u2 Hqc.
  apply wp_bind_read; [by intros; apply HQ|by apply HQ|]. intros u3 _.
  apply wp_bind_read; [by intros; apply HQ|by apply HQ|]. intros u4 Hwf.
  apply wp_read; [by intros; apply HQ|by apply HQ|]. intros vd Hvd.
  apply HQ; try done. intros ? [= <-]. unfold verify_epoch in He. outcome_inv. bool_to_prop.
  destruct u4. split_and!; try done. eapply checked_env; [done|]. by eapply verify_qc_checked.
Qed.

Lemma update_round_Ok round sd sd' :
  @verify_and_update_last_vote_round _ round sd = Ok sd' ->
  sd_last_voted_round sd < round /\
  sd' = mkSafetyData (sd_epoch sd) round (sd_preferred_round sd) (sd_one_chain_round sd)
          (sd_last_vote sd) (sd_highest_timeout_round sd).
Proof.
  unfold verify_and_update_last_vote_round. case_match eqn:E; intros [= <-]. bool_to_prop. done.
Qed.

Lemma vote_post_fail now vp tc s s' r :
  env_eq s s' -> coherent s' -> stored_data s' = stored_data s -> (forall v, r <> Ok v) ->
  vote_post now vp tc s s' r.
Proof. intros ??? Hr. split_and!; try done; [by left|]. intros v ->. by destruct (Hr v). Qed.

Lemma vote_handler now vp tc s :
  coherent s ->
  wp (guarded_construct_and_sign_vote_two_chain now vp tc) s (vote_post now vp tc s).
Proof.
  intros Hc. unfold guarded_construct_and_sign_vote_two_chain.
  apply wp_bind_read; [by intros; apply vote_post_fail..|]. intros a0 _.
  apply wp_bind, wp_verify_proposal; [done|]. intros s1 r He1 Hc1 Hs1 Hr.
  destruct r as [vd|e|]; [|by apply vote_post_fail..].
  destruct (Hr vd eq_refl) as (Hvd & Hep & Hqc & Hwf). clear Hr.
  apply wp_bind_read; [by intros; apply vote_post_fail..|]. intros u1 Htc.
  apply wp_bind_safety_data; [done|..];
    [by intros; apply vote_post_fail; try done; [by eapply env_eq_trans|congruence]..|].
  intros s2 He2 Hc2 Hs2. pose proof (env_eq_trans _ _ _ He1 He2) as He.
  rewrite Hs1 in Hs2 |- *. cbv zeta.
  destruct (sd_last_vote (stored_data s)) as [lv|] eqn:Elv;
    [destruct (bi_round (vd_proposed (v_vote_data lv)) =? b_round (vp_block vp)) eqn:Er|].
  { apply wp_ret. bool_to_prop. split_and!; try done; [by left|]. intros v [= <-].
    by rewrite Hs2. }
  all: apply wp_bind_read; [by intros; apply vote_post_fail..|]; intros sd' [Hlt ->]%update_round_Ok.
  all: apply wp_bind_read; [by intros; apply vote_post_fail..|]; intros [] Hsafe.
  all: apply wp_bind_read; [by intros; apply vote_post_fail..|]; intros a Ha.
  all: apply wp_bind_read; [by intros; apply vote_post_fail..|]; intros li Hli.
  all: apply wp_bind_read; [by intros; apply vote_post_fail..|]; intros sg Hsg.
  all: assert (Hsig : validator_signer s = Some a)
    by (unfold signer in Ha; outcome_inv; by destruct He as (_ & _ & <- & _)).
  all: assert (Htc' : tc_checked s tc)
    by (eapply tc_checked_env; [exact He1|by eapply verify_tc_checked]).
  all: set (v := mkVote vd (vs_author a) li sg None).
  all: assert (Hfresh : fresh_vote now vp tc (vs_author a) (stored_data s) v) by done.
  all: destruct (gen_vote_data_fields _ _ Hvd) as (Hround & _).
  all: apply wp_bind_set; [|intros s3 He3 Hc3 Hs3; apply wp_ret].
  all: try (intros s3 r He3 Hc3 Hor Hr; split_and!;
    [by eapply env_eq_trans|done|destruct Hor as [->| ->]; [right|left]|intros ? ->; by destruct (Hr v0)]).
  all: try (by rewrite Hs2).
  all: try (exists v, a; split_and!; try done; unfold voted_data; by rewrite ?Elv).
  all: split_and!; [by eapply env_eq_trans|done|right|intros ? [= <-]; split_and!; try done; by rewrite Hs3].
  all: exists v, a; split_and!; try done; rewrite Hs3; unfold voted_data; by rewrite ?Elv.
Qed.
(** ** Timeouts *)
Record timeout_rules s (t : TwoChainTimeout) (tc : option TwoChainTimeoutCertificate) : Prop := {
  tr_epoch_ok : to_epoch t = sd_epoch (stored_data s);
  tr_safe : safe_to_timeout t tc (stored_data s) = Ok tt;
  tr_last_voted : sd_last_voted_round (stored_data s) <= to_round t;
  tr_tc : tc_checked s tc
}.

Definition timed_out_data (t : TwoChainTimeout) sd : SafetyData :=
  mkSafetyData (sd_epoch sd) (to_round t) (sd_preferred_round sd) (sd_one_chain_round sd)
    (sd_last_vote sd) (Z.max (sd_highest_timeout_round sd) (to_round t)).

Definition timeout_post (t : TwoChainTimeout) (tc : option TwoChainTimeoutCertificate)
    s s' (r : outcome Error Signature) : Prop :=
  env_eq s s' /\ coherent s' /\
  (stored_data s' = stored_data s \/
   (timeout_rules s t tc /\ stored_data s' = timed_out_data t (stored_data s))) /\
  (forall sg, r = Ok sg -> timeout_rules s t tc /\ stored_data s' = timed_out_data t (stored_data s)).

Lemma timeout_post_fail t tc s s' r :
  env_eq s s' -> coherent s' -> stored_data s' = stored_data s -> (forall v, r <> Ok v) ->
  timeout_post t tc s s' r.
Proof. intros ??? Hr. split_and!; try done; [by left|]. intros v ->. by destruct (Hr v). Qed.

Lemma timed_out_data_eq t sd sd' :
  sd_last_voted_round sd <= to_round t ->
  (if sd_last_voted_round sd <? to_round t
   then @verify_and_update_last_vote_round _ (to_round t) sd else Ok sd) = Ok sd' ->
  update_highest_timeout_round t sd' = timed_out_data t sd.
Proof.
  intros Hle Hsd. unfold update_highest_timeout_round, timed_out_data.
  assert (sd' = mkSafetyData (sd_epoch sd) (to_round t) (sd_preferred_round sd)
                  (sd_one_chain_round sd) (sd_last_vote sd) (sd_highest_timeout_round sd)) as ->.
  { case_match eqn:E; [by apply update_round_Ok in Hsd as [_ ->]|].
    bool_to_prop. assert (sd_last_voted_round sd = to_round t) by lia.
    destruct sd; cbn in *. congruence. }
  cbn [sd_highest_timeout_round]. destruct (Z.ltb_spec (sd_highest_timeout_round sd) (to_round t));
    cbn; by rewrite ?Z.max_r, ?Z.max_l by lia.
Qed.

Lemma timeout_handler t tc s :
  coherent s -> wp (guarded_sign_timeout_with_qc t tc) s (timeout_post t tc s).
Proof.
  intros Hc. unfold guarded_sign_timeout_with_qc.
  apply wp_bind_read; [by intros; apply timeout_post_fail..|]. intros a0 _.
  apply wp_bind_safety_data; [done|by intros; apply timeout_post_fail..|].
  intros s1 He1 Hc1 Hs1.
  apply wp_bind_read; [by intros; apply timeout_post_fail..|]. intros u1 Hep.
  apply wp_bind_read; [by intros; apply timeout_post_fail..|]. intros u2 _.
  apply wp_bind_read; [by intros; apply timeout_post_fail..|]. intros u3 Htc.
  apply wp_bind_read; [by intros; apply timeout_post_fail..|]. intros [] Hsafe.
  apply wp_bind_read; [by intros; apply timeout_post_fail..|]. intros u4 Hlv.
  apply wp_bind_read; [by intros; apply timeout_post_fail..|]. intros sd' Hsd'.
  unfold verify_epoch in Hep. outcome_inv. bool_to_prop.
  apply timed_out_data_eq in Hsd'; [|done].
  assert (Hrules : timeout_rules s t tc).
  { split; try done. eapply tc_checked_env; [exact He1|by eapply verify_tc_checked]. }
  rewrite Hsd'. apply wp_bind_set.
  - intros s2 r He2 Hc2 Hor Hr.
    split_and!; [by eapply env_eq_trans|done| |intros sg ->; by destruct (Hr sg)].
    destruct Hor as [->| ->]; [by right|by left].
  - intros s2 He2 Hc2 Hs2.
    assert (Hall : forall r, timeout_post t tc s s2 r).
    { intros r. split_and!; [by eapply env_eq_trans|done|by right|by intros]. }
    apply wp_read; intros; apply Hall.
Qed.

(** ** Order votes *)
Record order_rules s (p : OrderVoteProposal) : Prop := {
  or_epoch : b_epoch (ov_block p) = sd_epoch (stored_data s);
  or_info : certified_block (ov_quorum_cert p) = ov_block_info p;
  or_id : bi_id (certified_block (ov_quorum_cert p)) = b_id (ov_block p);
  or_qc : qc_checked s (ov_quorum_cert p);
  or_no_timeout : sd_highest_timeout_round (stored_data s) < b_round (ov_block p)
}.

Definition order_post (p : OrderVoteProposal) s s' (r : outcome Error OrderVote) : Prop :=
  env_eq s s' /\ coherent s' /\
  (stored_data s' = stored_data s \/
   (order_rules s p /\ stored_data s' = (observe_qc (ov_quorum_cert p) (stored_data s)).1)) /\
  (forall o, r = Ok o ->
     order_rules s p /\ stored_data s' = (observe_qc (ov_quorum_cert p) (stored_data s)).1 /\
     o_ledger_info o = mkLedgerInfo (ov_block_info p) HashValue_zero).

Lemma order_post_fail p s s' r :
  env_eq s s' -> coherent s' -> stored_data s' = stored_data s -> (forall v, r <> Ok v) ->
  order_post p s s' r.
Proof. intros ??? Hr. split_and!; try done; [by left|]. intros v ->. by destruct (Hr v). Qed.

Lemma observe_htr qc sd : sd_highest_timeout_round (observe_qc qc sd).1 = sd_highest_timeout_round sd.
Proof. unfold observe_qc. repeat case_match; by simplify_eq/=. Qed.

Lemma wp_verify_order_vote_proposal p s (Q : SafetyRules -> outcome Error unit -> Prop) :
  coherent s ->
  (forall s1 r, env_eq s s1 -> coherent s1 -> stored_data s1 = stored_data s ->
     (r = Ok tt ->
        b_epoch (ov_block p) = sd_epoch (stored_data s) /\
        certified_block (ov_quorum_cert p) = ov_block_info p /\
        bi_id (certified_block (ov_quorum_cert p)) = b_id (ov_block p) /\
        qc_checked s (ov_quorum_cert p)) -> Q s1 r) ->
  wp (verify_order_vote_proposal p) s Q.
Proof.
  intros Hc HQ. unfold verify_order_vote_proposal.
  apply wp_bind_safety_data; [done|by intros; apply HQ|by intros; apply HQ|].
  intros s1 Henv Hc1 Hs.
  apply wp_bind_read; [by intros; apply HQ|by apply HQ|]. intros u1 He.
  apply wp_bind_read; [by intros; apply HQ|by apply HQ|]. intros u2 Hi.
  apply wp_bind_read; [by intros; apply HQ|by apply HQ|]. intros u3 Hid.
  apply wp_read; [by intros; apply HQ|by apply HQ|]. intros u Hqc.
  unfold verify_epoch in He. outcome_inv. bool_to_prop.
  apply HQ; try done. intros _. split_and!; try done.
  eapply checked_env; [done|]. by eapply verify_qc_checked.
Qed.

Lemma order_handler p s :
  coherent s -> wp (guarded_construct_and_sign_order_vote p) s (order_post p s).
Proof.
  intros Hc. unfold guarded_construct_and_sign_order_vote.
  apply wp_bind_read; [by intros; apply order_post_fail..|]. intros a0 _.
  apply wp_bind, wp_verify_order_vote_proposal; [done|]. intros s1 r He1 Hc1 Hs1 Hr.
  destruct r as [[]|e|]; [|by apply order_post_fail..].
  destruct (Hr eq_refl) as (Hep & Hi & Hid & Hqc). clear Hr.
  apply wp_bind_safety_data; [done|..];
    [by intros; apply order_post_fail; try done; [by eapply env_eq_trans|congruence]..|].
  intros s2 He2 Hc2 Hs2. pose proof (env_eq_trans _ _ _ He1 He2) as He. rewrite Hs1 in Hs2 |- *.
  apply wp_bind_read; [by intros; apply order_post_fail..|]. intros u1 Hsafe.
  apply wp_bind_read; [by intros; apply order_post_fail..|]. intros a _.
  apply wp_bind_read; [by intros; apply order_post_fail..|]. intros sg _.
  assert (Hrules : order_rules s p).
  { split; try done. unfold safe_for_order_vote in Hsafe. outcome_inv. bool_to_prop.
    by rewrite observe_htr in Hsafe. }
  apply wp_bind_set.
  - intros s3 r He3 Hc3 Hor Hr.
    split_and!; [by eapply env_eq_trans|done| |intros o ->; by destruct (Hr o)].
    destruct Hor as [->| ->]; [by right|by left].
  - intros s3 He3 Hc3 Hs3. apply wp_ret.
    split_and!; [by eapply env_eq_trans|done|by right|]. by intros o [= <-].
Qed.

(** ** Initialisation *)
Definition init_post s s' (r : outcome Error unit) : Prop :=
  skip_sig_verify s' = skip_sig_verify s /\
  enable_cached_safety_data (persistent_storage s') = enable_cached_safety_data (persistent_storage s) /\
  coherent s' /\
  (stored_data s' = stored_data s \/
   exists epoch, sd_epoch (stored_data s) < epoch /\ stored_data s' = fresh_safety_data epoch) /\
  (r = Ok tt -> exists es a, epoch_state s' = Some es /\ es_epoch es = sd_epoch (stored_data s') /\
     validator_signer s' = Some a /\
     (validator_signer s' = validator_signer s \/
      get_public_key (es_verifier es) (vs_author a) = Ok (Some (public_key_of (vs_private_key a))))).

Lemma init_post_fail s s' r :
  env_eq s s' -> coherent s' -> stored_data s' = stored_data s -> r <> Ok tt -> init_post s s' r.
Proof.
  intros (_ & ? & _ & ?) ?? Hr. split_and!; try done. by left.
Qed.

Lemma wp_set_waypoint s w (Q : SafetyRules -> outcome Error unit -> Prop) :
  coherent s ->
  (forall s1 r, env_eq s s1 -> coherent s1 -> stored_data s1 = stored_data s -> Q s1 r) ->
  wp (storage (ps_set_waypoint w)) s Q.
Proof.
  intros Hc HQ. unfold wp, storage, ps_set_waypoint.
  pose proof (kv_set_waypoint_stored (internal_store (persistent_storage s)) w) as Hw.
  destruct (kv_set_waypoint _ w) as [st r]. cbn in Hw. apply HQ; [done| |exact Hw].
  intros d Hd. rewrite (Hc d Hd). symmetry. exact Hw.
Qed.

Lemma reconcile_key_spec author key s :
  wp (drop_signer_on_error (reconcile_key author key)) s (fun s' r =>
    persistent_storage s' = persistent_storage s /\ epoch_state s' = epoch_state s /\
    skip_sig_verify s' = skip_sig_verify s /\
    (r = Ok tt -> exists a k, key = Some k /\ validator_signer s' = Some a /\
       public_key_of (vs_private_key a) = k /\
       (validator_signer s' = validator_signer s \/ vs_author a = author))).
Proof.
  unfold wp, drop_signer_on_error, reconcile_key. destruct key as [k|]; [|by cbn].
  destruct (bool_decide (((fun a => public_key_of (vs_private_key a)) <$> validator_signer s) = Some k)) eqn:E.
  - cbn. split_and!; try done. intros _. bool_to_prop.
    destruct (validator_signer s) as [a|] eqn:Ea; [|done]. cbn in E. simplify_eq.
    exists a. naive_solver.
  - destruct (consensus_sk_by_pk (persistent_storage s) k) as [sk|e|] eqn:Ek; cbn; [|by destruct e|done].
    split_and!; try done. intros _. unfold consensus_sk_by_pk in Ek. outcome_inv. bool_to_prop. subst.
    do 2 eexists. split_and!; try done. by right.
Qed.
(** The last steps of [guarded_initialize], once the safety data is that of the
    epoch. *)
Lemma initialize_tail es s s1 :
  skip_sig_verify s1 = skip_sig_verify s ->
  enable_cached_safety_data (persistent_storage s1) = enable_cached_safety_data (persistent_storage s) ->
  coherent s1 ->
  stored_data s1 = stored_data s \/
    (exists epoch, sd_epoch (stored_data s) < epoch /\ stored_data s1 = fresh_safety_data epoch) ->
  sd_epoch (stored_data s1) = es_epoch es ->
  validator_signer s1 = validator_signer s ->
  wp (_ ←! ewrite (set_epoch_state (Some es));
      author ←! eread (fun sr => ps_author (persistent_storage sr));
      expected_key ←! eread (fun _ =>
          match get_public_key (es_verifier es) author with Ok k => Ok k | _ => Panic end);
      drop_signer_on_error (reconcile_key author expected_key)) s1 (init_post s).
Proof.
  intros Hskip Hflag Hc Hor Hep Hsig. apply wp_bind. unfold wp at 1, ewrite. cbn [fst snd].
  set (s2 := set_epoch_state (Some es) s1).
  assert (Hfail : forall r, r <> Ok tt -> init_post s s2 r) by (intros r Hr; by split_and!).
  apply wp_bind_read; [by intros; apply Hfail..|]. intros author _.
  apply wp_bind_read; [by intros; apply Hfail..|]. intros key Hkey.
  destruct (get_public_key (es_verifier es) author) as [k| |] eqn:Ek; simplify_eq.
  eapply wp_mono; [|apply reconcile_key_spec]. intros s3 r (Hps & Hes & Hsk & Hr).
  unfold init_post, coherent, stored_data. rewrite Hps, Hsk, Hes.
  split_and!; try done. intros Hr'. destruct (Hr Hr') as (a & k & -> & Ha & <- & Hor').
  exists es, a. split_and!; try done.
  destruct Hor' as [->|Haut]; [by left|right]. by rewrite Haut.
Qed.

Lemma initialize_handler proof s :
  coherent s -> wp (guarded_initialize proof) s (init_post s).
Proof.
  intros Hc. unfold guarded_initialize.
  apply wp_bind_read; [by intros; apply init_post_fail..|]. intros w _.
  apply wp_bind_read; [by intros; apply init_post_fail..|]. intros lis _.
  apply wp_bind_read; [by intros; apply init_post_fail..|]. intros es Hes.
  apply wp_bind_read; [by intros; apply init_post_fail..|]. intros nw _.
  apply wp_bind.
  assert (Hk : forall s1, env_eq s s1 -> coherent s1 -> stored_data s1 = stored_data s ->
    wp (sd ←! storage safety_data;
        _ ←! (match sd_epoch sd ?= es_epoch es with
              | Gt => eread (fun _ => Err (WaypointOutOfDate (wp_version w) (wp_version nw)
                                             (sd_epoch sd) (es_epoch es)))
              | Lt => storage (set_safety_data (fresh_safety_data (es_epoch es)))
              | Eq => eret tt
              end);
        _ ←! ewrite (set_epoch_state (Some es));
        author ←! eread (fun sr => ps_author (persistent_storage sr));
        expected_key ←! eread (fun _ =>
            match get_public_key (es_verifier es) author with Ok k => Ok k | _ => Panic end);
        drop_signer_on_error (reconcile_key author expected_key)) s1 (init_post s)).
  { intros s1 He1 Hc1 Hs1.
    apply wp_bind_safety_data; [done|..];
      [by intros; apply init_post_fail; try done; [by eapply env_eq_trans|congruence]..|].
    intros s2 He2 Hc2 Hs2. pose proof (env_eq_trans _ _ _ He1 He2) as He. rewrite Hs1 in Hs2 |- *.
    apply wp_bind. destruct (Z.compare_spec (sd_epoch (stored_data s)) (es_epoch es)) as [Heq|Hlt|Hgt].
    - apply wp_ret. destruct He as (_ & ? & ? & ?).
      apply (initialize_tail es); try done; [by left|by rewrite Hs2].
    - apply wp_set_safety_data. intros s3 r He3 Hc3 Hor Hr.
      pose proof (env_eq_trans _ _ _ He He3) as (_ & ? & ? & ?).
      destruct r as [[]|e|].
      + specialize (Hr eq_refl). apply (initialize_tail es); try done; [|by rewrite Hr].
        right. by exists (es_epoch es).
      + split_and!; try done. destruct Hor as [->| ->]; [right; by eexists|by left].
      + split_and!; try done. destruct Hor as [->| ->]; [right; by eexists|by left].
    - apply wp_read; try done; intros; by apply init_post_fail. }
  destruct (wp_version w <? wp_version nw).
  - apply wp_set_waypoint; [done|]. intros s1 r He1 Hc1 Hs1.
    destruct r as [[]|e|]; [by apply Hk|by apply init_post_fail..].
  - apply wp_ret. by apply Hk.
Qed.
(** ** Handlers that sign without writing *)
Definition kept s s' : Prop := env_eq s s' /\ coherent s' /\ stored_data s' = stored_data s.

Lemma proposal_handler bd s :
  coherent s -> wp (guarded_sign_proposal bd) s (fun s' r => kept s s' /\
    (forall sg, r = Ok sg -> sd_last_voted_round (stored_data s) < bd_round bd /\
       bd_epoch bd = sd_epoch (stored_data s) /\
       sd_preferred_round (stored_data s) <= bi_round (certified_block (bd_quorum_cert bd)))).
Proof.
  intros Hc. unfold guarded_sign_proposal.
  apply wp_bind_read; [done..|]. intros a0 _.
  apply wp_bind_read; [done..|]. intros u0 _.
  apply wp_bind_safety_data; [done|done..|]. intros s1 He1 Hc1 Hs1.
  apply wp_bind_read; [done..|]. intros u1 Hep.
  apply wp_bind_read; [done..|]. intros u2 Hlv.
  apply wp_bind_read; [done..|]. intros u3 _.
  apply wp_bind_read; [done..|]. intros u4 Hpr.
  apply wp_read; [done..|]. intros sg _. split; [done|]. intros _ _.
  unfold verify_epoch, verify_and_update_preferred_round in *. outcome_inv. bool_to_prop.
  case_match eqn:E; simplify_eq. by bool_to_prop.
Qed.

Lemma consensus_state_handler s :
  coherent s -> wp guarded_consensus_state s (fun s' r => kept s s' /\
    (forall c, r = Ok c -> cs_safety_data c = stored_data s)).
Proof.
  intros Hc. unfold guarded_consensus_state.
  apply wp_bind_read; [done..|]. intros w0 _.
  apply wp_bind_safety_data; [done|done..|]. intros s1 He1 Hc1 Hs1.
  assert (Hk : forall s2, env_eq s1 s2 -> coherent s2 -> stored_data s2 = stored_data s1 -> kept s s2).
  { intros s2 ???. split_and!; [by eapply env_eq_trans|done|congruence]. }
  apply wp_bind_safety_data; [done|intros; split; [by apply Hk|done]..|]. intros s2 He2 Hc2 Hs2.
  apply wp_bind_read; [intros; split; [by apply Hk|done]..|]. intros w _.
  apply wp_bind_read; [intros; split; [by apply Hk|done]..|]. intros b _.
  apply wp_ret. split; [by apply Hk|]. by intros c [= <-].
Qed.

Lemma commit_vote_handler ls li s :
  coherent s -> wp (guarded_sign_commit_vote ls li) s (fun s' r => kept s s').
Proof.
  intros Hc. unfold guarded_sign_commit_vote.
  apply wp_bind_read; [done..|]. intros a0 _. repeat (apply wp_bind_read; [done..|]; intros ? _).
  by apply wp_read.
Qed.

(** ** Order on safety data

    Epochs never go back, and within an epoch no round does. *)
Definition sd_le sd sd' : Prop :=
  sd_epoch sd < sd_epoch sd' \/
  (sd_epoch sd = sd_epoch sd' /\
   sd_last_voted_round sd <= sd_last_voted_round sd' /\
   sd_preferred_round sd <= sd_preferred_round sd' /\
   sd_one_chain_round sd <= sd_one_chain_round sd' /\
   sd_highest_timeout_round sd <= sd_highest_timeout_round sd').

#[global] Instance sd_le_preorder : PreOrder sd_le.
Proof.
  split.
  - intros sd. right. split_and!; lia.
  - intros x y z. unfold sd_le. lia.
Qed.

Lemma observe_qc_fields qc sd :
  let sd' := (observe_qc qc sd).1 in
  sd_epoch sd' = sd_epoch sd /\ sd_last_voted_round sd' = sd_last_voted_round sd /\
  sd_last_vote sd' = sd_last_vote sd /\
  sd_preferred_round sd' = Z.max (sd_preferred_round sd) (bi_round (parent_block qc)) /\
  sd_one_chain_round sd' = Z.max (sd_one_chain_round sd) (bi_round (certified_block qc)) /\
  sd_highest_timeout_round sd' = sd_highest_timeout_round sd.
Proof.
  unfold observe_qc.
  destruct (Z.ltb_spec (sd_one_chain_round sd) (bi_round (certified_block qc)));
  destruct (Z.ltb_spec (sd_preferred_round sd) (bi_round (parent_block qc))); cbn;
    split_and!; try done; lia.
Qed.

Lemma voted_data_fields vp v sd :
  let sd' := voted_data vp v sd in
  sd_epoch sd' = sd_epoch sd /\ sd_last_voted_round sd' = b_round (vp_block vp) /\
  sd_last_vote sd' = Some v /\
  sd_preferred_round sd' =
    Z.max (sd_preferred_round sd) (bi_round (parent_block (b_quorum_cert (vp_block vp)))) /\
  sd_one_chain_round sd' =
    Z.max (sd_one_chain_round sd) (bi_round (certified_block (b_quorum_cert (vp_block vp)))) /\
  sd_highest_timeout_round sd' = sd_highest_timeout_round sd.
Proof.
  unfold voted_data, set_last_vote.
  match goal with |- context [observe_qc ?q ?d] => pose proof (observe_qc_fields q d) as Hf end.
  cbn in Hf |- *. destruct Hf as (-> & -> & _ & -> & -> & ->). done.
Qed.

Lemma sd_le_voted now vp tc a v sd : fresh_vote now vp tc a sd v -> sd_le sd (voted_data vp v sd).
Proof.
  intros Hf. pose proof (fv_round _ _ _ _ _ _ Hf).
  destruct (voted_data_fields vp v sd) as (He & Hl & _ & Hp & Ho & Ht). right.
  rewrite He, Hl, Hp, Ho, Ht. lia.
Qed.

Lemma sd_le_timed_out s t tc : timeout_rules s t tc -> sd_le (stored_data s) (timed_out_data t (stored_data s)).
Proof. intros [_ _ Hl _]. right. cbn. lia. Qed.

Lemma sd_le_observed qc sd : sd_le sd (observe_qc qc sd).1.
Proof.
  destruct (observe_qc_fields qc sd) as (He & Hl & _ & Hp & Ho & Ht). right.
  rewrite He, Hl, Hp, Ho, Ht. lia.
Qed.

(** ** The handlers, in every outcome *)

(** C16: the vote handler.  Whatever it answers, the stored safety data is
    unchanged or is that of one new vote which obeys both voting rules, the
    block's well-formedness and the certificate checks, for the stored epoch; and
    a vote is only released once it is the vote on stable storage for the
    proposed round, be it the new one or the one already stored. *)
Theorem vote_handler_correct now vp tc s s' r :
  coherent s -> guarded_construct_and_sign_vote_two_chain now vp tc s = (s', r) ->
  vote_post now vp tc s s' r.
Proof. intros Hc. apply wp_run, vote_handler, Hc. Qed.

(** Initialisation never rewinds.  Whatever [guarded_initialize] answers, the
    stored safety data is unchanged or fresh data of a later epoch; when it
    succeeds the epoch state is that of the stored epoch and the signer is either
    the previous one or holds the key that the validator set lists for its
    author. *)
Theorem initialize_never_rewinds proof s s' r :
  coherent s -> guarded_initialize proof s = (s', r) -> init_post s s' r.
Proof. intros Hc. apply wp_run, initialize_handler, Hc. Qed.
End Spec.

(** ** Reading back what was written *)
Section ReadBack.
Context `{CryptoTypes} {S : Type} `{!KVStorage S}.

(** serde writes a [Result] with its variant's name, so a stored [SafetyData]
    does not decode as a [Result]. *)
Definition result_is_tagged : Prop :=
  forall (s s' : S) d, kv_set_safety_data s d = (s', inr tt) ->
  exists error, kv_get_safety_data_as_result s' = inl error.

(** After a successful write, [safety_data] returns the written value when the
    cache is enabled, and fails (or panics) when it is disabled, because the
    uncached branch decodes the entry as a [Result<SafetyData, Error>]: with
    [enable_cached_safety_data = false] the safety rules cannot read their own
    state. *)
Theorem safety_data_after_write (ps ps' : PersistentSafetyStorage (S := S)) d :
  result_is_tagged -> set_safety_data d ps = (ps', Ok tt) ->
  (enable_cached_safety_data ps = true -> (safety_data ps').2 = Ok d) /\
  (enable_cached_safety_data ps = false -> forall d', (safety_data ps').2 <> Ok d').
Proof.
  intros Htag Hset. unfold set_safety_data in Hset.
  destruct (kv_set_safety_data (internal_store ps) d) as [st [err|[]]] eqn:Es; simplify_eq.
  destruct (Htag _ _ _ Es) as [error Herr]. unfold safety_data. cbn.
  split; intros ->; cbn; [done|]. rewrite Herr. by destruct error.
Qed.
End ReadBack.

Module SampleStore.
Import InMemory.
#[local] Existing Instance Sample.types.
Definition empty_store : InMemoryStorage := mkInMemoryStorage _ None None None None [].
Definition uncached : PersistentSafetyStorage (S := InMemoryStorage) :=
  PersistentSafetyStorage_new empty_store false.
Definition after_write : PersistentSafetyStorage (S := InMemoryStorage) :=
  (set_safety_data (fresh_safety_data 7) uncached).1.

End SampleStore.

Import InMemory.
Lemma safety_data_after_write_witness :
  (safety_data SampleStore.after_write).2 <> Ok (fresh_safety_data 7).
Proof.
  apply (safety_data_after_write SampleStore.uncached SampleStore.after_write (fresh_safety_data 7)).
  - intros s s' d [= <-]. cbn. eauto.
  - reflexivity.
  - reflexivity.
Defined.
