(* ===== verification/SafetyRuns.v ===== *)
(** * Runs of one validator's safety rules

    A validator's safety rules serve an arbitrary sequence of calls, lose
    results, crash and restart from stable storage.  This file follows the
    signatures the validator releases in one epoch and proves the invariant that
    ties them to the stored safety data. *)

From S2P Require Import Prelude BitVec AptosTypes ValidatorVerifier Certificates SafetyRules SafetyRulesSpec.

(** The calls of the trait [TSafetyRules], except [sign_commit_vote]. *)
Inductive call `{CryptoTypes} :=
| CVote (now : Z) (vp : VoteProposal) (tc : option TwoChainTimeoutCertificate)
| CTimeout (t : TwoChainTimeout) (tc : option TwoChainTimeoutCertificate)
| COrderVote (p : OrderVoteProposal)
| CProposal (bd : BlockData)
| CInitialize (proof : EpochChangeProof)
| CConsensusState.

(** What a validator releases. *)
Inductive output `{CryptoTypes} :=
| OVote (v : Vote)
| OTimeout (t : TwoChainTimeout)
| OOrderVote (o : OrderVote)
| OProposal (bd : BlockData).

Section Runs.
Context `{CryptoFns} {S : Type} `{!KVStorage S, !KVStorageLaws S}.
Local Notation SR := (SafetyRules (S := S)).
Implicit Types (s : SR) (sd : SafetyData) (h : list output).

Definition returning {A} (f : A -> option output) (m : eff SR Error A)
    : eff SR Error (option output) :=
  a ←! m; eret (f a).

Definition run_call (c : call) : eff SR Error (option output) :=
  match c with
  | CVote now vp tc => returning (fun v => Some (OVote v)) (guarded_construct_and_sign_vote_two_chain now vp tc)
  | CTimeout t tc => returning (fun _ => Some (OTimeout t)) (guarded_sign_timeout_with_qc t tc)
  | COrderVote p => returning (fun o => Some (OOrderVote o)) (guarded_construct_and_sign_order_vote p)
  | CProposal bd => returning (fun _ => Some (OProposal bd)) (guarded_sign_proposal bd)
  | CInitialize proof => returning (fun _ => None) (guarded_initialize proof)
  | CConsensusState => returning (fun _ => None) guarded_consensus_state
  end.

(** A new process on the same stable storage. *)
Definition restart s : SR :=
  SafetyRules_new
    (PersistentSafetyStorage_new (internal_store (persistent_storage s))
       (enable_cached_safety_data (persistent_storage s)))
    (skip_sig_verify s).

(** A call can return, fail, or never be heard of again because the process
    stops (a panic, or a crash at any point after its last write). *)
Inductive step (ok : call -> SR -> SR -> Prop) : SR -> list output -> SR -> Prop :=
| step_return c s s' o :
    run_call c s = (s', Ok o) -> ok c s s' -> step ok s (option_list o) s'
| step_error c s s' e :
    run_call c s = (s', Err e) -> ok c s s' -> step ok s [] s'
| step_crash c s s' r :
    run_call c s = (s', r) -> ok c s s' -> step ok s [] (restart s')
| step_restart s : step ok s [] (restart s).

(** The released outputs, latest first. *)
Inductive run (ok : call -> SR -> SR -> Prop) (s0 : SR) : list output -> SR -> Prop :=
| run_nil : run ok s0 [] s0
| run_snoc h s out s' : run ok s0 h s -> step ok s out s' -> run ok s0 (out ++ h) s'.

(** ** The safety data along a run *)
Definition call_effect (c : call) s s' : Prop :=
  coherent s' /\ sd_le (stored_data s) (stored_data s').

Lemma returning_state {A} (f : A -> option output) (m : eff SR Error A) s s' r :
  returning f m s = (s', r) -> exists r0, m s = (s', r0) /\
    (forall o, r = Ok o -> exists a, r0 = Ok a /\ o = f a).
Proof.
  unfold returning, ebind, eret. destruct (m s) as [s1 [a|e|]]; intros [= <- <-]; eexists;
    (split; [done|]); intros o Ho; simplify_eq. by exists a.
Qed.

Lemma run_call_effect c s s' r :
  coherent s -> run_call c s = (s', r) -> coherent s' /\ sd_le (stored_data s) (stored_data s').
Proof.
  intros Hc Hr.
  destruct c as [now vp tc|t tc|p|bd|proof|]; cbn in Hr; apply returning_state in Hr as (r0 & Hr & _).
  - destruct (wp_run _ _ _ _ _ (vote_handler now vp tc s Hc) Hr)
      as (_ & Hc' & [->|(v & a & _ & Hf & -> & _)] & _); (split; [done|]); [done|].
    by eapply sd_le_voted.
  - destruct (wp_run _ _ _ _ _ (timeout_handler t tc s Hc) Hr) as (_ & Hc' & [->|(Ht & ->)] & _);
      (split; [done|]); [done|]. by eapply sd_le_timed_out.
  - destruct (wp_run _ _ _ _ _ (order_handler p s Hc) Hr) as (_ & Hc' & [->|(Ht & ->)] & _);
      (split; [done|]); [done|]. by eapply sd_le_observed.
  - by destruct (wp_run _ _ _ _ _ (proposal_handler bd s Hc) Hr) as ((_ & Hc' & ->) & _).
  - destruct (wp_run _ _ _ _ _ (initialize_handler proof s Hc) Hr)
      as (_ & _ & Hc' & [->|(ep & Hlt & ->)] & _); (split; [done|]); [done|]. by left.
  - by destruct (wp_run _ _ _ _ _ (consensus_state_handler s Hc) Hr) as ((_ & Hc' & ->) & _).
Qed.

Lemma restart_coherent s : coherent (restart s).
Proof. by intros d. Qed.
Lemma restart_stored s : stored_data (restart s) = stored_data s.
Proof. done. Qed.

Lemma step_effect ok s out s' :
  coherent s -> step ok s out s' -> coherent s' /\ sd_le (stored_data s) (stored_data s').
Proof.
  intros Hc Hst. destruct Hst as [c s s' o Hr _|c s s' e Hr _|c s s' r Hr _|s].
  - by eapply run_call_effect.
  - by eapply run_call_effect.
  - split; [apply restart_coherent|]. rewrite restart_stored. by eapply run_call_effect.
  - split; [apply restart_coherent|]. by rewrite restart_stored.
Qed.

(** However a validator's safety rules are called, interrupted and
    restarted, the safety data on stable storage only moves forward: the epoch
    never decreases, within an epoch none of the last voted, preferred, one-chain
    and highest timeout rounds does, and the cache stays equal to what is stored. *)
Theorem safety_data_monotone ok s0 h s :
  coherent s0 -> run ok s0 h s -> coherent s /\ sd_le (stored_data s0) (stored_data s).
Proof.
  intros Hc Hrun. induction Hrun as [|h s out s' _ [IHc IHle] Hst]; [done|].
  destruct (step_effect _ _ _ _ IHc Hst) as [? ?]. split; [done|]. by etrans.
Qed.
(** ** What is signed in one epoch

    [e] is the epoch and [V] its validator set. *)
Section Epoch.
Context (e : Z) (V : ValidatorVerifier).

Definition vote_epoch (v : Vote) : Z := bi_epoch (vd_proposed (v_vote_data v)).
Definition vote_round (v : Vote) : Round := bi_round (vd_proposed (v_vote_data v)).
Definition parent_round (v : Vote) : Round := bi_round (vd_parent (v_vote_data v)).
Definition ordered_block (o : OrderVote) : BlockInfo := li_commit_info (o_ledger_info o).

(** The obligations of the caller and of the environment.  The caller passes
    timeout certificates of the proposal's epoch, and has checked the
    certificates itself when the safety rules skip the check; equal ids mean the
    same block; and the validator set that an epoch change proof announces for
    epoch [e] is [V]. *)
Definition call_ok (c : call) s s' : Prop :=
  match c with
  | CVote _ vp tc =>
      b_epoch (vp_block vp) = e ->
      (forall t, tc = Some t -> tc_epoch t = e) /\
      (skip_sig_verify s = true ->
         QuorumCert_verify (b_quorum_cert (vp_block vp)) V = Ok tt /\
         forall t, tc = Some t -> TimeoutCertificate_verify t V = Ok tt)
  | COrderVote p =>
      (bi_id (ov_block_info p) = b_id (ov_block p) ->
         bi_epoch (ov_block_info p) = b_epoch (ov_block p) /\
         bi_round (ov_block_info p) = b_round (ov_block p)) /\
      (b_epoch (ov_block p) = e -> skip_sig_verify s = true ->
         QuorumCert_verify (ov_quorum_cert p) V = Ok tt)
  | CInitialize _ =>
      sd_epoch (stored_data s') = e -> forall es, epoch_state s' = Some es -> es_verifier es = V
  | _ => True
  end.

(** What a vote of the epoch rests on. *)
Record vote_just (v : Vote) : Prop := {
  vj_epoch : vote_epoch v = e;
  vj_parent_epoch : bi_epoch (vd_parent (v_vote_data v)) = e;
  vj_round : parent_round v < vote_round v;
  vj_commit :
    (li_commit_info (v_ledger_info v) = vd_parent (v_vote_data v) /\ vote_round v = parent_round v + 1) \/
    li_commit_info (v_ledger_info v) = BlockInfo_empty;
  vj_qc : exists qc, QuorumCert_verify qc V = Ok tt /\ certified_block qc = vd_parent (v_vote_data v);
  vj_rule :
    vote_round v = parent_round v + 1 \/ vote_round v = 1 \/
    exists tc, TimeoutCertificate_verify tc V = Ok tt /\ tc_epoch tc = e /\
      vote_round v = tc_round tc + 1 /\ highest_hqc_round tc <= parent_round v
}.

Definition order_just (o : OrderVote) : Prop :=
  exists qc, QuorumCert_verify qc V = Ok tt /\ certified_block qc = ordered_block o.

(** Vote and order vote signatures of any epoch cover ledger infos of disjoint
    kinds. *)
Definition vote_hashed (v : Vote) : Prop :=
  li_consensus_data_hash (v_ledger_info v) = hash_vote_data (v_vote_data v).
Definition order_unhashed (o : OrderVote) : Prop :=
  li_consensus_data_hash (o_ledger_info o) = HashValue_zero.

(** The votes of the epoch: released, or stored and ready to be sent again. *)
Definition votes_of sd h (v : Vote) : Prop :=
  vote_epoch v = e /\ (OVote v ∈ h \/ sd_last_vote sd = Some v).
Definition timeouts_of h (t : TwoChainTimeout) : Prop := OTimeout t ∈ h /\ to_epoch t = e.
Definition orders_of h (o : OrderVote) : Prop := OOrderVote o ∈ h /\ bi_epoch (ordered_block o) = e.

Record facts sd h : Prop := {
  f_last_epoch v : sd_last_vote sd = Some v -> vote_epoch v = sd_epoch sd;
  f_hashed v : OVote v ∈ h \/ sd_last_vote sd = Some v -> vote_hashed v;
  f_unhashed o : OOrderVote o ∈ h -> order_unhashed o;
  f_before : sd_epoch sd < e ->
    (forall v, ~ votes_of sd h v) /\ (forall t, ~ timeouts_of h t) /\ (forall o, ~ orders_of h o);
  f_just v : votes_of sd h v -> vote_just v;
  f_order_just o : orders_of h o -> order_just o;
  f_unique v1 v2 : votes_of sd h v1 -> votes_of sd h v2 -> vote_round v1 = vote_round v2 -> v1 = v2;
  f_vote_timeout v t : votes_of sd h v -> timeouts_of h t ->
    vote_round v <= to_round t -> parent_round v <= to_hqc_round t;
  f_order_timeout o t : orders_of h o -> timeouts_of h t ->
    bi_round (ordered_block o) <= to_round t -> bi_round (ordered_block o) <= to_hqc_round t;
  f_votes v : sd_epoch sd = e -> votes_of sd h v ->
    vote_round v <= sd_last_voted_round sd /\ parent_round v <= sd_one_chain_round sd;
  f_timeouts t : sd_epoch sd = e -> timeouts_of h t ->
    to_round t <= sd_last_voted_round sd /\ to_round t <= sd_highest_timeout_round sd;
  f_orders o : sd_epoch sd = e -> orders_of h o ->
    bi_round (ordered_block o) <= sd_one_chain_round sd
}.

Lemma facts_grow sd sd' h :
  facts sd h -> sd_epoch sd' = sd_epoch sd -> sd_last_vote sd' = sd_last_vote sd -> sd_le sd sd' ->
  facts sd' h.
Proof.
  intros [] He Hl Hle. assert (Hv : forall v, votes_of sd' h v -> votes_of sd h v)
    by (intros v; unfold votes_of; by rewrite Hl).
  destruct Hle as [|(_ & ? & ? & ? & ?)]; [lia|]. split; rewrite ?He; eauto.
  - intros v Hv'. rewrite Hl in Hv'. auto.
  - intros v Hv'. rewrite Hl in Hv'. auto.
  - intros Hlt. destruct (f_before0 Hlt) as (? & ? & ?). naive_solver.
  - intros v He' ?%Hv. destruct (f_votes0 v He'); [done|]. lia.
  - intros t He' Ht. destruct (f_timeouts0 t He' Ht). lia.
  - intros o He' Ho. pose proof (f_orders0 o He' Ho). lia.
Qed.

Lemma facts_new_epoch sd sd' h :
  facts sd h -> sd_epoch sd < sd_epoch sd' -> sd_last_vote sd' = None -> facts sd' h.
Proof.
  intros [] Hlt Hn. assert (Hv : forall v, votes_of sd' h v -> votes_of sd h v).
  { intros v [? [?|?]]; [split; auto|congruence]. }
  split; eauto.
  - congruence.
  - intros v [?|?]; [auto|congruence].
  - intros Hlt'. destruct (f_before0 ltac:(lia)) as (? & ? & ?). naive_solver.
  - intros v <- Hx. destruct (f_before0 Hlt) as (Hn' & _). by destruct (Hn' v (Hv v Hx)).
  - intros t <- Hx. destruct (f_before0 Hlt) as (_ & Hn' & _). by destruct (Hn' t Hx).
  - intros o <- Hx. destruct (f_before0 Hlt) as (_ & _ & Hn'). by destruct (Hn' o Hx).
Qed.

(** A new vote of the current epoch. *)
Lemma facts_vote sd sd' h v :
  facts sd h -> sd_epoch sd' = sd_epoch sd -> sd_last_vote sd' = Some v -> sd_le sd sd' ->
  vote_epoch v = sd_epoch sd -> sd_last_voted_round sd < vote_round v ->
  vote_round v <= sd_last_voted_round sd' -> parent_round v <= sd_one_chain_round sd' ->
  vote_hashed v -> (sd_epoch sd = e -> vote_just v) ->
  facts sd' h.
Proof.
  intros [] He Hl Hle Hev Hround Hr' Ho' Hh Hj.
  assert (Hv : forall w, votes_of sd' h w -> (votes_of sd h w \/ (w = v /\ sd_epoch sd = e))).
  { intros w [Hw [?|Hlw]]; [left; split; auto|]. right. rewrite Hl in Hlw. simplify_eq. split; congruence. }
  destruct Hle as [|(_ & ? & ? & ? & ?)]; [lia|]. split; rewrite ?He; eauto.
  - intros w Hw. rewrite Hl in Hw. by simplify_eq.
  - intros w [?|Hw]; [auto|]. rewrite Hl in Hw. by simplify_eq.
  - intros Hlt. destruct (f_before0 Hlt) as (Hn & ? & ?). split_and!; try done.
    intros w [?|[_ ?]]%Hv; [by eapply Hn|lia].
  - intros w [?|[-> ?]]%Hv; auto.
  - intros v1 v2 [Hv1|[-> Hx]]%Hv [Hv2|[-> Hy]]%Hv Heq; auto.
    + destruct (f_votes0 v1); [done..|]. lia.
    + destruct (f_votes0 v2); [done..|]. lia.
  - intros w t [Hv1|[-> Hx]]%Hv Ht Hle; [eauto|]. destruct (f_timeouts0 t Hx Ht). lia.
  - intros w Hx [Hv1|[-> _]]%Hv; [|done]. destruct (f_votes0 w Hx Hv1). lia.
  - intros t Hx Ht. destruct (f_timeouts0 t Hx Ht). lia.
  - intros o Hx Ho. pose proof (f_orders0 o Hx Ho). lia.
Qed.

(** ** Releasing an output *)
Lemma votes_of_cons sd h out v :
  votes_of sd (out :: h) v <-> votes_of sd h v \/ (out = OVote v /\ vote_epoch v = e).
Proof. unfold votes_of. rewrite elem_of_cons. naive_solver. Qed.
Lemma timeouts_of_cons h out t :
  timeouts_of (out :: h) t <-> timeouts_of h t \/ (out = OTimeout t /\ to_epoch t = e).
Proof. unfold timeouts_of. rewrite elem_of_cons. naive_solver. Qed.
Lemma orders_of_cons h out o :
  orders_of (out :: h) o <-> orders_of h o \/ (out = OOrderVote o /\ bi_epoch (ordered_block o) = e).
Proof. unfold orders_of. rewrite elem_of_cons. naive_solver. Qed.

(** An output that adds no vote, timeout or order vote of the epoch. *)
Lemma facts_cons sd h out :
  facts sd h ->
  (forall v, votes_of sd (out :: h) v -> votes_of sd h v) ->
  (forall t, timeouts_of (out :: h) t -> timeouts_of h t) ->
  (forall o, orders_of (out :: h) o -> orders_of h o) ->
  (forall v, out = OVote v -> vote_hashed v) -> (forall o, out = OOrderVote o -> order_unhashed o) ->
  facts sd (out :: h).
Proof.
  intros [] Hv Ht Ho Hh Hu. split; eauto 6.
  1: intros v [[<-|?]%elem_of_cons|?]; auto.
  1: intros o [<-|?]%elem_of_cons; auto.
  intros Hlt. destruct (f_before0 Hlt) as (? & ? & ?). naive_solver.
Qed.

Lemma facts_release_vote sd h v :
  facts sd h -> sd_last_vote sd = Some v -> facts sd (OVote v :: h).
Proof.
  intros Hf Hl. apply facts_cons; [done|..|done].
  - intros w [?|[[= ->] ?]]%votes_of_cons; [done|]. split; auto.
  - intros t [?|[? _]]%timeouts_of_cons; done.
  - intros o [?|[? _]]%orders_of_cons; done.
  - intros w [= <-]. apply (f_hashed _ _ Hf). by right.
Qed.

Lemma facts_release_proposal sd h bd : facts sd h -> facts sd (OProposal bd :: h).
Proof.
  intros Hf. apply facts_cons; [done|..|done|done].
  - intros v [?|[? _]]%votes_of_cons; done.
  - intros t [?|[? _]]%timeouts_of_cons; done.
  - intros o [?|[? _]]%orders_of_cons; done.
Qed.

Lemma facts_release_timeout sd h t :
  facts sd h -> to_epoch t = sd_epoch sd -> to_round t <= sd_last_voted_round sd ->
  to_round t <= sd_highest_timeout_round sd -> sd_one_chain_round sd <= to_hqc_round t ->
  facts sd (OTimeout t :: h).
Proof.
  intros [] He Hr Hh Ho.
  assert (Hv : forall v, votes_of sd (OTimeout t :: h) v -> votes_of sd h v)
    by (intros v [?|[? _]]%votes_of_cons; done).
  assert (Hor : forall o, orders_of (OTimeout t :: h) o -> orders_of h o)
    by (intros o [?|[? _]]%orders_of_cons; done).
  split; eauto.
  - intros v [[?|?]%elem_of_cons|?]; auto. done.
  - intros o [?|?]%elem_of_cons; auto. done.
  - intros Hlt. destruct (f_before0 Hlt) as (? & Hn & ?). split_and!; [naive_solver| |naive_solver].
    intros t' [Ht|[[= ->] ?]]%timeouts_of_cons; [by apply (Hn t')|lia].
  - intros v t' ?%Hv [Ht|[[= ->] Hx]]%timeouts_of_cons Hle; [eauto|].
    destruct (f_votes0 v ltac:(congruence)); [done|]. lia.
  - intros o t' ?%Hor [Ht|[[= ->] Hx]]%timeouts_of_cons Hle; [eauto|].
    pose proof (f_orders0 o ltac:(congruence) ltac:(done)). lia.
  - intros t' Hx [Ht|[[= ->] _]]%timeouts_of_cons; [eauto|done].
Qed.

Lemma facts_release_order sd h o :
  facts sd h -> bi_epoch (ordered_block o) = sd_epoch sd ->
  bi_round (ordered_block o) <= sd_one_chain_round sd ->
  sd_highest_timeout_round sd < bi_round (ordered_block o) ->
  order_unhashed o -> (sd_epoch sd = e -> order_just o) -> facts sd (OOrderVote o :: h).
Proof.
  intros [] He Hr Hh Hu Hj.
  assert (Hv : forall v, votes_of sd (OOrderVote o :: h) v -> votes_of sd h v)
    by (intros v [?|[? _]]%votes_of_cons; done).
  assert (Ht : forall t, timeouts_of (OOrderVote o :: h) t -> timeouts_of h t)
    by (intros t [?|[? _]]%timeouts_of_cons; done).
  split; eauto.
  - intros v [[?|?]%elem_of_cons|?]; auto. done.
  - intros o' [[= ->]|?]%elem_of_cons; auto.
  - intros Hlt. destruct (f_before0 Hlt) as (? & ? & Hn). split_and!; [naive_solver..|].
    intros o' [Ho|[[= ->] ?]]%orders_of_cons; [by apply (Hn o')|lia].
  - intros o' [Ho|[[= ->] Hx]]%orders_of_cons; [eauto|]. apply Hj. congruence.
  - intros o' t [Ho|[[= ->] Hx]]%orders_of_cons ?%Ht Hle; [eauto|].
    destruct (f_timeouts0 t ltac:(congruence)); [done|]. lia.
  - intros o' Hx [Ho|[[= ->] _]]%orders_of_cons; [eauto|done].
Qed.
(** ** What the checks of a new vote establish *)
Lemma next_round_Ok r r' : @next_round _ r = Ok r' -> r' = r + 1.
Proof.
  unfold next_round, checked_add. intros Hn. outcome_inv. case_match; by simplify_eq.
Qed.

Lemma safe_to_vote_cases block tc :
  @safe_to_vote _ block tc = Ok tt ->
  let round := b_round block in
  let qc_round := bi_round (certified_block (b_quorum_cert block)) in
  round = qc_round + 1 \/ (tc = None /\ round = 1) \/
  exists t, tc = Some t /\ round = tc_round t + 1 /\ highest_hqc_round t <= qc_round.
Proof.
  unfold safe_to_vote. intros Hs. apply bind_Ok in Hs as (n & ->%next_round_Ok & Hs).
  case_match eqn:E; bool_to_prop; [by left|right].
  apply bind_Ok in Hs as (m & ->%next_round_Ok & Hs). outcome_inv. bool_to_prop.
  destruct tc as [t|]; [right; by exists t|by left].
Qed.

Lemma well_formed_parent block now :
  verify_well_formed block now = Ok tt ->
  bi_round (certified_block (b_quorum_cert block)) < b_round block /\
  bi_epoch (certified_block (b_quorum_cert block)) = b_epoch block.
Proof.
  unfold verify_well_formed. intros Hw.
  apply bind_Ok in Hw as (? & _ & Hw). apply bind_Ok in Hw as (? & Hr & Hw).
  apply bind_Ok in Hw as (? & He & _). outcome_inv. by bool_to_prop.
Qed.

Lemma ledger_info_cases block hash li :
  @construct_ledger_info_2chain _ block hash = Ok li ->
  let parent := certified_block (b_quorum_cert block) in
  li_consensus_data_hash li = hash /\
  ((li_commit_info li = parent /\ b_round block = bi_round parent + 1) \/
   li_commit_info li = BlockInfo_empty).
Proof.
  unfold construct_ledger_info_2chain. intros Hl.
  apply bind_Ok in Hl as (n & ->%next_round_Ok & Hl). outcome_inv. subst. cbn.
  split; [done|]. case_match eqn:E; bool_to_prop; [by left|by right].
Qed.

Lemma fresh_vote_just now vp tc a s s' v :
  fresh_vote now vp tc a (stored_data s) v ->
  b_epoch (vp_block vp) = sd_epoch (stored_data s) -> sd_epoch (stored_data s) = e ->
  qc_checked s (b_quorum_cert (vp_block vp)) -> tc_checked s tc ->
  call_ok (CVote now vp tc) s s' ->
  (forall es, epoch_state s = Some es -> es_verifier es = V) ->
  vote_just v.
Proof.
  intros Hf Hep He (es & Hes & Hqc) Htc Hok HV. destruct (Hok ltac:(congruence)) as [Hte Hskip].
  destruct (gen_vote_data_fields _ _ (fv_data _ _ _ _ _ _ Hf)) as (Hr & Hbe & _ & Hp).
  destruct (well_formed_parent _ _ (fv_well_formed _ _ _ _ _ _ Hf)) as [Hlt Hpe].
  destruct (ledger_info_cases _ _ _ (fv_ledger_info _ _ _ _ _ _ Hf)) as [_ Hci].
  assert (HvT : forall t, tc = Some t -> TimeoutCertificate_verify t V = Ok tt).
  { intros t ->. destruct (skip_sig_verify s) eqn:Esk; [by apply Hskip|].
    destruct (Htc t eq_refl Esk) as (es' & Hes' & <-). by rewrite (HV es' Hes'). }
  unfold vote_epoch, vote_round, parent_round in *.
  split; unfold vote_epoch, vote_round, parent_round; rewrite ?Hp, ?Hr, ?Hbe; try done; try congruence.
  - exists (b_quorum_cert (vp_block vp)). split; [|done]. rewrite <- (HV es Hes).
    destruct (skip_sig_verify s) eqn:Esk; [|by apply Hqc]. rewrite (HV es Hes). by apply Hskip.
  - destruct (safe_to_vote_cases _ _ (fv_safe _ _ _ _ _ _ Hf)) as [?|[[_ ?]|(t & -> & ? & ?)]];
      [by left|by right; left|right; right]. exists t. split_and!; auto.
Qed.

(** ** The invariant of a run *)
Record inv s h : Prop := {
  inv_coherent : coherent s;
  inv_env : sd_epoch (stored_data s) = e -> forall es, epoch_state s = Some es -> es_verifier es = V;
  inv_facts : facts (stored_data s) h
}.

Lemma inv_kept s s' h : inv s h -> kept s s' -> inv s' h.
Proof.
  intros [Hc He Hf] ((Hes & _) & Hc' & Hs). split; rewrite ?Hs; try done. by rewrite Hes.
Qed.

Lemma inv_same_epoch s s' h :
  inv s h -> env_eq s s' -> coherent s' -> sd_epoch (stored_data s') = sd_epoch (stored_data s) ->
  facts (stored_data s') h -> inv s' h.
Proof. intros [Hc He Hf] (Hes & _) Hc' Hep Hf'. split; try done. rewrite Hep, Hes. done. Qed.

Lemma inv_restart s h : inv s h -> inv (restart s) h.
Proof. intros [Hc He Hf]. split; [apply restart_coherent|done|done]. Qed.

Lemma inv_vote_call now vp tc s s' r h :
  inv s h -> call_ok (CVote now vp tc) s s' ->
  guarded_construct_and_sign_vote_two_chain now vp tc s = (s', r) ->
  inv s' h /\ (forall v, r = Ok v -> inv s' (OVote v :: h)).
Proof.
  intros Hi Hok Hr. pose proof Hi as [Hc He Hf].
  destruct (wp_run _ _ _ _ _ (vote_handler now vp tc s Hc) Hr) as (Henv & Hc' & Hst & Hres).
  assert (Hi' : inv s' h).
  { destruct Hst as [Hs|(v & a & _ & Hfv & Hs & Hep & Hqc & Htc)]; [by apply (inv_kept s)|].
    destruct (voted_data_fields vp v (stored_data s)) as (Hve & Hvl & Hvv & _ & Hvo & _).
    destruct (gen_vote_data_fields _ _ (fv_data _ _ _ _ _ _ Hfv)) as (Hr1 & Hr2 & _ & Hp).
    apply (inv_same_epoch s); try done; rewrite Hs; [done|].
    apply (facts_vote (stored_data s) _ h v); try done.
    - by eapply sd_le_voted.
    - unfold vote_epoch. congruence.
    - unfold vote_round. rewrite Hr1. by eapply fv_round.
    - unfold vote_round. rewrite Hr1, Hvl. lia.
    - unfold parent_round. rewrite Hp, Hvo. lia.
    - by destruct (ledger_info_cases _ _ _ (fv_ledger_info _ _ _ _ _ _ Hfv)).
    - intros Hx. eapply fresh_vote_just; try done. by apply He. }
  split; [done|]. intros v ->. destruct (Hres v eq_refl) as (_ & Hlv & _).
  destruct Hi'. split; try done. by apply facts_release_vote.
Qed.

Lemma inv_timeout_call t tc s s' r h :
  inv s h -> guarded_sign_timeout_with_qc t tc s = (s', r) ->
  inv s' h /\ (forall sg, r = Ok sg -> inv s' (OTimeout t :: h)).
Proof.
  intros Hi Hr. pose proof Hi as [Hc He Hf].
  destruct (wp_run _ _ _ _ _ (timeout_handler t tc s Hc) Hr) as (Henv & Hc' & Hst & Hres).
  assert (Hi' : inv s' h).
  { destruct Hst as [Hs|(Ht & Hs)]; [by apply (inv_kept s)|].
    apply (inv_same_epoch s); try done; rewrite Hs; [done|].
    apply (facts_grow (stored_data s)); try done. by eapply sd_le_timed_out. }
  split; [done|]. intros sg ->. destruct (Hres sg eq_refl) as ([Hep Hsafe Hlv _] & Hs).
  destruct Hi'. split; try done. apply facts_release_timeout; [done|rewrite Hs; cbn; try done; try lia..].
  unfold safe_to_timeout in Hsafe. apply bind_Ok in Hsafe as (? & _ & Hsafe).
  apply bind_Ok in Hsafe as (? & _ & Hsafe). outcome_inv. by bool_to_prop.
Qed.

Lemma inv_order_call p s s' r h :
  inv s h -> call_ok (COrderVote p) s s' -> guarded_construct_and_sign_order_vote p s = (s', r) ->
  inv s' h /\ (forall o, r = Ok o -> inv s' (OOrderVote o :: h)).
Proof.
  intros Hi [Hid Hskip] Hr. pose proof Hi as [Hc He Hf].
  destruct (wp_run _ _ _ _ _ (order_handler p s Hc) Hr) as (Henv & Hc' & Hst & Hres).
  destruct (observe_qc_fields (ov_quorum_cert p) (stored_data s)) as (Hoe & Hol & Hov & _ & Hoo & Hot).
  assert (Hi' : inv s' h).
  { destruct Hst as [Hs|(Ht & Hs)]; [by apply (inv_kept s)|].
    apply (inv_same_epoch s); try done; rewrite Hs; [done|].
    apply (facts_grow (stored_data s)); try done. apply sd_le_observed. }
  split; [done|]. intros o ->.
  destruct (Hres o eq_refl) as ([Hep Hinfo Hids (es & Hes & Hqc) Hht] & Hs & Hli).
  rewrite Hinfo in Hids. destruct (Hid Hids) as [Hbe Hbr].
  assert (Hob : ordered_block o = ov_block_info p) by (unfold ordered_block; by rewrite Hli).
  destruct Hi'. split; try done. apply facts_release_order; [done|rewrite ?Hs, ?Hob; try done..].
  - congruence.
  - rewrite Hoo, Hinfo. lia.
  - rewrite Hot. lia.
  - unfold order_unhashed. by rewrite Hli.
  - rewrite Hoe. intros Hx. exists (ov_quorum_cert p).
    split; [|by rewrite Hob]. rewrite <- (He Hx es Hes).
    destruct (skip_sig_verify s) eqn:Esk; [|by apply Hqc].
    rewrite (He Hx es Hes). apply Hskip; congruence.
Qed.

Lemma inv_initialize_call proof s s' r h :
  inv s h -> call_ok (CInitialize proof) s s' -> guarded_initialize proof s = (s', r) -> inv s' h.
Proof.
  intros [Hc He Hf] Hok Hr.
  destruct (wp_run _ _ _ _ _ (initialize_handler proof s Hc) Hr) as (_ & _ & Hc' & Hst & _).
  split; [done|exact Hok|]. destruct Hst as [->|(ep & Hlt & ->)]; [done|].
  by eapply facts_new_epoch.
Qed.

Lemma inv_call c s s' r h :
  inv s h -> call_ok c s s' -> run_call c s = (s', r) ->
  inv s' h /\ (forall o, r = Ok o -> inv s' (option_list o ++ h)).
Proof.
  intros Hi Hok Hr.
  destruct c as [now vp tc|t tc|p|bd|proof|]; cbn in Hr; apply returning_state in Hr as (r0 & Hr & Ho).
  - destruct (inv_vote_call _ _ _ _ _ _ _ Hi Hok Hr) as [? Hv]. split; [done|].
    intros o (a & -> & ->)%Ho. by apply Hv.
  - destruct (inv_timeout_call _ _ _ _ _ _ Hi Hr) as [? Hv]. split; [done|].
    intros o (a & -> & ->)%Ho. by eapply Hv.
  - destruct (inv_order_call _ _ _ _ _ Hi Hok Hr) as [? Hv]. split; [done|].
    intros o (a & -> & ->)%Ho. by apply Hv.
  - destruct (wp_run _ _ _ _ _ (proposal_handler bd s (inv_coherent _ _ Hi)) Hr) as (Hk & _).
    pose proof (inv_kept _ _ _ Hi Hk) as Hi'. split; [done|]. intros o (a & _ & ->)%Ho.
    destruct Hi'. split; try done. by apply facts_release_proposal.
  - pose proof (inv_initialize_call _ _ _ _ _ Hi Hok Hr). split; [done|]. by intros o (a & _ & ->)%Ho.
  - destruct (wp_run _ _ _ _ _ (consensus_state_handler s (inv_coherent _ _ Hi)) Hr) as (Hk & _).
    pose proof (inv_kept _ _ _ Hi Hk). split; [done|]. by intros o (a & _ & ->)%Ho.
Qed.

Lemma inv_step s out s' h : inv s h -> step call_ok s out s' -> inv s' (out ++ h).
Proof.
  intros Hi Hst. destruct Hst as [c s s' o Hr Hok|c s s' x Hr Hok|c s s' r Hr Hok|s].
  - by destruct (inv_call _ _ _ _ _ Hi Hok Hr) as [_ Ho]; apply Ho.
  - by destruct (inv_call _ _ _ _ _ Hi Hok Hr).
  - apply inv_restart. by destruct (inv_call _ _ _ _ _ Hi Hok Hr).
  - by apply inv_restart.
Qed.

(** A validator before the epoch, or at its very beginning. *)
Definition before_epoch s : Prop :=
  coherent s /\ sd_epoch (stored_data s) <= e /\
  (forall v, sd_last_vote (stored_data s) = Some v ->
     sd_epoch (stored_data s) < e /\ vote_epoch v = sd_epoch (stored_data s) /\ vote_hashed v) /\
  (sd_epoch (stored_data s) = e -> forall es, epoch_state s = Some es -> es_verifier es = V).

Lemma inv_init s : before_epoch s -> inv s [].
Proof.
  intros (Hc & Hle & Hl & HV). split; [done|done|].
  assert (Hv : forall v, ~ votes_of (stored_data s) [] v).
  { intros v [He [?%elem_of_nil|Hx]]; [done|]. destruct (Hl v Hx). lia. }
  assert (Ht : forall t, ~ timeouts_of [] t) by (by intros t [?%elem_of_nil _]).
  assert (Ho : forall o, ~ orders_of [] o) by (by intros o [?%elem_of_nil _]).
  split; try (by intros ? []%Hv); try (by intros ? []%Ht); try (by intros ? []%Ho); try (by intros ? ? _ []%Ht).
  - intros v Hx. by destruct (Hl v Hx) as (_ & ? & _).
  - intros v [?%elem_of_nil|Hx]; [done|]. by destruct (Hl v Hx) as (_ & _ & ?).
  - by intros o ?%elem_of_nil.
  - done.
  - by intros v1 v2 []%Hv.
  - by intros v _ []%Hv.
  - by intros t _ []%Ht.
  - by intros o _ []%Ho.
Qed.

Lemma inv_run s0 h s : before_epoch s0 -> run call_ok s0 h s -> inv s h.
Proof.
  intros H0' Hrun. induction Hrun as [|h s out s' _ IH Hst]; [by apply inv_init|].
  by eapply inv_step.
Qed.
(** C10: one vote per round.  In one epoch a validator never releases two different
    votes for the same round, through restarts, lost answers and failing writes;
    asked again it repeats the stored vote. *)
Theorem one_vote_per_round s0 h s v1 v2 :
  before_epoch s0 -> run call_ok s0 h s ->
  OVote v1 ∈ h -> OVote v2 ∈ h -> vote_epoch v1 = e -> vote_epoch v2 = e ->
  vote_round v1 = vote_round v2 -> v1 = v2.
Proof.
  intros H1 H2 Hv1 Hv2 He1 He2 Hr. destruct (inv_run _ _ _ H1 H2) as [_ _ Hf].
  eapply (f_unique _ _ Hf); [split; auto..|done].
Qed.

(** C30: timeouts account for earlier votes.  When a validator has released a
    timeout for round [r], the quorum round it signed covers every vote it has
    released for a round up to [r] (it is at least the voted block's parent
    round) and every order vote up to [r] (at least the ordered block's round);
    it has released no order vote at all between that quorum round and [r]. *)
Theorem timeouts_cover_votes s0 h s t :
  before_epoch s0 -> run call_ok s0 h s -> OTimeout t ∈ h -> to_epoch t = e ->
  (forall v, OVote v ∈ h -> vote_epoch v = e -> vote_round v <= to_round t ->
     parent_round v <= to_hqc_round t) /\
  (forall o, OOrderVote o ∈ h -> bi_epoch (ordered_block o) = e ->
     ~ (to_hqc_round t < bi_round (ordered_block o) <= to_round t)).
Proof.
  intros H1 H2 Ht He. destruct (inv_run _ _ _ H1 H2) as [_ _ Hf]. split.
  - intros v Hv Hev Hle. eapply (f_vote_timeout _ _ Hf); [split; auto..|done].
  - intros o Ho Heo [Hlt Hle].
    pose proof (f_order_timeout _ _ Hf o t ltac:(done) ltac:(done) Hle). lia.
Qed.
End Epoch.
End Runs.
