(* ===== verification/SafetyLive.v ===== *)
(** * Progress of the safety rules

    The safety rules refuse what could be unsafe; this file shows they do not
    refuse anything else.  A validator whose storage accepts writes and whose key
    signs answers every request of every schedule of valid votes and timeouts
    with growing rounds, so its own past never blocks it. *)

From S2P Require Import Prelude BitVec AptosTypes ValidatorVerifier Certificates SafetyRules SafetyRulesSpec SafetyRuns.

Section Progress.
Context `{CryptoFns} {S : Type} `{!KVStorage S}.
Local Notation SR := (SafetyRules (S := S)).
Implicit Types (s : SR) (sd : SafetyData).

(** The validator: its signer, its epoch and whether signatures are checked. *)
Variables (vs : ValidatorSigner) (es : EpochState) (skip : bool).

(** Every write of the safety data succeeds, and the key signs every message. *)
Record responsive : Prop := {
  rs_writes : forall (st : S) d, exists st', kv_set_safety_data st d = (st', inr tt);
  rs_signs : forall m, is_Some (sign_message (vs_private_key vs) m)
}.

(** The rules are initialized and their safety data, cached or about to be read,
    is [sd]; the last vote is not later than the last voted round. *)
Record ready sd s : Prop := {
  rd_signer : validator_signer s = Some vs;
  rd_epoch : epoch_state s = Some es;
  rd_skip : skip_sig_verify s = skip;
  rd_cached : enable_cached_safety_data (persistent_storage s) = true;
  rd_data : cached_safety_data (persistent_storage s) = Some sd \/
    (cached_safety_data (persistent_storage s) = None /\
     kv_get_safety_data (internal_store (persistent_storage s)) = inr sd);
  rd_last : forall v, sd_last_vote sd = Some v ->
    bi_round (vd_proposed (v_vote_data v)) <= sd_last_voted_round sd
}.

(** The round is the successor of the certified one, or of a timeout
    certificate's whose highest certified round the proposal's certificate
    reaches (for a timeout, any certificate of the previous round will do). *)
Definition follows (round qc_round hqc_bound : Round) (tc : option TwoChainTimeoutCertificate) : Prop :=
  round <= u64_max /\ qc_round < round /\
  (round = qc_round + 1 \/ (exists c, tc = Some c /\ round = tc_round c + 1 /\ hqc_bound <= qc_round)).

Definition hqc_of (tc : option TwoChainTimeoutCertificate) : Round :=
  match tc with Some c => highest_hqc_round c | None => 0 end.

Definition tc_valid (tc : option TwoChainTimeoutCertificate) : Prop :=
  forall c, tc = Some c -> skip = false -> TimeoutCertificate_verify c (es_verifier es) = Ok tt.

(** A proposal and a timeout that any validator of the epoch accepts. *)
Record valid_proposal (now : Z) (vp : VoteProposal) (tc : option TwoChainTimeoutCertificate) : Prop := {
  vp_qc_valid : skip = false -> QuorumCert_verify (b_quorum_cert (vp_block vp)) (es_verifier es) = Ok tt;
  vp_signed : skip = false -> validate_signature (vp_block vp) (es_verifier es) = Ok tt;
  vp_formed : verify_well_formed (vp_block vp) now = Ok tt;
  vp_data : exists vd, gen_vote_data vp = Ok vd;
  vp_tc_valid : tc_valid tc;
  vp_follows : follows (b_round (vp_block vp))
    (bi_round (certified_block (b_quorum_cert (vp_block vp)))) (hqc_of tc) tc
}.

Record valid_timeout (t : TwoChainTimeout) (tc : option TwoChainTimeoutCertificate) : Prop := {
  vt_verified : skip = false -> TwoChainTimeout_verify t (es_verifier es) = Ok tt;
  vt_tc_valid : tc_valid tc;
  vt_follows : follows (to_round t) (to_hqc_round t) 0 tc
}.

(** A schedule of requests of one epoch, from the last voted and the one-chain
    round on: votes in growing rounds, and timeouts whose certificate is at least
    as recent as those of the proposals voted for. *)
Fixpoint schedule (epoch last one_chain : Z) (cs : list call) : Prop :=
  match cs with
  | [] => True
  | CVote now vp tc :: cs =>
      b_epoch (vp_block vp) = epoch /\ valid_proposal now vp tc /\ last < b_round (vp_block vp) /\
      schedule epoch (b_round (vp_block vp))
        (Z.max one_chain (bi_round (certified_block (b_quorum_cert (vp_block vp))))) cs
  | CTimeout t tc :: cs =>
      to_epoch t = epoch /\ valid_timeout t tc /\ last <= to_round t /\ one_chain <= to_hqc_round t /\
      schedule epoch (to_round t) one_chain cs
  | _ => False
  end.

(** What answers a request: a vote for the proposed block by this validator, or
    the signature of the timeout. *)
Definition answers (c : call) (r : outcome Error (option output)) : Prop :=
  match c with
  | CVote _ vp _ => exists v, r = Ok (Some (OVote v)) /\
      gen_vote_data vp = Ok (v_vote_data v) /\ v_author v = vs_author vs
  | CTimeout t _ => r = Ok (Some (OTimeout t))
  | _ => False
  end.

Fixpoint run_calls (cs : list call) s : list (outcome Error (option output)) :=
  match cs with
  | [] => []
  | c :: cs => let '(s', r) := run_call c s in r :: run_calls cs s'
  end.

(** ** One step *)
Lemma wp_bind_to {A B} (m : eff SR Error A) (k : A -> eff SR Error B) s s1 a Q :
  m s = (s1, Ok a) -> wp (k a) s1 Q -> wp (ebind m k) s Q.
Proof. intros Hm Hk. apply wp_bind. unfold wp at 1. by rewrite Hm. Qed.

Lemma wp_bind_eq {A B} (f : SR -> outcome Error A) (k : A -> eff SR Error B) s a Q :
  f s = Ok a -> wp (k a) s Q -> wp (ebind (eread f) k) s Q.
Proof. intros Hf. apply wp_bind_to. unfold eread. by rewrite Hf. Qed.

Lemma wp_ready_data {B} (k : SafetyData -> eff SR Error B) sd s Q :
  ready sd s -> (forall s1, ready sd s1 -> wp (k sd) s1 Q) -> wp (ebind (storage safety_data) k) s Q.
Proof.
  intros [Hv He Hk Hen Hd Hl] HQ.
  destruct s as [[en ca st] v e sk]. cbn in *. subst.
  destruct Hd as [->|[-> Hg]].
  - eapply wp_bind_to; [reflexivity|]. apply HQ. split; cbn; auto.
  - eapply wp_bind_to.
    + unfold storage, safety_data. cbn. rewrite Hg. reflexivity.
    + apply HQ. split; cbn; auto.
Qed.

Lemma wp_ready_set {B} (k : unit -> eff SR Error B) sd d s Q :
  responsive -> ready sd s ->
  (forall v, sd_last_vote d = Some v -> bi_round (vd_proposed (v_vote_data v)) <= sd_last_voted_round d) ->
  (forall s1, ready d s1 -> wp (k tt) s1 Q) -> wp (ebind (storage (set_safety_data d)) k) s Q.
Proof.
  intros [Hw _] [Hv He Hk Hen _ _] Hd HQ.
  destruct (Hw (internal_store (persistent_storage s)) d) as [st' Hs].
  eapply wp_bind_to.
  - unfold storage, set_safety_data. rewrite Hs. reflexivity.
  - apply HQ. split; cbn; auto.
Qed.

Lemma ready_signer sd s : ready sd s -> signer s = Ok vs.
Proof. intros Hr. unfold signer. by rewrite (rd_signer _ _ Hr). Qed.

Lemma ready_sign sd s m : responsive -> ready sd s -> exists sg, sign m s = Ok sg.
Proof.
  intros Hresp Hr. destruct (rs_signs Hresp m) as [sg Hsg]. exists sg. unfold sign.
  rewrite (ready_signer _ _ Hr). cbn. by rewrite Hsg.
Qed.

Lemma wp_ready_sign {B} m (k : Signature -> eff SR Error B) sd s Q :
  responsive -> ready sd s -> (forall sg, wp (k sg) s Q) -> wp (ebind (eread (sign m)) k) s Q.
Proof.
  intros Hresp Hr Hk. destruct (ready_sign sd s m Hresp Hr) as [sg Hsg]. by eapply wp_bind_eq.
Qed.

(** A check that is skipped with the signatures, or passes. *)
Lemma checked_ok sd s {E} (f : E -> Error) (g : ValidatorVerifier -> outcome E unit) :
  ready sd s -> (skip = false -> g (es_verifier es) = Ok tt) ->
  (es' ←? get_epoch_state s;
   if negb (skip_sig_verify s) then map_err f (g (es_verifier es')) else Ok tt) = Ok tt /\
  (if negb (skip_sig_verify s)
   then es' ←? get_epoch_state s; map_err f (g (es_verifier es')) else Ok tt) = Ok tt.
Proof.
  intros Hr Hg. unfold get_epoch_state. rewrite (rd_epoch _ _ Hr), (rd_skip _ _ Hr). cbn.
  destruct skip; cbn; [done|]. by rewrite Hg.
Qed.

Lemma maybe_tc_ok sd s tc : ready sd s -> tc_valid tc -> verify_maybe_tc tc s = Ok tt.
Proof.
  intros Hr Htc. destruct tc as [c|]; [|done].
  by apply (checked_ok _ _ _ (TimeoutCertificate_verify c) Hr), Htc.
Qed.

Lemma next_round_small (r : Round) : r < u64_max -> next_round r = Ok (r + 1).
Proof.
  intros Hr. unfold next_round. destruct (checked_add u64_max r 1) as [z|] eqn:E.
  - by apply checked_add_Some in E as [-> _].
  - unfold checked_add in E. case_match; [done|]. bool_to_prop. lia.
Qed.

Lemma follows_safe_to_vote b tc :
  follows (b_round b) (bi_round (certified_block (b_quorum_cert b))) (hqc_of tc) tc ->
  safe_to_vote b tc = Ok tt.
Proof.
  intros (Hmax & Hlt & Hor). unfold safe_to_vote. rewrite next_round_small by lia. cbn [obind].
  destruct (Z.eqb_spec (b_round b) (bi_round (certified_block (b_quorum_cert b)) + 1)) as [|Hne]; [done|].
  destruct Hor as [?|(c & -> & Hc & Hq)]; [done|]. rewrite next_round_small by lia. cbn [obind].
  unfold hqc_of in Hq. rewrite Hc, Z.eqb_refl. by rewrite (proj2 (Z.leb_le _ _) Hq).
Qed.

Lemma follows_safe_to_timeout t tc sd :
  follows (to_round t) (to_hqc_round t) 0 tc -> sd_one_chain_round sd <= to_hqc_round t ->
  safe_to_timeout t tc sd = Ok tt.
Proof.
  intros (Hmax & Hlt & Hor) Hone. unfold safe_to_timeout. rewrite next_round_small by lia. cbn [obind].
  rewrite (proj2 (Z.leb_le _ _) Hone).
  destruct (Z.eqb_spec (to_round t) (to_hqc_round t + 1)) as [|Hne]; [done|].
  destruct Hor as [?|(c & -> & Hc & _)]; [done|]. rewrite next_round_small by lia. cbn [obind].
  by rewrite Hc, Z.eqb_refl.
Qed.

Lemma wp_valid_proposal {B} now vp tc (k : VoteData -> eff SR Error B) sd s vd Q :
  ready sd s -> valid_proposal now vp tc -> b_epoch (vp_block vp) = sd_epoch sd ->
  gen_vote_data vp = Ok vd ->
  (forall s1, ready sd s1 -> wp (k vd) s1 Q) -> wp (ebind (verify_proposal now vp) k) s Q.
Proof.
  intros Hr [Hq Hsig Hwf _ _ _] Hep Hvd HQ. apply wp_bind. unfold verify_proposal.
  apply (wp_ready_data _ sd); [done|]. intros s1 Hr1.
  eapply wp_bind_eq; [unfold verify_epoch; by rewrite Hep, Z.eqb_refl|].
  eapply wp_bind_eq; [by apply (checked_ok _ _ _ _ Hr1 Hq)|].
  eapply wp_bind_eq; [by apply (checked_ok _ _ _ _ Hr1 Hsig)|].
  eapply wp_bind_eq; [by rewrite Hwf|]. unfold wp at 1, eread. cbn [fst snd]. rewrite Hvd. by apply HQ.
Qed.

(** What a request leaves behind for the next one. *)
Definition left_at (epoch last one_chain : Z) s : Prop :=
  exists sd, ready sd s /\ sd_epoch sd = epoch /\ sd_last_voted_round sd = last /\
    sd_one_chain_round sd = one_chain.

Lemma observed_qc_fields qc sd :
  sd_epoch (observe_qc qc sd).1 = sd_epoch sd /\
  sd_last_voted_round (observe_qc qc sd).1 = sd_last_voted_round sd /\
  sd_one_chain_round (observe_qc qc sd).1 = Z.max (sd_one_chain_round sd) (bi_round (certified_block qc)).
Proof.
  unfold observe_qc. repeat case_test; cbn; split_and!; try done; lia.
Qed.

Lemma no_previous_vote sd s (round : Round) :
  ready sd s -> sd_last_voted_round sd < round ->
  match sd_last_vote sd with
  | Some vote => if bi_round (vd_proposed (v_vote_data vote)) =? round then Some vote else None
  | None => None
  end = None.
Proof.
  intros Hr Hlt. destruct (sd_last_vote sd) as [v|] eqn:Ev; [|done]. apply (rd_last _ _ Hr) in Ev.
  rewrite (proj2 (Z.eqb_neq _ _)); [done|lia].
Qed.

Lemma vote_progress now vp tc epoch last one s :
  responsive -> left_at epoch last one s ->
  b_epoch (vp_block vp) = epoch -> valid_proposal now vp tc -> last < b_round (vp_block vp) ->
  wp (guarded_construct_and_sign_vote_two_chain now vp tc) s (fun s' r =>
    (exists v, r = Ok v /\ gen_vote_data vp = Ok (v_vote_data v) /\ v_author v = vs_author vs) /\
    left_at epoch (b_round (vp_block vp))
      (Z.max one (bi_round (certified_block (b_quorum_cert (vp_block vp))))) s').
Proof.
  intros Hresp (sd & Hr & <- & <- & <-) Hep Hvp Hlt. destruct (vp_data _ _ _ Hvp) as [vd Hvd].
  unfold guarded_construct_and_sign_vote_two_chain.
  eapply wp_bind_eq; [by eapply ready_signer|]. eapply wp_valid_proposal; try done. intros s1 Hr1.
  eapply wp_bind_eq; [by eapply maybe_tc_ok, (vp_tc_valid _ _ _ Hvp)|].
  eapply wp_ready_data; [done|]. intros s2 Hr2. cbv zeta.
  rewrite (no_previous_vote sd s (b_round (vp_block vp)) Hr Hlt).
  eapply wp_bind_eq.
  { unfold verify_and_update_last_vote_round. rewrite (proj2 (Z.leb_gt _ _) Hlt). reflexivity. }
  eapply wp_bind_eq; [by apply follows_safe_to_vote, (vp_follows _ _ _ Hvp)|].
  eapply wp_bind_eq; [by eapply ready_signer|].
  destruct (vp_follows _ _ _ Hvp) as (? & ? & _). eapply wp_bind_eq.
  { unfold construct_ledger_info_2chain. rewrite next_round_small by lia. reflexivity. }
  eapply wp_ready_sign; [done..|]. intros sg.
  destruct (observed_qc_fields (b_quorum_cert (vp_block vp))
    (mkSafetyData (sd_epoch sd) (b_round (vp_block vp)) (sd_preferred_round sd)
       (sd_one_chain_round sd) (sd_last_vote sd) (sd_highest_timeout_round sd))) as (He1 & He2 & He3).
  eapply wp_ready_set; [done..| |].
  - intros v. cbn. intros [= <-]. cbn. rewrite He2. cbn.
    destruct (gen_vote_data_fields _ _ Hvd) as (-> & _). done.
  - intros s3 Hr3. apply wp_ret. split; [by eexists|]. eexists. by split; [exact Hr3|].
Qed.

Lemma timeout_progress t tc epoch last one s :
  responsive -> left_at epoch last one s ->
  to_epoch t = epoch -> valid_timeout t tc -> last <= to_round t -> one <= to_hqc_round t ->
  wp (guarded_sign_timeout_with_qc t tc) s (fun s' r =>
    (exists sg, r = Ok sg) /\ left_at epoch (to_round t) one s').
Proof.
  intros Hresp (sd & Hr & <- & <- & <-) Hep Ht Hle Hone. unfold guarded_sign_timeout_with_qc.
  eapply wp_bind_eq; [by eapply ready_signer|]. eapply wp_ready_data; [done|]. intros s1 Hr1.
  eapply wp_bind_eq; [unfold verify_epoch; by rewrite Hep, Z.eqb_refl|].
  eapply wp_bind_eq; [by apply (checked_ok _ _ _ _ Hr1 (vt_verified _ _ Ht))|].
  eapply wp_bind_eq; [by eapply maybe_tc_ok, (vt_tc_valid _ _ Ht)|].
  eapply wp_bind_eq; [by apply follows_safe_to_timeout; [apply (vt_follows _ _ Ht)|]|].
  eapply wp_bind_eq; [by rewrite (proj2 (Z.ltb_ge _ _) Hle)|].
  eapply (wp_bind_eq _ _ _ (mkSafetyData (sd_epoch sd) (to_round t) (sd_preferred_round sd)
       (sd_one_chain_round sd) (sd_last_vote sd) (sd_highest_timeout_round sd))).
  { destruct (Z.ltb_spec (sd_last_voted_round sd) (to_round t)) as [Hlt|].
    - unfold verify_and_update_last_vote_round. by rewrite (proj2 (Z.leb_gt _ _) Hlt).
    - assert (to_round t = sd_last_voted_round sd) as -> by lia. by destruct sd. }
  eapply wp_ready_set; [done..| |].
  - intros v Hv. unfold update_highest_timeout_round in *. cbn in *. case_match; cbn in *;
      apply (rd_last _ _ Hr) in Hv; lia.
  - intros s2 Hr2. destruct (ready_sign _ _ (MTimeout (signing_format t)) Hresp Hr2) as [sg Hsg].
    unfold wp, eread. cbn [fst snd]. rewrite Hsg. split; [by eexists|]. eexists. split; [exact Hr2|].
    unfold update_highest_timeout_round. by case_match.
Qed.

(** C19: liveness of the safety rules.  A validator that is initialized for the
    epoch, whose storage accepts writes and whose key signs, answers every
    request of any schedule of valid proposals and timeouts with growing rounds:
    each proposal that extends the certified block of the previous round, or
    comes with a timeout certificate it satisfies, gets a vote for exactly that
    block, and each timeout gets a signature.  Nothing it signed earlier can
    leave it unable to go on. *)
Theorem safety_rules_make_progress epoch last one cs s :
  responsive -> left_at epoch last one s -> schedule epoch last one cs ->
  Forall2 answers cs (run_calls cs s).
Proof.
  intros Hresp. revert last one s. induction cs as [|c cs IH]; intros last one s Hs Hsch; [constructor|].
  destruct c as [now vp tc|t tc|p|bd|pf|]; try done.
  - destruct Hsch as (Hep & Hvp & Hlt & Hsch).
    pose proof (vote_progress now vp tc _ _ _ s Hresp Hs Hep Hvp Hlt) as [(v & Hv & Hvd & Ha) Hs'].
    cbn [run_calls run_call]. unfold returning, ebind, eret.
    destruct (guarded_construct_and_sign_vote_two_chain now vp tc s) as [s' r]. cbn in Hv, Hs'. subst r.
    constructor; [by exists v|]. by eapply IH.
  - destruct Hsch as (Hep & Ht & Hle & Hone & Hsch).
    pose proof (timeout_progress t tc _ _ _ s Hresp Hs Hep Ht Hle Hone) as [(sg & Hsg) Hs'].
    cbn [run_calls run_call]. unfold returning, ebind, eret.
    destruct (guarded_sign_timeout_with_qc t tc s) as [s' r]. cbn in Hsg, Hs'. subst r.
    constructor; [done|]. by eapply IH.
Qed.

End Progress.
