(* ===== verification/TwoChain.v ===== *)
(** * Agreement of the 2-chain protocol

    Validators that run the safety rules of [SafetyRules.v], together with a
    coalition of less than a third of the voting power that does anything at
    all, never commit two conflicting blocks of an epoch: neither by the 2-chain
    rule nor by order votes.  The calls are those of [SafetyRuns.v], under the
    obligations [call_ok] of the caller. *)

From S2P Require Import Prelude BitVec AptosTypes ValidatorVerifier Certificates SafetyRules SafetyRulesSpec SafetyRuns.

Section Agreement.
Context `{CryptoFns} {S : Type} `{!KVStorage S, !KVStorageLaws S}.

(** The epoch, its validators, who of them is honest, and what each honest one
    has released. *)
Context (e : Z) (V : ValidatorVerifier) (honest : ValidatorConsensusInfo -> bool).
Context (released : AccountAddress -> list output).

(** The messages signed by an output. *)
Definition message_of (o : output) : Message :=
  match o with
  | OVote v => MLedgerInfo (v_ledger_info v)
  | OTimeout t => MTimeout (signing_format t)
  | OOrderVote o => MLedgerInfo (o_ledger_info o)
  | OProposal bd => MBlockData bd
  end.

Definition signed_by (i : ValidatorConsensusInfo) (m : Message) : Prop :=
  exists o, o ∈ released (vi_address i) /\ message_of o = m.

(** Less than a third of the power is outside the honest validators, and each
    honest validator's outputs come from a run of its safety rules. *)
Record setting : Prop := {
  set_verifier : verifier_ok V;
  set_power :
    power_where (fun i => negb (honest i)) (validator_infos V) <=
    total_voting_power V - quorum_voting_power V;
  set_runs i : i ∈ validator_infos V -> honest i = true ->
    exists s0 s : SafetyRules (S := S),
      before_epoch e V s0 /\ run (call_ok e V) s0 (released (vi_address i)) s
}.

(** Hashes do not collide, and a signature that verifies under the key of an
    honest validator was made by that validator. *)
Record crypto_sound : Prop := {
  cs_hash_inj : Inj (=) (=) hash_vote_data;
  cs_hash_not_zero vd : hash_vote_data vd <> HashValue_zero;
  cs_multi keys key m sg i :
    aggregate_public_keys keys = Some key -> verify_signature key m sg = true ->
    i ∈ validator_infos V -> honest i = true -> vi_public_key i ∈ keys -> signed_by i m;
  cs_aggregate ms keys sg k i :
    verify_aggregate ms keys sg = true ->
    i ∈ validator_infos V -> honest i = true -> keys !! k = Some (vi_public_key i) ->
    exists m, ms !! k = Some m /\ signed_by i m
}.

(** ** Certified, committed and ordered blocks *)
Definition certified (vd : VoteData) : Prop :=
  bi_epoch (vd_proposed vd) = e /\
  exists qc, qc_vote_data qc = vd /\ QuorumCert_verify qc V = Ok tt.

(** Committed by a quorum certificate that carries it as commit info, or by a
    quorum of order votes. *)
Definition committed (b : BlockInfo) : Prop :=
  bi_epoch b = e /\
  ((exists qc, QuorumCert_verify qc V = Ok tt /\ bi_epoch (certified_block qc) = e /\
      0 < bi_round (certified_block qc) /\ commit_info qc = b) \/
   (exists sig, verify_multi_signatures V (MLedgerInfo (mkLedgerInfo b HashValue_zero)) sig = Ok tt)).

(** [extends b' b]: certified blocks lead from [b'] back to [b], parent by
    parent. *)
Inductive extends : BlockInfo -> BlockInfo -> Prop :=
| extends_refl b : extends b b
| extends_step vd b : certified vd -> extends (vd_parent vd) b -> extends (vd_proposed vd) b.

Context (Hset : setting) (Hcrypto : crypto_sound).

Lemma honest_facts i :
  i ∈ validator_infos V -> honest i = true ->
  exists sd, facts e V sd (released (vi_address i)).
Proof.
  intros Hi Hh. destruct (set_runs Hset i Hi Hh) as (s0 & s & Hb & Hrun).
  exists (stored_data s). by destruct (inv_run e V s0 _ s Hb Hrun).
Qed.

(** ** From certificates to honest validators *)

(** An honest validator that signed a ledger info with the hash of some vote
    data of the epoch has voted for that vote data. *)
Lemma signed_vote i li vd :
  i ∈ validator_infos V -> honest i = true -> signed_by i (MLedgerInfo li) ->
  li_consensus_data_hash li = hash_vote_data vd -> bi_epoch (vd_proposed vd) = e ->
  exists v, OVote v ∈ released (vi_address i) /\ v_vote_data v = vd /\ v_ledger_info v = li /\
    vote_just e V v.
Proof.
  intros Hi Hh (o & Ho & Hm) Hhash Hep. destruct (honest_facts i Hi Hh) as [sd Hf].
  destruct o as [v|t|o|bd]; cbn in Hm; simplify_eq.
  - assert (Hv : v_vote_data v = vd).
    { apply (cs_hash_inj Hcrypto). rewrite <- Hhash. symmetry. apply (f_hashed _ _ _ _ Hf). by left. }
    exists v. split_and!; try done. apply (f_just _ _ _ _ Hf). split; [|by left].
    unfold vote_epoch. by rewrite Hv.
  - exfalso. apply (cs_hash_not_zero Hcrypto vd). rewrite <- Hhash. by apply (f_unhashed _ _ _ _ Hf).
Qed.

Lemma signed_order i b :
  i ∈ validator_infos V -> honest i = true ->
  signed_by i (MLedgerInfo (mkLedgerInfo b HashValue_zero)) ->
  exists o, OOrderVote o ∈ released (vi_address i) /\ ordered_block o = b.
Proof.
  intros Hi Hh (o & Ho & Hm). destruct (honest_facts i Hi Hh) as [sd Hf].
  destruct o as [v|t|o|bd]; cbn in Hm; simplify_eq.
  - exfalso. apply (cs_hash_not_zero Hcrypto (v_vote_data v)).
    pose proof (f_hashed _ _ _ _ Hf v (or_introl Ho)) as Hv. unfold vote_hashed in Hv.
    rewrite Hm in Hv. by rewrite <- Hv.
  - exists o. split; [done|]. unfold ordered_block. by rewrite Hm.
Qed.

(** The honest signers of an accepted multi-signature. *)
Lemma multi_signers m sig :
  verify_multi_signatures V m sig = Ok tt ->
  exists signers, quorum_signers V sig signers /\
    forall i, i ∈ signers -> i ∈ validator_infos V /\ (honest i = true -> signed_by i m).
Proof.
  intros (signers & sg & key & Hq & _ & Hk & Hv)%verify_multi_Ok. exists signers. split; [done|].
  intros i Hi. destruct (quorum_signers_power V sig signers (set_verifier Hset) Hq) as (_ & Hsub & _).
  split; [by apply Hsub|]. intros Hh. eapply (cs_multi Hcrypto); try done; [by apply Hsub|].
  by apply list_elem_of_fmap_2.
Qed.

Lemma qc_quorum qc :
  QuorumCert_verify qc V = Ok tt -> 0 < bi_round (certified_block qc) ->
  let ls := qc_signed_ledger_info qc in
  li_consensus_data_hash (ls_ledger_info ls) = hash_vote_data (qc_vote_data qc) /\
  verify_multi_signatures V (MLedgerInfo (ls_ledger_info ls)) (ls_signatures ls) = Ok tt.
Proof.
  unfold QuorumCert_verify. intros Hv Hr. apply bind_Ok in Hv as (u & Hh & Hv).
  apply ensure_Ok in Hh. bool_to_prop. case_match eqn:E; bool_to_prop; [lia|].
  apply bind_Ok in Hv as ([] & Hs & _). outcome_inv. done.
Qed.

(** A quorum certificate of the epoch: a quorum whose honest members voted for
    the certified block. *)
Lemma certificate_voters qc :
  QuorumCert_verify qc V = Ok tt -> 0 < bi_round (certified_block qc) ->
  bi_epoch (certified_block qc) = e ->
  exists sig signers, quorum_signers V sig signers /\
    forall i, i ∈ signers -> honest i = true -> i ∈ validator_infos V /\
      exists v, OVote v ∈ released (vi_address i) /\ v_vote_data v = qc_vote_data qc /\
        v_ledger_info v = ls_ledger_info (qc_signed_ledger_info qc) /\ vote_just e V v.
Proof.
  intros Hv Hr He. destruct (qc_quorum qc Hv Hr) as [Hh Hm].
  destruct (multi_signers _ _ Hm) as (signers & Hq & Hs). eexists _, signers. split; [done|].
  intros i Hi Hhon. destruct (Hs i Hi) as [Hin Hsig]. split; [done|].
  apply signed_vote; try done. by apply Hsig.
Qed.

Lemma certified_voters vd :
  certified vd -> 0 < bi_round (vd_proposed vd) ->
  exists sig signers, quorum_signers V sig signers /\
    forall i, i ∈ signers -> honest i = true -> i ∈ validator_infos V /\
      exists v, OVote v ∈ released (vi_address i) /\ v_vote_data v = vd /\ vote_just e V v.
Proof.
  intros (He & qc & <- & Hv) Hr. destruct (certificate_voters qc Hv Hr He) as (sig & l & Hq & Hs).
  exists sig, l. split; [done|]. intros i Hi Hh. destruct (Hs i Hi Hh) as (? & v & ? & ? & _ & ?). eauto.
Qed.

(** The honest signers of a timeout certificate of the epoch signed timeouts of
    its round, for quorum rounds up to its highest one. *)
Lemma timeout_signers tc :
  TimeoutCertificate_verify tc V = Ok tt -> tc_epoch tc = e ->
  exists sig signers, quorum_signers V sig signers /\
    forall i, i ∈ signers -> honest i = true -> i ∈ validator_infos V /\
      exists t, OTimeout t ∈ released (vi_address i) /\ to_epoch t = e /\
        to_round t = tc_round tc /\ to_hqc_round t <= highest_hqc_round tc.
Proof.
  unfold TimeoutCertificate_verify. intros Hv He.
  apply bind_Ok in Hv as (? & _ & Hv). apply bind_Ok in Hv as ([] & Ha & Hv).
  apply bind_Ok in Hv as (m & Hm & Hv). outcome_inv. bool_to_prop.
  apply verify_aggregate_Ok in Ha as (signers & sg & Hq & _ & Hva).
  exists (ar_sig (tc_signatures_with_rounds tc)), signers. split; [done|]. intros i Hi Hh.
  destruct (quorum_signers_power V _ signers (set_verifier Hset) Hq) as (_ & Hsub & _).
  split; [by apply Hsub|]. apply list_elem_of_lookup in Hi as [k Hk].
  destruct (cs_aggregate Hcrypto _ _ _ k i Hva) as (msg & Hmsg & o & Ho & Hom);
    [apply Hsub; by eapply list_elem_of_lookup_2|done|by rewrite list_lookup_fmap, Hk|].
  rewrite list_lookup_fmap in Hmsg.
  destruct (_ !! k) as [[a round]|] eqn:Ek in Hmsg; [|done]. injection Hmsg as <-.
  assert (Hround : round <= m).
  { unfold get_voters_and_rounds in Ek. apply list_elem_of_lookup_2, elem_of_zip_r in Ek.
    by eapply max_list_Z_ub. }
  destruct o as [v|t|o|bd]; cbn in Hom; try done. injection Hom as Hte Htr Hth.
  exists t. unfold tc_epoch, tc_round, highest_hqc_round in *. split_and!; try done; [congruence|lia].
Qed.

(** ** Agreement *)
Lemma quorums_meet s1 s2 l1 l2 :
  quorum_signers V s1 l1 -> quorum_signers V s2 l2 -> exists i, i ∈ l1 /\ i ∈ l2 /\ honest i = true.
Proof.
  intros H1' H2'. eapply quorums_share_honest; [exact (set_verifier Hset)|done|done|].
  exact (set_power Hset).
Qed.

Lemma certified_unique vd1 vd2 :
  certified vd1 -> certified vd2 -> 0 < bi_round (vd_proposed vd1) ->
  bi_round (vd_proposed vd1) = bi_round (vd_proposed vd2) -> vd1 = vd2.
Proof.
  intros Hc1 Hc2 Hr Heq.
  destruct (certified_voters vd1 Hc1 Hr) as (s1 & l1 & Hq1 & Hv1).
  destruct (certified_voters vd2 Hc2 ltac:(lia)) as (s2 & l2 & Hq2 & Hv2).
  destruct (quorums_meet _ _ _ _ Hq1 Hq2) as (i & Hi1 & Hi2 & Hh).
  destruct (Hv1 i Hi1 Hh) as (Hin & v1 & Hr1 & <- & Hj1). destruct (Hv2 i Hi2 Hh) as (_ & v2 & Hr2 & <- & Hj2).
  destruct (honest_facts i Hin Hh) as [sd Hf].
  f_equal. apply (f_unique _ _ _ _ Hf); [split; [apply Hj1|by left]|split; [apply Hj2|by left]|done].
Qed.

(** What a commit leaves behind: the block is certified, and a quorum whose
    honest members sign no timeout from round [r + k] on with a quorum round
    below [r].  For the 2-chain rule [k] is 1, and the certified blocks of the
    next round are children of the block. *)
Record commit_evidence (b : BlockInfo) (k : Z) : Prop := {
  ce_certified : exists vd, certified vd /\ vd_proposed vd = b;
  ce_quorum : exists sig signers, quorum_signers V sig signers /\
    forall i, i ∈ signers -> honest i = true -> forall t, OTimeout t ∈ released (vi_address i) ->
      to_epoch t = e -> bi_round b + k <= to_round t -> bi_round b <= to_hqc_round t;
  ce_next : forall vd, certified vd -> bi_round b < bi_round (vd_proposed vd) < bi_round b + k + 1 ->
    vd_parent vd = b
}.

Lemma two_chain_evidence qc :
  QuorumCert_verify qc V = Ok tt -> bi_epoch (certified_block qc) = e ->
  0 < bi_round (certified_block qc) -> 0 < bi_round (commit_info qc) ->
  commit_evidence (commit_info qc) 1.
Proof.
  intros Hv He Hr Hb. destruct (certificate_voters qc Hv Hr He) as (sig & l & Hq & Hvot).
  destruct (quorums_meet _ _ _ _ Hq Hq) as (i & Hi & _ & Hh).
  destruct (Hvot i Hi Hh) as (_ & v & _ & Hvd & Hli & Hj).
  assert (Hp : commit_info qc = vd_parent (qc_vote_data qc) /\
               bi_round (certified_block qc) = bi_round (vd_parent (qc_vote_data qc)) + 1).
  { pose proof (vj_commit _ _ _ Hj) as Hc. unfold commit_info in *. unfold vote_round, parent_round in Hc.
    rewrite Hli, Hvd in Hc. destruct Hc as [[Hc1 Hc2]|Hc]; [done|]. rewrite Hc in Hb. by cbn in Hb. }
  destruct Hp as [Hp Hr1]. split.
  - destruct (vj_qc _ _ _ Hj) as (qc' & Hv' & Hc'). rewrite Hvd, <- Hp in Hc'.
    exists (qc_vote_data qc'). split; [|done]. split; [|by exists qc'].
    fold (certified_block qc'). rewrite Hc', Hp, <- Hvd. exact (vj_parent_epoch _ _ _ Hj).
  - exists sig, l. split; [done|]. intros j Hjl Hjh t Ht Hte Htr.
    destruct (Hvot j Hjl Hjh) as (Hjin & w & Hw & Hwd & _ & Hwj).
    destruct (honest_facts j Hjin Hjh) as [sd Hf].
    pose proof (f_vote_timeout _ _ _ _ Hf w t) as Hvt. unfold vote_round, parent_round in Hvt.
    rewrite Hwd, <- Hp in Hvt. apply Hvt; [split; [apply Hwj|by left]|done|].
    fold (certified_block qc). rewrite Hr1, <- Hp. lia.
  - intros vd Hvd' Hrange. rewrite (certified_unique vd (qc_vote_data qc)); try done.
    + split; [done|by exists qc].
    + lia.
    + fold (certified_block qc). rewrite Hr1, <- Hp. lia.
Qed.

Lemma order_evidence b sig :
  verify_multi_signatures V (MLedgerInfo (mkLedgerInfo b HashValue_zero)) sig = Ok tt ->
  bi_epoch b = e -> commit_evidence b 0.
Proof.
  intros Hm He. destruct (multi_signers _ _ Hm) as (l & Hq & Hs).
  assert (Hord : forall i, i ∈ l -> honest i = true -> i ∈ validator_infos V /\
    exists o, orders_of e (released (vi_address i)) o /\ ordered_block o = b).
  { intros i Hi Hh. destruct (Hs i Hi) as [Hin Hsig]. split; [done|].
    destruct (signed_order i b Hin Hh (Hsig Hh)) as (o & Ho & Hob). exists o. split; [|done].
    split; [done|]. by rewrite Hob. }
  split.
  - destruct (quorums_meet _ _ _ _ Hq Hq) as (i & Hi & _ & Hh).
    destruct (Hord i Hi Hh) as (Hin & o & Ho & Hob). destruct (honest_facts i Hin Hh) as [sd Hf].
    destruct (f_order_just _ _ _ _ Hf o Ho) as (qc & Hv & Hc). rewrite Hob in Hc.
    exists (qc_vote_data qc). split; [|done]. split; [|by exists qc].
    fold (certified_block qc). by rewrite Hc.
  - exists sig, l. split; [done|]. intros i Hi Hh t Ht Hte Htr.
    destruct (Hord i Hi Hh) as (Hin & o & Ho & Hob). destruct (honest_facts i Hin Hh) as [sd Hf].
    rewrite <- Hob. apply (f_order_timeout _ _ _ _ Hf o t Ho); [done|]. rewrite Hob. lia.
  - intros vd _ Hrange. lia.
Qed.

Lemma committed_evidence b :
  committed b -> 0 < bi_round b -> exists k, commit_evidence b k.
Proof.
  intros [He [(qc & Hv & Hce & Hr & <-)|(sig & Hm)]] Hb.
  - exists 1. by apply two_chain_evidence.
  - exists 0. by eapply order_evidence.
Qed.

(** Every certified block from the committed round on extends the committed
    block. *)
Lemma evidence_extends b k :
  commit_evidence b k -> 0 < bi_round b -> bi_epoch b = e ->
  forall n vd, certified vd -> bi_round b <= bi_round (vd_proposed vd) ->
    (Z.to_nat (bi_round (vd_proposed vd)) <= n)%nat -> extends (vd_proposed vd) b.
Proof.
  intros Hce Hb He n. induction n as [|n IH]; intros vd Hvd Hle Hn; [lia|].
  destruct (decide (bi_round (vd_proposed vd) = bi_round b)) as [Heq|Hne].
  { destruct (ce_certified _ _ Hce) as (vd0 & Hc0 & <-).
    rewrite (certified_unique vd0 vd); [constructor|done|done|lia|lia]. }
  destruct (certified_voters vd Hvd ltac:(lia)) as (sig & l & Hq & Hvot).
  destruct (quorums_meet _ _ _ _ Hq Hq) as (i & Hi & _ & Hh).
  destruct (Hvot i Hi Hh) as (_ & v & _ & <- & Hj).
  apply extends_step; [done|].
  assert (Hstep : bi_round b <= parent_round v -> extends (vd_parent (v_vote_data v)) b).
  { intros Hp. destruct (vj_qc _ _ _ Hj) as (qc & Hv & Hc). rewrite <- Hc.
    apply (IH (qc_vote_data qc)).
    - split; [|by exists qc]. fold (certified_block qc). rewrite Hc. exact (vj_parent_epoch _ _ _ Hj).
    - fold (certified_block qc). by rewrite Hc.
    - fold (certified_block qc). rewrite Hc. pose proof (vj_round _ _ _ Hj) as Hlt.
      unfold parent_round, vote_round in *. lia. }
  unfold parent_round in Hstep. destruct (vj_rule _ _ _ Hj) as [Hr|[Hr|(tc & Htv & Hte & Hr & Hhq)]];
    unfold vote_round, parent_round in *; [apply Hstep; lia|lia|].
  destruct (Z.lt_ge_cases (tc_round tc) (bi_round b + k)) as [Hlow|Hhigh].
  { rewrite (ce_next _ _ Hce _ Hvd) by lia. constructor. }
  apply Hstep. destruct (timeout_signers tc Htv Hte) as (s1 & l1 & Hq1 & Ht1).
  destruct (ce_quorum _ _ Hce) as (s2 & l2 & Hq2 & Ht2).
  destruct (quorums_meet _ _ _ _ Hq1 Hq2) as (j & Hj1 & Hj2 & Hjh).
  destruct (Ht1 j Hj1 Hjh) as (_ & t & Ht & Hte' & Htr & Hth).
  pose proof (Ht2 j Hj2 Hjh t Ht Hte'). lia.
Qed.
End Agreement.

(** C1: agreement on what votes and order votes commit.  Fix an epoch, a
    well-formed validator set and the proposals, votes, timeouts and order votes
    that its honest validators release by running these safety rules, with less
    than a third of the voting power outside them; hashes do not collide and
    honest signatures are not forged.  Calls come in any order, with crashes,
    restarts and failing writes, from callers that keep [call_ok]: the timeout
    certificate given with a proposal is of its epoch, the caller has checked
    the certificates where the safety rules are configured not to, an id stands
    for one block, and the proofs of epoch changes announce this validator set
    for the epoch.  Signatures of [sign_commit_vote], made on blocks that are
    ordered already, are not counted.  Then of
    any two blocks committed after the genesis round, by the 2-chain rule or by
    order votes, one extends the other through certified blocks: there is no
    fork.  Moreover every block certified from a committed block's round on
    extends that block. *)
Theorem two_chain_agreement `{CryptoFns} {S : Type} `{!KVStorage S, !KVStorageLaws S}
    e V honest released b1 b2 :
  setting (S := S) e V honest released -> crypto_sound V honest released ->
  committed e V b1 -> committed e V b2 -> 0 < bi_round b1 -> 0 < bi_round b2 ->
  (extends e V b1 b2 \/ extends e V b2 b1) /\
  (forall vd, certified e V vd -> bi_round b1 <= bi_round (vd_proposed vd) ->
     extends e V (vd_proposed vd) b1).
Proof.
  intros Hset Hcr Hc1 Hc2 Hr1 Hr2.
  destruct (committed_evidence e V honest released Hset Hcr b1 Hc1 Hr1) as [k1 He1].
  destruct (committed_evidence e V honest released Hset Hcr b2 Hc2 Hr2) as [k2 He2].
  pose proof (evidence_extends e V honest released Hset Hcr b1 k1 He1 Hr1 (proj1 Hc1)) as Hx1.
  pose proof (evidence_extends e V honest released Hset Hcr b2 k2 He2 Hr2 (proj1 Hc2)) as Hx2.
  split; [|intros vd Hvd Hle; by eapply Hx1].
  destruct (ce_certified _ _ _ _ _ _ He1) as (vd1 & Hv1 & Hp1).
  destruct (ce_certified _ _ _ _ _ _ He2) as (vd2 & Hv2 & Hp2). rewrite <- Hp1, <- Hp2 in *.
  destruct (Z.le_gt_cases (bi_round (vd_proposed vd2)) (bi_round (vd_proposed vd1))).
  - left. by eapply Hx2.
  - right. eapply Hx1; [done|lia|done].
Qed.
