(* ===== verification/SafetySample.v ===== *)
(** * A concrete run of the safety rules

    Four validators of power one, of which three are honest and run the rules on
    in-memory storage: they vote for two blocks in a row, order the second one
    and time out in the third round.  The theorems about the safety rules apply
    to this run. *)

From S2P Require Import Prelude BitVec AptosTypes ValidatorVerifier Certificates SafetyRules SafetyRulesSpec SafetyRuns SafetyLive TwoChain.
Import BitVec Sample SampleSet InMemory.

#[local] Existing Instance types.

Definition genesis_info : BlockInfo :=
  {| bi_epoch := 1; bi_round := 0; bi_id := GenLeaf 100; bi_executed_state_id := GenLeaf 1;
     bi_version := 0; bi_timestamp_usecs := 0; bi_next_epoch_state := None |}.
Definition genesis_vd : VoteData := mkVoteData genesis_info genesis_info.
Definition genesis_qc : QuorumCert :=
  mkQuorumCert genesis_vd
    (mkLedgerInfoWithSignatures (mkLedgerInfo genesis_info (enc_vote_data genesis_vd))
       (mkAggregateSignature (mkBitVec [0]) None)).

Definition block (round : Round) (qc : QuorumCert) : Block :=
  let bd := mkBlockData 1 round (10 * round) qc (Proposal (DirectMempool []) 13 []) in
  mkBlock (enc_block_data bd) bd (Some tt).
Definition proposal (b : Block) : VoteProposal := mkVoteProposal tt b None true.

Definition block1 : Block := block 1 genesis_qc.
Definition vd1 : VoteData := vote_data_ordering_only (proposal block1).
Definition li1 : LedgerInfo := mkLedgerInfo genesis_info (enc_vote_data vd1).
Definition qc1 : QuorumCert := mkQuorumCert vd1 (mkLedgerInfoWithSignatures li1 (quorum_sig 224)).

Definition block2 : Block := block 2 qc1.
Definition vd2 : VoteData := vote_data_ordering_only (proposal block2).
Definition li2 : LedgerInfo := mkLedgerInfo (vd_proposed vd1) (enc_vote_data vd2).
Definition qc2 : QuorumCert := mkQuorumCert vd2 (mkLedgerInfoWithSignatures li2 (quorum_sig 224)).

Definition order2 : OrderVoteProposal := mkOrderVoteProposal block2 (vd_proposed vd2) qc2.
Definition ordered2 : LedgerInfo := mkLedgerInfo (vd_proposed vd2) (GenLeaf 0).
Definition timeout3 : TwoChainTimeout := mkTwoChainTimeout 1 3 qc2.

Definition honest_keys : list Z := [10; 11; 12].
Definition signed_lis : list (Z * LedgerInfo) :=
  li ← [li1; li2; ordered2]; k ← honest_keys; [(k, li)].
Definition signed_tos : list (Z * TimeoutSigningRepr) :=
  map (fun k => (k, signing_format timeout3)) honest_keys.
#[local] Instance crypto : CryptoFns := fns 13 signed_lis signed_tos.

Definition start (a : Author) : SafetyRules (S := InMemoryStorage) :=
  mkSafetyRules
    (PersistentSafetyStorage_new
       (mkInMemoryStorage _ (Some a) (Some (mkWaypoint 0 (GenLeaf 0))) (Some (fresh_safety_data 1)) (Some a) [])
       true)
    (Some (mkValidatorSigner a a)) (Some (mkEpochState 1 verifier)) false.

Definition calls : list call :=
  [CVote 1000 (proposal block1) None; CVote 1000 (proposal block2) None;
   COrderVote order2; CTimeout timeout3 None].

Definition outputs (a : Author) : list output :=
  [OTimeout timeout3; OOrderVote (mkOrderVote a ordered2 tt);
   OVote (mkVote vd2 a li2 tt None); OVote (mkVote vd1 a li1 tt None)].

(** Serves calls one after the other, as long as they succeed. *)
Fixpoint serve (cs : list call) (s : SafetyRules (S := InMemoryStorage)) (h : list output)
    : option (SafetyRules (S := InMemoryStorage) * list output) :=
  match cs with
  | [] => Some (s, h)
  | c :: cs =>
      match run_call c s with
      | (s', Ok o) => serve cs s' (option_list o ++ h)
      | _ => None
      end
  end.

Lemma serve_run ok s0 cs s h s' h' :
  run ok s0 h s -> (forall c s s', c ∈ cs -> ok c s s') -> serve cs s h = Some (s', h') ->
  run ok s0 h' s'.
Proof.
  revert s h. induction cs as [|c cs IH]; intros s h Hrun Hok Hs; cbn in Hs; [by simplify_eq|].
  destruct (run_call c s) as [s1 [o|e|]] eqn:Ec; try done.
  apply (IH s1 (option_list o ++ h)); [|intros; apply Hok; by right|done].
  apply (run_snoc _ _ h s); [done|]. eapply step_return; [done|]. apply Hok. by left.
Qed.

Definition finish (a : Author) : SafetyRules (S := InMemoryStorage) :=
  from_option fst (start a) (serve calls (start a) []).

Lemma serve_outputs : Forall (fun a => serve calls (start a) [] = Some (finish a, outputs a)) honest_keys.
Proof. repeat constructor; vm_compute; reflexivity. Qed.

Lemma calls_ok c s s' : c ∈ calls -> call_ok (S := InMemoryStorage) 1 verifier c s s'.
Proof.
  assert (Hq1 : QuorumCert_verify genesis_qc verifier = Ok tt) by (vm_compute; reflexivity).
  assert (Hq2 : QuorumCert_verify qc1 verifier = Ok tt) by (vm_compute; reflexivity).
  assert (Hq3 : QuorumCert_verify qc2 verifier = Ok tt) by (vm_compute; reflexivity).
  unfold calls. rewrite !elem_of_cons, elem_of_nil.
  intros [->|[->|[->|[->|[]]]]]; cbn [call_ok].
  - intros _. by split.
  - intros _. by split.
  - split; [|done]. intros _. split; reflexivity.
  - done.
Qed.

Lemma start_before a : before_epoch (S := InMemoryStorage) 1 verifier (start a).
Proof.
  unfold before_epoch, coherent, stored_data. cbn. split_and!; [done|lia|done|].
  by intros _ es [= <-].
Qed.

Lemma sample_run a : a ∈ honest_keys -> run (call_ok (S := InMemoryStorage) 1 verifier) (start a) (outputs a) (finish a).
Proof.
  intros Ha. apply (serve_run _ _ calls (start a) []); [constructor|by intros; apply calls_ok|].
  pose proof serve_outputs as Hs. rewrite Forall_forall in Hs. by apply Hs.
Qed.

(** ** The theorems on this run *)
Lemma safety_data_monotone_witness :
  coherent (finish 10) /\ sd_le (stored_data (start 10)) (stored_data (finish 10)).
Proof.
  apply (safety_data_monotone (call_ok 1 verifier) (start 10) (outputs 10) (finish 10)).
  - apply (start_before 10).
  - apply sample_run. unfold honest_keys. left.
Defined.

Lemma one_vote_per_round_witness :
  mkVote vd2 10 li2 tt None = mkVote vd2 10 li2 tt None.
Proof.
  apply (one_vote_per_round 1 verifier (start 10) (outputs 10) (finish 10)).
  - apply start_before.
  - apply sample_run. unfold honest_keys. left.
  - unfold outputs. do 2 right. left.
  - unfold outputs. do 2 right. left.
  - reflexivity.
  - reflexivity.
  - reflexivity.
Defined.

Lemma timeouts_cover_votes_witness :
  parent_round (mkVote vd2 10 li2 tt None) <= to_hqc_round timeout3.
Proof.
  apply (timeouts_cover_votes 1 verifier (start 10) (outputs 10) (finish 10) timeout3).
  - apply start_before.
  - apply sample_run. unfold honest_keys. left.
  - unfold outputs. left.
  - reflexivity.
  - unfold outputs. do 2 right. left.
  - reflexivity.
  - vm_compute. discriminate.
Defined.

Lemma vote_handler_correct_witness :
  coherent (start 10) /\
  vote_post 1000 (proposal block1) None (start 10)
    (guarded_construct_and_sign_vote_two_chain 1000 (proposal block1) None (start 10)).1
    (Ok (mkVote vd1 10 li1 tt None)).
Proof.
  assert (Hc : coherent (start 10)) by apply (start_before 10).
  split; [exact Hc|]. apply (vote_handler_correct 1000 (proposal block1) None (start 10)).
  - exact Hc.
  - vm_compute. reflexivity.
Defined.

Definition signer10 : ValidatorSigner := mkValidatorSigner 10 10.

Lemma sample_proposals :
  valid_proposal (mkEpochState 1 verifier) false 1000 (proposal block1) None /\
  valid_proposal (mkEpochState 1 verifier) false 1000 (proposal block2) None.
Proof.
  split; split; try (intros _; vm_compute; reflexivity);
    [vm_compute; reflexivity|eexists; vm_compute; reflexivity|intros c Hc; discriminate Hc|
     |vm_compute; reflexivity|eexists; vm_compute; reflexivity|intros c Hc; discriminate Hc|].
  all: split; [vm_compute; discriminate|split; [vm_compute; reflexivity|left; vm_compute; reflexivity]].
Qed.

Lemma sample_timeout : valid_timeout (mkEpochState 1 verifier) false timeout3 None.
Proof.
  split; [intros _; vm_compute; reflexivity|intros c Hc; discriminate Hc|].
  split; [vm_compute; discriminate|split; [vm_compute; reflexivity|left; vm_compute; reflexivity]].
Qed.

Lemma safety_rules_make_progress_witness :
  let cs := [CVote 1000 (proposal block1) None; CVote 1000 (proposal block2) None; CTimeout timeout3 None] in
  schedule (mkEpochState 1 verifier) false 1 0 0 cs /\
  Forall2 (answers signer10) cs (run_calls cs (start 10)).
Proof.
  assert (Hsch : schedule (mkEpochState 1 verifier) false 1 0 0
    [CVote 1000 (proposal block1) None; CVote 1000 (proposal block2) None; CTimeout timeout3 None]).
  { cbn [schedule].
    split; [reflexivity|]. split; [exact (proj1 sample_proposals)|]. split; [vm_compute; reflexivity|].
    split; [reflexivity|]. split; [exact (proj2 sample_proposals)|]. split; [vm_compute; reflexivity|].
    split; [reflexivity|]. split; [exact sample_timeout|].
    split; [vm_compute; discriminate|]. split; [vm_compute; discriminate|exact I]. }
  split; [exact Hsch|].
  apply (safety_rules_make_progress signer10 (mkEpochState 1 verifier) false 1 0 0).
  - split; [intros st d; eexists; reflexivity|intros m; eexists; reflexivity].
  - exists (fresh_safety_data 1). split_and!; try reflexivity. split; try reflexivity.
    + right. split; reflexivity.
    + intros v Hv. discriminate Hv.
  - exact Hsch.
Defined.

(** The validator 10 at the end of epoch 1, given the proof of [SampleProof]. *)
Definition idle : SafetyRules (S := InMemoryStorage) :=
  SafetyRules_new
    (PersistentSafetyStorage_new
       (mkInMemoryStorage _ (Some 10) (Some SampleProof.waypoint) (Some (fresh_safety_data 1)) (Some 10) [])
       true) false.

Lemma initialize_never_rewinds_witness :
  init_post (H0 := SampleProof.crypto) idle
    (guarded_initialize (H0 := SampleProof.crypto) SampleProof.proof idle).1 (Ok tt) /\
  stored_data (guarded_initialize (H0 := SampleProof.crypto) SampleProof.proof idle).1 = fresh_safety_data 3.
Proof.
  split; [|vm_compute; reflexivity].
  apply (@initialize_never_rewinds _ SampleProof.crypto _ _ _ SampleProof.proof idle).
  - by intros d.
  - vm_compute. reflexivity.
Defined.

(** ** Agreement on this run *)
Definition released (a : AccountAddress) : list output :=
  if bool_decide (a ∈ honest_keys) then outputs a else [].
Definition honest (i : ValidatorConsensusInfo) : bool := bool_decide (vi_address i ∈ honest_keys).

Lemma sample_setting : setting (S := InMemoryStorage) 1 verifier honest released.
Proof.
  split.
  - exact verifier_is_ok.
  - vm_compute. discriminate.
  - intros i _ Hh. unfold honest in Hh. bool_to_prop. unfold released.
    rewrite bool_decide_true by done. exists (start (vi_address i)), (finish (vi_address i)).
    split; [apply start_before|by apply sample_run].
Qed.

(** What the table of signatures accepts for an honest key was released. *)
Lemma table_released i m :
  honest i = true -> in_table 13 signed_lis signed_tos (vi_address i) m = true ->
  signed_by released i m.
Proof.
  intros Hh Ht. unfold honest in Hh. bool_to_prop. unfold signed_by, released.
  rewrite bool_decide_true by done. remember (vi_address i) as a eqn:Ha.
  destruct m as [li|t|bd]; cbn [in_table] in Ht.
  - apply bool_decide_eq_true in Ht. unfold signed_lis in Ht.
    apply list_elem_of_bind in Ht as (li' & Ht & Hin).
    apply list_elem_of_bind in Ht as (k & Ht & _). apply list_elem_of_singleton in Ht.
    injection Ht as <- ->.
    rewrite !elem_of_cons, elem_of_nil in Hin. destruct Hin as [->|[->|[->|[]]]].
    + exists (OVote (mkVote vd1 a li1 tt None)). split; [|done]. do 3 right. left.
    + exists (OVote (mkVote vd2 a li2 tt None)). split; [|done]. do 2 right. left.
    + exists (OOrderVote (mkOrderVote a ordered2 tt)). split; [|done]. right. left.
  - apply bool_decide_eq_true in Ht. unfold signed_tos in Ht.
    apply list_elem_of_fmap in Ht as (k & Ht & _). injection Ht as _ ->.
    exists (OTimeout timeout3). split; [left|done].
  - apply Z.eqb_eq in Ht. subst a. rewrite Ht in Hh. unfold honest_keys in Hh. set_solver by lia.
Qed.

Lemma infos_key i : i ∈ validator_infos verifier -> vi_public_key i = [vi_address i].
Proof.
  change (i ∈ infos -> vi_public_key i = [vi_address i]). unfold infos.
  intros (k & -> & _)%list_elem_of_fmap. done.
Qed.

Lemma sample_crypto_sound : crypto_sound verifier honest released.
Proof.
  split.
  - exact enc_vote_data_inj.
  - exact enc_vote_data_not_zero.
  - intros keys key m sg i [= <-] Hv Hi Hh Hk. cbn in Hv.
    apply table_released; [done|].
    rewrite forallb_forall in Hv. apply Hv, in_concat. exists [vi_address i].
    rewrite (infos_key i Hi) in Hk. split; [by apply list_elem_of_In|by left].
  - intros ms keys sg k i Hv Hi Hh Hk. cbn in Hv. apply andb_true_iff in Hv as [Hlen Hv].
    apply Nat.eqb_eq in Hlen. destruct (lookup_lt_is_Some_2 ms k) as [m Hm].
    { rewrite Hlen. by eapply lookup_lt_Some. }
    exists m. split; [done|]. apply table_released; [done|].
    rewrite forallb_forall in Hv. specialize (Hv (m, vi_public_key i)). rewrite <- list_elem_of_In in Hv.
    assert (Hin : (m, vi_public_key i) ∈ zip ms keys).
    { apply (list_elem_of_lookup_2 _ k). apply lookup_zip_with_Some. by exists m, (vi_public_key i). }
    specialize (Hv Hin).
    cbn in Hv. rewrite (infos_key i Hi) in Hv. cbn in Hv. by rewrite andb_true_r in Hv.
Qed.

Lemma two_chain_agreement_witness :
  extends 1 verifier (vd_proposed vd2) (vd_proposed vd1) \/
  extends 1 verifier (vd_proposed vd1) (vd_proposed vd2).
Proof.
  apply (two_chain_agreement (S := InMemoryStorage) 1 verifier honest released
           (vd_proposed vd2) (vd_proposed vd1)).
  - exact sample_setting.
  - exact sample_crypto_sound.
  - split; [reflexivity|]. right. exists (quorum_sig 224). vm_compute. reflexivity.
  - split; [reflexivity|]. left. exists qc2.
    split; [vm_compute; reflexivity|]. split; [reflexivity|]. split; reflexivity.
  - reflexivity.
  - reflexivity.
Defined.
