(* ===== verification/IoChurn.v ===== *)
(** * The io_churn contract

    [fdp-sui/move/io_churn/sources/io_churn.move], the Move package that the
    Sui benchmark drives: small counters and 4 KB blobs, the functions that
    create, update, read and delete them, and the checksum and filler data
    they write.  The Sui framework (object identifiers, transaction context,
    clock, keccak256) is external: its types and functions are the class
    [SuiFramework] and its documented behaviour [SuiFrameworkLaws].  Move
    aborts a transaction on an arithmetic overflow, an overflowing cast or a
    failed [assert!]; an abort is an [Err]. *)

From stdpp Require Import countable.
From S2P Require Import Prelude.

(** ** The framework *)
Class SuiFramework := {
  address : Type;
  address_eq_dec :: EqDecision address;
  UID : Type;
  UID_eq_dec :: EqDecision UID;
  UID_countable :: Countable UID;
  TxContext : Type;
  sender : TxContext -> address;
  epoch : TxContext -> Z;
  (** [object::new(ctx)] *)
  fresh_uid : TxContext -> UID * TxContext;
  Clock : Type;
  timestamp_ms : Clock -> Z;
  keccak256 : list Z -> list Z
}.

(** The identifiers of the next [n] objects of a transaction. *)
Fixpoint fresh_uids `{SuiFramework} (n : nat) (ctx : TxContext) : list UID :=
  match n with
  | O => []
  | S n => (fresh_uid ctx).1 :: fresh_uids n (fresh_uid ctx).2
  end.

Class SuiFrameworkLaws `{SuiFramework} := {
  fresh_uid_sender ctx : sender (fresh_uid ctx).2 = sender ctx;
  fresh_uid_epoch ctx : epoch (fresh_uid ctx).2 = epoch ctx;
  fresh_uids_NoDup n ctx : NoDup (fresh_uids n ctx);
  epoch_u64 ctx : in_u64 (epoch ctx);
  timestamp_u64 c : in_u64 (timestamp_ms c);
  keccak256_length d : length (keccak256 d) = 32%nat;
  keccak256_bytes d : Forall in_u8 (keccak256 d)
}.

(** ** Move's integers *)
Inductive vm_error : Set :=
| ARITHMETIC_ERROR
| ABORTED (code : Z).

#[global] Instance vm_error_eq_dec : EqDecision vm_error.
Proof. solve_decision. Defined.

Definition u256_max : Z := 2 ^ 256 - 1.

Definition move_int (m x : Z) : outcome vm_error Z :=
  if x <=? m then Ok x else Err ARITHMETIC_ERROR.
Definition u64_add (x y : Z) : outcome vm_error Z := move_int u64_max (x + y).
Definition u64_mul (x y : Z) : outcome vm_error Z := move_int u64_max (x * y).
Definition u256_add (x y : Z) : outcome vm_error Z := move_int u256_max (x + y).
(** [x as u8] and [x as u64] abort when the value does not fit. *)
Definition cast_u8 (x : Z) : outcome vm_error Z := move_int u8_max x.
Definition cast_u64 (x : Z) : outcome vm_error Z := move_int u64_max x.

Definition BLOB_SIZE : Z := 4096.
Definition ENotOwner : Z := 0.

Section IoChurn.
Context `{SuiFramework}.

(** ** Objects *)
Record LargeBlob := mkLargeBlob {
  lb_id : UID;
  lb_owner : address;
  lb_version : Z;
  lb_data : list Z;
  lb_checksum : Z
}.

Record MicroCounter := mkMicroCounter {
  mc_id : UID;
  mc_owner : address;
  mc_value : Z;
  mc_nonce : Z;
  mc_checksum : Z;
  mc_last_update : Z
}.

(** ** Checksums *)

(** [while (i < n) { push_back(data, v & 0xff); v = v >> 8; i = i + 1 }] *)
Fixpoint pack_bytes (n : nat) (v : Z) (data : list Z) : outcome vm_error (list Z) :=
  match n with
  | O => Ok data
  | S n =>
      b ←? cast_u8 (Z.land v 255);
      pack_bytes n (Z.shiftr v 8) (data ++ [b])
  end.

Definition bytes_to_u256 (bytes : list Z) : Z :=
  foldl (fun result b => Z.lor (Z.shiftl result 8 mod 2 ^ 256) b) 0 (take 32 bytes).

Definition compute_checksum (value nonce : Z) : outcome vm_error Z :=
  data ←? pack_bytes 8 value [];
  data ←? pack_bytes 8 nonce data;
  Ok (bytes_to_u256 (keccak256 data)).

(** ** Filler data *)

Fixpoint blob_loop (n : nat) (state : Z) (data : list Z) : outcome vm_error (list Z) :=
  match n with
  | O => Ok data
  | S n =>
      p ←? u64_mul state 1103515245;
      s ←? u64_add p 12345;
      let state := s mod 2147483648 in
      b ←? cast_u8 (state mod 256);
      blob_loop n state (data ++ [b])
  end.

Definition generate_blob_data (seed size : Z) : outcome vm_error (list Z) :=
  blob_loop (Z.to_nat size) seed [].

(** ** Transactions that create objects

    The effects of a transaction: its context and the objects it has put in
    the store, each with its owner. *)
Inductive Object :=
| OCounter (c : MicroCounter)
| OBlob (b : LargeBlob).

Inductive Owner :=
| AddressOwner (a : address)
| Shared.

Definition object_id (o : Object) : UID :=
  match o with OCounter c => mc_id c | OBlob b => lb_id b end.

Record TxState := mkTxState {
  ts_ctx : TxContext;
  ts_store : gmap UID (Object * Owner)
}.

Definition move (A : Type) : Type := eff TxState vm_error A.

Definition object_new : move UID :=
  fun s => let '(id, ctx) := fresh_uid (ts_ctx s) in (mkTxState ctx (ts_store s), Ok id).
Definition read_ctx {A} (f : TxContext -> A) : move A := eread (fun s => Ok (f (ts_ctx s))).
(** [transfer::transfer] and [transfer::share_object] *)
Definition transfer (o : Object) (a : Owner) : move unit :=
  ewrite (fun s => mkTxState (ts_ctx s) (<[object_id o := (o, a)]> (ts_store s))).

Definition create_counter : move MicroCounter :=
  a ←! read_ctx sender;
  nonce ←! read_ctx epoch;
  id ←! object_new;
  checksum ←! eread (fun _ => compute_checksum 0 nonce);
  eret (mkMicroCounter id a 0 nonce checksum 0).

Definition create_blob : move LargeBlob :=
  a ←! read_ctx sender;
  seed ←! read_ctx epoch;
  data ←! eread (fun _ => generate_blob_data seed BLOB_SIZE);
  id ←! object_new;
  checksum ←! eread (fun _ => compute_checksum 0 seed);
  eret (mkLargeBlob id a 0 data checksum).

Definition create_blob_and_transfer : move unit :=
  blob ←! create_blob;
  a ←! read_ctx sender;
  transfer (OBlob blob) (AddressOwner a).

Fixpoint create_blob_loop (n : nat) (a : address) : move unit :=
  match n with
  | O => eret tt
  | S n =>
      blob ←! create_blob;
      _ ←! transfer (OBlob blob) (AddressOwner a);
      create_blob_loop n a
  end.

Definition create_blob_batch (count : Z) : move unit :=
  a ←! read_ctx sender;
  create_blob_loop (Z.to_nat count) a.

Fixpoint create_loop (n : nat) (a : address) : move unit :=
  match n with
  | O => eret tt
  | S n =>
      counter ←! create_counter;
      _ ←! transfer (OCounter counter) (AddressOwner a);
      create_loop n a
  end.

Definition create_batch (count : Z) : move unit :=
  a ←! read_ctx sender;
  create_loop (Z.to_nat count) a.

Definition create_shared : move unit :=
  a ←! read_ctx sender;
  nonce ←! read_ctx epoch;
  id ←! object_new;
  checksum ←! eread (fun _ => compute_checksum 0 nonce);
  transfer (OCounter (mkMicroCounter id a 0 nonce checksum 0)) Shared.

(** ** Updates *)

Definition increment (c : MicroCounter) (clock : Clock) : outcome vm_error MicroCounter :=
  value ←? u64_add (mc_value c) 1;
  nonce ←? u64_add (mc_nonce c) (timestamp_ms clock);
  checksum ←? compute_checksum value nonce;
  Ok (mkMicroCounter (mc_id c) (mc_owner c) value nonce checksum (timestamp_ms clock)).

Definition increment_simple (c : MicroCounter) (ctx : TxContext) : outcome vm_error MicroCounter :=
  value ←? u64_add (mc_value c) 1;
  nonce ←? u64_add (mc_nonce c) (epoch ctx);
  nonce ←? u64_add nonce value;
  checksum ←? compute_checksum value nonce;
  Ok (mkMicroCounter (mc_id c) (mc_owner c) value nonce checksum (epoch ctx)).

Definition set_value (c : MicroCounter) (value entropy : Z) (ctx : TxContext) : outcome vm_error MicroCounter :=
  _ ←? ensure (bool_decide (mc_owner c = sender ctx)) (ABORTED ENotOwner);
  let nonce := Z.lxor entropy (epoch ctx) in
  checksum ←? compute_checksum value nonce;
  Ok (mkMicroCounter (mc_id c) (mc_owner c) value nonce checksum (epoch ctx)).

(** The block that each [batch_increment] repeats for its [k]-th counter. *)
Definition batch_bump (k : Z) (ctx : TxContext) (c : MicroCounter) : outcome vm_error MicroCounter :=
  value ←? u64_add (mc_value c) 1;
  nonce ←? u64_add (mc_nonce c) (epoch ctx);
  nonce ←? u64_add nonce k;
  checksum ←? compute_checksum value nonce;
  Ok (mkMicroCounter (mc_id c) (mc_owner c) value nonce checksum (epoch ctx)).

Definition batch_increment_2 (c1 c2 : MicroCounter) (ctx : TxContext)
    : outcome vm_error (MicroCounter * MicroCounter) :=
  c1 ←? batch_bump 1 ctx c1;
  c2 ←? batch_bump 2 ctx c2;
  Ok (c1, c2).

Definition batch_increment_4 (c1 c2 c3 c4 : MicroCounter) (ctx : TxContext)
    : outcome vm_error (MicroCounter * MicroCounter * MicroCounter * MicroCounter) :=
  c1 ←? batch_bump 1 ctx c1;
  c2 ←? batch_bump 2 ctx c2;
  c3 ←? batch_bump 3 ctx c3;
  c4 ←? batch_bump 4 ctx c4;
  Ok (c1, c2, c3, c4).

Definition batch_increment_8 (c1 c2 c3 c4 c5 c6 c7 c8 : MicroCounter) (ctx : TxContext)
    : outcome vm_error (MicroCounter * MicroCounter * MicroCounter * MicroCounter *
                        MicroCounter * MicroCounter * MicroCounter * MicroCounter) :=
  c1 ←? batch_bump 1 ctx c1;
  c2 ←? batch_bump 2 ctx c2;
  c3 ←? batch_bump 3 ctx c3;
  c4 ←? batch_bump 4 ctx c4;
  c5 ←? batch_bump 5 ctx c5;
  c6 ←? batch_bump 6 ctx c6;
  c7 ←? batch_bump 7 ctx c7;
  c8 ←? batch_bump 8 ctx c8;
  Ok (c1, c2, c3, c4, c5, c6, c7, c8).

Definition update_blob (b : LargeBlob) (ctx : TxContext) : outcome vm_error LargeBlob :=
  version ←? u64_add (lb_version b) 1;
  seed ←? u64_add (epoch ctx) version;
  data ←? generate_blob_data seed BLOB_SIZE;
  checksum ←? compute_checksum version seed;
  Ok (mkLargeBlob (lb_id b) (lb_owner b) version data checksum).

Definition update_blob_entropy (b : LargeBlob) (entropy : Z) (ctx : TxContext) : outcome vm_error LargeBlob :=
  version ←? u64_add (lb_version b) 1;
  let seed := Z.lxor (Z.lxor (epoch ctx) entropy) version in
  data ←? generate_blob_data seed BLOB_SIZE;
  checksum ←? compute_checksum version seed;
  Ok (mkLargeBlob (lb_id b) (lb_owner b) version data checksum).

(** ** Reads *)

(** One sample every 64 bytes; the length of the vector is fuel enough. *)
Fixpoint sample_loop (fuel : nat) (data : list Z) (i : Z) (sum : Z) : outcome vm_error Z :=
  match fuel with
  | O => Ok sum
  | S fuel =>
      if i <? zlength data then
        x ←? expect (data !! Z.to_nat i);
        sum ←? u256_add sum x;
        i ←? u64_add i 64;
        sample_loop fuel data i sum
      else Ok sum
  end.

Definition read_blob_checksum (b : LargeBlob) : outcome vm_error Z :=
  sum ←? sample_loop (S (length (lb_data b))) (lb_data b) 0 0;
  Ok (Z.lxor sum (lb_checksum b)).

Definition read_blob (b : LargeBlob) : outcome vm_error unit :=
  _ ←? read_blob_checksum b;
  Ok tt.

Definition read_update_blob (r w : LargeBlob) (ctx : TxContext) : outcome vm_error LargeBlob :=
  read_checksum ←? read_blob_checksum r;
  version ←? u64_add (lb_version w) 1;
  entropy ←? cast_u64 read_checksum;
  let seed := Z.lxor (Z.lxor (epoch ctx) entropy) version in
  data ←? generate_blob_data seed BLOB_SIZE;
  checksum ←? compute_checksum version seed;
  Ok (mkLargeBlob (lb_id w) (lb_owner w) version data checksum).

(** [delete_blob] unpacks the blob and gives back its identifier. *)
Definition delete_blob (b : LargeBlob) : UID := lb_id b.

Definition value (c : MicroCounter) : Z := mc_value c.
Definition nonce (c : MicroCounter) : Z := mc_nonce c.
Definition owner (c : MicroCounter) : address := mc_owner c.
End IoChurn.
