(* ===== verification/IoChurnSpec.v ===== *)
(** * What the io_churn contract guarantees

    Checksums, filler data, the functional behaviour of the entry functions
    and the invariant of every store the contract can reach. *)

From stdpp Require Import countable list_numbers.
From S2P Require Import Prelude IoChurn.

Lemma Ok_inj {E A} (a b : A) : @Ok E A a = Ok b -> a = b.
Proof. congruence. Qed.

Lemma move_int_Ok m x y : move_int m x = Ok y <-> y = x /\ x <= m.
Proof. unfold move_int. case_test; naive_solver lia. Qed.

Lemma move_int_le m x : x <= m -> move_int m x = Ok x.
Proof. intros. by apply move_int_Ok. Qed.

Lemma move_int_gt m x : m < x -> move_int m x = Err ARITHMETIC_ERROR.
Proof. unfold move_int. case_test; [lia | done]. Qed.

(** ** Checksums *)

Definition le_bytes (n : nat) (v : Z) : list Z := Z_to_little_endian (Z.of_nat n) 8 v.

Lemma le_bytes_S n v : le_bytes (S n) v = Z.land v 255 :: le_bytes n (Z.shiftr v 8).
Proof.
  unfold le_bytes. rewrite Nat2Z.inj_succ, Z_to_little_endian_succ by lia. done.
Qed.

Lemma le_bytes_length n v : length (le_bytes n v) = n.
Proof. apply Nat2Z.inj. unfold le_bytes. rewrite length_Z_to_little_endian; lia. Qed.

Lemma le_bytes_inj n v w :
  0 <= v < 2 ^ (Z.of_nat n * 8) -> 0 <= w < 2 ^ (Z.of_nat n * 8) -> le_bytes n v = le_bytes n w -> v = w.
Proof.
  intros Hv Hw He%(f_equal (little_endian_to_Z 8)). unfold le_bytes in He.
  rewrite !little_endian_to_Z_to_little_endian, !Z.mod_small in He by lia. done.
Qed.

Lemma pack_bytes_eq n v data : pack_bytes n v data = Ok (data ++ le_bytes n v).
Proof.
  revert v data. induction n as [|n IH]; intros v data; cbn [pack_bytes].
  - by rewrite app_nil_r.
  - unfold cast_u8. rewrite move_int_le.
    + cbn [obind]. by rewrite IH, le_bytes_S, <- app_assoc.
    + change 255 with (Z.ones 8). rewrite Z.land_ones by lia.
      pose proof (Z.mod_pos_bound v (2 ^ 8)). unfold u8_max. lia.
Qed.

Lemma lor_low_byte r b : 0 <= r -> in_u8 b -> Z.lor (Z.shiftl r 8) b = 256 * r + b.
Proof.
  intros Hr Hb. unfold in_u8, u8_max in Hb.
  assert (Z.land (Z.shiftl r 8) b = 0) as H0.
  { apply Z.bits_inj'. intros i Hi. rewrite Z.land_spec, Z.shiftl_spec, Z.bits_0 by done.
    destruct (Z.lt_ge_cases i 8); [by rewrite Z.testbit_neg_r by lia|].
    rewrite <- (Z.mod_small b (2 ^ 8)), Z.mod_pow2_bits_high by lia. apply andb_false_r. }
  rewrite <- Z.lxor_lor, <- Z.add_nocarry_lxor, Z.shiftl_mul_pow2 by (done || lia). lia.
Qed.

(** The value of a byte string, most significant byte first. *)
Definition be_value (l : list Z) : Z := foldl (fun r b => 256 * r + b) 0 l.

Lemma be_value_snoc l b : be_value (l ++ [b]) = 256 * be_value l + b.
Proof. unfold be_value. by rewrite foldl_snoc. Qed.

Lemma be_value_bound l : Forall in_u8 l -> 0 <= be_value l < 2 ^ (8 * zlength l).
Proof.
  induction l as [|b l IH] using rev_ind; intros Hl; [cbn; lia|].
  apply Forall_app in Hl as [Hl [Hb _]%Forall_cons]. specialize (IH Hl).
  rewrite be_value_snoc, length_app, Nat2Z.inj_add, Z.mul_add_distr_l, Z.pow_add_r by (cbn; lia).
  change (2 ^ (8 * zlength [b])) with 256. unfold in_u8, u8_max in Hb. nia.
Qed.

Lemma be_value_inj l k :
  Forall in_u8 l -> Forall in_u8 k -> length l = length k -> be_value l = be_value k -> l = k.
Proof.
  revert k. induction l as [|b l IH] using rev_ind; intros k Hl Hk Hlen He.
  - by destruct k.
  - destruct k as [|c k _] using rev_ind; [by rewrite length_app in Hlen; cbn in Hlen; lia|].
    rewrite !length_app in Hlen. rewrite !be_value_snoc in He.
    apply Forall_app in Hl as [Hl [Hb _]%Forall_cons], Hk as [Hk [Hc _]%Forall_cons].
    unfold in_u8, u8_max in Hb, Hc. cbn in Hlen.
    rewrite (IH k); [f_equal; f_equal; lia | done | done | lia | lia].
Qed.

Lemma bytes_to_u256_eq l : Forall in_u8 l -> (length l <= 32)%nat -> bytes_to_u256 l = be_value l.
Proof.
  intros Hl Hlen. unfold bytes_to_u256. rewrite take_ge by done. revert Hl Hlen.
  induction l as [|b l IH] using rev_ind; intros Hl Hlen; [done|].
  rewrite length_app in Hlen. cbn in Hlen. apply Forall_app in Hl as [Hl [Hb _]%Forall_cons].
  rewrite foldl_snoc. rewrite IH; [|done|lia]. rewrite be_value_snoc.
  pose proof (be_value_bound l Hl) as Hr. rewrite Z.mod_small; [apply lor_low_byte; [lia | done]|].
  rewrite Z.shiftl_mul_pow2 by lia. split; [lia|].
  apply Z.lt_le_trans with (2 ^ (8 * zlength l) * 2 ^ 8); [lia|].
  rewrite <- Z.pow_add_r by lia. apply Z.pow_le_mono_r; lia.
Qed.

(** The size is kept folded: unary arithmetic on it is slow. *)
Lemma BLOB_SIZE_val : BLOB_SIZE = 4096.
Proof. done. Qed.
#[local] Opaque BLOB_SIZE.

Section Spec.
Context `{SuiFrameworkLaws}.

(** The 16 bytes that are hashed, and the checksum of them. *)
Definition checksum_input (value nonce : Z) : list Z := le_bytes 8 value ++ le_bytes 8 nonce.
Definition checksum_of (value nonce : Z) : Z := bytes_to_u256 (keccak256 (checksum_input value nonce)).

Lemma compute_checksum_eq value nonce : compute_checksum value nonce = Ok (checksum_of value nonce).
Proof. unfold compute_checksum. rewrite !pack_bytes_eq. cbn [obind]. by rewrite pack_bytes_eq. Qed.

Lemma checksum_of_bound value nonce : 0 <= checksum_of value nonce <= u256_max.
Proof.
  unfold checksum_of. set (d := checksum_input value nonce).
  pose proof (keccak256_length d) as Hl. pose proof (keccak256_bytes d) as Hb.
  rewrite bytes_to_u256_eq by (done || lia). pose proof (be_value_bound _ Hb) as Hv.
  rewrite Hl in Hv. change (2 ^ (8 * Z.of_nat 32)) with (2 ^ 256) in Hv. unfold u256_max. lia.
Qed.

Lemma checksum_input_inj v n v' n' :
  in_u64 v -> in_u64 n -> in_u64 v' -> in_u64 n' ->
  checksum_input v n = checksum_input v' n' -> v = v' /\ n = n'.
Proof.
  intros Hv Hn Hv' Hn' [H1 H2]%app_inj_1; [|by rewrite !le_bytes_length].
  unfold in_u64, u64_max in *. split; eapply (le_bytes_inj 8); cbn; done || lia.
Qed.

(** Two different inputs that the external hash sends to the same digest. *)
Definition keccak_collision : Prop :=
  exists d d', d <> d' /\ length d = 16%nat /\ length d' = 16%nat /\ keccak256 d = keccak256 d'.

Lemma checksum_of_inj v n v' n' :
  in_u64 v -> in_u64 n -> in_u64 v' -> in_u64 n' ->
  checksum_of v n = checksum_of v' n' -> (v = v' /\ n = n') \/ keccak_collision.
Proof.
  intros Hv Hn Hv' Hn' He.
  destruct (decide (checksum_input v n = checksum_input v' n')) as [Hi|Hi].
  { left. by apply checksum_input_inj. }
  right. exists (checksum_input v n), (checksum_input v' n').
  split; [done|]. unfold checksum_input at 1 2. rewrite !length_app, !le_bytes_length.
  split; [done|]. split; [done|]. unfold checksum_of in He.
  rewrite !bytes_to_u256_eq in He by (apply keccak256_bytes || by rewrite keccak256_length).
  apply be_value_inj in He; [done | apply keccak256_bytes | apply keccak256_bytes |].
  by rewrite !keccak256_length.
Qed.

(** ** Filler data

    The low byte of the generator is a generator modulo 256 of its own. *)
Definition lcg8 (x : Z) : Z := (109 * x + 57) mod 256.

Fixpoint byte_stream (n : nat) (x : Z) : list Z :=
  match n with
  | O => []
  | S n => lcg8 x :: byte_stream n (lcg8 x)
  end.

Arguments byte_stream n x : simpl nomatch.

Lemma lcg8_range x : 0 <= lcg8 x < 256.
Proof. apply Z.mod_pos_bound. lia. Qed.

Lemma lcg_low_byte s : ((s * 1103515245 + 12345) mod 2147483648) mod 256 = lcg8 (s mod 256).
Proof.
  unfold lcg8. rewrite <- Znumtheory.Zmod_div_mod by (lia || by exists 8388608).
  replace (s * 1103515245 + 12345) with (109 * s + 57 + (s * 4310606 + 48) * 256) by lia.
  rewrite Z_mod_plus_full, Z.add_mod, Z.mul_mod by lia. rewrite (Z.add_mod (109 * (s mod 256))) by lia.
  rewrite (Z.mul_mod 109 (s mod 256)), Z.mod_mod by lia. done.
Qed.

Lemma byte_stream_length n x : length (byte_stream n x) = n.
Proof. revert x. induction n; intros; cbn; auto. Qed.

Lemma byte_stream_bytes n x : Forall in_u8 (byte_stream n x).
Proof.
  revert x. induction n as [|n IH]; intros x; cbn [byte_stream]; constructor; [|done].
  pose proof (lcg8_range x). unfold in_u8, u8_max. lia.
Qed.

Lemma byte_stream_app n m x :
  byte_stream (n + m) x = byte_stream n x ++ byte_stream m (Nat.iter n lcg8 x).
Proof.
  revert x. induction n as [|n IH]; intros x; [done|].
  cbn [Nat.add byte_stream app]. rewrite IH. f_equal. f_equal. f_equal.
  change (Nat.iter n lcg8 (lcg8 x) = Nat.iter (S n) lcg8 x).
  by rewrite Nat.iter_succ_r.
Qed.

(** The step from a seed within the range of a previous state never
    overflows. *)
Definition seed_fits (seed : Z) : Prop := seed * 1103515245 + 12345 <= u64_max.
#[global] Instance seed_fits_dec seed : Decision (seed_fits seed).
Proof. unfold seed_fits. apply _. Defined.

Lemma blob_step {A} seed (k : Z -> Z -> outcome vm_error A) :
  0 <= seed ->
  (p ←? u64_mul seed 1103515245; s ←? u64_add p 12345;
   b ←? cast_u8 ((s mod 2147483648) mod 256); k (s mod 2147483648) b) =
  if decide (seed_fits seed)
  then k ((seed * 1103515245 + 12345) mod 2147483648) (lcg8 (seed mod 256))
  else Err ARITHMETIC_ERROR.
Proof.
  intros Hs. unfold seed_fits. case_decide as Hf.
  - unfold u64_mul, u64_add. rewrite move_int_le by lia. cbn [obind].
    rewrite move_int_le by lia. cbn [obind]. rewrite lcg_low_byte. unfold cast_u8.
    rewrite move_int_le by (pose proof (lcg8_range (seed mod 256)); unfold u8_max; lia). done.
  - unfold u64_mul, u64_add. destruct (Z.le_gt_cases (seed * 1103515245) u64_max).
    + rewrite move_int_le by done. cbn [obind]. by rewrite move_int_gt by lia.
    + by rewrite move_int_gt by lia.
Qed.

Lemma blob_loop_small n state data :
  0 <= state < 2147483648 -> blob_loop n state data = Ok (data ++ byte_stream n (state mod 256)).
Proof.
  revert state data. induction n as [|n IH]; intros state data Hs; cbn [blob_loop byte_stream].
  - by rewrite app_nil_r.
  - rewrite (blob_step state (fun st b => blob_loop n st (data ++ [b]))) by lia.
    rewrite decide_True by (unfold seed_fits, u64_max; lia).
    rewrite IH by (apply Z.mod_pos_bound; lia). by rewrite lcg_low_byte, <- app_assoc.
Qed.

Lemma generate_blob_data_eq seed size :
  0 <= seed -> 0 < size ->
  generate_blob_data seed size =
  if decide (seed_fits seed) then Ok (byte_stream (Z.to_nat size) (seed mod 256))
  else Err ARITHMETIC_ERROR.
Proof.
  intros Hs Hsize. unfold generate_blob_data.
  destruct (Z.to_nat size) as [|n] eqn:En; [lia|]. cbn [blob_loop byte_stream].
  rewrite (blob_step seed (fun st b => blob_loop n st ([] ++ [b]))) by done.
  case_decide; [|done]. rewrite blob_loop_small by (apply Z.mod_pos_bound; lia).
  by rewrite lcg_low_byte.
Qed.

(** The 256 byte values come round in one cycle. *)
Lemma lcg8_cycle x : 0 <= x < 256 -> Nat.iter 256 lcg8 x = x.
Proof.
  assert (forallb (fun x => Nat.iter 256 lcg8 x =? x) (seqZ 0 256) = true) as Hc by (vm_compute; done).
  intros Hx. apply Z.eqb_eq. rewrite forallb_forall in Hc. apply Hc.
  apply list_elem_of_In, elem_of_seqZ. lia.
Qed.

Lemma byte_stream_cycle x : 0 <= x < 256 -> NoDup (byte_stream 256 x).
Proof.
  assert (forallb (fun x => bool_decide (NoDup (byte_stream 256 x))) (seqZ 0 256) = true) as Hc
    by (vm_compute; done).
  intros Hx. apply (bool_decide_eq_true (NoDup _)). rewrite forallb_forall in Hc. apply Hc.
  apply list_elem_of_In, elem_of_seqZ. lia.
Qed.

Lemma byte_stream_repeats k x :
  0 <= x < 256 -> byte_stream (k * 256) x = concat (replicate k (byte_stream 256 x)).
Proof.
  intros Hx. induction k as [|k IH]; [done|].
  change (S k * 256)%nat with (256 + k * 256)%nat.
  rewrite byte_stream_app, lcg8_cycle, IH by done. done.
Qed.

(** ** Objects of a reachable store *)

Definition counter_ok (c : MicroCounter) : Prop :=
  in_u64 (mc_value c) /\ in_u64 (mc_nonce c) /\ in_u64 (mc_last_update c) /\
  mc_checksum c = checksum_of (mc_value c) (mc_nonce c).

Definition blob_ok (b : LargeBlob) : Prop :=
  in_u64 (lb_version b) /\
  exists seed, in_u64 seed /\ seed_fits seed /\
    lb_data b = byte_stream (Z.to_nat BLOB_SIZE) (seed mod 256) /\
    lb_checksum b = checksum_of (lb_version b) seed.

Definition object_ok (o : Object) : Prop :=
  match o with OCounter c => counter_ok c | OBlob b => blob_ok b end.

Definition store_ok (st : gmap UID (Object * Owner)) : Prop :=
  map_Forall (fun id p => object_id p.1 = id /\ object_ok p.1) st.

Lemma u64_add_Ok x y z : u64_add x y = Ok z <-> z = x + y /\ x + y <= u64_max.
Proof. apply move_int_Ok. Qed.

Lemma generate_blob_Ok seed data :
  0 <= seed -> generate_blob_data seed BLOB_SIZE = Ok data ->
  seed_fits seed /\ data = byte_stream (Z.to_nat BLOB_SIZE) (seed mod 256).
Proof.
  intros Hs. rewrite generate_blob_data_eq by (done || (rewrite BLOB_SIZE_val; lia)).
  case_decide; [|done]. intros <-%Ok_inj. by split.
Qed.

Lemma lxor_u64 x y : in_u64 x -> in_u64 y -> in_u64 (Z.lxor x y).
Proof.
  unfold in_u64. intros Hx Hy. assert (0 <= Z.lxor x y) by (apply Z.lxor_nonneg; lia).
  split; [done|]. destruct (Z.eq_dec (Z.lxor x y) 0) as [->|Hne]; [done|].
  assert (Z.lxor x y < 2 ^ 64); [|unfold u64_max; lia].
  apply Z.log2_lt_pow2; [lia|]. eapply Z.le_lt_trans; [apply Z.log2_lxor; lia|].
  unfold u64_max in *. apply Z.max_lub_lt.
  - destruct (Z.eq_dec x 0) as [->|]; [done|]. apply Z.log2_lt_pow2; lia.
  - destruct (Z.eq_dec y 0) as [->|]; [done|]. apply Z.log2_lt_pow2; lia.
Qed.

(** One call of a function that bumps a counter. *)
Inductive counter_bump : MicroCounter -> MicroCounter -> Prop :=
| bump_increment c clock c' : increment c clock = Ok c' -> counter_bump c c'
| bump_increment_simple c ctx c' : increment_simple c ctx = Ok c' -> counter_bump c c'
| bump_batch k c ctx c' : 1 <= k <= 8 -> batch_bump k ctx c = Ok c' -> counter_bump c c'.

Ltac move_inv :=
  repeat match goal with
  | H : obind _ _ = Ok _ |- _ => apply bind_Ok in H as (? & ? & H)
  | H : u64_add _ _ = Ok _ |- _ => apply u64_add_Ok in H as [-> H]
  | H : compute_checksum _ _ = Ok _ |- _ => rewrite compute_checksum_eq in H; apply Ok_inj in H as <-
  | H : Ok _ = Ok _ |- _ => apply Ok_inj in H as <-
  | H : cast_u64 _ = Ok _ |- _ => apply move_int_Ok in H as [-> ?]
  | H : ensure _ _ = Ok _ |- _ => apply ensure_Ok in H
  end.

(** A bump advances the value by one, keeps identity and owner, and leaves a
    well formed counter. *)
Lemma counter_bump_ok c c' :
  counter_ok c -> counter_bump c c' ->
  counter_ok c' /\ mc_id c' = mc_id c /\ mc_owner c' = mc_owner c /\ mc_value c' = mc_value c + 1.
Proof.
  intros (Hv & Hn & _ & _) Hb.
  destruct Hb as [c clock c' Hb|c ctx c' Hb|k c ctx c' Hk Hb];
    [unfold increment in Hb; pose proof (timestamp_u64 clock)
    |unfold increment_simple in Hb; pose proof (epoch_u64 ctx)
    |unfold batch_bump in Hb; pose proof (epoch_u64 ctx)];
    move_inv; unfold counter_ok, in_u64 in *; cbn; repeat split; lia.
Qed.

Lemma set_value_ok c v e ctx c' :
  in_u64 v -> in_u64 e -> set_value c v e ctx = Ok c' ->
  counter_ok c' /\ mc_id c' = mc_id c /\ mc_owner c' = mc_owner c /\ mc_owner c = sender ctx.
Proof.
  intros Hv He Hs. unfold set_value in Hs. move_inv. bool_to_prop.
  pose proof (epoch_u64 ctx) as Hep. pose proof (lxor_u64 _ _ He Hep).
  unfold counter_ok. split_and!; cbn; done.
Qed.

(** One call of a function that rewrites a blob; [readable] are the blobs it
    may read. *)
Inductive blob_update (readable : LargeBlob -> Prop) : LargeBlob -> LargeBlob -> Prop :=
| blob_update_plain b ctx b' :
    update_blob b ctx = Ok b' -> blob_update readable b b'
| blob_update_entropy b e ctx b' :
    in_u64 e -> update_blob_entropy b e ctx = Ok b' -> blob_update readable b b'
| blob_update_read r b ctx b' :
    readable r -> read_update_blob r b ctx = Ok b' -> blob_update readable b b'.

(** Sampling a blob neither aborts nor runs out of fuel, and its sum is
    small. *)
Lemma sample_loop_total fuel data i sum :
  Forall in_u8 data -> zlength data <= 2 ^ 32 -> 0 <= i ->
  0 <= sum -> sum + 255 * Z.of_nat fuel <= u64_max ->
  exists sum', sample_loop fuel data i sum = Ok sum' /\ 0 <= sum' <= sum + 255 * Z.of_nat fuel.
Proof.
  intros Hd Hl. revert i sum. induction fuel as [|fuel IH]; intros i sum Hi Hs Hb; cbn [sample_loop].
  { exists sum. split; [done | lia]. }
  destruct (Z.ltb_spec i (zlength data)) as [Hlt|]; [|exists sum; split; [done | lia]].
  destruct (lookup_lt_is_Some_2 data (Z.to_nat i) ltac:(lia)) as [x Hx]. rewrite Hx. cbn [expect obind].
  assert (in_u8 x) as Hxb by (eapply Forall_lookup_1; done). unfold in_u8, u8_max in Hxb.
  unfold u256_add, u64_add. rewrite !move_int_le by (unfold u256_max, u64_max in *; lia). cbn [obind].
  destruct (IH (i + 64) (sum + x)) as (sum' & He & Hr); [lia | lia | lia |].
  exists sum'. split; [done | lia].
Qed.

Lemma blob_data_shape b : blob_ok b -> Forall in_u8 (lb_data b) /\ length (lb_data b) = Z.to_nat BLOB_SIZE.
Proof.
  intros (_ & seed & _ & _ & -> & _). split; [apply byte_stream_bytes | apply byte_stream_length].
Qed.

Lemma read_blob_checksum_eq b :
  blob_ok b -> exists sum, 0 <= sum < 2 ^ 21 /\ read_blob_checksum b = Ok (Z.lxor sum (lb_checksum b)).
Proof.
  intros Hb. destruct (blob_data_shape b Hb) as [Hd Hl].
  unfold read_blob_checksum. rewrite Hl.
  destruct (sample_loop_total (S (Z.to_nat BLOB_SIZE)) (lb_data b) 0 0) as (sum & -> & Hs);
    rewrite ?Hl; pose proof BLOB_SIZE_val; unfold u64_max in *; try done; try lia.
  exists sum. split; [|done]. lia.
Qed.

Lemma blob_ok_checksum b : blob_ok b -> 0 <= lb_checksum b <= u256_max.
Proof. intros (_ & seed & _ & _ & _ & ->). apply checksum_of_bound. Qed.

(** An update advances the version by one, keeps identity and owner, and
    leaves a well formed blob. *)
Lemma blob_update_ok readable b b' :
  (forall r, readable r -> blob_ok r) -> blob_ok b -> blob_update readable b b' ->
  blob_ok b' /\ lb_id b' = lb_id b /\ lb_owner b' = lb_owner b /\ lb_version b' = lb_version b + 1.
Proof.
  intros Hr (Hv & _) Hu.
  assert (forall seed version data,
    in_u64 seed -> generate_blob_data seed BLOB_SIZE = Ok data -> version = lb_version b + 1 -> version <= u64_max ->
    let b' := mkLargeBlob (lb_id b) (lb_owner b) version data (checksum_of version seed) in
    blob_ok b' /\ lb_id b' = lb_id b /\ lb_owner b' = lb_owner b /\ lb_version b' = lb_version b + 1) as Hgen.
  { intros seed version data Hs Hd -> Hle. apply generate_blob_Ok in Hd as [Hf ->]; [|apply Hs].
    unfold blob_ok. split_and!; cbn; try done; [unfold in_u64 in *; lia | by exists seed]. }
  destruct Hu as [b ctx b' Hu|b e ctx b' He Hu|r b ctx b' Hr' Hu]; pose proof (epoch_u64 ctx) as Hep.
  - unfold update_blob in Hu. apply bind_Ok in Hu as (v & [-> Hle]%u64_add_Ok & Hu).
    apply bind_Ok in Hu as (seed & [-> Hle']%u64_add_Ok & Hu). apply bind_Ok in Hu as (data & Hd & Hu).
    move_inv. apply Hgen; [unfold in_u64 in *; lia | done | done | done].
  - unfold update_blob_entropy in Hu. apply bind_Ok in Hu as (v & [-> Hle]%u64_add_Ok & Hu).
    apply bind_Ok in Hu as (data & Hd & Hu). move_inv.
    apply Hgen; [|done|done|done]. apply lxor_u64; [by apply lxor_u64 | unfold in_u64 in *; lia].
  - unfold read_update_blob in Hu. destruct (read_blob_checksum_eq r (Hr r Hr')) as (sum & Hs & He).
    rewrite He in Hu. cbn [obind] in Hu. apply bind_Ok in Hu as (v & [-> Hle]%u64_add_Ok & Hu).
    apply bind_Ok in Hu as (en & [-> Hen]%move_int_Ok & Hu). apply bind_Ok in Hu as (data & Hd & Hu).
    move_inv. pose proof (blob_ok_checksum r (Hr r Hr')).
    apply Hgen; [|done|done|done]. apply lxor_u64; [|unfold in_u64 in *; lia].
    apply lxor_u64; [done|]. split; [apply Z.lxor_nonneg; lia | done].
Qed.

(** ** Creation *)

Definition new_counter (ctx : TxContext) (id : UID) : MicroCounter :=
  mkMicroCounter id (sender ctx) 0 (epoch ctx) (checksum_of 0 (epoch ctx)) 0.
Definition new_blob (ctx : TxContext) (id : UID) : LargeBlob :=
  mkLargeBlob id (sender ctx) 0 (byte_stream (Z.to_nat BLOB_SIZE) (epoch ctx mod 256)) (checksum_of 0 (epoch ctx)).

Lemma create_counter_eq ctx st :
  create_counter (mkTxState ctx st) =
  (mkTxState (fresh_uid ctx).2 st, Ok (new_counter ctx (fresh_uid ctx).1)).
Proof.
  unfold create_counter, ebind, read_ctx, eread, object_new. cbn [ts_ctx ts_store].
  destruct (fresh_uid ctx) as [id ctx']. cbn. by rewrite compute_checksum_eq.
Qed.

Lemma create_blob_eq ctx st :
  create_blob (mkTxState ctx st) =
  if decide (seed_fits (epoch ctx))
  then (mkTxState (fresh_uid ctx).2 st, Ok (new_blob ctx (fresh_uid ctx).1))
  else (mkTxState ctx st, Err ARITHMETIC_ERROR).
Proof.
  unfold create_blob, ebind, read_ctx, eread, object_new. cbn [ts_ctx ts_store].
  rewrite generate_blob_data_eq by (apply epoch_u64 || (rewrite BLOB_SIZE_val; lia)).
  case_decide; [|done]. cbn [ts_ctx ts_store]. destruct (fresh_uid ctx) as [id ctx']. by rewrite compute_checksum_eq.
Qed.

Definition created (mk : UID -> Object) (ids : list UID) (a : Owner) (st st' : gmap UID (Object * Owner)) : Prop :=
  forall id, st' !! id = if decide (id ∈ ids) then Some (mk id, a) else st !! id.

Lemma created_nil mk a st : created mk [] a st st.
Proof. intros id. by rewrite decide_False by apply not_elem_of_nil. Qed.

Lemma created_cons mk ids a id0 st st' :
  created mk ids a (<[id0 := (mk id0, a)]> st) st' -> created mk (id0 :: ids) a st st'.
Proof.
  intros Hc id. rewrite Hc. destruct (decide (id = id0)) as [->|Hne].
  - rewrite lookup_insert_eq, (decide_True (P := _ ∈ _ :: _)) by apply list_elem_of_here. by case_decide.
  - rewrite lookup_insert_ne by done. repeat case_decide; set_solver.
Qed.

Lemma created_ok mk ids a st st' :
  (forall id, object_id (mk id) = id /\ object_ok (mk id)) ->
  store_ok st -> created mk ids a st st' -> store_ok st'.
Proof.
  intros Hmk Hst Hc id p. rewrite Hc. case_decide; [|apply Hst].
  intros <-%Some_inj. apply Hmk.
Qed.

Lemma new_counter_next ctx : new_counter (fresh_uid ctx).2 = new_counter ctx.
Proof. unfold new_counter. by rewrite fresh_uid_sender, fresh_uid_epoch. Qed.

Lemma new_blob_next ctx : new_blob (fresh_uid ctx).2 = new_blob ctx.
Proof. unfold new_blob. by rewrite fresh_uid_sender, fresh_uid_epoch. Qed.

Lemma new_counter_ok ctx id : counter_ok (new_counter ctx id).
Proof.
  unfold counter_ok. split_and!; cbn; try done. apply epoch_u64.
Qed.

Lemma new_blob_ok ctx id : seed_fits (epoch ctx) -> blob_ok (new_blob ctx id).
Proof. intros Hf. split; [done|]. exists (epoch ctx). split; [apply epoch_u64 | done]. Qed.

Lemma create_loop_eq n a ctx st :
  exists ctx' st', create_loop n a (mkTxState ctx st) = (mkTxState ctx' st', Ok tt) /\
    created (fun id => OCounter (new_counter ctx id)) (fresh_uids n ctx) (AddressOwner a) st st'.
Proof.
  revert ctx st. induction n as [|n IH]; intros ctx st; cbn [create_loop fresh_uids].
  { exists ctx, st. split; [done | apply created_nil]. }
  unfold ebind. rewrite create_counter_eq. cbn [transfer ewrite ts_ctx ts_store object_id new_counter mc_id].
  destruct (IH (fresh_uid ctx).2 (<[(fresh_uid ctx).1 :=
    (OCounter (new_counter ctx (fresh_uid ctx).1), AddressOwner a)]> st)) as (ctx' & st' & He & Hc).
  exists ctx', st'. split; [exact He|]. rewrite new_counter_next in Hc.
  by apply (created_cons (fun id => OCounter (new_counter ctx id))).
Qed.

Lemma create_blob_loop_eq n a ctx st :
  seed_fits (epoch ctx) ->
  exists ctx' st', create_blob_loop n a (mkTxState ctx st) = (mkTxState ctx' st', Ok tt) /\
    created (fun id => OBlob (new_blob ctx id)) (fresh_uids n ctx) (AddressOwner a) st st'.
Proof.
  revert ctx st. induction n as [|n IH]; intros ctx st Hf; cbn [create_blob_loop fresh_uids].
  { exists ctx, st. split; [done | apply created_nil]. }
  unfold ebind. rewrite create_blob_eq, decide_True by done.
  cbn [transfer ewrite ts_ctx ts_store object_id new_blob lb_id].
  destruct (IH (fresh_uid ctx).2 (<[(fresh_uid ctx).1 :=
    (OBlob (new_blob ctx (fresh_uid ctx).1), AddressOwner a)]> st)) as (ctx' & st' & He & Hc).
  { by rewrite fresh_uid_epoch. }
  exists ctx', st'. split; [exact He|]. rewrite new_blob_next in Hc.
  by apply (created_cons (fun id => OBlob (new_blob ctx id))).
Qed.

Lemma create_blob_loop_abort n a ctx st :
  ~ seed_fits (epoch ctx) ->
  (create_blob_loop (S n) a (mkTxState ctx st)).2 = Err ARITHMETIC_ERROR.
Proof.
  intros Hf. cbn [create_blob_loop]. unfold ebind. by rewrite create_blob_eq, decide_False by done.
Qed.

(** ** Calls of the contract

    One successful call of an entry function on objects of the store, or a
    transfer of an object by its owner.  Which objects a sender may name is up
    to the runtime; every object of the right type is allowed here. *)
Definition holds (st : gmap UID (Object * Owner)) (o : Object) : Prop :=
  exists w, st !! object_id o = Some (o, w).

Definition write (o : Object) (st : gmap UID (Object * Owner)) : gmap UID (Object * Owner) :=
  alter (fun p => (o, p.2)) (object_id o) st.

Inductive contract_step (st : gmap UID (Object * Owner)) : gmap UID (Object * Owner) -> Prop :=
| step_create_batch ctx count s' :
    create_batch count (mkTxState ctx st) = (s', Ok tt) -> contract_step st (ts_store s')
| step_create_blob_batch ctx count s' :
    create_blob_batch count (mkTxState ctx st) = (s', Ok tt) -> contract_step st (ts_store s')
| step_create_blob_and_transfer ctx s' :
    create_blob_and_transfer (mkTxState ctx st) = (s', Ok tt) -> contract_step st (ts_store s')
| step_create_shared ctx s' :
    create_shared (mkTxState ctx st) = (s', Ok tt) -> contract_step st (ts_store s')
| step_increment clock c c' :
    holds st (OCounter c) -> increment c clock = Ok c' -> contract_step st (write (OCounter c') st)
| step_increment_simple ctx c c' :
    holds st (OCounter c) -> increment_simple c ctx = Ok c' -> contract_step st (write (OCounter c') st)
| step_set_value v e ctx c c' :
    holds st (OCounter c) -> in_u64 v -> in_u64 e -> set_value c v e ctx = Ok c' ->
    contract_step st (write (OCounter c') st)
| step_batch_increment_2 ctx c1 c2 d1 d2 :
    Forall (fun c => holds st (OCounter c)) [c1; c2] -> NoDup (mc_id <$> [c1; c2]) ->
    batch_increment_2 c1 c2 ctx = Ok (d1, d2) ->
    contract_step st (foldr write st (OCounter <$> [d1; d2]))
| step_batch_increment_4 ctx c1 c2 c3 c4 d1 d2 d3 d4 :
    Forall (fun c => holds st (OCounter c)) [c1; c2; c3; c4] -> NoDup (mc_id <$> [c1; c2; c3; c4]) ->
    batch_increment_4 c1 c2 c3 c4 ctx = Ok (d1, d2, d3, d4) ->
    contract_step st (foldr write st (OCounter <$> [d1; d2; d3; d4]))
| step_batch_increment_8 ctx c1 c2 c3 c4 c5 c6 c7 c8 d1 d2 d3 d4 d5 d6 d7 d8 :
    Forall (fun c => holds st (OCounter c)) [c1; c2; c3; c4; c5; c6; c7; c8] -> NoDup (mc_id <$> [c1; c2; c3; c4; c5; c6; c7; c8]) ->
    batch_increment_8 c1 c2 c3 c4 c5 c6 c7 c8 ctx = Ok (d1, d2, d3, d4, d5, d6, d7, d8) ->
    contract_step st (foldr write st (OCounter <$> [d1; d2; d3; d4; d5; d6; d7; d8]))
| step_update_blob ctx b b' :
    holds st (OBlob b) -> update_blob b ctx = Ok b' -> contract_step st (write (OBlob b') st)
| step_update_blob_entropy e ctx b b' :
    holds st (OBlob b) -> in_u64 e -> update_blob_entropy b e ctx = Ok b' ->
    contract_step st (write (OBlob b') st)
| step_read_blob b :
    holds st (OBlob b) -> read_blob b = Ok tt -> contract_step st st
| step_read_update_blob ctx r b b' :
    holds st (OBlob r) -> holds st (OBlob b) -> lb_id r <> lb_id b -> read_update_blob r b ctx = Ok b' ->
    contract_step st (write (OBlob b') st)
| step_delete_blob b :
    holds st (OBlob b) -> contract_step st (delete (delete_blob b) st)
| step_transfer id o w w' :
    st !! id = Some (o, w) -> contract_step st (<[id := (o, w')]> st).

Lemma store_ok_holds st o : store_ok st -> holds st o -> object_ok o.
Proof. intros Hst [w Hw]. by apply (Hst _ _ Hw). Qed.

Lemma store_ok_write st o : store_ok st -> object_ok o -> store_ok (write o st).
Proof.
  intros Hst Ho id p. unfold write. destruct (decide (id = object_id o)) as [->|Hne].
  - rewrite lookup_alter_eq, fmap_Some. intros (q & _ & ->). done.
  - rewrite lookup_alter_ne by done. apply Hst.
Qed.

Lemma store_ok_writes st os : store_ok st -> Forall object_ok os -> store_ok (foldr write st os).
Proof. intros Hst. induction 1; cbn; [done | by apply store_ok_write]. Qed.

Lemma store_ok_insert st o w : store_ok st -> object_ok o -> store_ok (<[object_id o := (o, w)]> st).
Proof. intros Hst Ho. by apply map_Forall_insert_2. Qed.

Lemma batch_bump_ok st k c ctx c' :
  store_ok st -> holds st (OCounter c) -> 1 <= k <= 8 -> batch_bump k ctx c = Ok c' -> object_ok (OCounter c').
Proof.
  intros Hst Hc Hk Hb. eapply counter_bump_ok; [by apply (store_ok_holds st (OCounter c))|].
  by eapply bump_batch.
Qed.

(** Each counter of a batch increment comes out of its own bump. *)
Ltac batch_inv :=
  repeat match goal with
  | H : obind _ _ = Ok _ |- _ => apply bind_Ok in H as (? & ? & H)
  | H : Ok _ = Ok _ |- _ => injection H as ?; subst
  | H : Forall _ (_ :: _) |- _ => apply Forall_cons in H as [? H]
  end;
  repeat (apply Forall_cons; split); [..| by constructor];
  match goal with
  | H : batch_bump ?k _ _ = Ok ?d |- object_ok (OCounter ?d) =>
      refine (batch_bump_ok _ k _ _ _ ltac:(eassumption) _ _ H); [eassumption | lia]
  end.

Lemma contract_step_creates st st' :
  store_ok st ->
  (exists ctx, (exists ids, created (fun id => OCounter (new_counter ctx id)) ids (AddressOwner (sender ctx)) st st') \/
    (seed_fits (epoch ctx) /\
     exists ids, created (fun id => OBlob (new_blob ctx id)) ids (AddressOwner (sender ctx)) st st')) ->
  store_ok st'.
Proof.
  intros Hst (ctx & [[ids Hc]|(Hf & ids & Hc)]); (eapply created_ok; [|exact Hst|exact Hc]);
    intros id; (split; [done|]); [apply new_counter_ok | by apply new_blob_ok].
Qed.

Lemma create_batch_eq count ctx st :
  exists ctx' st', create_batch count (mkTxState ctx st) = (mkTxState ctx' st', Ok tt) /\
    created (fun id => OCounter (new_counter ctx id)) (fresh_uids (Z.to_nat count) ctx)
      (AddressOwner (sender ctx)) st st'.
Proof. apply create_loop_eq. Qed.

Lemma create_blob_batch_Ok count ctx st s' :
  create_blob_batch count (mkTxState ctx st) = (s', Ok tt) ->
  ts_store s' = st \/
  (seed_fits (epoch ctx) /\
   created (fun id => OBlob (new_blob ctx id)) (fresh_uids (Z.to_nat count) ctx)
     (AddressOwner (sender ctx)) st (ts_store s')).
Proof.
  unfold create_blob_batch, ebind, read_ctx, eread. cbn [ts_ctx ts_store].
  destruct (decide (seed_fits (epoch ctx))) as [Hf|Hf].
  - destruct (create_blob_loop_eq (Z.to_nat count) (sender ctx) ctx st Hf) as (ctx' & st' & -> & Hc).
    intros [= <-]. by right.
  - destruct (Z.to_nat count) as [|n]; [intros [= <-]; by left|].
    intros Hs. pose proof (create_blob_loop_abort n (sender ctx) ctx st Hf) as Ha. by rewrite Hs in Ha.
Qed.

Lemma create_blob_and_transfer_Ok ctx st s' :
  create_blob_and_transfer (mkTxState ctx st) = (s', Ok tt) ->
  seed_fits (epoch ctx) /\
  exists id, ts_store s' = <[id := (OBlob (new_blob ctx id), AddressOwner (sender ctx))]> st.
Proof.
  unfold create_blob_and_transfer, ebind. rewrite create_blob_eq. case_decide; [|by intros [=]].
  unfold read_ctx, eread, transfer, ewrite. cbn [ts_ctx ts_store]. rewrite fresh_uid_sender.
  intros [= <-]. split; [done|]. by eexists.
Qed.

Lemma create_shared_Ok ctx st s' :
  create_shared (mkTxState ctx st) = (s', Ok tt) ->
  exists id, ts_store s' = <[id := (OCounter (new_counter ctx id), Shared)]> st.
Proof.
  unfold create_shared, ebind, read_ctx, eread, object_new, transfer, ewrite. cbn [ts_ctx ts_store].
  destruct (fresh_uid ctx) as [id ctx']. rewrite compute_checksum_eq. intros [= <-]. by exists id.
Qed.

Lemma store_ok_bump st c c' :
  store_ok st -> holds st (OCounter c) -> counter_bump c c' -> store_ok (write (OCounter c') st).
Proof.
  intros Hst Hc Hb. apply store_ok_write; [done|].
  eapply counter_bump_ok; [by apply (store_ok_holds st (OCounter c)) | done].
Qed.

Lemma store_ok_blob_update st b b' :
  store_ok st -> holds st (OBlob b) -> blob_update (fun r => holds st (OBlob r)) b b' ->
  store_ok (write (OBlob b') st).
Proof.
  intros Hst Hb Hu. apply store_ok_write; [done|]. eapply blob_update_ok; [| |exact Hu].
  - intros r Hr. by apply (store_ok_holds st (OBlob r)).
  - by apply (store_ok_holds st (OBlob b)).
Qed.

Lemma contract_step_ok st st' : store_ok st -> contract_step st st' -> store_ok st'.
Proof.
  intros Hst Hs. destruct Hs as
    [ctx count s' Hs|ctx count s' Hs|ctx s' Hs|ctx s' Hs|clock c c' Hc Hs|ctx c c' Hc Hs|v e ctx c c' Hc Hv He Hs
    |ctx c1 c2 d1 d2 Hc _ Hs|ctx c1 c2 c3 c4 d1 d2 d3 d4 Hc _ Hs
    |ctx c1 c2 c3 c4 c5 c6 c7 c8 d1 d2 d3 d4 d5 d6 d7 d8 Hc _ Hs
    |ctx b b' Hb Hs|e ctx b b' Hb He Hs|b Hb Hs|ctx r b b' Hr Hb _ Hs|b Hb|id o w w' Hw].
  - destruct (create_batch_eq count ctx st) as (ctx' & st' & He & Hc). rewrite Hs in He. injection He as ->.
    apply (contract_step_creates st); [done|]. eauto.
  - apply create_blob_batch_Ok in Hs as [->|[Hf Hc]]; [done|]. apply (contract_step_creates st); eauto 6.
  - apply create_blob_and_transfer_Ok in Hs as (Hf & id & ->).
    apply (store_ok_insert st (OBlob (new_blob ctx id))); [done | by apply new_blob_ok].
  - apply create_shared_Ok in Hs as (id & ->).
    apply (store_ok_insert st (OCounter (new_counter ctx id))); [done | apply new_counter_ok].
  - eapply store_ok_bump; [done | exact Hc | by eapply bump_increment].
  - eapply store_ok_bump; [done | exact Hc | by eapply bump_increment_simple].
  - apply store_ok_write; [done|]. eapply set_value_ok; [exact Hv | exact He | exact Hs].
  - apply store_ok_writes; [done|]. unfold batch_increment_2 in Hs. batch_inv.
  - apply store_ok_writes; [done|]. unfold batch_increment_4 in Hs. batch_inv.
  - apply store_ok_writes; [done|]. unfold batch_increment_8 in Hs. batch_inv.
  - eapply store_ok_blob_update; [done | exact Hb | by eapply blob_update_plain].
  - eapply store_ok_blob_update; [done | exact Hb | by eapply blob_update_entropy].
  - done.
  - eapply store_ok_blob_update; [done | exact Hb | by apply (blob_update_read _ r b ctx)].
  - by apply map_Forall_delete.
  - apply map_Forall_insert_2; [|done]. by apply (Hst _ _ Hw).
Qed.

Lemma contract_run_ok st st' : store_ok st -> rtc contract_step st st' -> store_ok st'.
Proof. intros Hst. induction 1; [done | eauto using contract_step_ok]. Qed.

(** Xoring a small number into a large one leaves it large. *)
Lemma lxor_high k a x : 0 <= k -> 0 <= a < 2 ^ k -> 2 ^ k <= x -> 2 ^ k <= Z.lxor a x.
Proof.
  intros Hk Ha Hx. apply Z.nlt_ge. intros Hlt.
  assert (0 <= Z.lxor a x) as Hp by (apply Z.lxor_nonneg; lia).
  assert (Z.shiftr (Z.lxor a x) k = 0) as Hs.
  { rewrite Z.shiftr_div_pow2 by done. by apply Z.div_small. }
  rewrite Z.shiftr_lxor, !Z.shiftr_div_pow2, (Z.div_small a), Z.lxor_0_l in Hs by done.
  apply Z.div_small_iff in Hs; lia.
Qed.

Lemma seed_fits_bound seed : 2 ^ 35 <= seed -> ~ seed_fits seed.
Proof. unfold seed_fits, u64_max. lia. Qed.

(** The blob that an update with a given seed writes. *)
Definition reseeded (b : LargeBlob) (seed : Z) : LargeBlob :=
  mkLargeBlob (lb_id b) (lb_owner b) (lb_version b + 1)
    (byte_stream (Z.to_nat BLOB_SIZE) (seed mod 256)) (checksum_of (lb_version b + 1) seed).

Lemma reseed_eq b seed :
  in_u64 seed ->
  (data ←? generate_blob_data seed BLOB_SIZE;
   checksum ←? compute_checksum (lb_version b + 1) seed;
   Ok (mkLargeBlob (lb_id b) (lb_owner b) (lb_version b + 1) data checksum)) =
  if decide (seed_fits seed) then Ok (reseeded b seed) else Err ARITHMETIC_ERROR.
Proof.
  intros Hs. rewrite generate_blob_data_eq by (apply Hs || (rewrite BLOB_SIZE_val; lia)).
  case_decide; [|done]. cbn [obind]. by rewrite compute_checksum_eq.
Qed.

Lemma update_blob_eq b ctx :
  blob_ok b ->
  update_blob b ctx =
  if decide (seed_fits (epoch ctx + (lb_version b + 1)))
  then Ok (reseeded b (epoch ctx + (lb_version b + 1))) else Err ARITHMETIC_ERROR.
Proof.
  intros [Hv _]. pose proof (epoch_u64 ctx) as He. unfold in_u64 in *.
  destruct (decide (epoch ctx + (lb_version b + 1) <= u64_max)) as [Hle|Hgt].
  - unfold update_blob, u64_add. rewrite !move_int_le by lia. cbn [obind].
    rewrite move_int_le by lia. cbn [obind]. apply reseed_eq. unfold in_u64. lia.
  - rewrite decide_False by (unfold seed_fits, u64_max in *; lia).
    unfold update_blob, u64_add. destruct (decide (lb_version b + 1 <= u64_max)).
    + rewrite move_int_le by lia. cbn [obind]. by rewrite move_int_gt by lia.
    + by rewrite move_int_gt by lia.
Qed.

Lemma update_blob_entropy_eq b e ctx :
  blob_ok b -> in_u64 e -> lb_version b < u64_max ->
  update_blob_entropy b e ctx =
  if decide (seed_fits (Z.lxor (Z.lxor (epoch ctx) e) (lb_version b + 1)))
  then Ok (reseeded b (Z.lxor (Z.lxor (epoch ctx) e) (lb_version b + 1))) else Err ARITHMETIC_ERROR.
Proof.
  intros [Hv _] He Hlt. unfold update_blob_entropy, u64_add. rewrite move_int_le by lia. cbn [obind].
  apply reseed_eq. apply lxor_u64; [apply lxor_u64; [apply epoch_u64 | done]|]. unfold in_u64 in *. lia.
Qed.

Lemma read_update_blob_abort r b ctx :
  blob_ok r -> 2 ^ 64 <= lb_checksum r -> read_update_blob r b ctx = Err ARITHMETIC_ERROR.
Proof.
  intros Hr Hc. destruct (read_blob_checksum_eq r Hr) as (sum & Hs & He).
  unfold read_update_blob. rewrite He. cbn [obind]. unfold u64_add.
  destruct (decide (lb_version b + 1 <= u64_max)).
  - rewrite move_int_le by done. cbn [obind]. unfold cast_u64. rewrite move_int_gt; [done|].
    pose proof (lxor_high 64 sum (lb_checksum r)). unfold u64_max. lia.
  - by rewrite move_int_gt by lia.
Qed.

Lemma counter_bumps_ok c c' :
  counter_ok c -> tc counter_bump c c' ->
  counter_ok c' /\ mc_id c' = mc_id c /\ mc_owner c' = mc_owner c /\ mc_value c < mc_value c'.
Proof.
  intros Hc. induction 1 as [c c' Hb|c c1 c' Hb _ IH].
  - destruct (counter_bump_ok c c' Hc Hb) as (? & ? & ? & ->). split_and!; done || lia.
  - destruct (counter_bump_ok c c1 Hc Hb) as (H1 & H2 & H3 & H4).
    destruct (IH H1) as (H1' & H2' & H3' & H4'). split_and!; congruence || done || lia.
Qed.
End Spec.

Section Properties.
Context `{SuiFrameworkLaws}.

(** C18: Every object of a store that calls of the contract can reach is filed
    under its own identifier, its fields fit their Move types, and its
    checksum is that of its value and nonce (of its version and seed for a
    blob, whose data is the 4096 bytes generated from that seed). *)
Theorem contract_objects_ok st : rtc contract_step ∅ st -> store_ok st.
Proof. apply contract_run_ok. by apply map_Forall_empty. Qed.

(** The data of every reachable blob is sixteen copies of one block of
    256 bytes in which each byte value occurs once, and it is one of only 256
    possible contents. *)
Theorem blob_data_repeats st b :
  rtc contract_step ∅ st -> holds st (OBlob b) ->
  lb_data b = concat (replicate 16 (take 256 (lb_data b))) /\
  NoDup (take 256 (lb_data b)) /\
  exists x, 0 <= x < 256 /\ lb_data b = byte_stream (Z.to_nat BLOB_SIZE) x.
Proof.
  intros Hr Hb. assert (store_ok st) as Hst by (eapply contract_run_ok; [by apply map_Forall_empty | done]).
  destruct (store_ok_holds st (OBlob b) Hst Hb) as (_ & seed & _ & _ & Hd & _).
  assert (0 <= seed mod 256 < 256) as Hx by (apply Z.mod_pos_bound; lia).
  assert (Z.to_nat BLOB_SIZE = 16 * 256)%nat as Hn by (rewrite BLOB_SIZE_val; lia).
  rewrite Hd, Hn, (byte_stream_repeats 16) by done.
  assert (take 256 (concat (replicate 16 (byte_stream 256 (seed mod 256)))) = byte_stream 256 (seed mod 256)) as ->.
  { change (replicate 16 ?l) with (l :: replicate 15 l). cbn [concat].
    apply take_app_length'. by rewrite byte_stream_length. }
  split; [done|]. split; [by apply byte_stream_cycle|].
  exists (seed mod 256). by rewrite (byte_stream_repeats 16).
Qed.

(** [create_batch] never aborts: it creates one counter of value zero for
    each of [count] new identifiers, all sent to and owned by the sender, and
    changes no other object. *)
Theorem create_batch_exact count ctx st :
  in_u64 count ->
  exists s', create_batch count (mkTxState ctx st) = (s', Ok tt) /\
    let ids := fresh_uids (Z.to_nat count) ctx in
    zlength ids = count /\ NoDup ids /\
    forall id, ts_store s' !! id =
      if decide (id ∈ ids) then Some (OCounter (new_counter ctx id), AddressOwner (sender ctx)) else st !! id.
Proof.
  intros Hc. destruct (create_batch_eq count ctx st) as (ctx' & st' & He & Hs).
  exists (mkTxState ctx' st'). split; [done|]. cbn. split; [|split; [apply fresh_uids_NoDup | exact Hs]].
  assert (forall n ctx, length (fresh_uids n ctx) = n) as -> by (induction n; intros; cbn; auto).
  unfold in_u64 in Hc. lia.
Qed.

(** Along increments a counter keeps its identity and owner and its value
    strictly grows; two of its states have the same checksum only if keccak256
    collides. *)
Theorem counter_states_distinct c c' :
  counter_ok c -> tc counter_bump c c' ->
  mc_id c' = mc_id c /\ mc_owner c' = mc_owner c /\ mc_value c < mc_value c' /\
  (mc_checksum c = mc_checksum c' -> keccak_collision).
Proof.
  intros Hc Hb. destruct (counter_bumps_ok c c' Hc Hb) as (Hc' & ? & ? & Hlt). split_and!; [done..|].
  destruct Hc as (Hv & Hn & _ & ->), Hc' as (Hv' & Hn' & _ & ->). intros He.
  destruct (checksum_of_inj _ _ _ _ Hv Hn Hv' Hn' He) as [[? _]|?]; [lia | done].
Qed.

(** [update_blob] and [update_blob_entropy] abort exactly when the first
    step of the generator overflows on their seed, so any entropy of 2^35 or
    more aborts while the epoch and the version are below it; and
    [read_update_blob] aborts whenever the checksum of the blob it reads needs
    more than 64 bits. *)
Theorem blob_updates_abort r b e ctx :
  blob_ok r -> blob_ok b -> in_u64 e -> lb_version b < u64_max ->
  (update_blob b ctx = Err ARITHMETIC_ERROR <-> ~ seed_fits (epoch ctx + (lb_version b + 1))) /\
  (update_blob_entropy b e ctx = Err ARITHMETIC_ERROR <->
     ~ seed_fits (Z.lxor (Z.lxor (epoch ctx) e) (lb_version b + 1))) /\
  (2 ^ 35 <= e -> epoch ctx < 2 ^ 35 -> lb_version b + 1 < 2 ^ 35 ->
     update_blob_entropy b e ctx = Err ARITHMETIC_ERROR) /\
  (2 ^ 64 <= lb_checksum r -> read_update_blob r b ctx = Err ARITHMETIC_ERROR).
Proof.
  intros Hr Hb He Hv. pose proof (epoch_u64 ctx) as Hep. destruct Hb as [Hbv Hb'].
  rewrite update_blob_eq, update_blob_entropy_eq by done. split_and!.
  - case_decide; naive_solver.
  - case_decide; naive_solver.
  - intros H1 H2 H3. rewrite decide_False; [done|]. apply seed_fits_bound.
    rewrite Z.lxor_comm. unfold in_u64 in *. apply lxor_high; [lia..|]. by apply lxor_high; lia.
  - by apply read_update_blob_abort.
Qed.
End Properties.
