(* ===== verification/IoChurnSample.v ===== *)
(** * The io_churn contract on a concrete framework

    An instance of the Sui framework with counting identifiers and a digest
    that pads its input, on which the theorems about the contract are
    evaluated. *)

From S2P Require Import Prelude IoChurn IoChurnSpec.

(** Evaluates both sides of an equation, and not the types around them. *)
Ltac vm_refl := match goal with |- _ = ?r => vm_cast_no_check (eq_refl r) end.

(** A context is its sender, its epoch and the next identifier. *)
#[global] Instance sample_framework : SuiFramework := {|
  address := Z;
  UID := Z;
  TxContext := Z * Z * Z;
  sender c := c.1.1;
  epoch c := c.1.2 mod 2 ^ 64;
  fresh_uid c := (c.2, (c.1, c.2 + 1));
  Clock := Z;
  timestamp_ms c := c mod 2 ^ 64;
  keccak256 d := take 32 (((fun b => b mod 256) <$> d) ++ replicate 32 0)
|}.

Lemma sample_fresh_uids n (ctx : Z * Z * Z) i x :
  fresh_uids n ctx !! i = Some x -> x = ctx.2 + Z.of_nat i.
Proof.
  revert ctx i. induction n as [|n IH]; intros ctx i; [done|].
  destruct i as [|i]; cbn; [intros [= <-]; lia|]. intros Hx%IH. cbn in Hx. lia.
Qed.

#[global] Instance sample_framework_laws : SuiFrameworkLaws.
Proof.
  assert (forall z, in_u64 (z mod 2 ^ 64)) as Hm.
  { intros z. pose proof (Z.mod_pos_bound z (2 ^ 64)). unfold in_u64, u64_max. lia. }
  split.
  - done.
  - done.
  - intros n ctx. apply NoDup_alt. intros i j x Hi%sample_fresh_uids Hj%sample_fresh_uids. lia.
  - intros ctx. apply Hm.
  - intros c. apply Hm.
  - intros d. cbn [keccak256 sample_framework]. rewrite length_take, length_app, length_replicate. lia.
  - intros d. cbn [keccak256 sample_framework]. apply Forall_take, Forall_app. split.
    + apply Forall_fmap, Forall_forall. intros x _. cbn. pose proof (Z.mod_pos_bound x 256).
      unfold in_u8, u8_max. lia.
    + apply Forall_replicate. unfold in_u8, u8_max. lia.
Qed.

(** Sender 7 in epoch 3, whose first identifier is 100. *)
Definition sample_ctx : TxContext := (7, 3, 100).
Definition sample_counter : MicroCounter := new_counter sample_ctx 100.
Definition sample_counter' : MicroCounter :=
  mkMicroCounter 100 7 1 7 (checksum_of 1 7) 3.
Definition counters_store : gmap UID (Object * Owner) :=
  ts_store (create_batch 2 (mkTxState sample_ctx ∅)).1.
Definition blob_store : gmap UID (Object * Owner) :=
  {[ 100 := (OBlob (new_blob sample_ctx 100), AddressOwner 7) ]}.

Lemma sample_increment : increment_simple sample_counter sample_ctx = Ok sample_counter'.
Proof. vm_refl. Qed.

Lemma sample_counter_ok : counter_ok sample_counter.
Proof. apply new_counter_ok. Qed.

Lemma sample_blob_ok id : blob_ok (new_blob sample_ctx id).
Proof. apply new_blob_ok. unfold seed_fits. by vm_compute. Qed.

Lemma sample_counters_run :
  rtc contract_step ∅ (write (OCounter sample_counter') counters_store).
Proof.
  eapply rtc_l.
  { apply (step_create_batch ∅ sample_ctx 2 (create_batch 2 (mkTxState sample_ctx ∅)).1). vm_refl. }
  apply rtc_once. apply (step_increment_simple _ sample_ctx sample_counter); [|exact sample_increment].
  exists (AddressOwner (sender sample_ctx)). vm_refl.
Qed.

Lemma sample_blob_run : rtc contract_step ∅ blob_store.
Proof.
  apply rtc_once.
  assert (create_blob_and_transfer (mkTxState sample_ctx ∅) = (mkTxState (7, 3, 101) blob_store, Ok tt)) as Hc.
  { unfold create_blob_and_transfer, ebind. rewrite create_blob_eq, decide_True by (unfold seed_fits; by vm_compute).
    done. }
  by apply (step_create_blob_and_transfer ∅ sample_ctx) in Hc.
Qed.

Lemma contract_objects_ok_witness :
  store_ok (write (OCounter sample_counter') counters_store) /\
  write (OCounter sample_counter') counters_store !! 100 = Some (OCounter sample_counter', AddressOwner 7).
Proof. split; [apply (contract_objects_ok _ sample_counters_run) | vm_refl]. Defined.

Lemma blob_data_repeats_witness :
  let data := lb_data (new_blob sample_ctx 100) in data = concat (replicate 16 (take 256 data)).
Proof.
  apply (blob_data_repeats blob_store (new_blob sample_ctx 100) sample_blob_run).
  exists (AddressOwner (sender sample_ctx)). reflexivity.
Defined.

Lemma create_batch_exact_witness :
  exists s', create_batch 2 (mkTxState sample_ctx ∅) = (s', Ok tt) /\
    ts_store s' !! 101 = Some (OCounter (new_counter sample_ctx 101), AddressOwner 7) /\ ts_store s' !! 102 = None.
Proof.
  destruct (create_batch_exact 2 sample_ctx ∅) as (s' & Hs & _ & _ & Hl); [unfold in_u64, u64_max; lia|].
  exists s'. split; [exact Hs|]. rewrite !Hl. split; reflexivity.
Defined.

Lemma counter_states_distinct_witness :
  mc_value sample_counter < mc_value sample_counter' /\ mc_checksum sample_counter <> mc_checksum sample_counter'.
Proof.
  destruct (counter_states_distinct sample_counter sample_counter') as (_ & _ & Hv & _).
  - exact sample_counter_ok.
  - apply tc_once. exact (bump_increment_simple _ sample_ctx _ sample_increment).
  - split; [exact Hv | by vm_compute].
Defined.

Lemma blob_updates_abort_witness :
  update_blob_entropy (new_blob sample_ctx 100) (2 ^ 40) sample_ctx = Err ARITHMETIC_ERROR /\
  read_update_blob (new_blob sample_ctx 100) (new_blob sample_ctx 101) sample_ctx = Err ARITHMETIC_ERROR.
Proof.
  destruct (blob_updates_abort (new_blob sample_ctx 100) (new_blob sample_ctx 100) (2 ^ 40) sample_ctx)
    as (_ & _ & He & _);
    [exact (sample_blob_ok _) | exact (sample_blob_ok _) | unfold in_u64, u64_max; lia | unfold u64_max; cbn; lia |].
  destruct (blob_updates_abort (new_blob sample_ctx 100) (new_blob sample_ctx 101) 0 sample_ctx)
    as (_ & _ & _ & Hr);
    [exact (sample_blob_ok _) | exact (sample_blob_ok _) | unfold in_u64, u64_max; lia | unfold u64_max; cbn; lia |].
  split; [apply He; [lia | by vm_compute | by vm_compute] | apply Hr; by vm_compute].
Defined.
