(* ===== verification/SuiBench.v ===== *)
(** * The Sui benchmark: data and transactions

    [fdp-sui/src/main.rs]: the state of a worker, the statistics all workers
    share, and every operation that talks to the node: asking the faucet for
    gas, seeding and refreshing the tracked objects, and the four transactions
    a worker submits.  The Sui SDK, tokio and the random generator are external:
    their types and functions are the class [SuiSdk]; the node, the clock and
    everything else outside the worker is a [World] that they read and change.
    Times are nanoseconds. *)

From S2P Require Import Prelude.

(** ** The SDK and the runtime *)
Class SuiTypes := {
  ObjectID : Type;
  ObjectID_eq_dec :: EqDecision ObjectID;
  ObjectDigest : Type;
  ObjectDigest_eq_dec :: EqDecision ObjectDigest;
  SuiAddress : Type;
  SuiKeyPair : Type;
  sdk_error : Type;
  Identifier : Type;
  Argument : Type;
  (** [ProgrammableTransactionBuilder] and what it builds *)
  Builder : Type;
  ProgrammableTransaction : Type;
  Transaction : Type
}.

(** [anyhow::Error] *)
Inductive AnyError `{SuiTypes} :=
| Msg (s : string)
| Sdk (e : sdk_error)
| Context (s : string) (e : AnyError).

Section Data.
Context `{SuiTypes}.

Definition ObjectRef : Type := ObjectID * Z * ObjectDigest.

Record TrackedObject := mkTrackedObject {
  to_id : ObjectID;
  to_version : Z;
  to_digest : ObjectDigest
}.

Record SavedWorkerObjects := mkSavedWorkerObjects {
  sw_worker_id : Z;
  sw_address : SuiAddress;
  sw_keypair_base64 : string;
  sw_objects : list TrackedObject
}.

Record SavedBenchmarkState := mkSavedBenchmarkState {
  sb_total_objects : Z;
  sb_workers : list SavedWorkerObjects
}.

Record WorkerState := mkWorkerState {
  ws_id : Z;
  ws_address : SuiAddress;
  ws_keypair : SuiKeyPair;
  ws_gas_coin : ObjectRef;
  ws_objects : list TrackedObject
}.

(** The fields of the SDK's answers that the benchmark reads. *)
Inductive ObjectChange :=
| Created (id : ObjectID) (version : Z) (digest : ObjectDigest)
| Mutated (id : ObjectID) (version : Z) (digest : ObjectDigest)
| OtherChange (id : ObjectID).

Record TransactionResponse := mkTransactionResponse {
  rs_gas_object : option ObjectRef;
  rs_object_changes : option (list ObjectChange)
}.

Record Coin := mkCoin {
  coin_object_id : ObjectID;
  coin_version : Z;
  coin_digest : ObjectDigest;
  coin_balance : Z
}.

Record ObjectData := mkObjectData {
  od_object_id : ObjectID;
  od_version : Z;
  od_digest : ObjectDigest
}.
End Data.

Class SuiSdk `{SuiTypes} := {
  World : Type;
  (** [Instant::now()] and [tokio::time::sleep] *)
  now : World -> Z;
  sleep : Z -> World -> World;
  (** [rng.gen_range(0..n)] *)
  gen_range : Z -> World -> World * Z;
  (** the shared [running] flag and [memory_pressure] level *)
  running : World -> bool;
  memory_pressure : World -> Z;
  semaphore_acquire : World -> World * outcome sdk_error unit;
  permit_drop : World -> World;
  Identifier_new : string -> option Identifier;
  builder_new : Builder;
  builder_pure : Z -> Builder -> outcome sdk_error (Argument * Builder);
  builder_obj : ObjectRef -> Builder -> outcome sdk_error (Argument * Builder);
  programmable_move_call : ObjectID -> Identifier -> Identifier -> list Argument -> Builder -> Builder;
  builder_finish : Builder -> ProgrammableTransaction;
  (** [TransactionData::new_programmable] signed by [Transaction::from_data_and_signer] *)
  sign_transaction : SuiAddress -> list ObjectRef -> ProgrammableTransaction -> Z -> Z -> SuiKeyPair -> Transaction;
  execute_transaction_block : Transaction -> World -> World * outcome sdk_error TransactionResponse;
  get_reference_gas_price : World -> World * outcome sdk_error Z;
  get_coins : SuiAddress -> World -> World * outcome sdk_error (list Coin);
  multi_get_object : list ObjectID -> World -> World * outcome sdk_error (list (option ObjectData));
  (** the POST to the faucet: whether the status is a success *)
  post_faucet : SuiAddress -> World -> World * outcome sdk_error bool
}.

Definition MAX_TRACKED_OBJECTS_PER_WORKER : Z := 5000.
Definition MEM_PRESSURE_NORMAL : Z := 0.
Definition MEM_PRESSURE_LIGHT : Z := 1.
Definition MEM_PRESSURE_HEAVY : Z := 2.
Definition MEM_PRESSURE_EMERGENCY : Z := 3.

Definition from_millis (ms : Z) : Z := ms * 1000000.
Definition from_secs (s : Z) : Z := s * 1000000000.

(** ** Statistics *)
Record BenchStats := mkBenchStats {
  tx_submitted : Z;
  tx_success : Z;
  tx_failed : Z;
  objects_created : Z;
  objects_updated : Z
}.

Definition BenchStats_new : BenchStats := mkBenchStats 0 0 0 0 0.

Inductive counter := TxSubmitted | TxSuccess | TxFailed | ObjectsCreated | ObjectsUpdated.

(** [AtomicU64::fetch_add], which wraps around *)
Definition fetch_add (c : counter) (n : Z) (s : BenchStats) : BenchStats :=
  let 'mkBenchStats a b d e f := s in
  match c with
  | TxSubmitted => mkBenchStats (wrap64 (a + n)) b d e f
  | TxSuccess => mkBenchStats a (wrap64 (b + n)) d e f
  | TxFailed => mkBenchStats a b (wrap64 (d + n)) e f
  | ObjectsCreated => mkBenchStats a b d (wrap64 (e + n)) f
  | ObjectsUpdated => mkBenchStats a b d e (wrap64 (f + n))
  end.

(** One [fetch_add]: the counter and the amount. *)
Definition stat_op : Type := counter * Z.

(** ** Operations of a worker *)
Section Worker.
Context `{SuiSdk}.

(** [b_trace] lists the additions to the statistics in the order in which the
    code has made them; the code does not read it. *)
Record Bench := mkBench {
  b_world : World;
  b_worker : WorkerState;
  b_stats : BenchStats;
  b_trace : list stat_op
}.

Definition bench (A : Type) : Type := eff Bench AnyError A.

Definition set_world (w : World) (b : Bench) : Bench := mkBench w (b_worker b) (b_stats b) (b_trace b).
Definition set_worker (ws : WorkerState) (b : Bench) : Bench := mkBench (b_world b) ws (b_stats b) (b_trace b).
Definition set_objects (os : list TrackedObject) (ws : WorkerState) : WorkerState :=
  mkWorkerState (ws_id ws) (ws_address ws) (ws_keypair ws) (ws_gas_coin ws) os.
Definition set_gas_coin (g : ObjectRef) (ws : WorkerState) : WorkerState :=
  mkWorkerState (ws_id ws) (ws_address ws) (ws_keypair ws) g (ws_objects ws).

(** A call of the SDK whose error is converted by [f]. *)
Definition sdk_call {A} (f : sdk_error -> AnyError) (op : World -> World * outcome sdk_error A) : eff World AnyError A :=
  fun w => let '(w, r) := op w in (w, map_err f r).
(** A call that cannot fail. *)
Definition world_call {A} (op : World -> World * A) : eff World AnyError A :=
  fun w => let '(w, a) := op w in (w, Ok a).
(** A call whose error the caller handles: [None] is the [Err] branch. *)
Definition try_call {A} (op : World -> World * outcome sdk_error A) : eff World AnyError (option A) :=
  fun w => let '(w, r) := op w in
           (w, match r with Ok a => Ok (Some a) | Err _ => Ok None | Panic => Panic end).
Definition sleep_for (d : Z) : eff World AnyError unit := ewrite (sleep d).
Definition lift {A} (m : eff World AnyError A) : bench A :=
  fun b => let '(w, r) := m (b_world b) in (set_world w b, r).
Definition read_worker {A} (f : WorkerState -> A) : bench A := eread (fun b => Ok (f (b_worker b))).
Definition modify_worker (f : WorkerState -> WorkerState) : bench unit :=
  ewrite (fun b => set_worker (f (b_worker b)) b).

(** [builder.pure(n).unwrap()], the call of [io_churn::fn] and [builder.finish()] *)
Definition create_call (package_id : ObjectID) (fn : string) (n : Z) : outcome AnyError ProgrammableTransaction :=
  '(arg, builder) ←? match builder_pure n builder_new with Ok p => Ok p | _ => Panic end;
  m ←? expect (Identifier_new "io_churn");
  f ←? expect (Identifier_new fn);
  Ok (builder_finish (programmable_move_call package_id m f [arg] builder)).

(** Signing with the worker's key and submitting; [f] converts the error. *)
Definition submit (f : sdk_error -> AnyError) (pt : ProgrammableTransaction) (gas_budget rgp : Z)
    : bench TransactionResponse :=
  ws ←! read_worker id;
  lift (sdk_call f (execute_transaction_block
    (sign_transaction (ws_address ws) [ws_gas_coin ws] pt gas_budget rgp (ws_keypair ws)))).

(** The loop over [Created] changes: track up to the cap, count all. *)
Fixpoint track_created (changes : list ObjectChange) (objects : list TrackedObject) (created_count : Z)
    : list TrackedObject * Z :=
  match changes with
  | [] => (objects, created_count)
  | Created id version digest :: changes =>
      let objects := if zlength objects <? MAX_TRACKED_OBJECTS_PER_WORKER
                     then objects ++ [mkTrackedObject id version digest] else objects in
      track_created changes objects (created_count + 1)
  | _ :: changes => track_created changes objects created_count
  end.

(** [objects.iter_mut().find(|o| o.id == id)] and the assignment to what is
    found *)
Fixpoint find_update (id : ObjectID) (version : Z) (digest : ObjectDigest) (objects : list TrackedObject)
    : option (list TrackedObject) :=
  match objects with
  | [] => None
  | o :: objects =>
      if decide (to_id o = id) then Some (mkTrackedObject (to_id o) version digest :: objects)
      else (cons o) <$> find_update id version digest objects
  end.

(** The loop over [Mutated] changes. *)
Fixpoint track_mutated (changes : list ObjectChange) (objects : list TrackedObject) (updated_count : Z)
    : list TrackedObject * Z :=
  match changes with
  | [] => (objects, updated_count)
  | Mutated id version digest :: changes =>
      match find_update id version digest objects with
      | Some objects => track_mutated changes objects (updated_count + 1)
      | None => track_mutated changes objects updated_count
      end
  | _ :: changes => track_mutated changes objects updated_count
  end.

(** What is done with a response: the gas coin, then the changes. *)
Definition absorb (track : list ObjectChange -> list TrackedObject -> Z -> list TrackedObject * Z)
    (response : TransactionResponse) : bench Z :=
  match rs_gas_object response with
  | None => eret 0
  | Some gas_obj =>
      _ ←! modify_worker (set_gas_coin gas_obj);
      match rs_object_changes response with
      | None => eret 0
      | Some changes =>
          ws ←! read_worker id;
          let '(objects, count) := track changes (ws_objects ws) 0 in
          _ ←! modify_worker (set_objects objects);
          eret count
      end
  end.

Definition execute_create_batch (package_id : ObjectID) (count gas_budget rgp : Z) : bench (Z * Z) :=
  pt ←! eread (fun _ => create_call package_id "create_batch" count);
  response ←! submit Sdk pt gas_budget rgp;
  created_count ←! absorb track_created response;
  eret (created_count, 0).

Definition execute_create_blob_batch (package_id : ObjectID) (count gas_budget rgp : Z) : bench (Z * Z) :=
  let batch := Z.min count 20 in
  pt ←! eread (fun _ => create_call package_id "create_blob_batch" batch);
  response ←! submit Sdk pt gas_budget rgp;
  created_count ←! absorb track_created response;
  eret (created_count, 0).

(** The loop that adds one call of [io_churn::fn] per selected object; [n]
    objects are left and [i] are done. *)
Fixpoint update_calls (package_id : ObjectID) (fn : string) (objects : list TrackedObject)
    (start_idx : Z) (n : nat) (i : Z) (builder : Builder) : outcome AnyError Builder :=
  match n with
  | O => Ok builder
  | S n =>
      let idx := (start_idx + i) mod zlength objects in
      obj ←? expect (objects !! Z.to_nat idx);
      '(obj_arg, builder) ←? map_err Sdk (builder_obj (to_id obj, to_version obj, to_digest obj) builder);
      m ←? expect (Identifier_new "io_churn");
      f ←? expect (Identifier_new fn);
      update_calls package_id fn objects start_idx n (i + 1)
        (programmable_move_call package_id m f [obj_arg] builder)
  end.

(** [execute_update_batch] and [execute_update_blob_batch] differ in the
    function they call and in the limit of 20 blobs. *)
Definition execute_update (fn : string) (limit : Z) (package_id : ObjectID) (gas_budget rgp : Z) : bench (Z * Z) :=
  ws ←! read_worker id;
  _ ←! eread (fun _ => ensure (negb (bool_decide (ws_objects ws = []))) (Msg "No objects to update"));
  let update_count := Z.min limit (zlength (ws_objects ws)) in
  start_idx ←! lift (world_call (gen_range (zlength (ws_objects ws))));
  builder ←! eread (fun _ =>
    update_calls package_id fn (ws_objects ws) start_idx (Z.to_nat update_count) 0 builder_new);
  response ←! submit Sdk (builder_finish builder) gas_budget rgp;
  updated_count ←! absorb track_mutated response;
  eret (0, updated_count).

Definition execute_update_batch (package_id : ObjectID) (count gas_budget rgp : Z) : bench (Z * Z) :=
  execute_update "increment_simple" count package_id gas_budget rgp.
Definition execute_update_blob_batch (package_id : ObjectID) (count gas_budget rgp : Z) : bench (Z * Z) :=
  execute_update "update_blob" (Z.min count 20) package_id gas_budget rgp.

(** ** Setting up *)

(** [for attempt in 1..=3]; [n] attempts are left. *)
Fixpoint faucet_loop (address : SuiAddress) (n : nat) : eff World AnyError bool :=
  match n with
  | O => eret false
  | S n =>
      ok ←! try_call (post_faucet address);
      match ok with
      | Some true => eret true
      | _ =>
          _ ←! (if bool_decide (n = O) then eret tt else sleep_for (from_millis 500));
          faucet_loop address n
      end
  end.

(** [max_by_key(|c| c.balance)]: the last of the richest. *)
Definition richest (coins : list Coin) : option Coin :=
  foldl (fun best c => match best with
                       | None => Some c
                       | Some b => if coin_balance b <=? coin_balance c then Some c else Some b
                       end) None coins.

(** [for attempt in 1..=5]; the argument is the attempt and how many are left. *)
Fixpoint coins_loop (address : SuiAddress) (attempt : Z) (n : nat) : eff World AnyError ObjectRef :=
  match n with
  | O => eread (fun _ => Err (Msg "No gas coins found for address after multiple retries"))
  | S n =>
      coins ←! sdk_call (fun e => Context "Failed to get coins" (Sdk e)) (get_coins address);
      match richest coins with
      | Some coin => eret (coin_object_id coin, coin_version coin, coin_digest coin)
      | None =>
          _ ←! (if attempt <? 5 then sleep_for (from_millis (500 * Z.shiftl 1 attempt)) else eret tt);
          coins_loop address (attempt + 1) n
      end
  end.

Definition request_gas_from_faucet (address : SuiAddress) : eff World AnyError ObjectRef :=
  _ ←! faucet_loop address 3;
  _ ←! sleep_for (from_secs 2);
  coins_loop address 1 5.

(** [while remaining > 0] in batches of 100; the batches needed are fuel
    enough. *)
Fixpoint seed_loop (fuel : nat) (package_id : ObjectID) (remaining gas_budget : Z) : bench unit :=
  match fuel with
  | O => eret tt
  | S fuel =>
      if 0 <? remaining then
        let batch := Z.min remaining 100 in
        pt ←! eread (fun _ => create_call package_id "create_batch" batch);
        rgp ←! lift (try_call get_reference_gas_price);
        response ←! submit (fun e => Context "Failed to execute create_batch" (Sdk e)) pt gas_budget
                      (default 1000 rgp);
        _ ←! absorb track_created response;
        seed_loop fuel package_id (remaining - batch) gas_budget
      else eret tt
  end.

Definition create_seed_objects (package_id : ObjectID) (count gas_budget : Z) : bench unit :=
  seed_loop (S (Z.to_nat count)) package_id count gas_budget.

(** [slice.chunks(n)]; the length is fuel enough. *)
Fixpoint chunks_fuel {A} (fuel n : nat) (l : list A) : list (list A) :=
  match fuel, l with
  | S fuel, _ :: _ => take n l :: chunks_fuel fuel n (drop n l)
  | _, _ => []
  end.
Definition chunks {A} (n : nat) (l : list A) : list (list A) := chunks_fuel (length l) n l.

Definition tracked_of_data (d : ObjectData) : TrackedObject :=
  mkTrackedObject (od_object_id d) (od_version d) (od_digest d).

Fixpoint refresh_loop (cs : list (list TrackedObject)) (refreshed : list TrackedObject) : bench (list TrackedObject) :=
  match cs with
  | [] => eret refreshed
  | chunk :: cs =>
      response ←! lift (sdk_call (fun e => Context "Failed to query objects" (Sdk e))
        (multi_get_object (to_id <$> chunk)));
      refresh_loop cs (refreshed ++ (tracked_of_data <$> omap id response))
  end.

Definition refresh_worker_objects : bench unit :=
  ws ←! read_worker id;
  if bool_decide (ws_objects ws = []) then eret tt
  else
    refreshed ←! refresh_loop (chunks 50 (ws_objects ws)) [];
    modify_worker (set_objects refreshed).
End Worker.
