(* ===== verification/SuiWorker.v ===== *)
(** * The Sui benchmark: the worker loop

    [fdp-sui/src/main.rs]: reading the memory usage and the pressure level
    it gives, the loop of a worker with its throttling, and saving and loading
    the workers between two phases. *)

From Stdlib Require Import Ascii.
From Stdlib Require Import Floats.SpecFloat.
From S2P Require Import Prelude SuiBench.

(** ** Memory usage *)

Definition is_whitespace (c : ascii) : bool :=
  let n := nat_of_ascii c in (n =? 32)%nat || ((9 <=? n) && (n <=? 13))%nat.

(** [line.split_whitespace()] of an ASCII line: the word under way and the
    rest of the words *)
Fixpoint split_whitespace (word s : string) : list string :=
  let flush := if decide (word = EmptyString) then [] else [word] in
  match s with
  | EmptyString => flush
  | String c s =>
      if is_whitespace c then flush ++ split_whitespace EmptyString s
      else split_whitespace (word +:+ String c EmptyString) s
  end.

Definition digit_value (c : ascii) : option Z :=
  let n := Z.of_nat (nat_of_ascii c) in
  if (48 <=? n) && (n <=? 57) then Some (n - 48) else None.

Fixpoint parse_digits (s : string) (acc : Z) : option Z :=
  match s with
  | EmptyString => Some acc
  | String c s =>
      d ← digit_value c;
      if acc * 10 + d <=? u64_max then parse_digits s (acc * 10 + d) else None
  end.

(** [s.parse::<u64>().ok()]: digits after an optional plus sign *)
Definition parse_u64 (s : string) : option Z :=
  match s with
  | EmptyString => None
  | String c rest =>
      if bool_decide (c = "+"%char) && negb (bool_decide (rest = EmptyString)) then parse_digits rest 0
      else parse_digits s 0
  end.

(** [line.split_whitespace().nth(1).and_then(|s| s.parse().ok()).unwrap_or(0)] *)
Definition second_field (line : string) : Z :=
  default 0 (s ← split_whitespace EmptyString line !! 1%nat; parse_u64 s).

(** The loop over the lines of /proc/meminfo, with its early exit. *)
Fixpoint meminfo_loop (lines : list string) (mem_total mem_available : Z) : Z * Z :=
  match lines with
  | [] => (mem_total, mem_available)
  | line :: lines =>
      let '(mem_total, mem_available) :=
        if String.prefix "MemTotal:" line then (second_field line, mem_available)
        else if String.prefix "MemAvailable:" line then (mem_total, second_field line)
        else (mem_total, mem_available) in
      if (0 <? mem_total) && (0 <? mem_available) then (mem_total, mem_available)
      else meminfo_loop lines mem_total mem_available
  end.

(** The content of /proc/meminfo, [None] when it cannot be opened. *)
Definition get_memory_usage_pct (meminfo : option (list string)) : f64 :=
  match meminfo with
  | None => S754_zero false
  | Some lines =>
      let '(mem_total, mem_available) := meminfo_loop lines 0 0 in
      if mem_total =? 0 then S754_zero false
      else f64_div (f64_of_u64 (sat_sub mem_total mem_available)) (f64_of_u64 mem_total)
  end.

(** ** Arguments *)
Record Args := mkArgs {
  rpc_url : string;
  package_id : string;
  duration : Z;
  workers : Z;
  batch_size : Z;
  target_tps : Z;
  max_inflight : Z;
  create_pct : Z;
  seed_objects : Z;
  max_tracked_objects : Z;
  memory_threshold : f64;
  memory_critical : f64;
  memory_emergency : f64;
  gas_budget : Z;
  stats_interval : Z;
  use_blobs : bool;
  output : option string;
  keystore : option string;
  save_objects : option string;
  load_objects : option string
}.

(** The level the memory monitor stores. *)
Definition pressure_level (args : Args) (usage : f64) : Z :=
  if f64_leb (memory_emergency args) usage then MEM_PRESSURE_EMERGENCY
  else if f64_leb (memory_critical args) usage then MEM_PRESSURE_HEAVY
  else if f64_leb (memory_threshold args) usage then MEM_PRESSURE_LIGHT
  else MEM_PRESSURE_NORMAL.

(** [Duration::from_secs_f64]: nanoseconds, rounded to nearest even; it panics
    on a negative or not finite value and on 2^64 seconds or more. *)
Definition round_even (n d : Z) : Z :=
  let q := n / d in
  match 2 * (n mod d) ?= d with
  | Lt => q
  | Gt => q + 1
  | Eq => if Z.even q then q else q + 1
  end.
Definition duration_from_secs_f64 {E} (x : f64) : outcome E Z :=
  match x with
  | S754_zero _ => Ok 0
  | S754_finite false m e =>
      let nanos := match e with
                   | Zneg p => round_even (Zpos m * 1000000000) (2 ^ Zpos p)
                   | _ => Zpos m * 2 ^ e * 1000000000
                   end in
      if nanos <? 2 ^ 64 * 1000000000 then Ok nanos else Panic
  | _ => Panic
  end.

(** The literals [0.30] and [0.10] *)
Definition f64_0_30 : f64 := S754_finite false 5404319552844595 (-54).
Definition f64_0_10 : f64 := S754_finite false 7205759403792794 (-56).

(** [r.map(f)] *)
Definition map_ok {E A B} (f : A -> B) (r : outcome E A) : outcome E B :=
  a ←? r; Ok (f a).

Section Worker.
Context `{SuiSdk}.

(** ** The loop *)

Definition MAX_CONSECUTIVE_FAILURES : Z := 10.
Definition BACKOFF_ON_FAILURE : Z := from_millis 500.
Definition MAX_BACKOFF : Z := from_secs 5.

(** The share of objects dropped, the delay and whether creates are skipped. *)
Definition throttle_params (level : Z) : Z * Z * bool :=
  if level =? MEM_PRESSURE_EMERGENCY then (75, 2000, true)
  else if level =? MEM_PRESSURE_HEAVY then (50, 1000, false)
  else if level =? MEM_PRESSURE_LIGHT then (25, 250, false)
  else (0, 0, false).

Definition drop_objects (drop_pct : Z) (ws : WorkerState) : WorkerState :=
  let before := zlength (ws_objects ws) in
  if 50 <? before then
    let keep := before * (100 - drop_pct) / 100 in
    set_objects (take (Z.to_nat keep) (ws_objects ws)) ws
  else ws.

Definition add_stat (c : counter) (n : Z) : bench unit :=
  ewrite (fun b => mkBench (b_world b) (b_worker b) (fetch_add c n (b_stats b)) (b_trace b ++ [(c, n)])).

(** An [await] whose [Err] the loop handles itself. *)
Definition attempt {A} (m : bench A) : bench (option A) :=
  fun b => let '(b, r) := m b in
           (b, match r with Ok a => Ok (Some a) | Err _ => Ok None | Panic => Panic end).

Definition drop_permit : bench unit := ewrite (fun b => set_world (permit_drop (b_world b)) b).

(** [stats.tx_success.fetch_add(1); ..] *)
Definition count_success (created updated : Z) : bench unit :=
  _ ←! add_stat TxSuccess 1;
  _ ←! add_stat ObjectsCreated created;
  add_stat ObjectsUpdated updated.

(** The update-only branch under emergency pressure; the result is the new
    count of consecutive failures. *)
Definition emergency_iteration (package_id : ObjectID) (args : Args) (cached_rgp consecutive_failures : Z)
    : bench Z :=
  ws ←! read_worker id;
  if bool_decide (ws_objects ws = []) then
    _ ←! lift (sleep_for (from_secs 1));
    eret consecutive_failures
  else
    _ ←! lift (sdk_call Sdk semaphore_acquire);
    result ←! attempt (if use_blobs args
      then execute_update_blob_batch package_id (batch_size args) (gas_budget args) cached_rgp
      else execute_update_batch package_id (batch_size args) (gas_budget args) cached_rgp);
    _ ←! add_stat TxSubmitted 1;
    match result with
    | Some (created, updated) =>
        _ ←! count_success created updated;
        _ ←! drop_permit;
        eret 0
    | None =>
        _ ←! add_stat TxFailed 1;
        _ ←! drop_permit;
        eret consecutive_failures
    end.

(** The pause that the failure rate asks for. *)
Definition failure_pause (stats : BenchStats) : Z :=
  if 100 <? tx_submitted stats then
    let failure_rate := f64_div (f64_of_u64 (tx_failed stats)) (f64_of_u64 (tx_submitted stats)) in
    if f64_ltb f64_0_30 failure_rate then from_secs 5
    else if f64_ltb f64_0_10 failure_rate then from_millis 200
    else 0
  else 0.

Definition sleep_if (d : Z) : bench unit := if 0 <? d then lift (sleep_for d) else eret tt.

Definition run_operation (package_id : ObjectID) (args : Args) (cached_rgp : Z) (do_create : bool) : bench (Z * Z) :=
  if use_blobs args then
    if do_create then execute_create_blob_batch package_id (batch_size args) (gas_budget args) cached_rgp
    else execute_update_blob_batch package_id (batch_size args) (gas_budget args) cached_rgp
  else
    if do_create then execute_create_batch package_id (batch_size args) (gas_budget args) cached_rgp
    else execute_update_batch package_id (batch_size args) (gas_budget args) cached_rgp.

(** The rest of an iteration: from the failure rate to the rate limit. *)
Definition normal_iteration (package_id : ObjectID) (args : Args) (cached_rgp consecutive_failures : Z)
    : bench Z :=
  pause ←! eread (fun b => Ok (failure_pause (b_stats b)));
  _ ←! sleep_if pause;
  _ ←! lift (sdk_call Sdk semaphore_acquire);
  r ←! lift (world_call (gen_range 100));
  let do_create := r <? create_pct args in
  result ←! attempt (run_operation package_id args cached_rgp do_create);
  _ ←! add_stat TxSubmitted 1;
  consecutive_failures ←!
    match result with
    | Some (created, updated) => _ ←! count_success created updated; eret 0
    | None =>
        _ ←! add_stat TxFailed 1;
        let consecutive_failures := (consecutive_failures + 1) mod 2 ^ 32 in
        _ ←! sleep_if (if MAX_CONSECUTIVE_FAILURES <=? consecutive_failures
                       then Z.min (BACKOFF_ON_FAILURE * consecutive_failures) MAX_BACKOFF else 0);
        eret consecutive_failures
    end;
  _ ←! (if 0 <? target_tps args then
          target_interval ←! eread (fun _ => duration_from_secs_f64
            (f64_mul (f64_div (f64_of_u64 1) (f64_of_u64 (target_tps args))) (f64_of_u64 (workers args))));
          lift (sleep_for target_interval)
        else eret tt);
  _ ←! drop_permit;
  eret consecutive_failures.

Definition iteration (package_id : ObjectID) (args : Args) (cached_rgp consecutive_failures : Z) : bench Z :=
  level ←! eread (fun b => Ok (memory_pressure (b_world b)));
  if MEM_PRESSURE_NORMAL <? level then
    let '(drop_pct, delay_ms, skip_creates) := throttle_params level in
    _ ←! (if 0 <? drop_pct then modify_worker (drop_objects drop_pct) else eret tt);
    _ ←! (if 0 <? delay_ms then lift (sleep_for (from_millis delay_ms)) else eret tt);
    if skip_creates then emergency_iteration package_id args cached_rgp consecutive_failures
    else normal_iteration package_id args cached_rgp consecutive_failures
  else normal_iteration package_id args cached_rgp consecutive_failures.

(** [while running && now < deadline]; [false] means out of fuel. *)
Fixpoint worker_loop (fuel : nat) (package_id : ObjectID) (args : Args) (deadline cached_rgp consecutive_failures : Z)
    : bench bool :=
  match fuel with
  | O => eret false
  | S fuel =>
      go ←! eread (fun b => Ok (running (b_world b) && (now (b_world b) <? deadline)));
      if go : bool then
        consecutive_failures ←! iteration package_id args cached_rgp consecutive_failures;
        worker_loop fuel package_id args deadline cached_rgp consecutive_failures
      else eret true
  end.

Definition run_worker (fuel : nat) (package_id : ObjectID) (args : Args) (deadline cached_rgp : Z) : bench bool :=
  worker_loop fuel package_id args deadline cached_rgp 0.

(** ** Saving and loading *)

(** The encodings of keys and of the file are external. *)
Class SuiEncoding := {
  encode_base64 : SuiKeyPair -> string;
  decode_base64 : string -> outcome sdk_error SuiKeyPair;
  to_json : SavedBenchmarkState -> outcome sdk_error string;
  from_json : string -> outcome sdk_error SavedBenchmarkState
}.
Context `{!SuiEncoding}.

Definition save_worker (state : WorkerState) : SavedWorkerObjects :=
  mkSavedWorkerObjects (ws_id state) (ws_address state) (encode_base64 (ws_keypair state)) (ws_objects state).

(** The file written under [--save-objects] *)
Definition save_benchmark_state (ws : list WorkerState) : outcome AnyError string :=
  let total_objects := foldl (fun n state => n + zlength (ws_objects state)) 0 ws in
  map_err Sdk (to_json (mkSavedBenchmarkState total_objects (save_worker <$> ws))).

(** One saved worker restored: its key decoded and gas requested. *)
Definition restore_worker (saved : SavedWorkerObjects) : eff World AnyError WorkerState :=
  keypair ←! eread (fun _ => map_err (fun e => Context "Failed to decode keypair for worker" (Sdk e))
    (decode_base64 (sw_keypair_base64 saved)));
  gas_coin ←! request_gas_from_faucet (sw_address saved);
  eret (mkWorkerState (sw_worker_id saved) (sw_address saved) keypair gas_coin (sw_objects saved)).

Fixpoint restore_workers (saved : list SavedWorkerObjects) : eff World AnyError (list WorkerState) :=
  match saved with
  | [] => eret []
  | sw :: saved =>
      state ←! restore_worker sw;
      states ←! restore_workers saved;
      eret (state :: states)
  end.

(** [refresh_worker_objects] on each worker in turn. *)
Fixpoint refresh_workers (ws : list WorkerState) : eff World AnyError (list WorkerState) :=
  match ws with
  | [] => eret []
  | state :: ws =>
      state ←! (fun w => let '(b, r) := refresh_worker_objects (mkBench w state BenchStats_new []) in
                         (b_world b, map_ok (fun _ => b_worker b) r));
      states ←! refresh_workers ws;
      eret (state :: states)
  end.

(** The workers under [--load-objects], from the content of the file. *)
Definition load_workers (file_content : string) : eff World AnyError (list WorkerState) :=
  saved_state ←! eread (fun _ => map_err (fun e => Context "Failed to parse objects file" (Sdk e))
    (from_json file_content));
  states ←! restore_workers (sb_workers saved_state);
  refresh_workers states.
End Worker.
