(* ===== verification/SuiBenchSpec.v ===== *)
(** * What a transaction of the Sui benchmark does to its worker

    The behaviour of the SDK that the benchmark relies on, and the effect of
    each transaction on the clock, on the statistics and on the objects the
    worker tracks. *)

From stdpp Require Import list_numbers.
From S2P Require Import Prelude SuiBench.

Definition change_id `{SuiTypes} (c : ObjectChange) : ObjectID :=
  match c with Created id _ _ | Mutated id _ _ | OtherChange id => id end.

Section Laws.
Context `{SuiSdk}.

(** The transactions the benchmark builds. *)
Definition create_pt (pt : ProgrammableTransaction) : Prop :=
  exists package_id fn n, create_call package_id fn n = Ok pt.
Definition update_pt (pt : ProgrammableTransaction) : Prop :=
  exists package_id fn objects start n builder,
    update_calls package_id fn objects start n 0 builder_new = Ok builder /\ pt = builder_finish builder.

(** What the node reports of an executed transaction of [a] with gas coin
    [gas], where [before] and [after] give the current version and digest of
    the objects of [a]. *)
Record effects_ok (pt : ProgrammableTransaction) (gas : ObjectRef)
    (before after : ObjectID -> option (Z * ObjectDigest)) (resp : TransactionResponse) : Prop := {
  ef_gas : exists v d, rs_gas_object resp = Some (gas.1.1, v, d) /\ after gas.1.1 = Some (v, d);
  ef_changes : exists cs, rs_object_changes resp = Some cs;
  ef_NoDup cs : rs_object_changes resp = Some cs -> NoDup (change_id <$> cs);
  ef_created cs id v d : rs_object_changes resp = Some cs -> Created id v d ∈ cs ->
    before id = None /\ after id = Some (v, d);
  ef_mutated cs id v d : rs_object_changes resp = Some cs -> Mutated id v d ∈ cs ->
    after id = Some (v, d) /\ (create_pt pt -> id = gas.1.1);
  ef_frame cs id : rs_object_changes resp = Some cs -> is_Some (before id) ->
    (forall v d, Mutated id v d ∉ cs) -> after id = before id
}.

(** What the network holds of an address: the current version and digest of
    each of its objects, and for each version of a gas coin that a transaction
    has used the objects before that transaction, the transaction and what the
    node reports of it.  A transaction that the network executes after its
    submission has failed is counted from the submission on: it uses the
    version of the gas coin, so no other transaction with it comes between. *)
Record Ledger := mkLedger {
  live : ObjectID -> option (Z * ObjectDigest);
  spent : ObjectRef -> option ((ObjectID -> option (Z * ObjectDigest)) * ProgrammableTransaction * TransactionResponse)
}.

(** What may happen to a submitted transaction: it is refused; it is the one
    that has used this version of the gas coin, and its report is repeated; or
    it is executed, which needs the current version of the gas coin, and the
    report may be lost on the way. *)
Inductive handled (pt : ProgrammableTransaction) (gas : ObjectRef) (l l' : Ledger)
    : outcome sdk_error TransactionResponse -> Prop :=
| handled_refused e : l' = l -> handled pt gas l l' (Err e)
| handled_again before resp :
    l' = l -> spent l gas = Some (before, pt, resp) -> handled pt gas l l' (Ok resp)
| handled_executed resp r :
    live l gas.1.1 = Some (gas.1.2, gas.2) -> effects_ok pt gas (live l) (live l') resp ->
    spent l' gas = Some (live l, pt, resp) -> (r = Ok resp \/ exists e, r = Err e) ->
    handled pt gas l l' r.
End Laws.

(** ** Behaviour relied upon

    Only transactions of [a] change what the network holds of [a]. *)
Class SuiLaws `{SuiSdk} := {
  ledger : World -> SuiAddress -> Ledger;
  sleep_law d w a : 0 <= d -> now w + d <= now (sleep d w) /\ ledger (sleep d w) a = ledger w a;
  gen_range_law n w a : 0 < n ->
    0 <= (gen_range n w).2 < n /\ now w <= now (gen_range n w).1 /\ ledger (gen_range n w).1 a = ledger w a;
  (** the program never closes its semaphore *)
  acquire_law w a : (semaphore_acquire w).2 = Ok tt /\
    now w <= now (semaphore_acquire w).1 /\ ledger (semaphore_acquire w).1 a = ledger w a;
  permit_drop_law w a : now w <= now (permit_drop w) /\ ledger (permit_drop w) a = ledger w a;
  gas_price_law w a : now w <= now (get_reference_gas_price w).1 /\ ledger (get_reference_gas_price w).1 a = ledger w a;
  Identifier_law s : s ∈ ["io_churn"; "create_batch"; "create_blob_batch"; "increment_simple"; "update_blob"] ->
    is_Some (Identifier_new s);
  builder_pure_law n b : exists p, builder_pure n b = Ok p;
  builder_obj_law r b : builder_obj r b <> Panic;
  (** a round trip to the node takes time *)
  execute_now tx w : now w < now (execute_transaction_block tx w).1;
  execute_law a gas pt budget rgp kp w :
    create_pt pt \/ update_pt pt ->
    let res := execute_transaction_block (sign_transaction a [gas] pt budget rgp kp) w in
    handled pt gas (ledger w a) (ledger res.1 a) res.2;
  (** a gas coin gets a new version when it is used *)
  spent_stale w a gas x :
    spent (ledger w a) gas = Some x -> live (ledger w a) gas.1.1 <> Some (gas.1.2, gas.2)
}.

(** ** The loops over object changes *)
Section Tracking.
Context `{SuiTypes}.

Lemma track_created_spec cs objs n :
  exists new, (track_created cs objs n).1 = objs ++ new /\
    (to_id <$> new) `sublist_of` (change_id <$> cs) /\
    (forall o, o ∈ new -> Created (to_id o) (to_version o) (to_digest o) ∈ cs) /\
    (zlength objs <= MAX_TRACKED_OBJECTS_PER_WORKER -> zlength (objs ++ new) <= MAX_TRACKED_OBJECTS_PER_WORKER).
Proof.
  revert objs n. induction cs as [|c cs IH]; intros objs n; cbn [track_created].
  { exists []. rewrite app_nil_r. split_and!; try done. intros o Ho. by apply elem_of_nil in Ho. }
  assert (forall n', exists new, (track_created cs objs n').1 = objs ++ new /\
    (to_id <$> new) `sublist_of` (change_id <$> (c :: cs)) /\
    (forall o, o ∈ new -> Created (to_id o) (to_version o) (to_digest o) ∈ c :: cs) /\
    (zlength objs <= MAX_TRACKED_OBJECTS_PER_WORKER -> zlength (objs ++ new) <= MAX_TRACKED_OBJECTS_PER_WORKER)) as Hskip.
  { intros n'. destruct (IH objs n') as (new & ? & ? & Hn & ?). exists new. split_and!; try done.
    - by constructor.
    - intros o Ho. apply list_elem_of_further. auto. }
  destruct c as [id v d|id v d|id]; [|apply Hskip|apply Hskip].
  destruct (Z.ltb_spec (zlength objs) MAX_TRACKED_OBJECTS_PER_WORKER); [|apply Hskip].
  destruct (IH (objs ++ [mkTrackedObject id v d]) (n + 1)) as (new & He & Hs & Hn & Hl).
  exists (mkTrackedObject id v d :: new). rewrite <- app_assoc in He. split_and!.
  - exact He.
  - by constructor.
  - intros o [->|Ho]%elem_of_cons; [apply list_elem_of_here | apply list_elem_of_further; auto].
  - intros _. rewrite <- app_assoc in Hl. apply Hl. rewrite length_app. cbn. lia.
Qed.

Lemma find_update_spec id v d objs :
  NoDup (to_id <$> objs) ->
  match find_update id v d objs with
  | Some objs' => to_id <$> objs' = to_id <$> objs /\
      forall o, o ∈ objs' -> o = mkTrackedObject id v d \/ (o ∈ objs /\ to_id o <> id)
  | None => forall o, o ∈ objs -> to_id o <> id
  end.
Proof.
  induction objs as [|o objs IH]; cbn [find_update fmap list_fmap]; [by intros _ o ?%elem_of_nil|].
  intros [Ho Hnd]%NoDup_cons. destruct (decide (to_id o = id)) as [<-|Hne].
  - split; [done|]. intros o' [->|Ho']%elem_of_cons; [by left|]. right. split; [set_solver|].
    intros He. apply Ho. rewrite <- He. by apply list_elem_of_fmap_2.
  - specialize (IH Hnd). destruct (find_update id v d objs) as [objs'|]; cbn.
    + destruct IH as [Hi Hf]. split; [by f_equal|]. intros o' [->|Ho']%elem_of_cons; [set_solver|].
      destruct (Hf o' Ho') as [->|[? ?]]; [by left|]. right. set_solver.
    + intros o' [->|Ho']%elem_of_cons; auto.
Qed.

(** Afterwards the same objects are tracked, each at its reported version if
    it was reported, and as before otherwise. *)
Lemma track_mutated_spec cs objs n :
  NoDup (to_id <$> objs) -> NoDup (change_id <$> cs) ->
  to_id <$> (track_mutated cs objs n).1 = to_id <$> objs /\
  forall o, o ∈ (track_mutated cs objs n).1 ->
    Mutated (to_id o) (to_version o) (to_digest o) ∈ cs \/
    (o ∈ objs /\ forall v d, Mutated (to_id o) v d ∉ cs).
Proof.
  revert objs n. induction cs as [|c cs IH]; intros objs n Hnd Hcs; cbn [track_mutated].
  { split; [done|]. intros o Ho. right. split; [done|]. intros v d ?%elem_of_nil. done. }
  apply NoDup_cons in Hcs as [Hc Hcs].
  assert (forall objs n', NoDup (to_id <$> objs) -> (forall o, o ∈ objs -> forall v d, Mutated (to_id o) v d <> c) ->
    to_id <$> (track_mutated cs objs n').1 = to_id <$> objs /\
    forall o, o ∈ (track_mutated cs objs n').1 ->
      Mutated (to_id o) (to_version o) (to_digest o) ∈ c :: cs \/
      (o ∈ objs /\ forall v d, Mutated (to_id o) v d ∉ c :: cs)) as Hskip.
  { intros objs' n' Hnd' Hne. destruct (IH objs' n' Hnd' Hcs) as [Hi Hf]. split; [done|]. intros o Ho.
    destruct (Hf o Ho) as [Hm|[Ho' Hm]]; [left; by apply list_elem_of_further|]. right. split; [done|].
    intros v d [?|?]%elem_of_cons; [by apply (Hne o Ho' v d) | by apply (Hm v d)]. }
  destruct c as [id v d|id v d|id]; [by apply Hskip| |by apply Hskip].
  pose proof (find_update_spec id v d objs Hnd) as Hu.
  destruct (find_update id v d objs) as [objs'|].
  - destruct Hu as [Hi Hf]. destruct (IH objs' (n + 1)) as [Hi' Hf']; [by rewrite Hi | done |].
    split; [congruence|]. intros o Ho. destruct (Hf' o Ho) as [Hm|[Ho' Hm]].
    + left. by apply list_elem_of_further.
    + destruct (Hf o Ho') as [->|[Ho'' Hne]]; [left; apply list_elem_of_here|].
      right. split; [done|]. intros v' d' [[= ? _ _]|?]%elem_of_cons; [done | by apply (Hm v' d')].
  - apply Hskip; [done|]. intros o Ho v' d' [= ? _ _]. by apply (Hu o Ho).
Qed.
End Tracking.

(** ** Objects in step with the node *)
Section Sync.
Context `{SuiLaws}.

(** The tracked objects are distinct, at the version and digest the node has,
    and at most [MAX_TRACKED_OBJECTS_PER_WORKER]; so is the gas coin, which is
    not one of them. *)
Record synced (ws : WorkerState) (current : ObjectID -> option (Z * ObjectDigest)) : Prop := {
  sy_NoDup : NoDup (to_id <$> ws_objects ws);
  sy_current o : o ∈ ws_objects ws -> current (to_id o) = Some (to_version o, to_digest o);
  sy_gas : current (ws_gas_coin ws).1.1 = Some ((ws_gas_coin ws).1.2, (ws_gas_coin ws).2);
  sy_gas_untracked : (ws_gas_coin ws).1.1 ∉ to_id <$> ws_objects ws;
  sy_cap : zlength (ws_objects ws) <= MAX_TRACKED_OBJECTS_PER_WORKER
}.

Definition sync (b : Bench) : Prop :=
  synced (b_worker b) (live (ledger (b_world b) (ws_address (b_worker b)))).

(** The report of one transaction was lost: the worker is in step with the
    network as it was before that transaction, which used its gas coin. *)
Definition one_behind (b : Bench) : Prop :=
  exists before pt resp,
    spent (ledger (b_world b) (ws_address (b_worker b))) (ws_gas_coin (b_worker b)) = Some (before, pt, resp) /\
    synced (b_worker b) before /\
    effects_ok pt (ws_gas_coin (b_worker b)) before (live (ledger (b_world b) (ws_address (b_worker b)))) resp.

Definition in_step (b : Bench) : Prop := sync b \/ one_behind b.

(** A worker is in step or behind, never both. *)
Lemma one_behind_stale b :
  one_behind b ->
  live (ledger (b_world b) (ws_address (b_worker b))) (ws_gas_coin (b_worker b)).1.1 <>
    Some ((ws_gas_coin (b_worker b)).1.2, (ws_gas_coin (b_worker b)).2).
Proof. intros (before & pt & resp & Hsp & _). by eapply spent_stale. Qed.

Lemma in_step_current b :
  in_step b ->
  live (ledger (b_world b) (ws_address (b_worker b))) (ws_gas_coin (b_worker b)).1.1 =
    Some ((ws_gas_coin (b_worker b)).1.2, (ws_gas_coin (b_worker b)).2) ->
  sync b.
Proof. by intros [Hs|Hb%one_behind_stale]. Qed.

Lemma synced_created ws pt before after resp cs v d n :
  synced ws before -> create_pt pt -> effects_ok pt (ws_gas_coin ws) before after resp ->
  rs_object_changes resp = Some cs -> rs_gas_object resp = Some ((ws_gas_coin ws).1.1, v, d) ->
  after (ws_gas_coin ws).1.1 = Some (v, d) ->
  synced (set_objects (track_created cs (ws_objects ws) n).1 (set_gas_coin ((ws_gas_coin ws).1.1, v, d) ws)) after.
Proof.
  intros Hs Hpt He Hcs _ Hg. destruct (track_created_spec cs (ws_objects ws) n) as (new & -> & Hsub & Hnew & Hcap).
  pose proof (ef_NoDup _ _ _ _ _ He cs Hcs) as Hnd.
  assert (forall id, id ∈ to_id <$> new -> before id = None) as Hfresh.
  { intros id (o & -> & Ho)%list_elem_of_fmap. by destruct (ef_created _ _ _ _ _ He cs _ _ _ Hcs (Hnew o Ho)). }
  split; cbn [ws_objects ws_gas_coin set_objects set_gas_coin fst snd].
  - rewrite fmap_app. apply NoDup_app. split_and!; [apply (sy_NoDup _ _ Hs)| |].
    + intros id (o & -> & Ho)%list_elem_of_fmap Hn. apply Hfresh in Hn.
      rewrite (sy_current _ _ Hs o Ho) in Hn. done.
    + by eapply sublist_NoDup.
  - intros o [Ho|Ho]%elem_of_app; [|by destruct (ef_created _ _ _ _ _ He cs _ _ _ Hcs (Hnew o Ho))].
    rewrite (ef_frame _ _ _ _ _ He cs); [by apply (sy_current _ _ Hs) | done | by rewrite (sy_current _ _ Hs o Ho) |].
    intros v' d' Hm. destruct (ef_mutated _ _ _ _ _ He cs _ _ _ Hcs Hm) as [_ Hid].
    apply (sy_gas_untracked _ _ Hs). rewrite <- Hid by done. by apply list_elem_of_fmap_2.
  - done.
  - rewrite fmap_app, not_elem_of_app. split; [apply (sy_gas_untracked _ _ Hs)|].
    intros Hn%Hfresh. by rewrite (sy_gas _ _ Hs) in Hn.
  - apply Hcap, Hs.
Qed.

Lemma synced_mutated ws pt before after resp cs v d n :
  synced ws before -> effects_ok pt (ws_gas_coin ws) before after resp ->
  rs_object_changes resp = Some cs -> rs_gas_object resp = Some ((ws_gas_coin ws).1.1, v, d) ->
  after (ws_gas_coin ws).1.1 = Some (v, d) ->
  synced (set_objects (track_mutated cs (ws_objects ws) n).1 (set_gas_coin ((ws_gas_coin ws).1.1, v, d) ws)) after.
Proof.
  intros Hs He Hcs _ Hg.
  destruct (track_mutated_spec cs (ws_objects ws) n) as [Hid Hobj]; [apply Hs | by eapply ef_NoDup |].
  split; cbn [ws_objects ws_gas_coin set_objects set_gas_coin fst snd]; rewrite ?Hid; try apply Hs; try done.
  - intros o Ho. destruct (Hobj o Ho) as [Hm|[Ho' Hm]].
    + by destruct (ef_mutated _ _ _ _ _ He cs _ _ _ Hcs Hm).
    + rewrite (ef_frame _ _ _ _ _ He cs); [by apply (sy_current _ _ Hs) | done | by rewrite (sy_current _ _ Hs o Ho') | done].
  - rewrite <- (length_fmap to_id), Hid, length_fmap. apply Hs.
Qed.

Lemma synced_take ws current k : synced ws current -> synced (set_objects (take k (ws_objects ws)) ws) current.
Proof.
  intros Hs. split; cbn [ws_objects ws_gas_coin set_objects].
  - rewrite fmap_take. eapply sublist_NoDup; [apply Hs | apply sublist_take].
  - intros o Ho. apply Hs. by apply (subseteq_take k).
  - apply Hs.
  - intros Hin. apply (sy_gas_untracked _ _ Hs). rewrite fmap_take in Hin. by apply (subseteq_take k).
  - etrans; [|apply Hs]. rewrite length_take. lia.
Qed.

(** ** Operations that leave the statistics alone *)

Definition op_post (b b' : Bench) : Prop :=
  now (b_world b) <= now (b_world b') /\ ws_address (b_worker b') = ws_address (b_worker b) /\
  (b_stats b' = b_stats b /\ b_trace b' = b_trace b) /\ (in_step b -> in_step b').

#[global] Instance op_post_preorder : PreOrder op_post.
Proof.
  split.
  - intros b. unfold op_post. split_and!; done || lia.
  - intros b1 b2 b3 (? & ? & [] & ?) (? & ? & [] & ?). unfold op_post. split_and!; try congruence; auto. lia.
Qed.

(** A change of the world that leaves the worker's objects alone. *)
Lemma op_post_world b w :
  now (b_world b) <= now w ->
  ledger w (ws_address (b_worker b)) = ledger (b_world b) (ws_address (b_worker b)) -> op_post b (set_world w b).
Proof. intros Hn Hl. unfold op_post, in_step, one_behind, sync. cbn. rewrite Hl. split_and!; done. Qed.

(** What a transaction does, whether it succeeds or not. *)
Definition tx_post {A} (b : Bench) (b' : Bench) (r : outcome AnyError A) : Prop :=
  op_post b b' /\ r <> Panic /\ (forall a, r = Ok a -> now (b_world b) < now (b_world b')).

Lemma create_call_no_panic package_id fn n :
  fn ∈ ["create_batch"; "create_blob_batch"] -> exists pt, create_call package_id fn n = Ok pt /\ create_pt pt.
Proof.
  intros Hfn. destruct (builder_pure_law n builder_new) as [[arg bld] Hp].
  destruct (Identifier_law "io_churn" ltac:(set_solver)) as [m Hm].
  destruct (Identifier_law fn ltac:(set_solver)) as [f Hf].
  assert (create_call package_id fn n = Ok (builder_finish (programmable_move_call package_id m f [arg] bld))) as He.
  { unfold create_call. rewrite Hp. cbn [obind]. by rewrite Hm, Hf. }
  eexists. split; [exact He|]. by exists package_id, fn, n.
Qed.

Lemma update_calls_no_panic package_id fn objects start n i bld :
  fn ∈ ["increment_simple"; "update_blob"] -> objects <> [] ->
  update_calls package_id fn objects start n i bld <> Panic.
Proof.
  intros Hfn Hne. revert i bld. induction n as [|n IH]; intros i bld; cbn [update_calls]; [done|].
  assert (0 < zlength objects) by (destruct objects; cbn; [done | lia]).
  pose proof (Z.mod_pos_bound (start + i) (zlength objects) ltac:(done)).
  destruct (lookup_lt_is_Some_2 objects (Z.to_nat ((start + i) mod zlength objects)) ltac:(lia)) as [o ->].
  cbn [expect obind]. pose proof (builder_obj_law (to_id o, to_version o, to_digest o) bld) as Hb.
  destruct (builder_obj _ bld) as [[arg bld']|e|]; [|done|done]. cbn [map_err obind].
  destruct (Identifier_law "io_churn" ltac:(set_solver)) as [m ->].
  destruct (Identifier_law fn ltac:(set_solver)) as [f ->]. cbn [expect obind]. apply IH.
Qed.

(** Submitting takes time; a response describes what happened since the worker
    was last in step. *)
Lemma wp_submit pt gas_budget rgp f b (Q : Bench -> outcome AnyError TransactionResponse -> Prop) :
  create_pt pt \/ update_pt pt ->
  (forall w r, now (b_world b) < now w -> r <> Panic ->
     (forall e, r = Err e -> in_step b -> in_step (set_world w b)) ->
     (forall resp, r = Ok resp -> in_step b -> exists before, synced (b_worker b) before /\
        effects_ok pt (ws_gas_coin (b_worker b)) before (live (ledger w (ws_address (b_worker b)))) resp) ->
     Q (set_world w b) r) ->
  wp (submit f pt gas_budget rgp) b Q.
Proof.
  intros Hpt HQ. unfold submit. apply wp_bind. unfold wp at 1, read_worker, eread. cbn.
  unfold wp, lift, sdk_call. set (tx := sign_transaction _ _ _ _ _ _).
  pose proof (execute_now tx (b_world b)) as Hn.
  pose proof (execute_law (ws_address (b_worker b)) (ws_gas_coin (b_worker b)) pt gas_budget rgp
    (ws_keypair (b_worker b)) (b_world b) Hpt) as Hl. cbv zeta in Hl. fold tx in Hl.
  destruct (execute_transaction_block tx (b_world b)) as [w r]. cbn in Hn, Hl |- *. apply HQ; [done | | |].
  - destruct Hl as [e _|before resp _ _|resp r _ _ _ [->|[e ->]]]; done.
  - intros e' He' Hst. destruct Hl as [e Hl|before resp _ _|resp r Hcur Hef Hsp _]; [|done|].
    + unfold in_step, one_behind, sync in *. cbn. by rewrite Hl.
    + right. exists (live (ledger (b_world b) (ws_address (b_worker b)))), pt, resp.
      split_and!; [done | exact (in_step_current b Hst Hcur) | done].
  - intros resp' He' Hst. destruct Hl as [e _|before resp Hl Hsp|resp r Hcur Hef _ [->|[e ->]]]; [done| | |done].
    + injection He' as <-. destruct Hst as [Hs|(before' & pt' & resp' & Hsp' & Hs & Hef)].
      { by destruct (spent_stale _ _ _ _ Hsp); apply (sy_gas _ _ Hs). }
      rewrite Hsp in Hsp'. injection Hsp' as <- <- <-. exists before. by rewrite Hl.
    + injection He' as <-. exists (live (ledger (b_world b) (ws_address (b_worker b)))).
      split; [exact (in_step_current b Hst Hcur) | done].
Qed.

(** Absorbing a response brings the worker in step. *)
Lemma wp_absorb track pt b w resp :
  (track = track_created /\ create_pt pt \/ track = track_mutated) ->
  now (b_world b) < now w ->
  (in_step b -> exists before, synced (b_worker b) before /\
     effects_ok pt (ws_gas_coin (b_worker b)) before (live (ledger w (ws_address (b_worker b)))) resp) ->
  wp (absorb track resp) (set_world w b) (tx_post b).
Proof.
  intros Htr Hn He.
  assert (forall ws, ws_address ws = ws_address (b_worker b) ->
    (in_step b -> synced ws (live (ledger w (ws_address (b_worker b))))) ->
    forall n : Z, tx_post b (set_worker ws (set_world w b)) (Ok n)) as Hpost.
  { intros ws Ha Hs n. unfold tx_post, op_post, in_step, sync. cbn. rewrite Ha. split_and!; auto. lia. }
  unfold absorb. destruct (rs_gas_object resp) as [g|] eqn:Eg.
  2: { apply wp_ret. apply (Hpost (b_worker b)); [done|]. intros (before & _ & Hef)%He.
       destruct (ef_gas _ _ _ _ _ Hef) as (? & ? & Hg & _). congruence. }
  destruct (rs_object_changes resp) as [cs|] eqn:Ec.
  2: { apply (Hpost (set_gas_coin g (b_worker b))); [done|]. intros (before & _ & Hef)%He.
       destruct (ef_changes _ _ _ _ _ Hef) as (? & Hc). congruence. }
  unfold wp, ebind, modify_worker, ewrite, read_worker, eread, eret. cbn.
  destruct (track cs (ws_objects (b_worker b)) 0) as [objects n] eqn:Et. cbn.
  apply (Hpost (set_objects objects (set_gas_coin g (b_worker b)))); [done|]. intros (before & Hs & Hef)%He.
  destruct (ef_gas _ _ _ _ _ Hef) as (v & d & Hg & Ha). rewrite Eg in Hg. injection Hg as ->.
  replace objects with (track cs (ws_objects (b_worker b)) 0).1 by by rewrite Et.
  destruct Htr as [[-> Hpt]| ->].
  - eapply synced_created; eauto.
  - eapply synced_mutated; eauto.
Qed.

Lemma tx_post_map {A B} b b' (a : A) (c : B) : tx_post b b' (Ok a) -> tx_post b b' (Ok c).
Proof. intros (Hop & _ & Hn). split_and!; [done | done | eauto]. Qed.

(** The common tail of a transaction: submit, then absorb the response. *)
Lemma wp_transact {A} track pt gas_budget rgp f (g : Z -> A) b0 b :
  (track = track_created /\ create_pt pt \/ track = track_mutated /\ update_pt pt) ->
  op_post b0 b ->
  wp (response ←! submit f pt gas_budget rgp; n ←! absorb track response; eret (g n)) b (tx_post b0).
Proof.
  intros Htr Hb. apply wp_bind, wp_submit; [naive_solver|]. intros w r Hn Hp Herr Hok.
  assert (forall b' (r : outcome AnyError A), tx_post b b' r -> tx_post b0 b' r) as Hmono.
  { intros b' r' (Hop & Hr & Hlt). split_and!; [by etrans | done |]. intros a Ha.
    specialize (Hlt a Ha). destruct Hb as [Hb _]. lia. }
  destruct r as [resp|e|]; [|apply Hmono|done].
  - apply wp_bind. eapply wp_mono; [|apply (wp_absorb track pt b w resp); [naive_solver | done | by apply Hok]].
    intros b' r Hr. destruct r as [n|e|].
    + apply wp_ret, Hmono. by eapply tx_post_map.
    + destruct Hr as (Hop & Hr & _). apply Hmono. by split_and!.
    + by destruct Hr as (_ & ? & _).
  - split_and!; [|done|done]. unfold op_post. cbn. split_and!; [lia | done.. | by eapply Herr].
Qed.

Lemma wp_execute_create fn (n : Z) package_id gas_budget rgp b :
  fn ∈ ["create_batch"; "create_blob_batch"] ->
  wp (pt ←! eread (fun _ => create_call package_id fn n);
      response ←! submit Sdk pt gas_budget rgp;
      created_count ←! absorb track_created response;
      eret (created_count, 0)) b (tx_post b).
Proof.
  intros Hfn. destruct (create_call_no_panic package_id fn n Hfn) as (pt & He & Hpt).
  apply wp_bind. unfold wp at 1, eread. rewrite He. cbn.
  apply (wp_transact track_created pt gas_budget rgp Sdk (fun n => (n, 0))); [by left | done].
Qed.

Lemma wp_lift_gen_range n b (Q : Bench -> outcome AnyError Z -> Prop) :
  0 < n -> (forall w r, 0 <= r < n -> op_post b (set_world w b) -> Q (set_world w b) (Ok r)) ->
  wp (lift (world_call (gen_range n))) b Q.
Proof.
  intros Hn HQ. unfold wp, lift, world_call.
  pose proof (gen_range_law n (b_world b) (ws_address (b_worker b)) Hn) as Hl.
  destruct (gen_range n (b_world b)) as [w r]. cbn in *. destruct Hl as (Hr & Ht & Hl).
  apply HQ; [done | by apply op_post_world].
Qed.

Lemma wp_execute_update fn limit package_id gas_budget rgp b :
  fn ∈ ["increment_simple"; "update_blob"] ->
  wp (execute_update fn limit package_id gas_budget rgp) b (tx_post b).
Proof.
  intros Hfn. unfold execute_update. apply wp_bind. unfold wp at 1, read_worker, eread. cbn. unfold id.
  destruct (decide (ws_objects (b_worker b) = [])) as [Hnil|Hne].
  { unfold wp, ebind, eread. rewrite bool_decide_eq_true_2 by done. cbn. by split_and!. }
  apply wp_bind. unfold wp at 1, eread. rewrite bool_decide_eq_false_2 by done. cbn.
  apply wp_bind, wp_lift_gen_range.
  { destruct (ws_objects (b_worker b)); cbn; [done | lia]. }
  intros w start _ Hop. apply wp_bind. unfold wp at 1, eread. cbn [fst snd].
  destruct (update_calls _ _ _ _ _ _ _) as [bld|e|] eqn:Eu.
  - apply (wp_transact track_mutated (builder_finish bld) gas_budget rgp Sdk (fun n => (0, n))); [|done].
    right. split; [done|]. unfold update_pt. eauto 10.
  - by split_and!.
  - by destruct (update_calls_no_panic package_id fn (ws_objects (b_worker b)) start
      (Z.to_nat (Z.min limit (zlength (ws_objects (b_worker b))))) 0 builder_new Hfn Hne).
Qed.

(** ** Seeding *)

Lemma wp_gas_price b (Q : Bench -> outcome AnyError (option Z) -> Prop) :
  (forall w r, op_post b (set_world w b) -> Q (set_world w b) r) ->
  wp (lift (try_call get_reference_gas_price)) b Q.
Proof.
  intros HQ. unfold wp, lift, try_call.
  destruct (gas_price_law (b_world b) (ws_address (b_worker b))) as [Hn Hl].
  destruct (get_reference_gas_price (b_world b)) as [w r]. cbn in *. apply HQ. by apply op_post_world.
Qed.

Lemma wp_seed_loop fuel package_id remaining gas_budget b :
  wp (seed_loop fuel package_id remaining gas_budget) b (fun b' _ => op_post b b').
Proof.
  revert remaining b. induction fuel as [|fuel IH]; intros remaining b; cbn [seed_loop]; [by apply wp_ret|].
  destruct (0 <? remaining); [|by apply wp_ret].
  destruct (create_call_no_panic package_id "create_batch" (Z.min remaining 100) ltac:(set_solver)) as (pt & He & Hpt).
  apply wp_bind. unfold wp at 1, eread. rewrite He. cbn [fst snd].
  apply wp_bind, wp_gas_price. intros w [rgp|e|] Hop; [|done|done].
  pose proof (wp_transact track_created pt gas_budget (default 1000 rgp)
    (fun e => Context "Failed to execute create_batch" (Sdk e)) (fun n => n) b (set_world w b) ltac:(by left) Hop) as Ht.
  unfold wp, ebind, eret in Ht |- *. destruct (submit _ _ _ _ _) as [b1 [resp|e|]]; [|by destruct Ht|by destruct Ht].
  destruct (absorb track_created resp b1) as [b2 [n|e|]]; cbn in Ht |- *; [|by destruct Ht|by destruct Ht].
  etrans; [by destruct Ht|]. apply IH.
Qed.

(** A worker without objects whose gas coin is current is in step. *)
Lemma fresh_worker_sync b :
  ws_objects (b_worker b) = [] ->
  live (ledger (b_world b) (ws_address (b_worker b))) (ws_gas_coin (b_worker b)).1.1 =
    Some ((ws_gas_coin (b_worker b)).1.2, (ws_gas_coin (b_worker b)).2) ->
  sync b.
Proof.
  intros Hnil Hgas. split; rewrite ?Hnil; [by constructor | by intros o ?%elem_of_nil | done | by apply not_elem_of_nil | by cbn].
Qed.

(** ** The objects an update transaction names *)

(** One call of [io_churn::fn] for each reference of a list. *)
Fixpoint calls_on (package_id : ObjectID) (fn : string) (refs : list ObjectRef) (builder : Builder)
    : outcome AnyError Builder :=
  match refs with
  | [] => Ok builder
  | r :: refs =>
      '(arg, builder) ←? map_err Sdk (builder_obj r builder);
      m ←? expect (Identifier_new "io_churn");
      f ←? expect (Identifier_new fn);
      calls_on package_id fn refs (programmable_move_call package_id m f [arg] builder)
  end.

Definition ref_of (o : TrackedObject) : ObjectRef := (to_id o, to_version o, to_digest o).

(** The objects at [n] positions from [start] on, going round. *)
Definition window (objects : list TrackedObject) (start i : Z) (n : nat) : list TrackedObject :=
  omap (fun k => objects !! Z.to_nat ((start + k) mod zlength objects)) (seqZ i (Z.of_nat n)).

Lemma window_S objects start i n :
  objects <> [] ->
  exists o, objects !! Z.to_nat ((start + i) mod zlength objects) = Some o /\
    window objects start i (S n) = o :: window objects start (i + 1) n.
Proof.
  intros Hne. assert (0 < zlength objects) by (destruct objects; cbn; [done | lia]).
  pose proof (Z.mod_pos_bound (start + i) (zlength objects) ltac:(done)).
  destruct (lookup_lt_is_Some_2 objects (Z.to_nat ((start + i) mod zlength objects)) ltac:(lia)) as [o Ho].
  exists o. split; [done|]. unfold window. rewrite seqZ_cons by lia. cbn. rewrite Ho. cbn.
  do 2 f_equal. f_equal; lia.
Qed.

Lemma update_calls_eq package_id fn objects start n i builder :
  objects <> [] ->
  update_calls package_id fn objects start n i builder =
  calls_on package_id fn (ref_of <$> window objects start i n) builder.
Proof.
  intros Hne. revert i builder. induction n as [|n IH]; intros i builder; [done|].
  destruct (window_S objects start i n Hne) as (o & Ho & ->). cbn [update_calls calls_on fmap list_fmap].
  rewrite Ho. cbn [expect obind]. fold (ref_of o). destruct (builder_obj (ref_of o) builder) as [[arg b']|e|]; [|done|done].
  cbn [map_err obind]. destruct (Identifier_new "io_churn"); [|done]. destruct (Identifier_new fn); [|done].
  cbn [expect obind]. apply IH.
Qed.

Lemma window_lookup objects start i n j :
  objects <> [] -> (j < n)%nat ->
  window objects start i n !! j = objects !! Z.to_nat ((start + (i + Z.of_nat j)) mod zlength objects).
Proof.
  intros Hne. revert i j. induction n as [|n IH]; intros i j Hj; [lia|].
  destruct (window_S objects start i n Hne) as (o & Ho & ->). destruct j as [|j].
  - cbn. rewrite <- Ho. do 4 f_equal. lia.
  - change ((o :: ?l) !! S j) with (l !! j). rewrite IH by lia. do 4 f_equal. lia.
Qed.

Lemma window_length objects start i n : objects <> [] -> length (window objects start i n) = n.
Proof.
  intros Hne. revert i. induction n as [|n IH]; intros i; [done|].
  destruct (window_S objects start i n Hne) as (o & _ & ->). cbn. by rewrite IH.
Qed.

Lemma window_elem objects start i n o : o ∈ window objects start i n -> o ∈ objects.
Proof.
  unfold window. intros (k & _ & Hk)%list_elem_of_omap. by eapply list_elem_of_lookup_2.
Qed.

Lemma mod_window_inj s a b len :
  0 < len -> 0 <= a < len -> 0 <= b < len -> (s + a) mod len = (s + b) mod len -> a = b.
Proof.
  intros Hl Ha Hb He. pose proof (Z.div_mod (s + a) len ltac:(lia)). pose proof (Z.div_mod (s + b) len ltac:(lia)).
  assert (a - b = len * ((s + a) / len - (s + b) / len)) as Hd by lia.
  destruct (Z.eq_dec ((s + a) / len) ((s + b) / len)) as [Hq|Hq]; [lia|].
  destruct (Z.lt_gt_cases ((s + a) / len) ((s + b) / len)) as [Hc _]. destruct (Hc Hq); nia.
Qed.

Lemma window_NoDup objects start n :
  objects <> [] -> NoDup (to_id <$> objects) -> (n <= length objects)%nat ->
  NoDup (to_id <$> window objects start 0 n).
Proof.
  intros Hne Hnd Hn. apply NoDup_alt. intros j1 j2 id Hj1 Hj2. rewrite list_lookup_fmap in Hj1, Hj2.
  assert (0 < zlength objects) as Hpos by (destruct objects; cbn; [done | lia]).
  assert (forall j, (to_id <$> window objects start 0 n !! j) = Some id -> (j < n)%nat /\
    (to_id <$> objects) !! Z.to_nat ((start + Z.of_nat j) mod zlength objects) = Some id) as Hj.
  { intros j Hj. assert (j < n)%nat as Hlt.
    { rewrite <- (window_length objects start 0 n Hne). apply fmap_Some in Hj as (o & Ho & _). by eapply lookup_lt_Some. }
    split; [done|]. rewrite window_lookup in Hj by done. by rewrite list_lookup_fmap. }
  destruct (Hj j1 Hj1) as [L1 E1], (Hj j2 Hj2) as [L2 E2].
  pose proof (NoDup_lookup (to_id <$> objects) _ _ _ Hnd E1 E2) as He.
  pose proof (Z.mod_pos_bound (start + Z.of_nat j1) (zlength objects) Hpos).
  pose proof (Z.mod_pos_bound (start + Z.of_nat j2) (zlength objects) Hpos).
  apply Nat2Z.inj, (mod_window_inj start _ _ (zlength objects)); lia.
Qed.
End Sync.
