(* ===== verification/SuiWorkerSpec.v ===== *)
(** * What the worker loop of the Sui benchmark guarantees

    A worker stops at its deadline, keeps its tracked objects in step with the
    network while it runs, up to one lost report, and the statistics of all
    workers add up whatever the order of their updates. *)

From Stdlib Require Import Floats.SpecFloat.
From S2P Require Import Prelude SuiBench SuiWorker SuiBenchSpec.

(** ** Statistics as sequences of atomic additions *)

Definition apply_op (op : stat_op) (s : BenchStats) : BenchStats := fetch_add op.1 op.2 s.
Definition apply_ops (ops : list stat_op) (s : BenchStats) : BenchStats := foldl (fun s op => apply_op op s) s ops.

(** The additions of one iteration of a worker. *)
Inductive iteration_ops : list stat_op -> Prop :=
| ops_idle : iteration_ops []
| ops_success created updated :
    iteration_ops [(TxSubmitted, 1); (TxSuccess, 1); (ObjectsCreated, created); (ObjectsUpdated, updated)]
| ops_failure : iteration_ops [(TxSubmitted, 1); (TxFailed, 1)].

(** ** Durations *)

Lemma round_even_nonneg n d : 0 <= n -> 0 < d -> 0 <= round_even n d.
Proof.
  intros Hn Hd. unfold round_even. pose proof (Z.div_pos n d Hn Hd).
  destruct (_ ?= _); [destruct (Z.even _)| |]; lia.
Qed.

Lemma duration_nonneg {E} x d : @duration_from_secs_f64 E x = Ok d -> 0 <= d.
Proof.
  unfold duration_from_secs_f64. destruct x as [s|s| |s m e]; try done; [by intros [= <-]|].
  destruct s; [done|]. cbv zeta. destruct (_ <? _); [|done]. intros [= <-].
  destruct e; [lia..|]. apply round_even_nonneg; lia.
Qed.

(** Failures that a worker may still have before it starts to pause. *)
Definition idle_left (consecutive_failures : Z) : Z :=
  if consecutive_failures =? 2 ^ 32 - 1 then 10
  else if consecutive_failures <? 9 then 9 - consecutive_failures else 0.

Lemma idle_left_range cf : 0 <= cf -> 0 <= idle_left cf <= 10.
Proof. unfold idle_left. intros. repeat case_test; lia. Qed.

Lemma idle_left_next cf :
  0 <= cf < 2 ^ 32 -> (cf + 1) mod 2 ^ 32 < 10 -> idle_left ((cf + 1) mod 2 ^ 32) < idle_left cf.
Proof.
  intros Hcf. destruct (decide (cf = 2 ^ 32 - 1)) as [->|Hne]; [intros; by vm_compute|].
  rewrite Z.mod_small by lia. intros Hlt. unfold idle_left.
  rewrite (proj2 (Z.eqb_neq cf _)), (proj2 (Z.eqb_neq (cf + 1) _)) by lia.
  repeat case_test; lia.
Qed.

Section Loop.
Context `{SuiLaws}.

(** Any evolution of the state that keeps a worker in step. *)
Definition moved (b b' : Bench) : Prop :=
  now (b_world b) <= now (b_world b') /\ ws_address (b_worker b') = ws_address (b_worker b) /\
  (in_step b -> in_step b').

#[global] Instance moved_preorder : PreOrder moved.
Proof.
  split.
  - intros b. unfold moved. split_and!; done || lia.
  - intros b1 b2 b3 (? & ? & ?) (? & ? & ?). unfold moved. split_and!; try congruence; auto. lia.
Qed.

Lemma op_post_moved b b' : op_post b b' -> moved b b'.
Proof. intros (? & ? & _ & ?). by split_and!. Qed.

(** The counters hold [s]: other workers have added to them. *)
Definition with_stats (s : BenchStats) (b : Bench) : Bench := mkBench (b_world b) (b_worker b) s (b_trace b).

(** The additions [ops] were made. *)
Definition counted (ops : list stat_op) (b : Bench) : Bench :=
  mkBench (b_world b) (b_worker b) (apply_ops ops (b_stats b)) (b_trace b ++ ops).

Definition made (ops : list stat_op) (b b' : Bench) : Prop :=
  b_stats b' = apply_ops ops (b_stats b) /\ b_trace b' = b_trace b ++ ops.

Lemma made_nil b b' : b_stats b' = b_stats b -> b_trace b' = b_trace b -> made [] b b'.
Proof. intros Hs Ht. split; [done|]. by rewrite app_nil_r. Qed.

Lemma op_post_made b b' : op_post b b' -> made [] b b'.
Proof. intros (_ & _ & [Hs Ht] & _). by apply made_nil. Qed.

Lemma made_counted ops b : made ops b (counted ops b).
Proof. done. Qed.

Lemma made_trans ops1 ops2 b1 b2 b3 : made ops1 b1 b2 -> made ops2 b2 b3 -> made (ops1 ++ ops2) b1 b3.
Proof.
  intros [Hs1 Ht1] [Hs2 Ht2]. split; [|by rewrite Ht2, Ht1, app_assoc].
  unfold apply_ops in *. by rewrite foldl_app, Hs2, Hs1.
Qed.

Lemma made_idle ops b1 b2 b3 : made ops b1 b2 -> made [] b2 b3 -> made ops b1 b3.
Proof. intros Hm1 Hm2. rewrite <- (app_nil_r ops). by eapply made_trans. Qed.

Lemma wp_lift_sleep d b (Q : Bench -> outcome AnyError unit -> Prop) :
  0 <= d ->
  (forall w, now (b_world b) + d <= now w -> op_post b (set_world w b) -> Q (set_world w b) (Ok tt)) ->
  wp (lift (sleep_for d)) b Q.
Proof.
  intros Hd HQ. destruct (sleep_law d (b_world b) (ws_address (b_worker b)) Hd) as [Hn Hl].
  apply HQ; [done|]. apply op_post_world; [lia | done].
Qed.

(** A pause that may be empty. *)
Lemma wp_sleep_if d b (Q : Bench -> outcome AnyError unit -> Prop) :
  (forall w, now (b_world b) + Z.max 0 d <= now w -> op_post b (set_world w b) -> Q (set_world w b) (Ok tt)) ->
  wp (sleep_if d) b Q.
Proof.
  intros HQ. unfold sleep_if. destruct (Z.ltb_spec 0 d).
  - apply wp_lift_sleep; [lia|]. intros w Hn. apply HQ. lia.
  - replace b with (set_world (b_world b) b) at 1 by by destruct b. apply wp_ret. apply HQ; [lia|].
    by destruct b.
Qed.

Lemma wp_acquire b (Q : Bench -> outcome AnyError unit -> Prop) :
  (forall w, op_post b (set_world w b) -> Q (set_world w b) (Ok tt)) ->
  wp (lift (sdk_call Sdk semaphore_acquire)) b Q.
Proof.
  intros HQ. unfold wp, lift, sdk_call.
  pose proof (acquire_law (b_world b) (ws_address (b_worker b))) as Hl.
  destruct (semaphore_acquire (b_world b)) as [w r]. cbn in *. destruct Hl as (-> & Hn & Hl).
  apply HQ. by apply op_post_world.
Qed.

Lemma wp_drop_permit b (Q : Bench -> outcome AnyError unit -> Prop) :
  (forall w, op_post b (set_world w b) -> Q (set_world w b) (Ok tt)) -> wp drop_permit b Q.
Proof.
  intros HQ. destruct (permit_drop_law (b_world b) (ws_address (b_worker b))) as [Hn Hl].
  apply HQ. by apply op_post_world.
Qed.

(** An attempted transaction: it succeeds only after some time. *)
Lemma wp_attempt_tx (m : bench (Z * Z)) b (Q : Bench -> outcome AnyError (option (Z * Z)) -> Prop) :
  wp m b (tx_post b) ->
  (forall b' o, op_post b b' -> (is_Some o -> now (b_world b) < now (b_world b')) -> Q b' (Ok o)) ->
  wp (attempt m) b Q.
Proof.
  intros Hm HQ. unfold wp, attempt in *. destruct (m b) as [b' r]. cbn in *.
  destruct Hm as (Hop & Hp & Hn). destruct r as [a|e|]; [|apply HQ; [done|by intros [? [=]]]|done].
  apply HQ; [done|]. intros _. by apply (Hn a).
Qed.

Lemma wp_execute_update_batch package_id count gas_budget rgp b :
  wp (execute_update_batch package_id count gas_budget rgp) b (tx_post b).
Proof. apply wp_execute_update. set_solver. Qed.

Lemma wp_execute_update_blob_batch package_id count gas_budget rgp b :
  wp (execute_update_blob_batch package_id count gas_budget rgp) b (tx_post b).
Proof. apply wp_execute_update. set_solver. Qed.

Lemma wp_run_operation package_id args rgp do_create b :
  wp (run_operation package_id args rgp do_create) b (tx_post b).
Proof.
  unfold run_operation. destruct (use_blobs args), do_create;
    [apply wp_execute_create; set_solver | apply wp_execute_update_blob_batch
    |apply wp_execute_create; set_solver | apply wp_execute_update_batch].
Qed.

(** ** One iteration *)

Definition rate_limit_ok (args : Args) : Prop :=
  0 < target_tps args ->
  @duration_from_secs_f64 unit (f64_mul (f64_div (f64_of_u64 1) (f64_of_u64 (target_tps args)))
    (f64_of_u64 (workers args))) <> Panic.

(** It ends normally, keeps the worker in step, takes time or uses up one of
    the failures left, and makes the additions of one iteration. *)
Definition iteration_post (b : Bench) (cf : Z) (b' : Bench) (r : outcome AnyError Z) : Prop :=
  exists cf' ops, r = Ok cf' /\ moved b b' /\ 0 <= cf' < 2 ^ 32 /\
    (now (b_world b) < now (b_world b') \/ idle_left cf' < idle_left cf) /\
    iteration_ops ops /\ made ops b b'.

Lemma wp_add_stat c n b (Q : Bench -> outcome AnyError unit -> Prop) :
  Q (counted [(c, n)] b) (Ok tt) -> wp (add_stat c n) b Q.
Proof. done. Qed.

(** The bookkeeping of a result, from the state right after the attempt. *)
Lemma wp_count_success created updated b (Q : Bench -> outcome AnyError unit -> Prop) :
  Q (counted [(TxSuccess, 1); (ObjectsCreated, created); (ObjectsUpdated, updated)] b) (Ok tt) ->
  wp (count_success created updated) b Q.
Proof.
  intros HQ. apply wp_bind, wp_add_stat, wp_bind, wp_add_stat, wp_add_stat.
  unfold counted in *. cbn. by rewrite <- !app_assoc.
Qed.

Lemma moved_world b0 b w : moved b0 b -> op_post b (set_world w b) -> moved b0 (set_world w b).
Proof. intros. etrans; [done | by apply op_post_moved]. Qed.

(** The additions of an iteration, followed by steps that make none. *)
Lemma made_success b0 b b' created updated :
  made [] b0 b ->
  made [] (counted [(TxSuccess, 1); (ObjectsCreated, created); (ObjectsUpdated, updated)] (counted [(TxSubmitted, 1)] b)) b' ->
  made [(TxSubmitted, 1); (TxSuccess, 1); (ObjectsCreated, created); (ObjectsUpdated, updated)] b0 b'.
Proof.
  intros Hm1 Hm2. apply (made_trans [] _ _ _ _ Hm1). eapply made_idle; [|exact Hm2].
  eapply (made_trans [_]); apply made_counted.
Qed.

Lemma made_failure b0 b b' :
  made [] b0 b -> made [] (counted [(TxFailed, 1)] (counted [(TxSubmitted, 1)] b)) b' ->
  made [(TxSubmitted, 1); (TxFailed, 1)] b0 b'.
Proof.
  intros Hm1 Hm2. apply (made_trans [] _ _ _ _ Hm1). eapply made_idle; [|exact Hm2].
  eapply (made_trans [_]); apply made_counted.
Qed.

Lemma wp_emergency package_id args rgp cf b0 b :
  moved b0 b -> now (b_world b0) < now (b_world b) -> made [] b0 b -> 0 <= cf < 2 ^ 32 ->
  wp (emergency_iteration package_id args rgp cf) b (iteration_post b0 cf).
Proof.
  intros Hm Hlt Hst Hcf. unfold emergency_iteration. apply wp_bind. unfold wp at 1, read_worker, eread. cbn [fst snd id].
  destruct (bool_decide _).
  { apply wp_bind, wp_lift_sleep; [unfold from_secs; lia|]. intros w Hw Hop. apply wp_ret.
    exists cf, []. split_and!; [done | by apply (moved_world b0 b) | lia | lia | | by constructor |].
    - left. cbn. unfold from_secs in Hw. lia.
    - eapply made_idle; [exact Hst | by apply op_post_made]. }
  apply wp_bind, wp_acquire. intros w Hop.
  assert (moved b0 (set_world w b)) as Hm1 by by apply (moved_world b0 b).
  apply wp_bind, wp_attempt_tx.
  { destruct (use_blobs args); [apply wp_execute_update_blob_batch | apply wp_execute_update_batch]. }
  intros b1 o Hop1 _.
  assert (moved b0 b1) as Hm2 by (etrans; [exact Hm1 | by apply op_post_moved]).
  assert (now (b_world b0) < now (b_world b1)) as Hlt1.
  { destruct Hop as (? & _), Hop1 as (? & _). cbn in *. lia. }
  assert (made [] b0 b1) as Hst1.
  { eapply made_idle; [eapply made_idle; [exact Hst|]|]; by apply op_post_made. }
  apply wp_bind, wp_add_stat. destruct o as [[created updated]|].
  - apply wp_bind, wp_count_success, wp_bind, wp_drop_permit. intros w' Hop2. apply wp_ret.
    eexists 0, _. split_and!; [done | by apply (moved_world b0) | lia | lia | | by apply (ops_success created updated) |].
    + left. destruct Hop2 as (? & _). cbn in *. lia.
    + by eapply (made_success b0 b1), op_post_made.
  - apply wp_bind, wp_add_stat, wp_bind, wp_drop_permit. intros w' Hop2. apply wp_ret.
    eexists cf, _. split_and!; [done | by apply (moved_world b0) | lia | lia | | by apply ops_failure |].
    + left. destruct Hop2 as (? & _). cbn in *. lia.
    + by eapply (made_failure b0 b1), op_post_made.
Qed.

(** The rate limit and the end of an iteration. *)
Lemma wp_finish args cf b (Q : Bench -> outcome AnyError Z -> Prop) :
  rate_limit_ok args ->
  (forall w, op_post b (set_world w b) -> Q (set_world w b) (Ok cf)) ->
  wp (_ ←! (if 0 <? target_tps args then
              target_interval ←! eread (fun _ => duration_from_secs_f64
                (f64_mul (f64_div (f64_of_u64 1) (f64_of_u64 (target_tps args))) (f64_of_u64 (workers args))));
              lift (sleep_for target_interval)
            else eret tt);
      _ ←! drop_permit;
      eret cf) b Q.
Proof.
  intros Hrate HQ. apply wp_bind.
  assert (forall w, op_post b (set_world w b) -> wp (_ ←! drop_permit; eret cf) (set_world w b) Q) as Hend.
  { intros w Hop. apply wp_bind, wp_drop_permit. intros w' Hop'. apply wp_ret. apply (HQ w'). by etrans. }
  destruct (Z.ltb_spec 0 (target_tps args)) as [Hpos|].
  - specialize (Hrate Hpos). apply wp_bind. unfold wp at 1, eread. cbn [fst snd].
    assert (forall r : outcome unit Z, r <> Panic -> (forall e, r <> Err e) -> exists d, r = Ok d) as Hok
      by (intros [d|e|]; naive_solver).
    destruct (Hok _ Hrate) as [d Hd].
    { intros e. unfold duration_from_secs_f64. repeat case_match; done. }
    replace (duration_from_secs_f64 _) with (@Ok AnyError Z d).
    2: { revert Hd. unfold duration_from_secs_f64. repeat case_match; intros [=]; by subst. }
    apply wp_lift_sleep; [by eapply duration_nonneg|]. intros w _. apply Hend.
  - apply wp_ret. replace b with (set_world (b_world b) b) at 1 by by destruct b. apply Hend. by destruct b.
Qed.

Lemma failure_pause_nonneg s : 0 <= failure_pause s.
Proof. unfold failure_pause, from_secs, from_millis. repeat case_match; lia. Qed.

Lemma wp_normal package_id args rgp cf b0 b :
  rate_limit_ok args -> moved b0 b -> made [] b0 b -> 0 <= cf < 2 ^ 32 ->
  wp (normal_iteration package_id args rgp cf) b (iteration_post b0 cf).
Proof.
  intros Hrate Hm Hst Hcf. unfold normal_iteration. apply wp_bind. unfold wp at 1, eread. cbn [fst snd].
  apply wp_bind, wp_sleep_if. intros w1 _ Hop1. apply wp_bind, wp_acquire. intros w2 Hop2.
  apply wp_bind, wp_lift_gen_range; [lia|]. intros w3 r _ Hop3.
  apply wp_bind, wp_attempt_tx; [apply wp_run_operation|]. intros b1 o Hop4 Hsucc.
  assert (op_post b b1) as Hop by (etrans; [exact Hop1|]; etrans; [exact Hop2|]; etrans; [exact Hop3 | exact Hop4]).
  assert (moved b0 b1) as Hm1 by (etrans; [exact Hm | by apply op_post_moved]).
  assert (made [] b0 b1) as Hst1 by (eapply made_idle; [exact Hst | by apply op_post_made]).
  apply wp_bind, wp_add_stat, wp_bind. destruct o as [[created updated]|].
  - apply wp_bind, wp_count_success, wp_ret, wp_finish; [done|]. intros w' Hop'.
    eexists 0, _. split_and!; [done | by apply (moved_world b0) | lia | lia | | by apply (ops_success created updated) |].
    + left. specialize (Hsucc ltac:(eauto)). destruct Hop' as (? & _), Hop1 as (? & _), Hop2 as (? & _), Hop3 as (? & _), Hm as (? & _).
      cbn in *. lia.
    + by eapply (made_success b0 b1), op_post_made.
  - apply wp_bind, wp_add_stat, wp_bind, wp_sleep_if. intros w' Hw' Hop'. apply wp_ret, wp_finish; [done|].
    intros w'' Hop''. pose proof (Z.mod_pos_bound (cf + 1) (2 ^ 32) ltac:(lia)) as Hcf'.
    eexists _, _. split_and!; [done | | lia | lia | | by apply ops_failure |].
    + apply (moved_world b0 (set_world w' _)); [by apply (moved_world b0) | done].
    + unfold MAX_CONSECUTIVE_FAILURES in *. destruct (Z.leb_spec 10 ((cf + 1) mod 2 ^ 32)).
      * left. destruct Hop'' as (? & _), Hm1 as (? & _).
        unfold BACKOFF_ON_FAILURE, MAX_BACKOFF, from_secs, from_millis in *. cbn in *. lia.
      * right. by apply idle_left_next.
    + eapply (made_failure b0 b1); [done|]. apply op_post_made. by etrans.
Qed.

Lemma moved_drop_objects p b : moved b (set_worker (drop_objects p (b_worker b)) b).
Proof.
  unfold moved, in_step, one_behind, sync. cbn. unfold drop_objects.
  destruct (50 <? _); cbn; split_and!; try done; try lia.
  intros [Hs|(before & pt & resp & Hsp & Hs & He)]; [left; by apply synced_take|].
  right. exists before, pt, resp. split_and!; [done | by apply synced_take | done].
Qed.

Lemma wp_iteration package_id args rgp cf b :
  rate_limit_ok args -> 0 <= cf < 2 ^ 32 ->
  wp (iteration package_id args rgp cf) b (iteration_post b cf).
Proof.
  intros Hrate Hcf. unfold iteration. apply wp_bind. unfold wp at 1, eread. cbn [fst snd].
  destruct (MEM_PRESSURE_NORMAL <? _); [|by apply wp_normal; try apply made_nil].
  destruct (throttle_params (memory_pressure (b_world b))) as [[drop_pct delay_ms] skip] eqn:Et.
  assert (skip = true -> delay_ms = 2000) as Hskip.
  { unfold throttle_params in Et. repeat case_match; injection Et as <- <- <-; done. }
  apply wp_bind. apply (wp_mono _ _ (fun b' r => r = Ok tt /\ moved b b' /\ made [] b b')).
  2: { destruct (0 <? drop_pct); [|apply wp_ret; split_and!; by try apply made_nil]. split_and!; [done | apply moved_drop_objects | by apply made_nil]. }
  intros b1 r (-> & Hm & Hst). apply wp_bind.
  apply (wp_mono _ _ (fun b' r => r = Ok tt /\ moved b b' /\ made [] b b' /\
    (0 < delay_ms -> now (b_world b1) < now (b_world b')))).
  2: { destruct (Z.ltb_spec 0 delay_ms); [|apply wp_ret; split_and!; done || lia].
       apply wp_lift_sleep; [unfold from_millis; lia|]. intros w Hw Hop. split_and!; [done | by apply (moved_world b b1) | eapply made_idle; [exact Hst | by apply op_post_made] |].
       cbn. unfold from_millis in Hw. lia. }
  intros b2 r (-> & Hm2 & Hst2 & Hlt). destruct skip; [|by apply wp_normal].
  apply wp_emergency; try done. destruct Hm as (? & _). specialize (Hlt ltac:(lia)). lia.
Qed.

(** ** The loop *)

Definition stopped (deadline : Z) (b : Bench) : Prop :=
  running (b_world b) = false \/ deadline <= now (b_world b).

(** After any number of iterations the worker is in step and has made the
    additions of these iterations; and it needs few iterations to stop. *)
Lemma worker_loop_spec fuel package_id args deadline rgp cf b :
  rate_limit_ok args -> 0 <= cf < 2 ^ 32 ->
  exists b' r its, worker_loop fuel package_id args deadline rgp cf b = (b', Ok r) /\ moved b b' /\
    Forall iteration_ops its /\ made (concat its) b b' /\
    (r = true -> stopped deadline b') /\
    (11 * Z.max 0 (deadline - now (b_world b)) + idle_left cf < Z.of_nat fuel -> r = true).
Proof.
  intros Hrate. revert cf b. induction fuel as [|fuel IH]; intros cf b Hcf; cbn [worker_loop].
  { exists b, false, []. split_and!; try done; [by apply made_nil|]. pose proof (idle_left_range cf). lia. }
  unfold ebind at 1, eread. destruct (running (b_world b)) eqn:Er; cbn [andb].
  2: { exists b, true, []. split_and!; try done; [by apply made_nil | by left]. }
  destruct (Z.ltb_spec (now (b_world b)) deadline) as [Hlt|Hge].
  2: { exists b, true, []. split_and!; try done; [by apply made_nil | by right]. }
  pose proof (wp_iteration package_id args rgp cf b Hrate Hcf) as Hit.
  unfold wp in Hit. unfold ebind. destruct (iteration package_id args rgp cf b) as [b1 r1]. cbn in Hit.
  destruct Hit as (cf' & ops & -> & Hm & Hcf' & Hprog & Hops & Hst).
  destruct (IH cf' b1 Hcf') as (b' & r & its & He & Hm' & Hits & Hst' & Hstop & Hfuel).
  exists b', r, (ops :: its). split_and!; [done | by etrans | by constructor | | done |].
  - by eapply made_trans.
  - intros Hf. apply Hfuel. destruct Hm as (Hn & _).
    pose proof (idle_left_range cf). pose proof (idle_left_range cf'). lia.
Qed.

(** A run of the loop beside other workers, and the additions it makes: before
    an iteration the counters hold whatever the others have made of them.  An
    iteration reads them at most once, before its own additions. *)
Inductive worker_run (package_id : ObjectID) (args : Args) (deadline rgp : Z) : Z -> Bench -> list stat_op -> Prop :=
| run_stopped cf b : stopped deadline b -> worker_run package_id args deadline rgp cf b []
| run_iteration cf b s cf' b' ops log :
    ~ stopped deadline b ->
    iteration package_id args rgp cf (with_stats s b) = (b', Ok cf') -> b_trace b' = b_trace b ++ ops ->
    worker_run package_id args deadline rgp cf' b' log ->
    worker_run package_id args deadline rgp cf b (ops ++ log).

Definition worker_log (log : list stat_op) : Prop :=
  exists its, Forall iteration_ops its /\ log = concat its.

Lemma worker_run_log package_id args deadline rgp cf b log :
  rate_limit_ok args -> 0 <= cf < 2 ^ 32 -> worker_run package_id args deadline rgp cf b log -> worker_log log.
Proof.
  intros Hrate Hcf Hrun. induction Hrun as [|cf b s cf' b' ops log Hgo Hit Htr Hrun IH]; [by exists []|].
  pose proof (wp_iteration package_id args rgp cf (with_stats s b) Hrate Hcf) as Hpost.
  unfold wp in Hpost. rewrite Hit in Hpost. destruct Hpost as (cf1 & ops1 & [= <-] & _ & Hcf' & _ & Hops & _ & Htr1).
  cbn [snd fst] in *. rewrite Htr in Htr1. apply app_inv_head in Htr1 as ->.
  destruct (IH Hcf') as (its & Hits & ->). exists (ops1 :: its). split; [by constructor | done].
Qed.

(** A worker that stops alone is such a run. *)
Lemma worker_loop_run fuel package_id args deadline rgp cf b b' :
  rate_limit_ok args -> 0 <= cf < 2 ^ 32 ->
  worker_loop fuel package_id args deadline rgp cf b = (b', Ok true) ->
  exists log, made log b b' /\ worker_run package_id args deadline rgp cf b log.
Proof.
  intros Hrate. revert cf b. induction fuel as [|fuel IH]; intros cf b Hcf; cbn [worker_loop]; [done|].
  unfold ebind at 1, eread. destruct (running (b_world b) && (now (b_world b) <? deadline)) eqn:Ego.
  - apply andb_true_iff in Ego as [Hr Hn%Z.ltb_lt].
    pose proof (wp_iteration package_id args rgp cf b Hrate Hcf) as Hit.
    unfold wp in Hit. unfold ebind. destruct (iteration package_id args rgp cf b) as [b1 r1] eqn:Ei. cbn in Hit.
    destruct Hit as (cf' & ops & -> & _ & Hcf' & _ & _ & Hm).
    intros (log & Hm' & Hrun)%(IH cf' b1 Hcf'). exists (ops ++ log). split; [by eapply made_trans|].
    eapply (run_iteration _ _ _ _ cf b (b_stats b) cf' b1); [|by destruct b|apply Hm|done].
    intros [?|?]; [congruence | lia].
  - intros [= <-]. exists []. split; [by apply made_nil|]. apply run_stopped. unfold stopped.
    apply andb_false_iff in Ego as [?|?%Z.ltb_ge]; auto.
Qed.
End Loop.

(** ** Statistics of concurrent workers *)

(** [ops] is an order in which the additions of [logs] can happen. *)
Inductive interleave : list (list stat_op) -> list stat_op -> Prop :=
| interleave_done logs : Forall (eq []) logs -> interleave logs []
| interleave_step logs i op rest ops :
    logs !! i = Some (op :: rest) -> interleave (<[i := rest]> logs) ops -> interleave logs (op :: ops).

(** What an addition contributes to submitted minus succeeded and failed. *)
Definition op_net (op : stat_op) : Z :=
  match op.1 with TxSubmitted => op.2 | TxSuccess | TxFailed => - op.2 | _ => 0 end.
Definition net (ops : list stat_op) : Z := foldr (fun op n => op_net op + n) 0 ops.
Definition nets (logs : list (list stat_op)) : Z := foldr (fun log n => net log + n) 0 logs.

Lemma net_app ops1 ops2 : net (ops1 ++ ops2) = net ops1 + net ops2.
Proof.
  induction ops1 as [|op ops1 IH]; [done|].
  change (op_net op + net (ops1 ++ ops2) = op_net op + net ops1 + net ops2). rewrite IH. lia.
Qed.

Lemma nets_cons log logs : nets (log :: logs) = net log + nets logs.
Proof. done. Qed.

Lemma nets_step logs i op rest :
  logs !! i = Some (op :: rest) -> nets logs = op_net op + nets (<[i := rest]> logs).
Proof.
  revert i. induction logs as [|log logs IH]; intros i Hi; [done|].
  destruct i as [|i].
  - injection Hi as ->. change (<[0%nat := rest]> ((op :: rest) :: logs)) with (rest :: logs). rewrite !nets_cons. change (net (op :: rest)) with (op_net op + net rest). lia.
  - change (<[S i := rest]> (log :: logs)) with (log :: <[i := rest]> logs).
    rewrite !nets_cons, (IH i Hi). lia.
Qed.

Lemma interleave_net logs ops : interleave logs ops -> net ops = nets logs.
Proof.
  induction 1 as [logs Hl|logs i op rest ops Hi _ IH].
  - induction Hl as [|log logs <- _ IH]; [done|]. rewrite nets_cons, <- IH. done.
  - rewrite (nets_step _ _ _ _ Hi), <- IH. done.
Qed.

Lemma interleave_drop logs ops k :
  interleave logs ops ->
  exists logs', Forall2 suffix logs' logs /\ interleave logs' (drop k ops).
Proof.
  intros Hi. revert k. induction Hi as [logs Hl|logs i op rest ops Hi Hr IH]; intros k.
  - exists logs. rewrite drop_nil. split; [by apply Forall_Forall2_diag, Forall_true | by constructor].
  - destruct k as [|k].
    + exists logs. split; [by apply Forall_Forall2_diag, Forall_true | by econstructor].
    + destruct (IH k) as (logs' & Hs & Hd). exists logs'. split; [|done].
      apply Forall2_same_length_lookup. apply Forall2_same_length_lookup in Hs as [Hlen Hs].
      rewrite length_insert in Hlen. split; [done|]. intros j l' l Hl' Hl.
      destruct (decide (i = j)) as [<-|Hne].
      * rewrite Hi in Hl. injection Hl as <-. etrans; [|by apply suffix_cons_r].
        apply (Hs i); [done|]. apply list_lookup_insert_eq. by eapply lookup_lt_Some.
      * apply (Hs j); [done|]. by rewrite list_lookup_insert_ne.
Qed.

(** What is left of a worker's log counts 0, or -1 when a transaction was
    counted as submitted and not yet as finished. *)
Lemma iteration_net_suffix ops p : iteration_ops ops -> p `suffix_of` ops -> -1 <= net p <= 0.
Proof.
  intros Hops [q ->].
  assert (forall k, -1 <= net (drop k (q ++ p)) <= 0) as Hd.
  { intros k. inversion Hops as [|c u He|He]; do 5 (destruct k as [|k]; [by cbn|]); by cbn. }
  specialize (Hd (length q)). by rewrite drop_app_length in Hd.
Qed.

Lemma iteration_net ops : iteration_ops ops -> net ops = 0.
Proof. by destruct 1. Qed.

Lemma worker_log_net log : worker_log log -> net log = 0.
Proof.
  intros (its & Hits & ->). induction Hits as [|ops its Hops _ IH]; [done|].
  cbn. by rewrite net_app, iteration_net, IH.
Qed.

Lemma worker_log_suffix log p : worker_log log -> p `suffix_of` log -> -1 <= net p <= 0.
Proof.
  intros (its & Hits & ->). induction Hits as [|ops its Hops Hits IH]; cbn; intros [q Hq].
  - symmetry in Hq. apply app_nil in Hq as [_ ->]. cbn. lia.
  - apply app_eq_inv in Hq as [(k & Hk & ->)|(k & _ & Hk)]; [|apply IH; by exists k].
    rewrite net_app, (worker_log_net (concat its)) by by exists its.
    destruct (iteration_net_suffix ops k Hops); [by exists q | lia].
Qed.

(** ** Counters *)

Definition stats_net (s : BenchStats) : Z := tx_submitted s - tx_success s - tx_failed s.

Lemma wrap64_eq_mod x : wrap64 x mod 2 ^ 64 = x mod 2 ^ 64.
Proof. unfold wrap64. by rewrite Z.mod_mod. Qed.

Lemma apply_op_net op s : stats_net (apply_op op s) mod 2 ^ 64 = (stats_net s + op_net op) mod 2 ^ 64.
Proof.
  destruct s as [a b d e f], op as [[] n]; unfold stats_net, apply_op, op_net, fetch_add, wrap64; cbn [tx_submitted tx_success tx_failed fst snd].
  - rewrite Zminus_mod, (Zminus_mod ((a + n) mod 2 ^ 64)), Z.mod_mod, <- (Zminus_mod (a + n)), <- Zminus_mod by lia.
    f_equal. lia.
  - rewrite Zminus_mod, (Zminus_mod a), Z.mod_mod, <- (Zminus_mod a), <- Zminus_mod by lia. f_equal. lia.
  - rewrite Zminus_mod, Z.mod_mod, <- Zminus_mod by lia. f_equal. lia.
  - f_equal. lia.
  - f_equal. lia.
Qed.

Lemma apply_ops_net ops s : stats_net (apply_ops ops s) mod 2 ^ 64 = (stats_net s + net ops) mod 2 ^ 64.
Proof.
  revert s. induction ops as [|op ops IH]; intros s; [cbn; f_equal; lia|].
  change (stats_net (apply_ops ops (apply_op op s)) mod 2 ^ 64 = (stats_net s + (op_net op + net ops)) mod 2 ^ 64).
  rewrite IH, Z.add_mod, apply_op_net, <- Z.add_mod by lia. f_equal. lia.
Qed.

Lemma fetch_add_submitted_u64 op s :
  0 <= tx_submitted s < 2 ^ 64 -> 0 <= tx_submitted (apply_op op s) < 2 ^ 64.
Proof.
  destruct s as [a b d e f], op as [[] n]; cbn; try done. intros _. apply Z.mod_pos_bound. lia.
Qed.

Lemma apply_ops_submitted_u64 ops s :
  0 <= tx_submitted s < 2 ^ 64 -> 0 <= tx_submitted (apply_ops ops s) < 2 ^ 64.
Proof.
  revert s. induction ops as [|op ops IH]; intros s Hs; [done|]. apply IH. by apply fetch_add_submitted_u64.
Qed.

(** From fresh counters, what is counted as submitted and not yet as finished. *)
Lemma apply_ops_inflight ops n :
  net ops = n -> let s := apply_ops ops BenchStats_new in
  tx_submitted s = wrap64 (tx_success s + tx_failed s + n).
Proof.
  intros Hn s. pose proof (apply_ops_net ops BenchStats_new) as Hs. fold s in Hs. rewrite Hn in Hs.
  pose proof (apply_ops_submitted_u64 ops BenchStats_new ltac:(cbn; lia)) as Hr. fold s in Hr.
  unfold stats_net in Hs. change (tx_submitted BenchStats_new - _ - _) with 0 in Hs. unfold wrap64.
  rewrite <- (Z.mod_small (tx_submitted s) (2 ^ 64)) at 1 by lia.
  replace (tx_submitted s) with (tx_submitted s - tx_success s - tx_failed s + (tx_success s + tx_failed s)) by lia.
  rewrite Z.add_mod, Hs, <- Z.add_mod by lia. f_equal. lia.
Qed.

Lemma worker_logs_net logs : Forall worker_log logs -> nets logs = 0.
Proof. induction 1 as [|log logs Hlog _ IH]; [done|]. rewrite nets_cons, worker_log_net by done. lia. Qed.

Lemma interleave_inflight logs ops k :
  Forall worker_log logs -> interleave logs ops -> 0 <= net (take k ops) <= zlength logs.
Proof.
  intros Hl Hi. pose proof (interleave_net _ _ Hi) as Hn.
  pose proof (worker_logs_net logs Hl) as H0.
  destruct (interleave_drop logs ops k Hi) as (logs' & Hs & Hd). apply interleave_net in Hd.
  assert (- zlength logs <= nets logs' <= 0) as Hb.
  { clear - Hl Hs. induction Hs as [|l' l logs' logs Hsl _ IH]; [done|].
    apply Forall_cons in Hl as [Hlog Hl]. specialize (IH Hl).
    pose proof (worker_log_suffix l l' Hlog Hsl). rewrite nets_cons. cbn [length]. lia. }
  rewrite <- (take_drop k ops), net_app in Hn. lia.
Qed.

(** ** Saving and loading *)

Section Chunks.
Context {A : Type}.

Lemma concat_chunks_fuel fuel n (l : list A) :
  (0 < n)%nat -> (length l <= fuel)%nat -> concat (chunks_fuel fuel n l) = l.
Proof.
  intros Hn. revert l. induction fuel as [|fuel IH]; intros l Hl.
  - by destruct l; [|cbn in Hl; lia].
  - destruct l as [|x l]; [done|]. cbn [chunks_fuel concat]. rewrite IH.
    + apply take_drop.
    + rewrite length_drop. cbn in *. lia.
Qed.

Lemma concat_chunks n (l : list A) : (0 < n)%nat -> concat (chunks n l) = l.
Proof. intros Hn. by apply concat_chunks_fuel. Qed.
End Chunks.

Section SaveLoad.
Context `{SuiSdk} `{!SuiEncoding}.

(** What the node answers to a query for objects is about these objects, in
    the order of the query. *)
Definition answers_asked : Prop :=
  forall ids w w' resp, multi_get_object ids w = (w', Ok resp) ->
    (od_object_id <$> omap id resp) `sublist_of` ids.

Definition same_worker (s s' : WorkerState) : Prop :=
  ws_id s' = ws_id s /\ ws_address s' = ws_address s /\ ws_keypair s' = ws_keypair s /\
  (to_id <$> ws_objects s') `sublist_of` (to_id <$> ws_objects s).

#[global] Instance same_worker_preorder : PreOrder same_worker.
Proof.
  split.
  - intros s. by split_and!.
  - intros s1 s2 s3 (? & ? & ? & ?) (? & ? & ? & ?). split_and!; [congruence..|]. by etrans.
Qed.

Lemma lift_inv {B} (m : eff World AnyError B) b b' r :
  lift m b = (b', r) -> exists w', m (b_world b) = (w', r) /\ b' = set_world w' b.
Proof. unfold lift. destruct (m (b_world b)) as [w r0]. intros [= <- <-]. eauto. Qed.

Lemma sdk_call_Ok {B} f (op : World -> World * outcome sdk_error B) w w' a :
  sdk_call f op w = (w', Ok a) -> op w = (w', Ok a).
Proof.
  unfold sdk_call. destruct (op w) as [w1 r]. intros [= <- Hr]. apply map_err_Ok in Hr. by rewrite Hr.
Qed.

Lemma refresh_loop_asked cs refreshed b b' objs :
  answers_asked -> refresh_loop cs refreshed b = (b', Ok objs) ->
  b_worker b' = b_worker b /\
  exists new, objs = refreshed ++ new /\ (to_id <$> new) `sublist_of` (to_id <$> concat cs).
Proof.
  intros Hask. revert refreshed b. induction cs as [|chunk cs IH]; intros refreshed b; cbn [refresh_loop].
  { intros [= <- <-]. split; [done|]. exists []. by rewrite app_nil_r. }
  intros (b1 & resp & Hq & Hr)%ebind_Ok. apply lift_inv in Hq as (w' & Hq%sdk_call_Ok & ->).
  apply Hask in Hq. destruct (IH _ _ Hr) as (Hw & new & -> & Hsub). split; [done|].
  exists ((tracked_of_data <$> omap id resp) ++ new). rewrite <- app_assoc. split; [done|].
  cbn [concat]. rewrite !fmap_app. apply sublist_app; [|done].
  rewrite <- list_fmap_compose. exact Hq.
Qed.

Lemma refresh_worker_objects_same b b' :
  answers_asked -> refresh_worker_objects b = (b', Ok tt) -> same_worker (b_worker b) (b_worker b').
Proof.
  intros Hask Hr. unfold refresh_worker_objects in Hr. unfold ebind at 1, read_worker, eread, id in Hr.
  case_match.
  - injection Hr as <-. done.
  - apply ebind_Ok in Hr as (b2 & objs & Hl & Hr). injection Hr as <-.
    apply refresh_loop_asked in Hl as (Hw & new & -> & Hs); [|done]. rewrite concat_chunks in Hs by lia.
    unfold same_worker. cbn. rewrite Hw. by split_and!.
Qed.

Lemma refresh_workers_same ws w w' states :
  answers_asked -> refresh_workers ws w = (w', Ok states) -> Forall2 same_worker ws states.
Proof.
  intros Hask. revert w states. induction ws as [|s ws IH]; intros w states; cbn [refresh_workers].
  { intros [= <- <-]. constructor. }
  intros (w1 & s' & Hs & Hr)%ebind_Ok. apply ebind_Ok in Hr as (w2 & ss & Hss & [= <- <-]).
  constructor; [|by eapply IH].
  destruct (refresh_worker_objects (mkBench w s BenchStats_new [])) as [b [[]|e|]] eqn:E; injection Hs as <- Hs; [|done|done].
  subst s'. by apply refresh_worker_objects_same in E.
Qed.

Lemma restore_workers_same saved w w' states :
  restore_workers saved w = (w', Ok states) ->
  Forall2 (fun sw s => ws_id s = sw_worker_id sw /\ ws_address s = sw_address sw /\ ws_objects s = sw_objects sw /\
    decode_base64 (sw_keypair_base64 sw) = Ok (ws_keypair s)) saved states.
Proof.
  revert w states. induction saved as [|sw saved IH]; intros w states; cbn [restore_workers].
  { intros [= <- <-]. constructor. }
  intros (w1 & s & Hs & Hr)%ebind_Ok. apply ebind_Ok in Hr as (w2 & ss & Hss & [= <- <-]).
  constructor; [|by eapply IH]. unfold restore_worker in Hs.
  apply ebind_Ok in Hs as (w3 & kp & [-> Hkp%map_err_Ok]%eread_Ok & Hs).
  apply ebind_Ok in Hs as (w4 & gas & _ & [= <- <-]). by cbn.
Qed.
End SaveLoad.
