(* ===== verification/SuiBenchProps.v ===== *)
(** * Properties of the Sui benchmark *)

From S2P Require Import Prelude SuiBench SuiWorker SuiBenchSpec SuiWorkerSpec.

Section Properties.
Context `{SuiLaws}.

(** C15: A worker stops: after at most eleven iterations per nanosecond left
    and ten more the loop has ended normally, because it was told to stop or
    its deadline has passed, even when every transaction fails without
    reaching the node. *)
Theorem worker_stops fuel package_id args deadline rgp b :
  rate_limit_ok args ->
  11 * Z.max 0 (deadline - now (b_world b)) + 10 <= Z.of_nat fuel ->
  exists b', run_worker fuel package_id args deadline rgp b = (b', Ok true) /\
    (running (b_world b') = false \/ deadline <= now (b_world b')).
Proof.
  intros Hrate Hfuel.
  destruct (worker_loop_spec fuel package_id args deadline rgp 0 b Hrate ltac:(lia))
    as (b' & r & its & He & _ & _ & _ & Hstop & Hr).
  change (idle_left 0) with 9 in Hr. rewrite Hr in * by lia. exists b'. split; [exact He | by apply Hstop].
Qed.

(** C9: Seeding a worker and running its loop for any number of iterations
    keeps track of its objects, even when the report of an executed transaction
    is lost and the worker counts it as failed.  The tracked objects are
    distinct, at most 5000, do not include the gas coin, and with the gas coin
    are at the version and digest the network has; or else exactly one
    transaction, which used the gas coin, was executed without the worker
    learning of it, and they are at the version and digest from before it.
    Which of the two holds shows in the gas coin alone. *)
Theorem tracked_objects_in_sync seed_count fuel package_id args deadline rgp b :
  rate_limit_ok args -> in_step b ->
  let b1 := (create_seed_objects package_id seed_count (gas_budget args) b).1 in
  let b2 := (run_worker fuel package_id args deadline rgp b1).1 in
  forall b', b' = b1 \/ b' = b2 ->
    (sync b' \/ one_behind b') /\
    (sync b' <-> live (ledger (b_world b') (ws_address (b_worker b'))) (ws_gas_coin (b_worker b')).1.1 =
       Some ((ws_gas_coin (b_worker b')).1.2, (ws_gas_coin (b_worker b')).2)).
Proof.
  intros Hrate Hs b1 b2. assert (in_step b1) as Hs1.
  { destruct (wp_seed_loop (S (Z.to_nat seed_count)) package_id seed_count (gas_budget args) b) as (_ & _ & _ & Hsync).
    by apply Hsync. }
  assert (in_step b2) as Hs2.
  { destruct (worker_loop_spec fuel package_id args deadline rgp 0 b1 Hrate ltac:(lia))
      as (b' & r & its & He & (_ & _ & Hm) & _).
    unfold b2, run_worker. rewrite He. by apply Hm. }
  intros b' Hb'. assert (in_step b') as Hst by by destruct Hb' as [-> | ->].
  split; [exact Hst|]. split; [apply sy_gas | by apply in_step_current].
Qed.

(** C24: The statistics of concurrent workers add up.  A worker that stops has
    made the additions of a run, in the order of its code.  In whatever order
    the additions of the runs of all workers happen, at every moment the
    submitted transactions are those counted as succeeded or failed and at most
    one more per worker, and in the end they are equal, up to the wrap-around
    of the counters. *)
Theorem stats_add_up :
  (forall fuel package_id args deadline rgp b b', rate_limit_ok args ->
     run_worker fuel package_id args deadline rgp b = (b', Ok true) ->
     exists log, worker_run package_id args deadline rgp 0 b log /\
       b_trace b' = b_trace b ++ log /\ b_stats b' = apply_ops log (b_stats b)) /\
  (forall logs ops,
     Forall (fun log => exists package_id args deadline rgp b, rate_limit_ok args /\
       worker_run package_id args deadline rgp 0 b log) logs -> interleave logs ops ->
     (forall k, let s := apply_ops (take k ops) BenchStats_new in
        exists inflight, 0 <= inflight <= zlength logs /\
          tx_submitted s = wrap64 (tx_success s + tx_failed s + inflight)) /\
     let s := apply_ops ops BenchStats_new in tx_submitted s = wrap64 (tx_success s + tx_failed s)).
Proof.
  split.
  { intros fuel package_id args deadline rgp b b' Hrate Hrun.
    apply worker_loop_run in Hrun as (log & [Hs Ht] & Hrun); [by exists log | done | lia]. }
  intros logs ops Hruns Hi.
  assert (Forall worker_log logs) as Hl.
  { eapply Forall_impl; [exact Hruns|]. intros log (package_id & args & deadline & rgp & b & Hrate & Hrun).
    eapply worker_run_log; [exact Hrate | | exact Hrun]. lia. }
  split.
  - intros k s. exists (net (take k ops)). split; [by apply interleave_inflight | by apply apply_ops_inflight].
  - intros s. pose proof (apply_ops_inflight ops 0) as Hn. cbv zeta in Hn. rewrite Z.add_0_r in Hn. apply Hn.
    by rewrite (interleave_net _ _ Hi), worker_logs_net.
Qed.

(** An update transaction calls the contract once on each of as many
    different tracked objects as the batch size and the number of objects
    allow, each named at the version and digest the node has. *)
Theorem update_targets fn package_id limit start b :
  sync b -> ws_objects (b_worker b) <> [] -> 0 <= limit ->
  let objects := ws_objects (b_worker b) in
  let n := Z.to_nat (Z.min limit (zlength objects)) in
  exists targets,
    update_calls package_id fn objects start n 0 builder_new = calls_on package_id fn (ref_of <$> targets) builder_new /\
    zlength targets = Z.min limit (zlength objects) /\ NoDup (to_id <$> targets) /\
    forall o, o ∈ targets -> o ∈ objects /\
      live (ledger (b_world b) (ws_address (b_worker b))) (to_id o) = Some (to_version o, to_digest o).
Proof.
  intros Hs Hne Hl objects n. exists (window objects start 0 n). split_and!.
  - by apply update_calls_eq.
  - rewrite window_length by done. lia.
  - apply window_NoDup; [done | apply (sy_NoDup _ _ Hs) | lia].
  - intros o Ho%window_elem. split; [done|]. by apply (sy_current _ _ Hs).
Qed.
End Properties.

Section SaveLoadProperty.
Context `{SuiSdk} `{!SuiEncoding}.

(** Workers saved to a file and loaded again keep their identifiers,
    addresses and keys, and track no object they did not track when saved;
    given that the encodings of keys and of the file are inverted by their
    decodings and that the node answers what it is asked. *)
Theorem load_restores_saved ws json w w' states :
  (forall k, decode_base64 (encode_base64 k) = Ok k) ->
  (forall st s, to_json st = Ok s -> from_json s = Ok st) ->
  answers_asked ->
  save_benchmark_state ws = Ok json -> load_workers json w = (w', Ok states) ->
  Forall2 same_worker ws states.
Proof.
  intros Hkey Hjson Hask Hsave%map_err_Ok Hload. apply Hjson in Hsave. unfold load_workers in Hload.
  apply ebind_Ok in Hload as (w1 & saved & [-> Hs%map_err_Ok]%eread_Ok & Hload). rewrite Hsave in Hs.
  injection Hs as <-. cbn [sb_workers] in Hload. apply ebind_Ok in Hload as (w2 & restored & Hr & Hload).
  apply restore_workers_same in Hr. apply refresh_workers_same in Hload; [|done].
  apply Forall2_fmap_l in Hr. eapply Forall2_trans; [|exact Hr|exact Hload].
  intros s s1 s2 (Hid & Ha & Ho & Hk) Hs2. cbn in *. rewrite Hkey in Hk. injection Hk as Hk.
  transitivity s1; [|done]. unfold same_worker. rewrite Hid, Ha, Ho, Hk. by split_and!.
Qed.
End SaveLoadProperty.
