(* ===== verification/SuiSample.v ===== *)
(** * The Sui benchmark on a small node

    A node that holds objects with their owner and version, executes the two
    kinds of transactions the benchmark builds and advances its clock with each
    call.  It satisfies the behaviour the benchmark relies on, and the theorems
    about the benchmark are evaluated on it. *)

From Stdlib Require Import Ascii.
From Stdlib Require Import Floats.SpecFloat.
From S2P Require Import Prelude SuiBench SuiWorker SuiBenchSpec SuiWorkerSpec SuiBenchProps.

(** A built transaction creates objects or touches the named ones. *)
Inductive sample_pt := PCreate | PUpdate (ids : list Z).

#[global] Instance sample_pt_eq_dec : EqDecision sample_pt.
Proof. solve_decision. Defined.

#[global] Instance sample_types : SuiTypes := {|
  ObjectID := Z;
  ObjectDigest := Z;
  SuiAddress := Z;
  SuiKeyPair := Z;
  sdk_error := unit;
  Identifier := string;
  Argument := unit;
  Builder := bool * list Z;
  ProgrammableTransaction := sample_pt;
  Transaction := Z * (Z * Z * Z) * sample_pt
|}.

(** A transaction that was executed: its sender and gas coin, the objects
    before it, and its report. *)
Definition execution : Type := Z * (Z * Z * Z) * gmap Z (Z * Z) * sample_pt * TransactionResponse.

(** The clock, the owner and version of each object, and the transactions
    executed, latest first. *)
Record Node := mkNode {
  node_clock : Z;
  node_objects : gmap Z (Z * Z);
  node_executed : list execution
}.

Definition objects_live (m : gmap Z (Z * Z)) (a id : Z) : option (Z * Z) :=
  '(o, v) ← m !! id; if decide (o = a) then Some (v, v) else None.
Definition node_live (w : Node) : Z -> Z -> option (Z * Z) := objects_live (node_objects w).

Definition node_next_id (w : Node) : Z :=
  match btree_last (node_objects w) with Some (k, _) => k + 1 | None => 0 end.

Definition touch_objects (ids : list Z) (v : Z) (m : gmap Z (Z * Z)) : gmap Z (Z * Z) :=
  map_imap (fun id p => Some (p.1, if decide (id ∈ ids) then v else p.2)) m.

Definition touched (pt : sample_pt) (gas : Z) : list Z :=
  match pt with PCreate => [gas] | PUpdate ids => gas :: ids end.

Definition accepted (w : Node) (a : Z) (ids : list Z) : bool :=
  bool_decide (NoDup ids) && forallb (fun id => bool_decide (is_Some (node_live w a id))) ids.

(** The gas coin is at its current version. *)
Definition gas_current (w : Node) (a : Z) (gas : Z * Z * Z) : bool :=
  bool_decide (node_live w a gas.1.1 = Some (gas.1.2, gas.2)).

(** The transaction of [a] that has used [gas]. *)
Fixpoint find_execution (es : list execution) (a : Z) (gas : Z * Z * Z)
    : option (gmap Z (Z * Z) * sample_pt * TransactionResponse) :=
  match es with
  | [] => None
  | (a', gas', m, pt, resp) :: es =>
      if decide (a' = a /\ gas' = gas) then Some (m, pt, resp) else find_execution es a gas
  end.
Definition node_spent (w : Node) (a : Z) (gas : Z * Z * Z) : option (gmap Z (Z * Z) * sample_pt * TransactionResponse) :=
  if gas_current w a gas then None else find_execution (node_executed w) a gas.

Definition tick (w : Node) : Node := mkNode (node_clock w + 1) (node_objects w) (node_executed w).

(** The objects after an accepted transaction and its report. *)
Definition node_effects (a : Z) (gas : Z * Z * Z) (pt : sample_pt) (w : Node) : gmap Z (Z * Z) * TransactionResponse :=
  let v := node_clock w + 1 in
  let ids := touched pt gas.1.1 in
  let m := touch_objects ids v (node_objects w) in
  let mutated := (fun id : Z => Mutated (id : ObjectID) v (v : ObjectDigest)) <$> ids in
  match pt with
  | PCreate =>
      let id := node_next_id w in
      (<[id := (a, v)]> m,
       mkTransactionResponse (Some (gas.1.1, v, v)) (Some (mutated ++ [Created (id : ObjectID) v v])))
  | PUpdate _ => (m, mkTransactionResponse (Some (gas.1.1, v, v)) (Some mutated))
  end.

(** The report of the transaction executed at time 4 is lost. *)
Definition node_execute (tx : Z * (Z * Z * Z) * sample_pt) (w : Node)
    : Node * outcome unit TransactionResponse :=
  let '(a, gas, pt) := tx in
  if gas_current w a gas && (gas.1.2 <=? node_clock w) && accepted w a (touched pt gas.1.1) then
    let '(m, resp) := node_effects a gas pt w in
    (mkNode (node_clock w + 1) m ((a, gas, node_objects w, pt, resp) :: node_executed w),
     if node_clock w =? 4 then Err tt else Ok resp)
  else
    (tick w,
     match node_spent w a gas with
     | Some (_, pt', resp) => if decide (pt' = pt) then Ok resp else Err tt
     | None => Err tt
     end).

Definition node_data (w : Node) (id : Z) : option ObjectData :=
  '(_, v) ← node_objects w !! id; Some (mkObjectData (id : ObjectID) v (v : ObjectDigest)).

#[global] Instance sample_sdk : SuiSdk := {|
  World := Node;
  now := node_clock;
  sleep d w := mkNode (node_clock w + d) (node_objects w) (node_executed w);
  gen_range n w := (w, node_clock w mod n);
  running _ := true;
  memory_pressure _ := 0;
  semaphore_acquire w := (w, Ok tt);
  permit_drop w := w;
  Identifier_new s := Some s;
  builder_new := (false, []);
  builder_pure _ b := Ok (tt, (true, b.2));
  builder_obj r b := Ok (tt, (b.1, b.2 ++ [r.1.1]));
  programmable_move_call _ _ _ _ b := b;
  builder_finish b := if b.1 then PCreate else PUpdate b.2;
  sign_transaction a gas pt _ _ _ := (a, match gas with g :: _ => g | [] => (0, 0, 0) end, pt);
  execute_transaction_block := node_execute;
  get_reference_gas_price w := (w, Ok 1000);
  get_coins a w := (tick w, Ok ((fun id => mkCoin (id : ObjectID) 0 (0 : ObjectDigest) 0) <$> [a]));
  multi_get_object ids w := (tick w, Ok (node_data w <$> ids));
  post_faucet _ w := (tick w, Ok true)
|}.

Lemma touch_live w a id ids v :
  objects_live (touch_objects ids v (node_objects w)) a id =
  (fun p => if decide (id ∈ ids) then (v, v) else p) <$> node_live w a id.
Proof.
  unfold node_live, objects_live, touch_objects. cbn. rewrite map_lookup_imap.
  destruct (node_objects w !! id) as [[o u]|]; [|done]. cbn. destruct (decide (o = a)); [|done]. cbn.
  by destruct (decide (id ∈ ids)).
Qed.

Lemma node_next_id_fresh w : node_objects w !! node_next_id w = None.
Proof.
  unfold node_next_id. destruct (btree_last (node_objects w)) as [[k p]|] eqn:E.
  - apply btree_last_Some in E as [_ Hmax]. apply eq_None_not_Some. intros Hs%Hmax. lia.
  - by apply btree_last_None in E as ->.
Qed.

Lemma accepted_spec w a ids :
  accepted w a ids = true -> NoDup ids /\ forall id, id ∈ ids -> is_Some (node_live w a id).
Proof.
  unfold accepted. intros [Hnd Hall]%andb_true_iff. split; [by apply bool_decide_eq_true in Hnd|].
  rewrite forallb_forall in Hall. intros id Hid. eapply bool_decide_eq_true, Hall. by apply list_elem_of_In.
Qed.

(** An accepted transaction that only touches objects. *)
Lemma sample_touch_effects (pt : ProgrammableTransaction) (gas : ObjectRef) w a ids :
  accepted w a ids = true -> gas.1.1 ∈ ids -> (create_pt pt -> ids = [gas.1.1]) ->
  let v := node_clock w + 1 in
  effects_ok pt gas (node_live w a) (objects_live (touch_objects ids v (node_objects w)) a)
    (mkTransactionResponse (Some (gas.1.1, v, v))
       (Some ((fun id : Z => Mutated (id : ObjectID) v (v : ObjectDigest)) <$> ids))).
Proof.
  intros [Hnd Hlive]%accepted_spec Hgas Hcr v.
  assert (forall id, id ∈ ids -> objects_live (touch_objects ids v (node_objects w)) a id = Some (v, v)) as Hnew.
  { intros id Hid. subst v. rewrite touch_live. destruct (Hlive id Hid) as [p ->]. cbn. by rewrite decide_True. }
  assert (forall id u d, Mutated id u d ∈ (fun id : Z => Mutated (id : ObjectID) v (v : ObjectDigest)) <$> ids ->
    id ∈ ids /\ u = v /\ d = v) as Hin.
  { intros id u d (x & [= -> -> ->] & Hx)%list_elem_of_fmap. done. }
  split; cbn.
  - exists v, v. split; [done | by apply Hnew].
  - eauto.
  - intros cs [= <-]. rewrite <- list_fmap_compose. cbn. by rewrite list_fmap_id.
  - intros cs id u d [= <-] (x & [=] & _)%list_elem_of_fmap.
  - intros cs id u d [= <-] (Hid & -> & ->)%Hin. split; [by apply Hnew|]. intros Hc%Hcr. rewrite Hc in Hid.
    by apply list_elem_of_singleton in Hid.
  - intros cs id [= <-] Hs Hno. subst v. rewrite touch_live. destruct (decide (id ∈ ids)) as [Hid|Hid].
    + destruct (Hno (node_clock w + 1) (node_clock w + 1)). apply list_elem_of_fmap. by exists id.
    + by destruct (node_live w a id).
Qed.

Lemma sample_create_pt (pt : ProgrammableTransaction) : create_pt pt -> pt = PCreate.
Proof. intros (p & fn & n & [= <-]). done. Qed.

Lemma sample_update_calls p fn objects start n i (b b' : Builder) :
  update_calls p fn objects start n i b = Ok b' -> b'.1 = b.1.
Proof.
  revert i b. induction n as [|n IH]; intros i b; cbn [update_calls]; [by intros [= <-]|].
  intros Hu. apply bind_Ok in Hu as (o & _ & Hu). cbn in Hu. by apply IH in Hu.
Qed.

Lemma sample_update_pt (pt : ProgrammableTransaction) : update_pt pt -> exists ids, pt = PUpdate ids.
Proof.
  intros (p & fn & objects & start & n & b & Hu%sample_update_calls & ->). cbn in *. rewrite Hu. eauto.
Qed.

(** Inserting an object under a free identifier adds it to what its owner sees. *)
Lemma insert_live w m a v id :
  objects_live (<[node_next_id w := (a, v)]> m) a id =
  if decide (id = node_next_id w) then Some (v, v) else objects_live m a id.
Proof.
  unfold objects_live. case_decide as Hid.
  - subst id. rewrite lookup_insert_eq. cbn. by rewrite decide_True.
  - by rewrite lookup_insert_ne.
Qed.

Lemma next_id_dead w a : node_live w a (node_next_id w) = None.
Proof. unfold node_live, objects_live. by rewrite node_next_id_fresh. Qed.

Lemma sample_create_effects (gas : ObjectRef) w a :
  accepted w a [gas.1.1] = true ->
  let v := node_clock w + 1 in
  effects_ok (PCreate : @ProgrammableTransaction sample_types) gas (node_live w a)
    (objects_live (<[node_next_id w := (a, v)]> (touch_objects [gas.1.1] v (node_objects w))) a)
    (mkTransactionResponse (Some (gas.1.1, v, v))
       (Some [Mutated (gas.1.1 : ObjectID) v (v : ObjectDigest); Created (node_next_id w : ObjectID) v v])).
Proof.
  intros Hacc v. destruct (accepted_spec _ _ _ Hacc) as [_ Hlive].
  destruct (Hlive gas.1.1 ltac:(set_solver)) as [p Hp].
  assert (node_next_id w <> gas.1.1) as Hne by (intros He; pose proof (next_id_dead w a) as Hn; rewrite He in Hn; congruence).
  destruct (sample_touch_effects (PCreate : @ProgrammableTransaction sample_types) gas w a [gas.1.1] Hacc ltac:(set_solver) ltac:(done))
    as [(v0 & d0 & [= <- <-] & Hg) _ _ _ _ Hframe].
  split; cbn.
  - exists v, v. split; [done|]. by rewrite insert_live, decide_False.
  - eauto.
  - intros cs [= <-]. cbn. apply NoDup_cons. split; [set_solver | apply NoDup_singleton].
  - intros cs id u d [= <-] [[=]|[[= -> -> ->]|[]%elem_of_nil]%elem_of_cons]%elem_of_cons.
    split; [apply next_id_dead | by rewrite insert_live, decide_True].
  - intros cs id u d [= <-] [[= -> -> ->]|[[=]|[]%elem_of_nil]%elem_of_cons]%elem_of_cons.
    split; [|done]. by rewrite insert_live, decide_False.
  - intros cs id [= <-] Hs Hno. rewrite insert_live. case_decide as Hid.
    + subst id. rewrite next_id_dead in Hs. by destruct Hs.
    + eapply Hframe; [done | done |]. intros u d [Hu|[]%elem_of_nil]%elem_of_cons.
      apply (Hno u d). rewrite Hu. apply list_elem_of_here.
Qed.

Lemma sample_execute_effects (a : Z) (gas : ObjectRef) (pt : sample_pt) w :
  pt = PCreate \/ (exists ids, pt = PUpdate ids) -> accepted w a (touched pt gas.1.1) = true ->
  effects_ok (pt : @ProgrammableTransaction sample_types) gas (node_live w a)
    (objects_live (node_effects a gas pt w).1 a) (node_effects a gas pt w).2.
Proof.
  intros [->|[ids ->]] Hacc; [by apply sample_create_effects|].
  apply sample_touch_effects; [done | set_solver | by intros ?%sample_create_pt].
Qed.

Definition node_ledger (w : Node) (a : Z) : Ledger :=
  mkLedger (node_live w a : ObjectID -> option (Z * ObjectDigest))
    (fun gas => (fun '(m, pt, resp) => (objects_live m a, pt, resp)) <$> node_spent w a gas).

Lemma sample_handled (a : Z) (gas : ObjectRef) (pt : sample_pt) w :
  pt = PCreate \/ (exists ids, pt = PUpdate ids) ->
  handled (pt : @ProgrammableTransaction sample_types) gas (node_ledger w a)
    (node_ledger (node_execute (a, gas, pt) w).1 a) (node_execute (a, gas, pt) w).2.
Proof.
  intros Hpt. unfold node_execute. destruct (gas_current w a gas && _ && _) eqn:E.
  - apply andb_true_iff in E as [[Hcur Hle%Z.leb_le]%andb_true_iff Hacc].
    apply bool_decide_eq_true in Hcur. pose proof (sample_execute_effects a gas pt w Hpt Hacc) as He.
    destruct (ef_gas _ _ _ _ _ He) as (v & d & Hr & Hg).
    assert (v = node_clock w + 1) as ->.
    { revert Hr. by destruct Hpt as [->|[ids ->]]; cbn; intros [= <- <-]. }
    destruct (node_effects a gas pt w) as [m resp]. cbn [fst snd] in *.
    apply (handled_executed _ _ _ _ resp); [exact Hcur | exact He | | destruct (_ =? _); eauto].
    unfold node_ledger, node_spent. cbn [spent].
    replace (gas_current _ a gas) with false; [cbn [node_executed find_execution]; by rewrite decide_True|].
    symmetry. apply bool_decide_eq_false_2. change (objects_live m a gas.1.1 <> Some (gas.1.2, gas.2)).
    rewrite Hg. intros [= Hv _]. lia.
  - cbn [fst snd]. destruct (node_spent w a gas) as [[[m pt'] resp]|] eqn:Es; [|exact (@handled_refused sample_types _ _ _ _ _ tt eq_refl)].
    destruct (decide (pt' = pt)) as [->|]; [|exact (@handled_refused sample_types _ _ _ _ _ tt eq_refl)].
    eapply (@handled_again sample_types); [done|]. cbn. by rewrite Es.
Qed.

#[global] Instance sample_laws : SuiLaws.
Proof.
  refine (Build_SuiLaws _ _ node_ledger _ _ _ _ _ _ _ _ _ _ _).
  - intros d w a Hd. cbn. split; [lia | done].
  - intros n w a Hn. cbn. split; [by apply Z.mod_pos_bound | split; [lia | done]].
  - intros w a. cbn. split_and!; done || lia.
  - intros w a. cbn. split; done || lia.
  - intros w a. cbn. split; done || lia.
  - intros s _. cbn. eauto.
  - intros n b. cbn. eauto.
  - done.
  - intros [[a g] pt] w. cbn. unfold node_execute. destruct (_ && _ && _); [|cbn; lia].
    destruct (node_effects a g pt w). cbn. lia.
  - intros a gas pt budget rgp kp w Hpt. apply sample_handled.
    destruct Hpt as [->%sample_create_pt|(ids & ->)%sample_update_pt]; eauto.
  - intros w a gas x. cbn. unfold node_spent. destruct (gas_current w a gas) eqn:E; [done|].
    by apply bool_decide_eq_false in E.
Defined.

(** Worker 0 of address 7 holds the coin 100. *)
Definition sample_package : @ObjectID sample_types := 1.
Definition sample_worker : WorkerState := mkWorkerState 0 7 42 (100, 0, 0) [].
Definition sample_node : Node := mkNode 0 {[ 100 := (7, 0) ]} [].
Definition sample_bench : Bench := mkBench (sample_node : World) sample_worker BenchStats_new [].
Definition sample_args : Args :=
  mkArgs "http://127.0.0.1:9000" "0x1" 0 1 2 0 1 50 3 5000 (S754_zero false) (S754_zero false) (S754_zero false)
    500 30 false None None None None.

Lemma sample_rate_limit_ok : rate_limit_ok sample_args.
Proof. intros Hpos. cbn in Hpos. lia. Qed.

Lemma sample_sync : sync sample_bench.
Proof. apply fresh_worker_sync; done. Qed.

Definition sample_seeded : Bench := (create_seed_objects sample_package 250 500 sample_bench).1.

Lemma sample_seeded_sync : sync sample_seeded.
Proof.
  destruct (wp_seed_loop 251 sample_package 250 500 sample_bench) as (_ & _ & _ & Hs).
  apply in_step_current; [apply Hs; left; exact sample_sync | vm_compute; done].
Qed.

(** Three batches of a hundred create three objects of this node. *)
Lemma sample_seeded_objects : to_id <$> ws_objects (b_worker sample_seeded) = [101; 102; 103].
Proof. vm_compute. done. Qed.

Lemma worker_stops_witness :
  exists b', run_worker 100 sample_package sample_args 6 1000 sample_seeded = (b', Ok true) /\ 6 <= now (b_world b').
Proof.
  destruct (worker_stops 100 sample_package sample_args 6 1000 sample_seeded) as (b' & He & Hs).
  - exact sample_rate_limit_ok.
  - vm_compute. discriminate.
  - exists b'. split; [exact He|]. destruct Hs as [Hs|Hs]; [discriminate Hs | exact Hs].
Defined.

(** At time 5 the worker has missed the report of one transaction. *)
Lemma tracked_objects_in_sync_witness :
  sync sample_seeded /\ one_behind (run_worker 100 sample_package sample_args 5 1000 sample_seeded).1.
Proof.
  pose proof (tracked_objects_in_sync 250 100 sample_package sample_args 5 1000 sample_bench sample_rate_limit_ok
    (or_introl sample_sync)) as Ht.
  split.
  - apply (Ht _ (or_introl eq_refl)). vm_compute. reflexivity.
  - destruct (Ht _ (or_intror eq_refl)) as [[Hs|Hb] Hgas]; [|exact Hb].
    apply Hgas in Hs. vm_compute in Hs. discriminate Hs.
Defined.

Lemma update_targets_witness :
  exists targets : list TrackedObject, zlength targets = 2 /\ NoDup (to_id <$> targets).
Proof.
  destruct (update_targets "increment_simple" sample_package 2 2 sample_seeded) as (targets & _ & Hl & Hnd & _).
  - exact sample_seeded_sync.
  - intros Hnil. pose proof sample_seeded_objects as Ho. rewrite Hnil in Ho. discriminate Ho.
  - lia.
  - exists targets. split; [|exact Hnd]. rewrite Hl.
    rewrite <- (length_fmap to_id), sample_seeded_objects. reflexivity.
Defined.

(** The first transaction succeeds, the second is counted as failed. *)
Definition sample_log : list stat_op :=
  [(TxSubmitted, 1); (TxSuccess, 1); (ObjectsCreated, 1); (ObjectsUpdated, 0); (TxSubmitted, 1); (TxFailed, 1)].

Lemma sample_worker_run : exists b',
  run_worker 100 sample_package sample_args 5 1000 sample_seeded = (b', Ok true) /\
  b_trace b' = b_trace sample_seeded ++ sample_log.
Proof.
  set (p := run_worker 100 sample_package sample_args 5 1000 sample_seeded).
  assert (p.2 = Ok true /\ b_trace p.1 = b_trace sample_seeded ++ sample_log) as [Hr Ht] by (vm_compute; done).
  exists p.1. split; [rewrite <- Hr; by destruct p | exact Ht].
Qed.

Lemma stats_add_up_witness :
  let ops := zip_with (fun a b => [a; b]) sample_log sample_log in
  let s := apply_ops (concat ops) BenchStats_new in tx_submitted s = wrap64 (tx_success s + tx_failed s).
Proof.
  destruct sample_worker_run as (b' & He & Ht).
  destruct (proj1 stats_add_up _ _ _ _ _ _ _ sample_rate_limit_ok He) as (log & Hrun & Ht' & _).
  assert (log = sample_log) as -> by (rewrite Ht in Ht'; symmetry; exact (app_inv_head _ _ _ Ht')).
  apply (proj2 stats_add_up [sample_log; sample_log]).
  - repeat constructor; exists sample_package, sample_args, 5, 1000, sample_seeded;
      (split; [exact sample_rate_limit_ok | exact Hrun]).
  - do 6 (eapply (interleave_step _ 0%nat); [reflexivity|]; eapply (interleave_step _ 1%nat); [reflexivity|]).
    apply interleave_done. repeat constructor.
Defined.

(** ** Saving and loading

    A text of bits stands for the encodings of keys and of the file. *)

Fixpoint bits_of (p : positive) : string :=
  match p with
  | xH => EmptyString
  | xO p => String "0"%char (bits_of p)
  | xI p => String "1"%char (bits_of p)
  end.
Fixpoint of_bits (s : string) : positive :=
  match s with
  | EmptyString => xH
  | String c s => if decide (c = "1"%char) then xI (of_bits s) else xO (of_bits s)
  end.

Lemma of_bits_of p : of_bits (bits_of p) = p.
Proof. by induction p as [p IH|p IH|]; cbn; rewrite ?IH. Qed.

Definition text_of {A} `{Countable A} (a : A) : string := bits_of (encode a).
Definition of_text {A} `{Countable A} (s : string) : outcome unit A :=
  match decode (of_bits s) with Some a => Ok a | None => Err tt end.

Lemma of_text_of {A} `{Countable A} (a : A) : of_text (text_of a) = Ok a.
Proof. unfold of_text, text_of. by rewrite of_bits_of, decode_encode. Qed.

Definition tuple_of (st : SavedBenchmarkState) : Z * list (Z * Z * string * list (Z * Z * Z)) :=
  (sb_total_objects st,
   (fun sw => (sw_worker_id sw, sw_address sw, sw_keypair_base64 sw,
      (fun o => (to_id o, to_version o, to_digest o)) <$> sw_objects sw)) <$> sb_workers st).
Definition of_tuple (t : Z * list (Z * Z * string * list (Z * Z * Z))) : SavedBenchmarkState :=
  mkSavedBenchmarkState t.1
    ((fun '(i, a, k, os) => mkSavedWorkerObjects i (a : SuiAddress) k
        ((fun '(x, v, d) => mkTrackedObject (x : ObjectID) v (d : ObjectDigest)) <$> os)) <$> t.2).

Lemma of_tuple_of st : of_tuple (tuple_of st) = st.
Proof.
  destruct st as [n sws]. unfold of_tuple, tuple_of. cbn. f_equal. rewrite <- list_fmap_compose.
  rewrite <- (list_fmap_id sws) at 2. apply list_fmap_ext. intros i [w a k os] _. cbn. f_equal.
  rewrite <- list_fmap_compose. rewrite <- (list_fmap_id os) at 2. apply list_fmap_ext. by intros j [] _.
Qed.

#[global] Instance sample_encoding : SuiEncoding := {|
  encode_base64 k := text_of (k : Z);
  decode_base64 s := of_text (A := Z) s;
  to_json st := Ok (text_of (tuple_of st));
  from_json s := t ←? of_text s; Ok (of_tuple t)
|}.

Lemma sample_key_roundtrip (k : SuiKeyPair) : decode_base64 (encode_base64 k) = Ok k.
Proof. apply (of_text_of (k : Z)). Qed.

Lemma sample_json_roundtrip (st : SavedBenchmarkState) s : to_json st = Ok s -> from_json s = Ok st.
Proof.
  cbn. intros [= <-]. rewrite of_text_of. cbn [obind]. by rewrite of_tuple_of.
Qed.

Lemma sample_answers_asked : answers_asked.
Proof.
  intros ids w w' resp [= _ <-]. induction ids as [|id ids IH]; [done|]. cbn in *.
  unfold node_data at 1. destruct (node_objects w !! id) as [[o v]|]; cbn; by constructor.
Qed.

Definition sample_saved : list WorkerState := [b_worker sample_seeded].
Definition sample_file : string :=
  text_of (tuple_of (mkSavedBenchmarkState 3 (save_worker <$> sample_saved))).

Lemma sample_load_Ok : exists w' states, load_workers sample_file (b_world sample_seeded) = (w', Ok states).
Proof.
  destruct (load_workers sample_file (b_world sample_seeded)) as [w' r] eqn:E.
  assert (match r with Ok _ => true | _ => false end = true) as Hr.
  { change r with (w', r).2. rewrite <- E. vm_compute. done. }
  destruct r as [states|e|]; [eauto | done | done].
Qed.

Lemma load_restores_saved_witness :
  exists w' states, load_workers sample_file (b_world sample_seeded) = (w', Ok states) /\
    Forall2 same_worker sample_saved states.
Proof.
  destruct sample_load_Ok as (w' & states & Hl). exists w', states. split; [exact Hl|].
  apply (load_restores_saved sample_saved sample_file (b_world sample_seeded) w' states).
  - exact sample_key_roundtrip.
  - exact sample_json_roundtrip.
  - exact sample_answers_asked.
  - unfold save_benchmark_state. reflexivity.
  - exact Hl.
Defined.
