(* ===== verification/ForkChoice.v ===== *)
(** * Solana fork choice

    [fdp-solana/core/src/consensus/heaviest_subtree_fork_choice.rs] and
    [tree_diff.rs]: the tree of blocks of a validator, the stake voted for each
    subtree, and the block it builds on.  A block is named by its slot and bank
    hash; a hash is the number its bytes spell, most significant first, whose
    order is the order of the bytes.  [BTreeMap] and [BTreeSet] are lists
    sorted by key.  The functions return no errors; a failed [expect], [unwrap]
    or [assert!] is a [Panic].  Stakes are [u64] and wrap around. *)

From S2P Require Import Prelude AuthorizedVoters EpochSchedule.

Definition SlotHashKey : Type := Z * Z.

(** [SlotHashKey::default()] *)
Definition key_default : SlotHashKey := (0, 0).

(** [a.cmp(&b)] *)
Definition key_compare (a b : SlotHashKey) : comparison :=
  match Z.compare a.1 b.1 with Eq => Z.compare a.2 b.2 | c => c end.
Definition key_ltb (a b : SlotHashKey) : bool :=
  match key_compare a b with Lt => true | _ => false end.

(** ** Sorted containers *)
Fixpoint set_insert (k : SlotHashKey) (l : list SlotHashKey) : list SlotHashKey :=
  match l with
  | [] => [k]
  | x :: l' =>
      match key_compare k x with
      | Lt => k :: l
      | Eq => l
      | Gt => x :: set_insert k l'
      end
  end.
Definition set_remove (k : SlotHashKey) (l : list SlotHashKey) : list SlotHashKey :=
  filter (fun x => x <> k) l.

(** ** Update operations *)
Inductive UpdateLabel : Set :=
| LAggregate
| LAdd
| LMarkValid (slot : Z)
| LMarkInvalid (slot : Z)
| LSubtract.

#[global] Instance UpdateLabel_eq_dec : EqDecision UpdateLabel.
Proof. solve_decision. Defined.

Inductive UpdateOperation : Set :=
| Add (stake : Z)
| MarkValid (slot : Z)
| MarkInvalid (slot : Z)
| Subtract (stake : Z)
| Aggregate.

(** The derived order: by variant, then by slot. *)
Definition label_rank (l : UpdateLabel) : Z * Z :=
  match l with
  | LAggregate => (0, 0)
  | LAdd => (1, 0)
  | LMarkValid s => (2, s)
  | LMarkInvalid s => (3, s)
  | LSubtract => (4, 0)
  end.

Definition OpKey : Type := SlotHashKey * UpdateLabel.
Definition opkey_compare (a b : OpKey) : comparison :=
  match key_compare a.1 b.1 with
  | Eq => key_compare (label_rank a.2) (label_rank b.2)
  | c => c
  end.

Definition UpdateOperations : Type := list (OpKey * UpdateOperation).

Fixpoint ops_lookup (k : OpKey) (ops : UpdateOperations) : option UpdateOperation :=
  match ops with
  | [] => None
  | (k', op) :: ops =>
      match opkey_compare k k' with
      | Lt => None
      | Eq => Some op
      | Gt => ops_lookup k ops
      end
  end.
Definition ops_contains (k : OpKey) (ops : UpdateOperations) : bool := bool_decide (is_Some (ops_lookup k ops)).

(** [ops.insert(k, op)] *)
Fixpoint ops_insert (k : OpKey) (op : UpdateOperation) (ops : UpdateOperations) : UpdateOperations :=
  match ops with
  | [] => [(k, op)]
  | (k', op') :: ops' =>
      match opkey_compare k k' with
      | Lt => (k, op) :: ops
      | Eq => (k, op) :: ops'
      | Gt => (k', op') :: ops_insert k op ops'
      end
  end.

Definition fc (A : Type) : Type := outcome Empty_set A.

Definition update_stake (op : UpdateOperation) (new_stake : Z) : fc UpdateOperation :=
  match op with
  | Add stake => Ok (Add (wrap64 (stake + new_stake)))
  | Subtract stake => Ok (Subtract (wrap64 (stake + new_stake)))
  | _ => Panic
  end.

(** [ops.entry(k).and_modify(|u| u.update_stake(s)).or_insert(op)] *)
Definition ops_entry_stake (k : OpKey) (s : Z) (op : UpdateOperation) (ops : UpdateOperations) : fc UpdateOperations :=
  match ops_lookup k ops with
  | Some u => u ←? update_stake u s; Ok (ops_insert k u ops)
  | None => Ok (ops_insert k op ops)
  end.

(** ** The tree *)
Record ForkInfo := mkForkInfo {
  stake_voted_at : Z;
  stake_voted_subtree : Z;
  height : Z;
  best_slot : SlotHashKey;
  deepest_slot : SlotHashKey;
  fi_parent : option SlotHashKey;
  children : list SlotHashKey;
  latest_invalid_ancestor : option Z;
  is_duplicate_confirmed : bool
}.

Definition is_unconfirmed_duplicate (f : ForkInfo) (my_slot : Z) : bool :=
  match latest_invalid_ancestor f with Some a => a =? my_slot | None => false end.
Definition is_candidate (f : ForkInfo) : bool := bool_decide (latest_invalid_ancestor f = None).

Definition set_parent (p : option SlotHashKey) (f : ForkInfo) : ForkInfo :=
  mkForkInfo (stake_voted_at f) (stake_voted_subtree f) (height f) (best_slot f) (deepest_slot f)
    p (children f) (latest_invalid_ancestor f) (is_duplicate_confirmed f).
Definition set_children (cs : list SlotHashKey) (f : ForkInfo) : ForkInfo :=
  mkForkInfo (stake_voted_at f) (stake_voted_subtree f) (height f) (best_slot f) (deepest_slot f)
    (fi_parent f) cs (latest_invalid_ancestor f) (is_duplicate_confirmed f).
Definition set_best_slot (k : SlotHashKey) (f : ForkInfo) : ForkInfo :=
  mkForkInfo (stake_voted_at f) (stake_voted_subtree f) (height f) k (deepest_slot f)
    (fi_parent f) (children f) (latest_invalid_ancestor f) (is_duplicate_confirmed f).
Definition set_deepest (k : SlotHashKey) (h : Z) (f : ForkInfo) : ForkInfo :=
  mkForkInfo (stake_voted_at f) (stake_voted_subtree f) h (best_slot f) k
    (fi_parent f) (children f) (latest_invalid_ancestor f) (is_duplicate_confirmed f).
Definition set_stakes (at_ subtree : Z) (f : ForkInfo) : ForkInfo :=
  mkForkInfo at_ subtree (height f) (best_slot f) (deepest_slot f)
    (fi_parent f) (children f) (latest_invalid_ancestor f) (is_duplicate_confirmed f).
Definition set_validity (a : option Z) (d : bool) (f : ForkInfo) : ForkInfo :=
  mkForkInfo (stake_voted_at f) (stake_voted_subtree f) (height f) (best_slot f) (deepest_slot f)
    (fi_parent f) (children f) a d.

Definition set_duplicate_confirmed (f : ForkInfo) : ForkInfo := set_validity None true f.

Definition update_with_newly_valid_ancestor (newly_valid_ancestor : Z) (f : ForkInfo) : ForkInfo :=
  match latest_invalid_ancestor f with
  | Some a => if a <=? newly_valid_ancestor then set_validity None (is_duplicate_confirmed f) f else f
  | None => f
  end.

Definition update_with_newly_invalid_ancestor (newly_invalid_ancestor : Z) (f : ForkInfo) : fc ForkInfo :=
  _ ←? rust_assert (negb (is_duplicate_confirmed f));
  Ok (if match latest_invalid_ancestor f with Some a => a <? newly_invalid_ancestor | None => true end
      then set_validity (Some newly_invalid_ancestor) (is_duplicate_confirmed f) f else f).

Record HeaviestSubtreeForkChoice := mkForkChoice {
  fork_infos : gmap SlotHashKey ForkInfo;
  latest_votes : gmap Pubkey SlotHashKey;
  tree_root : SlotHashKey
}.

Definition set_infos (m : gmap SlotHashKey ForkInfo) (t : HeaviestSubtreeForkChoice) : HeaviestSubtreeForkChoice :=
  mkForkChoice m (latest_votes t) (tree_root t).
Definition set_votes_map (v : gmap Pubkey SlotHashKey) (t : HeaviestSubtreeForkChoice) : HeaviestSubtreeForkChoice :=
  mkForkChoice (fork_infos t) v (tree_root t).

(** [self.fork_infos.get_mut(&k)] on an entry that must exist *)
Definition modify_info (k : SlotHashKey) (f : ForkInfo -> ForkInfo) (t : HeaviestSubtreeForkChoice)
    : fc HeaviestSubtreeForkChoice :=
  fi ←? expect (fork_infos t !! k);
  Ok (set_infos (<[k := f fi]> (fork_infos t)) t).

(** ** Queries *)
Definition contains_block (t : HeaviestSubtreeForkChoice) (k : SlotHashKey) : bool :=
  bool_decide (is_Some (fork_infos t !! k)).
Definition get_best_slot (t : HeaviestSubtreeForkChoice) (k : SlotHashKey) : option SlotHashKey :=
  best_slot <$> fork_infos t !! k.
Definition get_deepest_slot (t : HeaviestSubtreeForkChoice) (k : SlotHashKey) : option SlotHashKey :=
  deepest_slot <$> fork_infos t !! k.
Definition best_overall_slot (t : HeaviestSubtreeForkChoice) : fc SlotHashKey :=
  expect (get_best_slot t (tree_root t)).
Definition deepest_overall_slot (t : HeaviestSubtreeForkChoice) : fc SlotHashKey :=
  expect (get_deepest_slot t (tree_root t)).
Definition get_stake_voted_subtree (t : HeaviestSubtreeForkChoice) (k : SlotHashKey) : option Z :=
  stake_voted_subtree <$> fork_infos t !! k.
Definition get_stake_voted_at (t : HeaviestSubtreeForkChoice) (k : SlotHashKey) : option Z :=
  stake_voted_at <$> fork_infos t !! k.
Definition get_height (t : HeaviestSubtreeForkChoice) (k : SlotHashKey) : option Z :=
  height <$> fork_infos t !! k.
Definition get_children (t : HeaviestSubtreeForkChoice) (k : SlotHashKey) : option (list SlotHashKey) :=
  children <$> fork_infos t !! k.
Definition get_parent (t : HeaviestSubtreeForkChoice) (k : SlotHashKey) : option SlotHashKey :=
  fork_infos t !! k ≫= fi_parent.
Definition get_latest_invalid_ancestor (t : HeaviestSubtreeForkChoice) (k : SlotHashKey) : option Z :=
  fork_infos t !! k ≫= latest_invalid_ancestor.
Definition get_is_candidate (t : HeaviestSubtreeForkChoice) (k : SlotHashKey) : option bool :=
  is_candidate <$> fork_infos t !! k.
Definition get_is_duplicate_confirmed (t : HeaviestSubtreeForkChoice) (k : SlotHashKey) : option bool :=
  is_duplicate_confirmed <$> fork_infos t !! k.
Definition get_is_unconfirmed_duplicate (t : HeaviestSubtreeForkChoice) (k : SlotHashKey) : option bool :=
  (fun f => is_unconfirmed_duplicate f k.1) <$> fork_infos t !! k.

Definition max_by_weight (t : HeaviestSubtreeForkChoice) (slot1 slot2 : SlotHashKey) : fc comparison :=
  weight1 ←? expect (get_stake_voted_subtree t slot1);
  weight2 ←? expect (get_stake_voted_subtree t slot2);
  Ok (if weight1 =? weight2 then CompOpp (key_compare slot1 slot2) else Z.compare weight1 weight2).

(** The ancestors of a block, nearest first; the number of blocks is fuel
    enough. *)
Fixpoint ancestors_fuel (fuel : nat) (infos : gmap SlotHashKey ForkInfo) (k : SlotHashKey) : list SlotHashKey :=
  match fuel with
  | O => []
  | S fuel =>
      match infos !! k ≫= fi_parent with
      | Some p => p :: ancestors_fuel fuel infos p
      | None => []
      end
  end.
Definition ancestor_iterator (t : HeaviestSubtreeForkChoice) (k : SlotHashKey) : list SlotHashKey :=
  ancestors_fuel (S (size (fork_infos t))) (fork_infos t) k.

Definition is_strict_ancestor (t : HeaviestSubtreeForkChoice) (maybe_ancestor_key node_key : SlotHashKey) : bool :=
  if bool_decide (maybe_ancestor_key = node_key) then false
  else if node_key.1 <? maybe_ancestor_key.1 then false
  else existsb (fun a => (a.1 =? maybe_ancestor_key.1) && (a.2 =? maybe_ancestor_key.2)) (ancestor_iterator t node_key).

(** ** Walking down the tree: [TreeDiff::subtree_diff] *)

(** The head of [pending] is the top of the stack; each block is on it at
    most once, so their number is fuel enough. *)
Fixpoint subtree_loop (fuel : nat) (infos : gmap SlotHashKey ForkInfo) (root2 : SlotHashKey)
    (pending reachable : list SlotHashKey) : fc (list SlotHashKey) :=
  match fuel with
  | O => Panic
  | S fuel =>
      match pending with
      | [] => Ok reachable
      | current :: pending =>
          if bool_decide (current = root2) then subtree_loop fuel infos root2 pending reachable
          else
            f ←? expect (infos !! current);
            subtree_loop fuel infos root2 (reverse (children f) ++ pending) (reachable ++ [current])
      end
  end.
Definition subtree_diff (t : HeaviestSubtreeForkChoice) (root1 root2 : SlotHashKey) : fc (list SlotHashKey) :=
  if contains_block t root1
  then subtree_loop (S (size (fork_infos t))) (fork_infos t) root2 [root1] []
  else Ok [].

(** ** Aggregation *)

(** The local variables of the loop of [aggregate_slot]. *)
Record AggregateVars := mkAggregateVars {
  av_stake_voted_subtree : Z;
  av_is_duplicate_confirmed : bool;
  av_best_child_stake : Z;
  av_best_child_key : SlotHashKey;
  av_best_slot : SlotHashKey;
  av_deepest_child_height : Z;
  av_deepest_child_stake : Z;
  av_deepest_child_key : SlotHashKey;
  av_deepest_slot : SlotHashKey
}.

Definition aggregate_child (infos : gmap SlotHashKey ForkInfo) (k : SlotHashKey) (v : AggregateVars)
    (child_key : SlotHashKey) : fc AggregateVars :=
  child ←? expect (infos !! child_key);
  let child_stake := stake_voted_subtree child in
  let child_height := height child in
  let better :=
    is_candidate child
    && (bool_decide (av_best_child_key v = k)
        || (av_best_child_stake v <? child_stake)
        || (child_stake =? av_best_child_stake v) && key_ltb child_key (av_best_child_key v)) in
  let deeper :=
    bool_decide (av_deepest_child_key v = k)
    || match Z.compare child_height (av_deepest_child_height v),
             Z.compare child_stake (av_deepest_child_stake v),
             key_compare child_key (av_deepest_child_key v) with
       | Gt, _, _ => true
       | Eq, Gt, _ => true
       | Eq, Eq, Lt => true
       | _, _, _ => false
       end in
  Ok (mkAggregateVars
        (wrap64 (av_stake_voted_subtree v + child_stake))
        (av_is_duplicate_confirmed v || is_duplicate_confirmed child)
        (if better then child_stake else av_best_child_stake v)
        (if better then child_key else av_best_child_key v)
        (if better then best_slot child else av_best_slot v)
        (if deeper then child_height else av_deepest_child_height v)
        (if deeper then child_stake else av_deepest_child_stake v)
        (if deeper then child_key else av_deepest_child_key v)
        (if deeper then deepest_slot child else av_deepest_slot v)).

Fixpoint aggregate_children (infos : gmap SlotHashKey ForkInfo) (k : SlotHashKey) (v : AggregateVars)
    (cs : list SlotHashKey) : fc AggregateVars :=
  match cs with
  | [] => Ok v
  | c :: cs => v ←? aggregate_child infos k v c; aggregate_children infos k v cs
  end.

Definition aggregate_start (k : SlotHashKey) (f : ForkInfo) : AggregateVars :=
  mkAggregateVars (stake_voted_at f) false 0 k k 0 0 k k.

(** The last block of [aggregate_slot]. *)
Definition aggregate_finish (v : AggregateVars) (f : ForkInfo) : ForkInfo :=
  let f := if av_is_duplicate_confirmed v then set_duplicate_confirmed f else f in
  mkForkInfo (stake_voted_at f) (av_stake_voted_subtree v) (av_deepest_child_height v + 1)
    (av_best_slot v) (av_deepest_slot v) (fi_parent f) (children f)
    (latest_invalid_ancestor f) (is_duplicate_confirmed f).

Definition aggregate_slot (k : SlotHashKey) (t : HeaviestSubtreeForkChoice) : fc HeaviestSubtreeForkChoice :=
  match fork_infos t !! k with
  | None => Ok t
  | Some f =>
      v ←? aggregate_children (fork_infos t) k (aggregate_start k f) (children f);
      Ok (set_infos (<[k := aggregate_finish v f]> (fork_infos t)) t)
  end.

Definition mark_fork_valid (k : SlotHashKey) (valid_slot : Z) (t : HeaviestSubtreeForkChoice)
    : fc HeaviestSubtreeForkChoice :=
  match fork_infos t !! k with
  | None => Ok t
  | Some f =>
      let f := update_with_newly_valid_ancestor valid_slot f in
      let f := if k.1 =? valid_slot then set_validity (latest_invalid_ancestor f) true f else f in
      Ok (set_infos (<[k := f]> (fork_infos t)) t)
  end.

Definition mark_fork_invalid (k : SlotHashKey) (invalid_slot : Z) (t : HeaviestSubtreeForkChoice)
    : fc HeaviestSubtreeForkChoice :=
  match fork_infos t !! k with
  | None => Ok t
  | Some f =>
      f ←? update_with_newly_invalid_ancestor invalid_slot f;
      Ok (set_infos (<[k := f]> (fork_infos t)) t)
  end.

Definition add_slot_stake (k : SlotHashKey) (stake : Z) (t : HeaviestSubtreeForkChoice) : HeaviestSubtreeForkChoice :=
  match fork_infos t !! k with
  | None => t
  | Some f =>
      set_infos (<[k := set_stakes (wrap64 (stake_voted_at f + stake))
                          (wrap64 (stake_voted_subtree f + stake)) f]> (fork_infos t)) t
  end.
Definition subtract_slot_stake (k : SlotHashKey) (stake : Z) (t : HeaviestSubtreeForkChoice)
    : HeaviestSubtreeForkChoice :=
  match fork_infos t !! k with
  | None => t
  | Some f =>
      set_infos (<[k := set_stakes (wrap64 (stake_voted_at f - stake))
                          (wrap64 (stake_voted_subtree f - stake)) f]> (fork_infos t)) t
  end.

Definition process_update_operation (k : SlotHashKey) (op : UpdateOperation) (t : HeaviestSubtreeForkChoice)
    : fc HeaviestSubtreeForkChoice :=
  match op with
  | MarkValid s => mark_fork_valid k s t
  | MarkInvalid s => mark_fork_invalid k s t
  | Aggregate => aggregate_slot k t
  | Add s => Ok (add_slot_stake k s t)
  | Subtract s => Ok (subtract_slot_stake k s t)
  end.

Fixpoint process_operations (ops : UpdateOperations) (t : HeaviestSubtreeForkChoice) : fc HeaviestSubtreeForkChoice :=
  match ops with
  | [] => Ok t
  | ((k, _), op) :: ops => t ←? process_update_operation k op t; process_operations ops t
  end.
(** From the greatest key to the smallest. *)
Definition process_update_operations (ops : UpdateOperations) (t : HeaviestSubtreeForkChoice)
    : fc HeaviestSubtreeForkChoice := process_operations (rev ops) t.

(** ** Collecting the operations *)
Definition do_insert_aggregate_operation (ops : UpdateOperations) (modify_fork_validity : option UpdateOperation)
    (k : SlotHashKey) : UpdateOperations * bool :=
  if ops_contains (k, LAggregate) ops then (ops, false)
  else
    let ops :=
      match modify_fork_validity with
      | Some (MarkValid s) => ops_insert (k, LMarkValid s) (MarkValid s) ops
      | Some (MarkInvalid s) => ops_insert (k, LMarkInvalid s) (MarkInvalid s) ops
      | _ => ops
      end in
    (ops_insert (k, LAggregate) Aggregate ops, true).

Fixpoint insert_across (ops : UpdateOperations) (modify_fork_validity : option UpdateOperation)
    (ks : list SlotHashKey) : UpdateOperations :=
  match ks with
  | [] => ops
  | k :: ks =>
      let '(ops, inserted) := do_insert_aggregate_operation ops modify_fork_validity k in
      if inserted then insert_across ops modify_fork_validity ks else ops
  end.
Definition do_insert_aggregate_operations_across_ancestors (t : HeaviestSubtreeForkChoice) (ops : UpdateOperations)
    (modify_fork_validity : option UpdateOperation) (k : SlotHashKey) : UpdateOperations :=
  insert_across ops modify_fork_validity (ancestor_iterator t k).
Definition insert_aggregate_operations (t : HeaviestSubtreeForkChoice) (ops : UpdateOperations) (k : SlotHashKey)
    : UpdateOperations := do_insert_aggregate_operations_across_ancestors t ops None k.
