(* ===== verification/ForkChoiceOps.v ===== *)
(** * The operations of the fork choice

    The methods of [HeaviestSubtreeForkChoice] that change the tree: votes, new
    leaves, duplicate marks, new roots, splits and merges
    ([fdp-solana/core/src/consensus/heaviest_subtree_fork_choice.rs]).  The
    time of the last root is only used for logging and is left out.  A loop
    with fuel panics when it runs out of it, so a result of [Ok] shows that the
    loop ended. *)

From S2P Require Import Prelude AuthorizedVoters EpochSchedule ForkChoice.

(** ** Votes *)

(** [EpochStakes], as far as it is read here: the delegated stake of each vote
    account. *)
Definition EpochStakes : Type := gmap Pubkey Z.
Definition vote_account_stake (es : EpochStakes) (pubkey : Pubkey) : Z := default 0 (es !! pubkey).

Section Votes.
Context (epoch_stakes : gmap Epoch EpochStakes) (epoch_schedule : EpochSchedule).

Definition vote_stake (pubkey : Pubkey) (slot : Z) : Z :=
  match epoch_stakes !! get_epoch epoch_schedule slot with
  | Some es => vote_account_stake es pubkey
  | None => 0
  end.

(** Whether the vote replaces the latest one of its voter: a greater slot, or
    the same slot and a smaller hash. *)
Definition vote_supersedes (new_vote : SlotHashKey) (latest : option SlotHashKey) : bool :=
  match latest with
  | Some (slot, hash) => negb ((new_vote.1 <? slot) || (new_vote.1 =? slot) && (hash <=? new_vote.2))
  | None => true
  end.

(** Takes the stake of the voter from the block of its previous vote. *)
Definition remove_old_vote (t : HeaviestSubtreeForkChoice) (ops : UpdateOperations) (pubkey : Pubkey)
    (new_vote : SlotHashKey) (old : option SlotHashKey) : fc UpdateOperations :=
  match old with
  | None => Ok ops
  | Some old =>
      _ ←? rust_assert (if new_vote.1 =? old.1 then new_vote.2 <? old.2 else old.1 <? new_vote.1);
      let stake_update := vote_stake pubkey old.1 in
      if 0 <? stake_update then
        ops ←? ops_entry_stake (old, LSubtract) stake_update (Subtract stake_update) ops;
        Ok (insert_aggregate_operations t ops old)
      else Ok ops
  end.

(** The loop of [generate_update_operations]. *)
Fixpoint generate_loop (pubkey_votes : list (Pubkey * SlotHashKey)) (t : HeaviestSubtreeForkChoice)
    (ops : UpdateOperations) (observed : gset Pubkey) : fc (HeaviestSubtreeForkChoice * UpdateOperations) :=
  match pubkey_votes with
  | [] => Ok (t, ops)
  | (pubkey, new_vote) :: rest =>
      if new_vote.1 <? (tree_root t).1 then generate_loop rest t ops observed
      else
        _ ←? rust_assert (bool_decide (pubkey ∉ observed));
        let observed := {[pubkey]} ∪ observed in
        let old := latest_votes t !! pubkey in
        if vote_supersedes new_vote old then
          let t := set_votes_map (<[pubkey := new_vote]> (latest_votes t)) t in
          ops ←? remove_old_vote t ops pubkey new_vote old;
          let stake_update := vote_stake pubkey new_vote.1 in
          ops ←? ops_entry_stake (new_vote, LAdd) stake_update (Add stake_update) ops;
          generate_loop rest t (insert_aggregate_operations t ops new_vote) observed
        else generate_loop rest t ops observed
  end.
Definition generate_update_operations (pubkey_votes : list (Pubkey * SlotHashKey)) (t : HeaviestSubtreeForkChoice)
    : fc (HeaviestSubtreeForkChoice * UpdateOperations) := generate_loop pubkey_votes t [] ∅.

Definition add_votes (pubkey_votes : list (Pubkey * SlotHashKey)) (t : HeaviestSubtreeForkChoice)
    : fc (HeaviestSubtreeForkChoice * SlotHashKey) :=
  '(t, ops) ←? generate_update_operations pubkey_votes t;
  t ←? process_update_operations ops t;
  best ←? best_overall_slot t;
  Ok (t, best).
End Votes.

(** ** New leaves *)
Fixpoint is_best_among (t : HeaviestSubtreeForkChoice) (weight : Z) (k : SlotHashKey) (cs : list SlotHashKey) : fc bool :=
  match cs with
  | [] => Ok true
  | child :: cs =>
      f ←? expect (fork_infos t !! child);
      if is_candidate f
         && ((weight <? stake_voted_subtree f) || (weight =? stake_voted_subtree f) && key_ltb child k)
      then Ok false else is_best_among t weight k cs
  end.
Definition is_best_child (t : HeaviestSubtreeForkChoice) (k : SlotHashKey) : fc bool :=
  weight ←? expect (get_stake_voted_subtree t k);
  match get_parent t k with
  | None => Ok true
  | Some p => cs ←? expect (get_children t p); is_best_among t weight k cs
  end.

Fixpoint is_deepest_among (t : HeaviestSubtreeForkChoice) (weight h : Z) (k : SlotHashKey) (cs : list SlotHashKey)
    : fc bool :=
  match cs with
  | [] => Ok true
  | child :: cs =>
      f ←? expect (fork_infos t !! child);
      match Z.compare (height f) h, Z.compare (stake_voted_subtree f) weight, key_compare child k with
      | Gt, _, _ => Ok false
      | Eq, Gt, _ => Ok false
      | Eq, Eq, Lt => Ok false
      | _, _, _ => is_deepest_among t weight h k cs
      end
  end.
Definition is_deepest_child (t : HeaviestSubtreeForkChoice) (k : SlotHashKey) : fc bool :=
  weight ←? expect (get_stake_voted_subtree t k);
  h ←? expect (get_height t k);
  match get_parent t k with
  | None => Ok true
  | Some p => cs ←? expect (get_children t p); is_deepest_among t weight h k cs
  end.

(** The two loops of [propagate_new_leaf]. *)
Fixpoint propagate_best (fuel : nat) (old_best new_best : SlotHashKey) (ancestor : option SlotHashKey)
    (t : HeaviestSubtreeForkChoice) : fc HeaviestSubtreeForkChoice :=
  match fuel with
  | O => Panic
  | S fuel =>
      match ancestor with
      | None => Ok t
      | Some a =>
          f ←? expect (fork_infos t !! a);
          if bool_decide (best_slot f = old_best)
          then propagate_best fuel old_best new_best (fi_parent f)
                 (set_infos (<[a := set_best_slot new_best f]> (fork_infos t)) t)
          else Ok t
      end
  end.
Fixpoint propagate_deepest (fuel : nat) (leaf current_child : SlotHashKey) (current_height : Z)
    (ancestor : option SlotHashKey) (t : HeaviestSubtreeForkChoice) : fc HeaviestSubtreeForkChoice :=
  match fuel with
  | O => Panic
  | S fuel =>
      match ancestor with
      | None => Ok t
      | Some a =>
          deepest ←? is_deepest_child t current_child;
          if deepest then
            f ←? expect (fork_infos t !! a);
            propagate_deepest fuel leaf a (current_height + 1) (fi_parent f)
              (set_infos (<[a := set_deepest leaf (current_height + 1) f]> (fork_infos t)) t)
          else Ok t
      end
  end.

Definition propagate_new_leaf (k parent : SlotHashKey) (t : HeaviestSubtreeForkChoice) : fc HeaviestSubtreeForkChoice :=
  parent_best ←? expect (get_best_slot t parent);
  best ←? is_best_child t k;
  t ←? (if best then propagate_best (S (size (fork_infos t))) parent_best k (Some parent) t else Ok t);
  propagate_deepest (S (size (fork_infos t))) k k 1 (Some parent) t.

Definition new_leaf_info (t : HeaviestSubtreeForkChoice) (k : SlotHashKey) (parent : option SlotHashKey) : ForkInfo :=
  mkForkInfo 0 0 1 k k parent [] (parent ≫= get_latest_invalid_ancestor t) (bool_decide (parent = None)).

Definition add_new_leaf_slot (k : SlotHashKey) (parent : option SlotHashKey) (t : HeaviestSubtreeForkChoice)
    : fc HeaviestSubtreeForkChoice :=
  if contains_block t k then Ok t
  else
    let t := set_infos (<[k := new_leaf_info t k parent]> (fork_infos t)) t in
    match parent with
    | None => Ok t
    | Some parent =>
        t ←? modify_info parent (fun f => set_children (set_insert k (children f)) f) t;
        propagate_new_leaf k parent t
    end.

Definition new (tree_root : SlotHashKey) : fc HeaviestSubtreeForkChoice :=
  add_new_leaf_slot tree_root None (mkForkChoice ∅ ∅ tree_root).

(** [Bank], as far as [new_from_frozen_banks] reads it *)
Record FrozenBank := mkFrozenBank {
  fb_slot : Z;
  fb_hash : Z;
  fb_parent_slot : Z;
  fb_parent_hash : Z;
  fb_is_frozen : bool
}.
Fixpoint add_frozen_banks (root : SlotHashKey) (prev_slot : Z) (banks : list FrozenBank) (t : HeaviestSubtreeForkChoice)
    : fc HeaviestSubtreeForkChoice :=
  match banks with
  | [] => Ok t
  | bank :: banks =>
      _ ←? rust_assert (fb_is_frozen bank);
      if root.1 <? fb_slot bank then
        _ ←? rust_assert (prev_slot <? fb_slot bank);
        _ ←? rust_assert (negb (fb_hash bank =? 0));
        _ ←? rust_assert (negb (fb_parent_hash bank =? 0));
        t ←? add_new_leaf_slot (fb_slot bank, fb_hash bank) (Some (fb_parent_slot bank, fb_parent_hash bank)) t;
        add_frozen_banks root (fb_slot bank) banks t
      else add_frozen_banks root prev_slot banks t
  end.
Definition new_from_frozen_banks (root : SlotHashKey) (frozen_banks : list FrozenBank) : fc HeaviestSubtreeForkChoice :=
  t ←? new root; add_frozen_banks root root.1 frozen_banks t.

(** ** Duplicate marks *)
Definition mark_fork_invalid_candidate (k : SlotHashKey) (t : HeaviestSubtreeForkChoice) : fc HeaviestSubtreeForkChoice :=
  match fork_infos t !! k with
  | None => Ok t
  | Some f =>
      _ ←? rust_assert (negb (is_duplicate_confirmed f));
      subtree ←? subtree_diff t k key_default;
      let ops := foldl (fun ops c => (do_insert_aggregate_operation ops (Some (MarkInvalid k.1)) c).1) [] subtree in
      process_update_operations (insert_aggregate_operations t ops k) t
  end.

Fixpoint unconfirmed_keys (t : HeaviestSubtreeForkChoice) (ks : list SlotHashKey) : fc (list SlotHashKey) :=
  match ks with
  | [] => Ok []
  | k :: ks =>
      confirmed ←? expect (get_is_duplicate_confirmed t k);
      rest ←? unconfirmed_keys t ks;
      Ok (if confirmed : bool then rest else k :: rest)
  end.
Definition mark_fork_valid_candidate (k : SlotHashKey) (t : HeaviestSubtreeForkChoice)
    : fc (HeaviestSubtreeForkChoice * list SlotHashKey) :=
  newly ←? unconfirmed_keys t (k :: ancestor_iterator t k);
  subtree ←? subtree_diff t k key_default;
  let ops := foldl (fun ops c => (do_insert_aggregate_operation ops (Some (MarkValid k.1)) c).1) [] subtree in
  t ←? process_update_operations (insert_aggregate_operations t ops k) t;
  Ok (t, newly).

(** ** Roots *)
Fixpoint remove_all (ks : list SlotHashKey) (t : HeaviestSubtreeForkChoice) : fc HeaviestSubtreeForkChoice :=
  match ks with
  | [] => Ok t
  | k :: ks =>
      _ ←? expect (fork_infos t !! k);
      remove_all ks (set_infos (delete k (fork_infos t)) t)
  end.

Definition set_root (new_root : SlotHashKey) (t : HeaviestSubtreeForkChoice) : HeaviestSubtreeForkChoice :=
  mkForkChoice (fork_infos t) (latest_votes t) new_root.

Definition set_tree_root (new_root : SlotHashKey) (t : HeaviestSubtreeForkChoice) : fc HeaviestSubtreeForkChoice :=
  removed ←? subtree_diff t (tree_root t) new_root;
  t ←? remove_all removed t;
  t ←? modify_info new_root (set_parent None) t;
  Ok (set_root new_root t).

Definition add_root_parent (root_parent : SlotHashKey) (t : HeaviestSubtreeForkChoice) : fc HeaviestSubtreeForkChoice :=
  _ ←? rust_assert (root_parent.1 <? (tree_root t).1);
  _ ←? rust_assert (negb (contains_block t root_parent));
  f ←? expect (fork_infos t !! tree_root t);
  let info :=
    mkForkInfo 0 (stake_voted_subtree f) (height f + 1) (best_slot f) (deepest_slot f) None [tree_root t]
      None (is_duplicate_confirmed f) in
  Ok (set_root root_parent
        (set_infos (<[root_parent := info]> (<[tree_root t := set_parent (Some root_parent) f]> (fork_infos t))) t)).

(** ** Splitting and merging *)
Fixpoint split_loop (fuel : nat) (to_visit : list SlotHashKey) (infos split : gmap SlotHashKey ForkInfo)
    : fc (gmap SlotHashKey ForkInfo * gmap SlotHashKey ForkInfo) :=
  match fuel with
  | O => Panic
  | S fuel =>
      match to_visit with
      | [] => Ok (infos, split)
      | current :: to_visit =>
          f ←? expect (infos !! current);
          split_loop fuel (reverse (children f) ++ to_visit) (delete current infos) (<[current := f]> split)
      end
  end.

(** [votes.retain(|_, node| infos.contains_key(node))] *)
Definition retain_votes (infos : gmap SlotHashKey ForkInfo) (votes : gmap Pubkey SlotHashKey) : gmap Pubkey SlotHashKey :=
  filter (fun v => is_Some (infos !! v.2)) votes.

(** The changed tree and the split-off one *)
Definition split_off (k : SlotHashKey) (t : HeaviestSubtreeForkChoice)
    : fc (HeaviestSubtreeForkChoice * HeaviestSubtreeForkChoice) :=
  _ ←? rust_assert (bool_decide (tree_root t <> k));
  split_tree_root ←? expect (fork_infos t !! k);
  parent ←? expect (fi_parent split_tree_root);
  let ops := insert_aggregate_operations t [] k in
  f ←? expect (fork_infos t !! parent);
  _ ←? rust_assert (bool_decide (k ∈ children f));
  let t := set_infos (<[parent := set_children (set_remove k (children f)) f]> (fork_infos t)) t in
  t ←? process_update_operations ops t;
  '(infos, split) ←? split_loop (S (size (fork_infos t))) [k] (fork_infos t) ∅;
  f ←? expect (infos !! parent);
  let infos := <[parent := set_children (set_remove k (children f)) f]> infos in
  let split := <[k := set_parent None split_tree_root]> split in
  Ok (mkForkChoice infos (retain_votes infos (latest_votes t)) (tree_root t),
      mkForkChoice split (retain_votes split (latest_votes t)) k).

Fixpoint purge_loop (fuel : nat) (new_root : SlotHashKey) (to_visit : list SlotHashKey)
    (root : option SlotHashKey) (purged : list SlotHashKey) (pruned : list HeaviestSubtreeForkChoice)
    (t : HeaviestSubtreeForkChoice)
    : fc (HeaviestSubtreeForkChoice * option SlotHashKey * list SlotHashKey * list HeaviestSubtreeForkChoice) :=
  match fuel with
  | O => Panic
  | S fuel =>
      match to_visit with
      | [] => Ok (t, root, purged, pruned)
      | cur :: to_visit =>
          if bool_decide (cur = new_root) then purge_loop fuel new_root to_visit (Some new_root) purged pruned t
          else if key_ltb cur new_root then
            cs ←? expect (get_children t cur);
            purge_loop fuel new_root (reverse cs ++ to_visit) root (purged ++ [cur]) pruned t
          else
            '(t, split) ←? split_off cur t;
            purge_loop fuel new_root to_visit root purged (pruned ++ [split]) t
      end
  end.
Definition purge_prune (new_root : SlotHashKey) (t : HeaviestSubtreeForkChoice)
    : fc (HeaviestSubtreeForkChoice * list SlotHashKey * list HeaviestSubtreeForkChoice) :=
  '(t, root, purged, pruned) ←? purge_loop (S (size (fork_infos t))) new_root [tree_root t] None [] [] t;
  t ←? remove_all purged t;
  match root with
  | None => Ok (t, purged, pruned)
  | Some root =>
      t ←? modify_info root (set_parent None) t;
      Ok (set_root root t, purged, pruned)
  end.

(** [other_slots_nodes.sort_by_key(..)]: the keys are distinct *)
Fixpoint insert_node (n : SlotHashKey * SlotHashKey) (l : list (SlotHashKey * SlotHashKey))
    : list (SlotHashKey * SlotHashKey) :=
  match l with
  | [] => [n]
  | x :: l' => if key_ltb x.1 n.1 then x :: insert_node n l' else n :: l
  end.
Definition sort_nodes (l : list (SlotHashKey * SlotHashKey)) : list (SlotHashKey * SlotHashKey) :=
  foldr insert_node [] l.

Fixpoint add_leaves (nodes : list (SlotHashKey * SlotHashKey)) (t : HeaviestSubtreeForkChoice)
    : fc HeaviestSubtreeForkChoice :=
  match nodes with
  | [] => Ok t
  | (k, parent) :: nodes => t ←? add_new_leaf_slot k (Some parent) t; add_leaves nodes t
  end.

(** The blocks of [other] with their parents, its root below [merge_leaf] *)
Definition other_slots_nodes (merge_leaf : SlotHashKey) (other : HeaviestSubtreeForkChoice)
    : list (SlotHashKey * SlotHashKey) :=
  (fun n => (n.1, default merge_leaf (fi_parent n.2))) <$> map_to_list (fork_infos other).

Definition merge (epoch_stakes : gmap Epoch EpochStakes) (epoch_schedule : EpochSchedule)
    (other : HeaviestSubtreeForkChoice) (merge_leaf : SlotHashKey) (t : HeaviestSubtreeForkChoice)
    : fc HeaviestSubtreeForkChoice :=
  _ ←? rust_assert (contains_block t merge_leaf);
  t ←? add_leaves (sort_nodes (other_slots_nodes merge_leaf other)) t;
  '(t, _) ←? add_votes epoch_stakes epoch_schedule (map_to_list (latest_votes other)) t;
  Ok t.
