(* ===== verification/ForkChoiceTree.v ===== *)
(** * The shape of the fork-choice tree

    The order of block keys and of update operations, the invariant that the
    parent and child links of [fork_infos] form a tree whose slots grow away
    from the root, the descendants of a block, and what the walks of the code
    (up by [ancestor_iterator], down by [subtree_diff]) visit. *)

From S2P Require Import Prelude ForkChoice.

(** ** The order of keys *)
Definition key_lt (a b : SlotHashKey) : Prop := a.1 < b.1 \/ a.1 = b.1 /\ a.2 < b.2.

#[global] Instance key_lt_strict : StrictOrder key_lt.
Proof. split; [intros a [?|[??]]; lia | intros a b c [?|[??]] [?|[??]]; unfold key_lt; lia]. Qed.

Lemma key_lt_irrefl a : ~ key_lt a a.
Proof. apply (irreflexivity key_lt). Qed.

Lemma key_compare_spec a b : CompareSpec (a = b) (key_lt a b) (key_lt b a) (key_compare a b).
Proof.
  destruct a as [a1 a2], b as [b1 b2]. unfold key_compare, key_lt; simpl.
  destruct (Z.compare_spec a1 b1) as [->| |]; [|by constructor; left|by constructor; left].
  destruct (Z.compare_spec a2 b2) as [->| |]; constructor; auto.
Qed.

Lemma key_ltb_lt a b : key_ltb a b = true <-> key_lt a b.
Proof.
  unfold key_ltb. destruct (key_compare_spec a b) as [->|H|H]; split; try done.
  - intros H. by apply key_lt_irrefl in H.
  - intros H'. destruct (key_lt_irrefl a). by etrans.
Qed.

Lemma key_lt_total a b : a = b \/ key_lt a b \/ key_lt b a.
Proof. destruct (key_compare_spec a b); auto. Qed.

Lemma key_compare_refl a : key_compare a a = Eq.
Proof. destruct (key_compare_spec a a) as [|H|H]; [done|by apply key_lt_irrefl in H..]. Qed.

Lemma key_lt_slot a b : key_lt a b -> a.1 <= b.1.
Proof. intros [?|[??]]; lia. Qed.
Lemma slot_lt_key a b : a.1 < b.1 -> key_lt a b.
Proof. by left. Qed.

(** ** Sorted sets of keys *)
Lemma elem_of_set_insert x k l : x ∈ set_insert k l <-> x = k \/ x ∈ l.
Proof.
  induction l as [|y l IH]; simpl; [set_solver|].
  destruct (key_compare_spec k y) as [->| |]; set_solver.
Qed.

Lemma set_insert_sorted k l : StronglySorted key_lt l -> StronglySorted key_lt (set_insert k l).
Proof.
  induction 1 as [|y l HS IH HF]; simpl; [repeat constructor|].
  destruct (key_compare_spec k y) as [->|Hlt|Hgt].
  - by constructor.
  - constructor; [by constructor|]. constructor; [done|].
    eapply Forall_impl; [exact HF|]. intros z ?. by etrans.
  - constructor; [done|]. apply Forall_forall. intros z [->|Hz]%elem_of_set_insert; [done|].
    by eapply Forall_forall in HF.
Qed.

Lemma key_sorted_NoDup l : StronglySorted key_lt l -> NoDup l.
Proof.
  induction 1 as [|y l HS IH HF]; constructor; [|done].
  intros Hy. eapply Forall_forall in HF; [|exact Hy]. by apply key_lt_irrefl in HF.
Qed.

Lemma elem_of_set_remove x k l : x ∈ set_remove k l <-> x <> k /\ x ∈ l.
Proof. unfold set_remove. by rewrite list_elem_of_filter. Qed.

Lemma set_remove_sorted k l : StronglySorted key_lt l -> StronglySorted key_lt (set_remove k l).
Proof. apply StronglySorted_filter. Qed.

Lemma set_insert_perm k l : k ∉ l -> set_insert k l ≡ₚ k :: l.
Proof.
  induction l as [|y l IH]; simpl; [done|]. intros Hk.
  destruct (key_compare_spec k y) as [->| |]; [set_solver|done|].
  rewrite IH by set_solver. apply Permutation_swap.
Qed.

(** ** The order of operations *)
Definition opkey_lt (a b : OpKey) : Prop :=
  key_lt a.1 b.1 \/ a.1 = b.1 /\ key_lt (label_rank a.2) (label_rank b.2).

#[global] Instance opkey_lt_strict : StrictOrder opkey_lt.
Proof.
  split.
  - intros [k l] [H|[_ H]]; by apply key_lt_irrefl in H.
  - intros [k1 l1] [k2 l2] [k3 l3]; unfold opkey_lt; simpl.
    intros [H12|[-> H12]] [H23|[-> H23]]; [left; by etrans|by left|by left|right; split; [done|by etrans]].
Qed.

Lemma opkey_lt_irrefl a : ~ opkey_lt a a.
Proof. apply (irreflexivity opkey_lt). Qed.

Lemma label_rank_inj a b : label_rank a = label_rank b -> a = b.
Proof. by destruct a, b; simpl; intros; simplify_eq. Qed.

Lemma opkey_compare_spec a b : CompareSpec (a = b) (opkey_lt a b) (opkey_lt b a) (opkey_compare a b).
Proof.
  destruct a as [ka la], b as [kb lb]. unfold opkey_compare, opkey_lt; simpl.
  destruct (key_compare_spec ka kb) as [->| |]; [|by constructor; left|by constructor; left].
  destruct (key_compare_spec (label_rank la) (label_rank lb)) as [->%label_rank_inj| |]; constructor; auto.
Qed.

Definition ops_sorted (ops : UpdateOperations) : Prop := StronglySorted opkey_lt ops.*1.

Lemma ops_insert_keys x k op ops : x ∈ (ops_insert k op ops).*1 <-> x = k \/ x ∈ ops.*1.
Proof.
  induction ops as [|[k' op'] ops IH]; simpl; [set_solver|].
  destruct (opkey_compare_spec k k') as [->| |]; set_solver.
Qed.

Lemma ops_insert_sorted k op ops : ops_sorted ops -> ops_sorted (ops_insert k op ops).
Proof.
  unfold ops_sorted. induction ops as [|[k' op'] ops IH]; simpl; [repeat constructor|].
  intros [HS HF]%StronglySorted_inv. destruct (opkey_compare_spec k k') as [->|Hlt|Hgt]; simpl.
  - by constructor.
  - constructor; [by constructor|]. constructor; [done|].
    eapply Forall_impl; [exact HF|]. intros z ?. by etrans.
  - constructor; [by apply IH|]. apply Forall_forall. intros z [->|Hz]%ops_insert_keys; [done|].
    by eapply Forall_forall in HF.
Qed.

Lemma ops_lookup_elem k op ops : ops_sorted ops -> ops_lookup k ops = Some op <-> (k, op) ∈ ops.
Proof.
  unfold ops_sorted. induction ops as [|[k' op'] ops IH]; simpl; [set_solver|].
  intros [HS HF]%StronglySorted_inv. rewrite elem_of_cons.
  assert (Hlt : forall k op, (k, op) ∈ ops -> opkey_lt k' k).
  { intros k0 op0 H. eapply Forall_forall in HF; [exact HF|]. by apply (list_elem_of_fmap_2 fst _ (k0, op0)). }
  destruct (opkey_compare_spec k k') as [->|Hk|Hk].
  - split; [intros [= ->]; by left|]. intros [[= ->]|H]; [done|].
    apply Hlt in H. by apply opkey_lt_irrefl in H.
  - split; [done|]. intros [[= -> ->]|H]; [by apply opkey_lt_irrefl in Hk|].
    apply Hlt in H. destruct (opkey_lt_irrefl k). by etrans.
  - rewrite IH by done. split; [by right|]. intros [[= -> ->]|H]; [by apply opkey_lt_irrefl in Hk|done].
Qed.

Lemma ops_insert_elem x k op ops :
  ops_sorted ops -> x ∈ ops_insert k op ops <-> x = (k, op) \/ x.1 <> k /\ x ∈ ops.
Proof.
  unfold ops_sorted. induction ops as [|[k' op'] ops IH]; simpl; [set_solver|].
  intros [HS HF]%StronglySorted_inv.
  assert (Hlt : forall x, x ∈ ops -> opkey_lt k' x.1).
  { intros y H. eapply Forall_forall in HF; [exact HF|]. by apply (list_elem_of_fmap_2 fst _ y). }
  assert (Hne : forall y, y ∈ ops -> opkey_lt k y.1 \/ k = k' -> y.1 <> k).
  { intros y Hy Hk Heq. apply Hlt in Hy. rewrite Heq in *. destruct Hk as [Hk| ->]; by apply opkey_lt_irrefl in Hk + apply opkey_lt_irrefl in Hy. }
  destruct (opkey_compare_spec k k') as [->|Hk|Hk]; rewrite !elem_of_cons.
  - split; [intros [->|Hx]; [by left|right; auto]|]. intros [->|[Hx [->|?]]]; [by left|done|by right].
  - split; [|set_solver]. intros [->|[->|Hx]]; [by left| |].
    + right. split; [intros <-; by apply opkey_lt_irrefl in Hk|by left].
    + right. split; [|by right]. apply Hne; [done|]. left. etrans; [exact Hk|]. by apply Hlt.
  - rewrite (IH HS). split; [|set_solver].
    intros [->|[->|[Hx ?]]]; [|by left|by right; split; [|right]].
    right. split; [|by left]. simpl. intros ->. by apply opkey_lt_irrefl in Hk.
Qed.

Lemma ops_contains_spec k ops : ops_sorted ops -> ops_contains k ops = true <-> k ∈ ops.*1.
Proof.
  intros HS. unfold ops_contains. rewrite bool_decide_eq_true, list_elem_of_fmap. split.
  - intros [op Hop%ops_lookup_elem]; [|done]. by exists (k, op).
  - intros ([k' op] & -> & Hop). exists op. by apply ops_lookup_elem.
Qed.

(** ** Trees *)
Notation infos := (gmap SlotHashKey ForkInfo) (only parsing).

Definition parent_of (m : infos) (k : SlotHashKey) : option SlotHashKey := m !! k ≫= fi_parent.
Definition children_of (m : infos) (k : SlotHashKey) : list SlotHashKey := from_option children [] (m !! k).

Record tree_ok (m : infos) (root : SlotHashKey) : Prop := mk_tree_ok {
  tk_root : is_Some (m !! root) /\ parent_of m root = None;
  tk_only_root : forall k, is_Some (m !! k) -> parent_of m k = None -> k = root;
  tk_parent : forall k p, parent_of m k = Some p -> p.1 < k.1 /\ k ∈ children_of m p;
  tk_child : forall k c, c ∈ children_of m k -> parent_of m c = Some k;
  tk_sorted : forall k, StronglySorted key_lt (children_of m k)
}.

(** [k] is [a] or lies below it. *)
Definition descends (m : infos) (k a : SlotHashKey) : Prop := rtc (fun x y => parent_of m x = Some y) k a.

#[global] Instance descends_preorder m : PreOrder (descends m).
Proof. split; [intros k; apply rtc_refl|unfold descends; intros x y z ??; by etrans]. Qed.

Lemma children_of_Some m k f : m !! k = Some f -> children_of m k = children f.
Proof. unfold children_of. by intros ->. Qed.
Lemma parent_of_Some m k f : m !! k = Some f -> parent_of m k = fi_parent f.
Proof. unfold parent_of. by intros ->. Qed.
Lemma parent_of_dom m k p : parent_of m k = Some p -> is_Some (m !! k).
Proof. unfold parent_of. destruct (m !! k); [eauto|done]. Qed.
Lemma children_of_dom m k c : c ∈ children_of m k -> is_Some (m !! k).
Proof. unfold children_of. destruct (m !! k); [eauto|set_solver]. Qed.

Lemma descends_shape m m' k a :
  (forall k, parent_of m k = parent_of m' k) -> descends m k a -> descends m' k a.
Proof. intros H. apply rtc_subrel. intros x y. by rewrite H. Qed.

Lemma keys_bounded (m : infos) (g : SlotHashKey -> Z) : exists b, forall x, is_Some (m !! x) -> g x <= b.
Proof.
  destruct (max_list_Z (g <$> (map_to_list m).*1)) as [b|] eqn:Hb.
  - exists b. intros x [f Hx]. eapply max_list_Z_ub; [exact Hb|].
    apply list_elem_of_fmap. exists x. split; [done|].
    apply list_elem_of_fmap. exists (x, f). split; [done|]. by apply elem_of_map_to_list.
  - exists 0. intros x [f Hx]. destruct (map_to_list m) as [|y l] eqn:Hm.
    + apply map_to_list_empty_iff in Hm. by rewrite Hm in Hx.
    + done.
Qed.

Section Tree.
Context {m : infos} {root : SlotHashKey} (HT : tree_ok m root).

Lemma tree_child_dom k c : c ∈ children_of m k -> is_Some (m !! c).
Proof. intros Hc%(tk_child _ _ HT). by eapply parent_of_dom. Qed.
Lemma tree_parent_dom k p : parent_of m k = Some p -> is_Some (m !! p).
Proof. intros [_ H]%(tk_parent _ _ HT). by eapply children_of_dom. Qed.
Lemma tree_child_slot k c : c ∈ children_of m k -> k.1 < c.1.
Proof. intros Hc%(tk_child _ _ HT). by apply (tk_parent _ _ HT) in Hc as [? _]. Qed.
Lemma tree_children_NoDup k : NoDup (children_of m k).
Proof. apply key_sorted_NoDup, (tk_sorted _ _ HT). Qed.
Lemma tree_child_iff k c : c ∈ children_of m k <-> parent_of m c = Some k.
Proof. split; [apply (tk_child _ _ HT)|]. by intros [_ ?]%(tk_parent _ _ HT). Qed.

Lemma descends_slot k a : descends m k a -> a = k \/ a.1 < k.1.
Proof.
  induction 1 as [|x y z Hxy _ IH]; [by left|]. right.
  apply (tk_parent _ _ HT) in Hxy as [Hlt _]. destruct IH as [->|]; lia.
Qed.
Lemma descends_dom k a : descends m k a -> is_Some (m !! k) -> is_Some (m !! a).
Proof. induction 1 as [|x y z Hxy _ IH]; [done|]. intros _. by eapply IH, tree_parent_dom. Qed.
Lemma descends_up k a : descends m k a -> is_Some (m !! a) -> is_Some (m !! k).
Proof. induction 1 as [|x y z Hxy _ IH]; [done|]. intros _. by eapply parent_of_dom. Qed.
Lemma descends_antisym k a : descends m k a -> descends m a k -> k = a.
Proof. intros H1%descends_slot H2%descends_slot. destruct H1, H2; try done; lia. Qed.
Lemma descends_child k c : c ∈ children_of m k -> descends m c k.
Proof. intros Hc%tree_child_iff. by apply rtc_once. Qed.

(** Two ancestors of one block are on one path. *)
Lemma descends_comparable k a b : descends m k a -> descends m k b -> descends m a b \/ descends m b a.
Proof.
  induction 1 as [|x y z Hxy Hyz IH]; [by left|].
  intros Hb. inversion Hb as [|? y' ? Hxy' Hyb]; subst.
  - right. eapply rtc_l; eauto.
  - assert (y' = y) as -> by congruence. auto.
Qed.

(** A block below [a] is [a] or below exactly one child of it. *)
Lemma descends_inv k a : descends m k a -> k = a \/ exists c, c ∈ children_of m a /\ descends m k c.
Proof.
  intros H. apply rtc_inv_r in H as [->|(c & Hkc & Hca)]; [by left|].
  right. exists c. split; [by apply tree_child_iff|done].
Qed.
Lemma descends_one_child k a c c' :
  c ∈ children_of m a -> c' ∈ children_of m a -> descends m k c -> descends m k c' -> c = c'.
Proof.
  intros Hc Hc' Hk Hk'. assert (forall x y, x ∈ children_of m a -> y ∈ children_of m a -> descends m x y -> x = y) as Haux.
  { intros x y Hx Hy Hxy. destruct (descends_slot _ _ Hxy) as [->|Hlt]; [done|].
    inversion Hxy as [|? p ? Hp Hpy]; subst; [lia|].
    apply tree_child_iff in Hx. assert (p = a) as -> by congruence.
    apply descends_slot in Hpy. apply tree_child_slot in Hy. destruct Hpy as [->|]; lia. }
  destruct (descends_comparable _ _ _ Hk Hk'); [auto|symmetry; auto].
Qed.
Lemma child_not_descends k c : c ∈ children_of m k -> ~ descends m k c.
Proof. intros Hc H%descends_slot. apply tree_child_slot in Hc. destruct H as [->|]; lia. Qed.

Lemma tree_descends_root k : is_Some (m !! k) -> descends m k root.
Proof.
  destruct (keys_bounded m (fun x => - x.1)) as [b Hb]. remember (Z.to_nat (k.1 + b)) as n eqn:Hn.
  revert k Hn. induction n as [n IH] using lt_wf_ind. intros k -> Hk.
  destruct (parent_of m k) as [p|] eqn:Hp.
  - assert (Hlt : p.1 < k.1) by apply (tk_parent _ _ HT), Hp.
    pose proof (tree_parent_dom _ _ Hp) as Hd. pose proof (Hb _ Hd).
    eapply rtc_l; [exact Hp|]. eapply IH; [|done|done]. lia.
  - by rewrite (tk_only_root _ _ HT _ Hk Hp).
Qed.

(** Induction from the leaves to the root *)
Lemma tree_ind_down (P : SlotHashKey -> Prop) :
  (forall k, is_Some (m !! k) -> (forall c, c ∈ children_of m k -> P c) -> P k) -> forall k, is_Some (m !! k) -> P k.
Proof.
  intros HP. destruct (keys_bounded m fst) as [b Hb]. intros k Hk. remember (Z.to_nat (b - k.1)) as n eqn:Hn.
  revert k Hn Hk. induction n as [n IH] using lt_wf_ind. intros k -> Hk.
  apply HP; [done|]. intros c Hc. pose proof (tree_child_slot _ _ Hc). pose proof (tree_child_dom _ _ Hc) as Hd.
  pose proof (Hb _ Hd). eapply IH; [|done|done]. lia.
Qed.
End Tree.

(** ** Walking up *)
Definition slots_below (m : infos) (k : SlotHashKey) : nat := size (filter (fun x : SlotHashKey => x.1 < k.1) (dom m)).

Lemma slots_below_le m k : (slots_below m k <= size m)%nat.
Proof. unfold slots_below. rewrite <-(size_dom m). apply subseteq_size. set_solver. Qed.

Lemma slots_below_lt m k p : is_Some (m !! p) -> p.1 < k.1 -> (slots_below m p < slots_below m k)%nat.
Proof.
  intros Hp%elem_of_dom Hlt. apply subset_size. split.
  - intros x. rewrite !elem_of_filter. intros [??]. split; [lia|done].
  - intros Hsub. assert (H : p ∈ filter (fun x : SlotHashKey => x.1 < p.1) (dom m)).
    { apply Hsub. by rewrite elem_of_filter. }
    apply elem_of_filter in H as [H _]. lia.
Qed.

Lemma slots_below_upd m k f x : is_Some (m !! k) -> slots_below (<[k := f]> m) x = slots_below m x.
Proof. intros H. unfold slots_below. by rewrite dom_insert_lookup_L. Qed.

Section Walks.
Context {m : infos} {root : SlotHashKey} (HT : tree_ok m root).

Lemma ancestors_fuel_enough n1 n2 k :
  (slots_below m k < n1)%nat -> (slots_below m k < n2)%nat -> ancestors_fuel n1 m k = ancestors_fuel n2 m k.
Proof.
  revert n2 k. induction n1 as [|n1 IH]; intros [|n2] k H1 H2; try lia. simpl.
  change (m !! k ≫= fi_parent) with (parent_of m k).
  destruct (parent_of m k) as [p|] eqn:Hp; [|done]. f_equal.
  assert (p.1 < k.1) by by apply (tk_parent _ _ HT) in Hp as [? _].
  pose proof (slots_below_lt m k p (tree_parent_dom HT _ _ Hp) ltac:(done)).
  apply IH; lia.
Qed.

Definition ancestors_of (k : SlotHashKey) : list SlotHashKey := ancestors_fuel (S (size m)) m k.

Lemma ancestors_of_unfold k :
  ancestors_of k = match parent_of m k with Some p => p :: ancestors_of p | None => [] end.
Proof.
  unfold ancestors_of at 1. simpl. change (m !! k ≫= fi_parent) with (parent_of m k).
  destruct (parent_of m k) as [p|] eqn:Hp; [|done]. f_equal.
  assert (p.1 < k.1) by by apply (tk_parent _ _ HT) in Hp as [? _].
  pose proof (slots_below_lt m k p (tree_parent_dom HT _ _ Hp) ltac:(done)).
  pose proof (slots_below_le m k). apply ancestors_fuel_enough; lia.
Qed.

Lemma elem_of_ancestors a k : a ∈ ancestors_of k <-> descends m k a /\ a <> k.
Proof.
  remember (slots_below m k) as n eqn:Hn. revert k Hn.
  induction n as [n IH] using lt_wf_ind. intros k ->. rewrite ancestors_of_unfold.
  destruct (parent_of m k) as [p|] eqn:Hp.
  - assert (Hlt : p.1 < k.1) by by apply (tk_parent _ _ HT) in Hp as [? _].
    pose proof (slots_below_lt m k p (tree_parent_dom HT _ _ Hp) Hlt) as Hrank.
    rewrite elem_of_cons, (IH _ Hrank p eq_refl).
    split.
    + intros [->|[Ha Hne]].
      * split; [by apply rtc_once|]. intros ->. lia.
      * split; [by eapply rtc_l|]. intros ->. apply (descends_slot HT) in Ha as [->|]; lia.
    + intros [Ha Hne]. inversion Ha as [|? y ? Hy Hya]; subst; [done|].
      assert (y = p) as -> by congruence. destruct (decide (a = p)); auto.
  - split; [set_solver|]. intros [Ha Hne]. inversion Ha; subst; congruence.
Qed.
End Walks.

(** ** Walking down *)
Section Down.
Context (m : infos) (root1 root2 : SlotHashKey).
Context (Hchild : forall k c, c ∈ children_of m k -> parent_of m c = Some k /\ k.1 < c.1).
Context (Hnodup : forall k, NoDup (children_of m k)).
Context (Hdown : forall x y, descends m y root1 -> parent_of m x = Some y -> x ∈ children_of m y).

Lemma walk_slot k : descends m k root1 -> root1 = k \/ root1.1 < k.1.
Proof.
  induction 1 as [|x y z Hxy Hyz IH]; [by left|]. right.
  destruct (Hchild y x) as [_ Hlt]; [by apply Hdown|]. specialize (IH Hdown). destruct IH as [->|]; lia.
Qed.

(** [vis] lists the blocks taken from the stack, [stack] those on it. *)
Record walk_ok (vis stack : list SlotHashKey) : Prop := mk_walk_ok {
  wk_nodup : NoDup (vis ++ stack);
  wk_dom : forall x, x ∈ vis ++ stack -> is_Some (m !! x);
  wk_from : forall x, x ∈ vis ++ stack -> x = root1 \/ exists p, p ∈ vis /\ p <> root2 /\ parent_of m x = Some p;
  wk_closed : forall x c, x ∈ vis -> x <> root2 -> c ∈ children_of m x -> c ∈ vis ++ stack;
  wk_below : forall x, x ∈ vis ++ stack -> descends m x root1;
  wk_root : root1 ∈ vis ++ stack
}.

Lemma walk_skip vis stack : walk_ok vis (root2 :: stack) -> walk_ok (vis ++ [root2]) stack.
Proof.
  intros [H1 H2 H3 H4 H5 H6]. split; rewrite <-?app_assoc; simpl; try done.
  - intros x [Hx|(p & ? & ?)]%H3; [by left|right; exists p; split; [set_solver|done]].
  - intros x c [Hx|Hx]%elem_of_app Hne Hc; [by eapply H4|set_solver].
Qed.

Lemma walk_push vis cur stack :
  cur <> root2 -> walk_ok vis (cur :: stack) ->
  walk_ok (vis ++ [cur]) (reverse (children_of m cur) ++ stack).
Proof.
  intros Hcur [H1 H2 H3 H4 H5 H6].
  assert (Hfresh : forall c, c ∈ children_of m cur -> c ∉ vis ++ cur :: stack).
  { intros c Hc Hin. destruct (Hchild _ _ Hc) as [Hp Hlt]. destruct (H3 _ Hin) as [->|(p & Hpv & _ & Hpp)].
    - assert (Hd : descends m cur root1) by (apply H5; set_solver).
      apply walk_slot in Hd as [->|?]; lia.
    - assert (p = cur) as -> by congruence. apply NoDup_app in H1 as (_ & H1 & _).
      apply (H1 _ Hpv). by left. }
  assert (Hsplit : forall x, x ∈ vis ++ cur :: reverse (children_of m cur) ++ stack <->
    x ∈ vis ++ cur :: stack \/ x ∈ children_of m cur).
  { intros x. rewrite !elem_of_app, !elem_of_cons, elem_of_app, elem_of_reverse. tauto. }
  split; rewrite <-?app_assoc; simpl.
  - rewrite (Permutation_app_comm (reverse _)), app_comm_cons, app_assoc.
    apply NoDup_app. split; [exact H1|split].
    + intros x Hx Hc. rewrite elem_of_reverse in Hc. by apply (Hfresh x Hc).
    + rewrite reverse_Permutation. apply Hnodup.
  - intros x [Hi|[Hc _]%Hchild]%Hsplit; [by apply H2|by eapply parent_of_dom].
  - intros x [Hi|[Hc _]%Hchild]%Hsplit.
    + destruct (H3 _ Hi) as [->|(p & ? & ? & ?)]; [by left|right; exists p; set_solver].
    + right. exists cur. set_solver.
  - intros x c Hx Hne Hc. apply Hsplit. apply elem_of_app in Hx as [Hx|Hx].
    + left. by eapply H4.
    + apply list_elem_of_singleton in Hx as ->. by right.
  - intros x [Hi|[Hc _]%Hchild]%Hsplit; [by apply H5|].
    eapply rtc_l; [exact Hc|]. apply H5. set_solver.
  - apply Hsplit. by left.
Qed.

Lemma walk_bound vis stack : walk_ok vis stack -> (length vis + length stack <= size m)%nat.
Proof.
  intros [H1 H2 _ _ _ _]. rewrite <-length_app, <-size_dom.
  rewrite <-(size_list_to_set (C := gset SlotHashKey)) by done.
  apply subseteq_size. intros x Hx%elem_of_list_to_set. by apply elem_of_dom, H2.
Qed.

Lemma subtree_loop_ends fuel vis stack :
  walk_ok vis stack -> (size m < fuel + length vis)%nat ->
  exists vis', subtree_loop fuel m root2 stack (filter (fun x => x <> root2) vis)
               = Ok (filter (fun x => x <> root2) vis') /\ walk_ok vis' [].
Proof.
  revert vis stack. induction fuel as [|fuel IH]; intros vis stack Hw Hfuel;
    pose proof (walk_bound _ _ Hw) as Hb; [lia|].
  destruct stack as [|cur stack]; simpl; [by exists vis|].
  case_bool_decide as Hcur.
  - subst cur. apply walk_skip in Hw.
    destruct (IH _ _ Hw) as (vis' & Hrun & Hw'); [rewrite length_app; simpl; lia|].
    exists vis'. split; [|done]. rewrite <-Hrun, filter_app. simpl.
    rewrite (filter_cons_False _ root2), filter_nil, app_nil_r by auto. done.
  - destruct (wk_dom _ _ Hw cur) as [f Hf]; [set_solver|]. rewrite Hf. simpl.
    apply walk_push in Hw; [|done]. rewrite (children_of_Some _ _ _ Hf) in Hw.
    destruct (IH _ _ Hw) as (vis' & Hrun & Hw'); [rewrite length_app; simpl; lia|].
    exists vis'. split; [|done]. rewrite <-Hrun, filter_app. simpl.
    rewrite (filter_cons_True _ cur), filter_nil by auto. done.
Qed.

Lemma walk_start : is_Some (m !! root1) -> walk_ok [] [root1].
Proof.
  clear Hchild Hnodup Hdown. intros Hd. split; simpl; try set_solver. apply NoDup_singleton.
Qed.

Lemma walk_end vis x :
  walk_ok vis [] ->
  x ∈ filter (fun x => x <> root2) vis <-> descends m x root1 /\ ~ (descends m x root2 /\ descends m root2 root1).
Proof.
  intros [H1 H2 H3 H4 H5 H6]. rewrite app_nil_r in *. rewrite list_elem_of_filter. split.
  - intros [Hne Hx]. split; [by apply H5|]. intros [Hx2 H21].
    revert Hne Hx. induction Hx2 as [|x y z Hxy Hyz IH]; [done|]. intros Hne Hx.
    destruct (H3 _ Hx) as [->|(p & Hp & Hpne & Hpp)].
    + destruct (walk_slot _ H21) as [->|Hlt]; [done|].
      assert (Hy : descends m y root1) by (etrans; [exact Hyz|exact H21]).
      destruct (Hchild y root1) as [_ Hlt']; [by apply Hdown|].
      apply walk_slot in Hy as [->|]; lia.
    + assert (p = y) as -> by congruence. by apply IH.
  - intros [Hx Hn]. assert (Hne : x <> root2) by (intros ->; apply Hn; split; [reflexivity|done]).
    split; [done|]. revert Hn Hne. induction Hx as [|x y z Hxy Hyz IH]; [done|]. intros Hn Hne.
    assert (Hyn : y <> root2).
    { intros ->. apply Hn. split; [by apply rtc_once|done]. }
    eapply (H4 y); [|done|by apply Hdown]. apply IH; try done.
    intros [Hy ?]. apply Hn. split; [by eapply rtc_l|done].
Qed.
End Down.

Lemma subtree_diff_ok t root root1 root2 :
  tree_ok (fork_infos t) root -> is_Some (fork_infos t !! root1) ->
  exists l, subtree_diff t root1 root2 = Ok l /\ NoDup l /\
    forall x, x ∈ l <->
      descends (fork_infos t) x root1 /\
      ~ (descends (fork_infos t) x root2 /\ descends (fork_infos t) root2 root1).
Proof.
  intros HT Hd. unfold subtree_diff, contains_block. rewrite bool_decide_true by done.
  assert (Hch : forall k c, c ∈ children_of (fork_infos t) k -> parent_of (fork_infos t) c = Some k /\ k.1 < c.1).
  { intros k c Hc. split; [by apply (tk_child _ _ HT)|by apply (tree_child_slot HT)]. }
  assert (Hdn : forall x y, descends (fork_infos t) y root1 -> parent_of (fork_infos t) x = Some y ->
    x ∈ children_of (fork_infos t) y) by (intros x y _ ?; by apply (tree_child_iff HT)).
  destruct (subtree_loop_ends _ root1 root2 Hch (tree_children_NoDup HT) Hdn (S (size (fork_infos t))) [] [root1])
    as (vis & Hrun & Hw); [by apply walk_start|simpl; lia|].
  eexists. split; [exact Hrun|]. split.
  - apply NoDup_filter. pose proof (wk_nodup _ _ _ _ _ Hw) as Hnd. by rewrite app_nil_r in Hnd.
  - intros x. by eapply walk_end.
Qed.
