(* ===== verification/ForkChoiceBatch.v ===== *)
(** * Running a batch of update operations

    A batch that contains, with each operation on a block, the aggregation of
    the parent of the block, restores the invariant of the tree: operations run
    from the greatest key down, so a block is aggregated after all of its
    children.  The stake recorded for each block changes by what the batch adds
    and subtracts. *)

From S2P Require Import Prelude ForkChoice ForkChoiceTree ForkChoiceInv.

Notation dops := (list (OpKey * UpdateOperation)) (only parsing).

Definition label_of (op : UpdateOperation) : UpdateLabel :=
  match op with
  | Add _ => LAdd
  | MarkValid s => LMarkValid s
  | MarkInvalid s => LMarkInvalid s
  | Subtract _ => LSubtract
  | Aggregate => LAggregate
  end.

(** [ops] is the list of operations still to run, in the order they run. *)
Definition todo (ops : dops) (k : SlotHashKey) (l : UpdateLabel) : Prop := (k, l) ∈ ops.*1.

Record batch_ok (m : infos) (ops : dops) : Prop := mk_batch_ok {
  bt_sorted : StronglySorted (flip opkey_lt) ops.*1;
  bt_label : forall k l op, ((k, l), op) ∈ ops -> l = label_of op;
  bt_up : forall k l p, todo ops k l -> parent_of m k = Some p -> todo ops p LAggregate;
  bt_valid : forall k s, todo ops k (LMarkValid s) -> todo ops k LAggregate;
  bt_invalid : forall k s, todo ops k (LMarkInvalid s) -> todo ops k LAggregate
}.

Definition nodes_ok (m : infos) (ops : dops) : Prop :=
  forall k f, m !! k = Some f -> node_ok m k f \/ todo ops k LAggregate.

Record marks_ok (m : infos) (ops : dops) : Prop := mk_marks_ok {
  mk_infos : forall k f, m !! k = Some f -> info_ok k f;
  mk_edges : forall p c a, c ∈ children_of m p -> lia_of m p = Some a ->
    dc m c = true \/ (exists a', lia_of m c = Some a' /\ a <= a') \/ exists s, todo ops p (LMarkValid s) /\ a <= s;
  mk_below : forall p c s, c ∈ children_of m p -> todo ops p (LMarkInvalid s) ->
    todo ops c (LMarkInvalid s) \/ dc m c = true \/ exists a', lia_of m c = Some a' /\ s <= a';
  mk_unconfirmed : forall k s, is_Some (m !! k) -> todo ops k (LMarkInvalid s) -> dc m k = false /\ s <= k.1;
  mk_above : forall k p s, parent_of m k = Some p -> todo ops k (LMarkValid s) -> k.1 = s \/ todo ops p (LMarkValid s);
  mk_one_kind : forall k s k' s', todo ops k (LMarkValid s) -> todo ops k' (LMarkInvalid s') -> False
}.

(** ** The effect of one operation on the block it names *)
Definition op_effect (m : infos) (k : SlotHashKey) (op : UpdateOperation) (f f' : ForkInfo) : Prop :=
  match op with
  | Add s => f' = set_stakes (wrap64 (stake_voted_at f + s)) (wrap64 (stake_voted_subtree f + s)) f
  | Subtract s => f' = set_stakes (wrap64 (stake_voted_at f - s)) (wrap64 (stake_voted_subtree f - s)) f
  | MarkValid s =>
      f' = set_validity (match latest_invalid_ancestor f with
                         | Some a => if a <=? s then None else Some a
                         | None => None
                         end) (is_duplicate_confirmed f || (k.1 =? s)) f
  | MarkInvalid s =>
      is_duplicate_confirmed f = false /\
      f' = set_validity (Some (match latest_invalid_ancestor f with Some a => Z.max a s | None => s end)) false f
  | Aggregate => exists v, agg_ok m k (stake_voted_at f) (children f) v /\ f' = aggregate_finish v f
  end.

Lemma op_effect_links m k op f f' : op_effect m k op f f' -> same_links f f'.
Proof.
  destruct op; simpl; try (by intros ->); [by intros [_ ->]|].
  intros (v & _ & ->). unfold aggregate_finish. by destruct (av_is_duplicate_confirmed v).
Qed.

Lemma mark_valid_effect (k : SlotHashKey) s f :
  (let g := update_with_newly_valid_ancestor s f in
   if k.1 =? s then set_validity (latest_invalid_ancestor g) true g else g) =
  set_validity (match latest_invalid_ancestor f with
                | Some a => if a <=? s then None else Some a
                | None => None
                end) (is_duplicate_confirmed f || (k.1 =? s)) f.
Proof.
  destruct f as [a b c d e g h i j]. unfold update_with_newly_valid_ancestor, set_validity; simpl.
  destruct i as [x|]; simpl; [destruct (x <=? s); simpl|]; destruct (k.1 =? s); simpl; by rewrite ?orb_true_r, ?orb_false_r.
Qed.

Lemma mark_invalid_effect s f :
  is_duplicate_confirmed f = false ->
  update_with_newly_invalid_ancestor s f =
    Ok (set_validity (Some (match latest_invalid_ancestor f with Some a => Z.max a s | None => s end)) false f).
Proof.
  intros Hd. unfold update_with_newly_invalid_ancestor. rewrite Hd. simpl. f_equal.
  destruct f as [a b c d e g h i j]. simpl in *. subst j. destruct i as [x|]; simpl; [|done].
  destruct (Z.ltb_spec x s); unfold set_validity; simpl; do 2 f_equal; lia.
Qed.

Section Step.
Context (m : infos) (root : SlotHashKey) (k : SlotHashKey) (l : UpdateLabel) (op : UpdateOperation) (ops : dops).
Context (HT : tree_ok m root) (HB : batch_ok m ((k, l, op) :: ops)).

Lemma op_runs t :
  m = fork_infos t -> (forall f, m !! k = Some f -> in_u64 (stake_voted_at f)) ->
  (forall s, op = MarkInvalid s -> is_Some (m !! k) -> dc m k = false) ->
  exists t', process_update_operation k op t = Ok t' /\ latest_votes t' = latest_votes t /\ tree_root t' = tree_root t /\
    match m !! k with
    | None => fork_infos t' = m
    | Some f => exists f', fork_infos t' = <[k := f']> m /\ op_effect m k op f f'
    end.
Proof.
  intros Hm Hrange Hdup. destruct op as [s|s|s|s|]; simpl; unfold add_slot_stake, subtract_slot_stake, mark_fork_valid,
    mark_fork_invalid, aggregate_slot; rewrite <-Hm; destruct (m !! k) as [f|] eqn:Hf; try by eexists.
  - eexists. split; [reflexivity|]. simpl. eauto.
  - eexists. split; [reflexivity|]. simpl. rewrite mark_valid_effect. eauto.
  - specialize (Hdup s eq_refl ltac:(eauto)). unfold dc in Hdup. rewrite Hf in Hdup.
    rewrite (mark_invalid_effect s f Hdup). simpl. eexists. split; [reflexivity|]. simpl. eauto 10.
  - eexists. split; [reflexivity|]. simpl. eauto.
  - assert (Hch : children_of m k = children f) by (by apply children_of_Some).
    destruct (aggregate_children_ok m k (stake_voted_at f) (children f) [] (aggregate_start k f)) as (v & Hrun & Hv).
    + split; simpl; [rewrite Z.add_0_r, wrap64_small; auto|done| |by left]. left. split; [set_solver|done].
    + simpl. rewrite <-Hch. intros Hk%(tree_child_slot HT). lia.
    + rewrite <-Hch. intros c. apply (tree_child_dom HT).
    + rewrite Hrun. simpl. eexists. split; [reflexivity|]. simpl. eauto 10.
Qed.

Lemma todo_tail k' l' : todo ((k, l, op) :: ops) k' l' -> (k', l') <> (k, l) -> todo ops k' l'.
Proof. clear HT HB. unfold todo. simpl. set_solver. Qed.
Lemma todo_cons k' l' : todo ops k' l' -> todo ((k, l, op) :: ops) k' l'.
Proof. clear HT HB. unfold todo. simpl. set_solver. Qed.
Lemma todo_max k' l' : todo ops k' l' -> opkey_lt (k', l') (k, l).
Proof.
  intros H. pose proof (bt_sorted _ _ HB) as HS. simpl in HS. apply StronglySorted_inv in HS as [_ HF].
  by eapply Forall_forall in HF.
Qed.
Lemma todo_not_above k' l' : todo ops k' l' -> k.1 < k'.1 -> False.
Proof. intros [H%key_lt_slot|[H _]]%todo_max Hlt; simpl in H; [lia|subst; lia]. Qed.
Lemma todo_same_key l' : todo ops k l' -> key_lt (label_rank l') (label_rank l).
Proof. intros [H|[_ H]]%todo_max; [by apply key_lt_irrefl in H|done]. Qed.
Lemma head_label : l = label_of op.
Proof. eapply (bt_label _ _ HB). left. Qed.
Lemma head_todo : todo ((k, l, op) :: ops) k l.
Proof. left. Qed.

Lemma batch_tail m' : (forall x, parent_of m' x = parent_of m x) -> batch_ok m' ops.
Proof.
  intros Hp. pose proof (bt_sorted _ _ HB) as HS. simpl in HS. apply StronglySorted_inv in HS as [HS _]. split.
  - done.
  - intros k' l' op' H. eapply (bt_label _ _ HB). by right.
  - intros k' l' p H. rewrite Hp. intros Hpar. assert (p.1 < k'.1) by apply (tk_parent _ _ HT), Hpar.
    eapply todo_tail; [eapply (bt_up _ _ HB); [by apply todo_cons|done]|].
    intros [= -> _]. by eapply todo_not_above.
  - intros k' s H. eapply todo_tail; [eapply (bt_valid _ _ HB); by apply todo_cons|].
    intros [= -> Hl]. apply todo_same_key in H. rewrite <-Hl in H. destruct H as [H|[H _]]; simpl in H; lia.
  - intros k' s H. eapply todo_tail; [eapply (bt_invalid _ _ HB); by apply todo_cons|].
    intros [= -> Hl]. apply todo_same_key in H. rewrite <-Hl in H. destruct H as [H|[H _]]; simpl in H; lia.
Qed.

(** *** The conditions on the blocks *)
Lemma nodes_absent : m !! k = None -> nodes_ok m ((k, l, op) :: ops) -> nodes_ok m ops.
Proof.
  intros Hk HN x g Hx. destruct (HN _ _ Hx) as [?|H]; [by left|right].
  eapply todo_tail; [exact H|]. intros [= -> _]. congruence.
Qed.

Lemma aggregated_node f v :
  m !! k = Some f -> agg_ok m k (stake_voted_at f) (children f) v ->
  (forall c g, c ∈ children f -> m !! c = Some g -> node_ok m c g) ->
  node_ok m k (aggregate_finish v f).
Proof.
  intros Hf [H1 H2 H3 H4] Hc.
  assert (Hlinks : same_links f (aggregate_finish v f)) by (apply (op_effect_links m k Aggregate); exists v; by split).
  assert (Hin : forall c, c ∈ children f -> exists g, m !! c = Some g /\ node_ok m c g /\ descends m c k).
  { intros c Hcf. rewrite <-(children_of_Some _ _ _ Hf) in Hcf.
    destruct (tree_child_dom HT _ _ Hcf) as [g Hg]. exists g. split; [done|]. split.
    - eapply Hc; [|done]. by rewrite <-(children_of_Some _ _ _ Hf).
    - by apply (descends_child HT). }
  split; rewrite ?(proj2 Hlinks).
  - simpl. rewrite H1. unfold aggregate_finish. by destruct (av_is_duplicate_confirmed v).
  - intros c Hcf Hd. assert (Hv : av_is_duplicate_confirmed v = true).
    { rewrite H2. apply existsb_exists. exists c. split; [by apply list_elem_of_In|done]. }
    unfold aggregate_finish. by rewrite Hv.
  - intros _. simpl. destruct H3 as [(Hn & _ & ->)|(c & Hb & _ & _ & ->)]; [by left|right; eauto].
  - simpl. replace (av_deepest_child_height v + 1 - 1) with (av_deepest_child_height v) by lia.
    destruct H4 as [(? & ? & _ & ?)|(c & Hb & _ & ? & _ & ?)]; [by left|right; eauto].
  - simpl. destruct H3 as [(_ & _ & ->)|(c & (Hcf & _) & _ & _ & ->)]; [reflexivity|].
    destruct (Hin _ Hcf) as (g & Hg & Hok & Hd). unfold bs. rewrite Hg. simpl. etrans; [apply (nk_best_in _ _ _ Hok)|done].
  - simpl. destruct H4 as [(_ & _ & _ & ->)|(c & (Hcf & _) & _ & _ & _ & ->)]; [reflexivity|].
    destruct (Hin _ Hcf) as (g & Hg & Hok & Hd). unfold ds. rewrite Hg. simpl. etrans; [apply (nk_deepest_in _ _ _ Hok)|done].
Qed.

Lemma shifted_node f s :
  node_ok m k f ->
  node_ok m k (set_stakes (wrap64 (stake_voted_at f + s)) (wrap64 (stake_voted_subtree f + s)) f).
Proof.
  intros [H1 H2 H3 H4 H5 H6]. split; simpl; try done.
  rewrite H1, !wrap64_add_l. f_equal. lia.
Qed.

Lemma nodes_self f f' :
  m !! k = Some f -> op_effect m k op f f' -> nodes_ok m ((k, l, op) :: ops) -> node_ok m k f' \/ todo ops k LAggregate.
Proof.
  intros Hf He HN. pose proof head_label as Hl. pose proof todo_not_above as Hna. pose proof todo_tail as Htl.
  assert (Htail : todo ((k, l, op) :: ops) k LAggregate -> op <> Aggregate -> todo ops k LAggregate).
  { intros H Hop. eapply todo_tail; [exact H|]. intros [= Heq]. by destruct op; simplify_eq. }
  pose proof head_todo as Hhead. pose proof (HN _ _ Hf) as Hk.
  destruct op as [s|s|s|s|]; simpl in He, Hl; subst l.
  - subst f'. destruct Hk; [left; by apply shifted_node|right; by apply Htail].
  - right. apply Htail; [|done]. by eapply (bt_valid _ _ HB).
  - right. apply Htail; [|done]. by eapply (bt_invalid _ _ HB).
  - subst f'. rewrite <-!Z.add_opp_r. destruct Hk; [left; by apply shifted_node|right; by apply Htail].
  - left. destruct He as (v & Hv & ->). eapply aggregated_node; [done|done|].
    intros c g Hc Hg. destruct (HN _ _ Hg) as [?|H]; [done|]. exfalso.
    rewrite <-(children_of_Some _ _ _ Hf) in Hc. apply (tree_child_slot HT) in Hc.
    eapply Hna; [|exact Hc]. eapply Htl; [exact H|]. intros [= ->]. lia.
Qed.

Lemma nodes_step f f' :
  m !! k = Some f -> op_effect m k op f f' -> nodes_ok m ((k, l, op) :: ops) -> nodes_ok (<[k := f']> m) ops.
Proof.
  intros Hf He HN x g Hx. pose proof (op_effect_links _ _ _ _ _ He) as Hlinks.
  destruct (decide (x = k)) as [->|Hne].
  - rewrite lookup_insert_eq in Hx. simplify_eq.
    destruct (nodes_self f g Hf He HN); [left|by right]. eapply upd_node_self; try done. apply Hlinks.
  - rewrite lookup_insert_ne in Hx by done.
    assert (Htail : todo ((k, l, op) :: ops) x LAggregate -> todo ops x LAggregate).
    { intros H. eapply todo_tail; [exact H|]. by intros [= ->]. }
    destruct (decide (parent_of m k = Some x)) as [Hp|Hp].
    + right. apply Htail. eapply (bt_up _ _ HB); [apply head_todo|done].
    + destruct (HN _ _ Hx); [left; by eapply upd_node_other|right; by apply Htail].
Qed.

(** *** The marks *)
Lemma marks_absent : m !! k = None -> marks_ok m ((k, l, op) :: ops) -> marks_ok m ops.
Proof.
  intros Hk [H1 H2 H3 H4 H5 H6].
  assert (Htail : forall x l', is_Some (m !! x) -> todo ((k, l, op) :: ops) x l' -> todo ops x l').
  { intros x l' [g Hx] H. eapply todo_tail; [exact H|]. intros [= -> _]. congruence. }
  split; [done| | | | |].
  - intros p c a Hc Ha. destruct (H2 _ _ _ Hc Ha) as [?|[?|(s & Hs & ?)]]; [auto|auto|].
    right; right. exists s. split; [|done]. apply Htail; [by eapply children_of_dom|done].
  - intros p c s Hc Hs%todo_cons. destruct (H3 _ _ _ Hc Hs) as [?|?]; [|auto].
    left. apply Htail; [by eapply (tree_child_dom HT)|done].
  - intros x s Hx Hs%todo_cons. by apply H4.
  - intros x p s Hp Hs%todo_cons. destruct (H5 _ _ _ Hp Hs); [auto|right].
    apply Htail; [by eapply (tree_parent_dom HT)|done].
  - intros x s x' s' Hs%todo_cons Hs'%todo_cons. by eapply H6.
Qed.

(** An operation that is not a mark keeps the marks: a block may become
    duplicate confirmed, which clears its invalid ancestor. *)
Definition confirms (f f' : ForkInfo) : Prop :=
  latest_invalid_ancestor f' = latest_invalid_ancestor f /\ is_duplicate_confirmed f' = is_duplicate_confirmed f \/
  latest_invalid_ancestor f' = None /\ is_duplicate_confirmed f' = true.

Lemma marks_other f f' :
  m !! k = Some f -> same_links f f' -> confirms f f' -> in_u64 (stake_voted_at f') -> (forall s, l <> LMarkInvalid s) ->
  (forall s, l <> LMarkValid s) -> (l <> LAggregate -> is_duplicate_confirmed f' = is_duplicate_confirmed f) ->
  marks_ok m ((k, l, op) :: ops) -> marks_ok (<[k := f']> m) ops.
Proof.
  intros Hf Hlinks Hcf Hr Hl1 Hl2 Hl3 [H1 H2 H3 H4 H5 H6].
  assert (Hdc : forall c, dc m c = true -> dc (<[k := f']> m) c = true).
  { intros c. unfold dc. destruct (decide (c = k)) as [->|]; simplify_map_eq; [|done].
    simpl. by destruct Hcf as [[_ ->]|[_ ->]]. }
  assert (Hlia : forall c a, lia_of m c = Some a -> dc (<[k := f']> m) c = true \/ lia_of (<[k := f']> m) c = Some a).
  { intros c a. unfold lia_of, dc. destruct (decide (c = k)) as [->|]; simplify_map_eq; [|auto].
    simpl. destruct Hcf as [[-> _]|[_ ->]]; auto. }
  split.
  - intros x g Hx. destruct (decide (x = k)) as [->|]; simplify_map_eq; [|by apply H1].
    destruct (H1 _ _ Hf) as [I1 I2 I3]. destruct Hcf as [[E1 E2]|[E1 E2]]; split; rewrite ?E1, ?E2; auto; done.
  - intros p c a. rewrite (upd_children _ _ _ _ Hf Hlinks). intros Hc Ha.
    assert (Ha' : lia_of m p = Some a).
    { revert Ha. unfold lia_of. destruct (decide (p = k)) as [->|]; simplify_map_eq; [|done].
      simpl. destruct Hcf as [[-> _]|[-> _]]; done. }
    destruct (H2 _ _ _ Hc Ha') as [?|[(a' & Hc' & ?)|(s & Hs & ?)]]; [auto| |].
    + destruct (Hlia _ _ Hc'); eauto.
    + right; right. exists s. split; [|done]. eapply todo_tail; [exact Hs|]. intros [= _ <-]. by eapply Hl2.
  - intros p c s. rewrite (upd_children _ _ _ _ Hf Hlinks). intros Hc Hs%todo_cons.
    destruct (H3 _ _ _ Hc Hs) as [Hs'|[?|(a' & Hc' & ?)]]; [|auto|destruct (Hlia _ _ Hc'); eauto].
    left. eapply todo_tail; [exact Hs'|]. intros [= _ <-]. by eapply Hl1.
  - intros x s Hx Hs. rewrite (upd_dom _ _ _ _ Hf) in Hx. destruct (H4 x s Hx (todo_cons _ _ Hs)) as [Hd ?].
    split; [|done]. unfold dc in *. destruct (decide (x = k)) as [->|]; simplify_map_eq; [|done]. simpl.
    rewrite Hl3; [done|]. intros Hl. apply todo_same_key in Hs. rewrite Hl in Hs. destruct Hs as [Hs|[Hs _]]; simpl in Hs; lia.
  - intros x p s. rewrite (upd_parent _ _ _ _ Hf Hlinks). intros Hp Hs%todo_cons.
    destruct (H5 _ _ _ Hp Hs) as [?|H]; [auto|right]. eapply todo_tail; [exact H|]. intros [= _ <-]. by eapply Hl2.
  - intros x s x' s' Hs%todo_cons Hs'%todo_cons. by eapply H6.
Qed.

Lemma lia_upd f' x : lia_of (<[k := f']> m) x = if decide (x = k) then latest_invalid_ancestor f' else lia_of m x.
Proof. unfold lia_of. destruct (decide (x = k)) as [->|]; by simplify_map_eq. Qed.
Lemma dc_upd f' x : dc (<[k := f']> m) x = if decide (x = k) then is_duplicate_confirmed f' else dc m x.
Proof. unfold dc. destruct (decide (x = k)) as [->|]; by simplify_map_eq. Qed.
Lemma lia_at f : m !! k = Some f -> lia_of m k = latest_invalid_ancestor f.
Proof. unfold lia_of. by intros ->. Qed.
Lemma dc_at f : m !! k = Some f -> dc m k = is_duplicate_confirmed f.
Proof. unfold dc. by intros ->. Qed.
Lemma child_not_self c : c ∈ children_of m k -> c <> k.
Proof. intros Hc%(tree_child_slot HT) ->. lia. Qed.

Lemma marks_valid s f f' :
  m !! k = Some f -> l = LMarkValid s -> op_effect m k (MarkValid s) f f' ->
  marks_ok m ((k, l, op) :: ops) -> marks_ok (<[k := f']> m) ops.
Proof.
  intros Hf Hl He [H1 H2 H3 H4 H5 H6].
  pose proof todo_tail as Htl. pose proof todo_not_above as Hna. pose proof todo_cons as Htc.
  pose proof (op_effect_links _ _ _ _ _ He) as Hlinks. simpl in He.
  destruct (H1 _ _ Hf) as [I1 I2 I3].
  assert (Hhead : todo ((k, l, op) :: ops) k (LMarkValid s)) by (rewrite <-Hl; apply head_todo).
  assert (Hne : forall x s' y, todo ops x (LMarkInvalid s') -> todo ops y (LMarkInvalid s') -> False).
  { intros x s' y Hx%Htc _. exact (H6 _ _ _ _ Hhead Hx). }
  split.
  - intros x g Hx. destruct (decide (x = k)) as [->|]; simplify_map_eq; [|by apply H1]. split; simpl; [done| |].
    + rewrite orb_true_iff, Z.eqb_eq. destruct (latest_invalid_ancestor f) as [a|] eqn:Ha; [|done].
      intros [Hd|Hk]; [by specialize (I2 Hd)|]. specialize (I3 a eq_refl). by rewrite (proj2 (Z.leb_le a s)) by lia.
    + intros a Ha. apply I3. destruct (latest_invalid_ancestor f) as [b|]; [|done]. by destruct (b <=? s); simplify_eq.
  - intros p c a. rewrite (upd_children _ _ _ _ Hf Hlinks), !dc_upd, !lia_upd. intros Hc Ha.
    assert (Htail : forall s', todo ((k, l, op) :: ops) p (LMarkValid s') -> p <> k -> todo ops p (LMarkValid s')).
    { intros s' H Hn. eapply Htl; [exact H|]. by intros [= ->]. }
    destruct (decide (p = k)) as [->|Hpk].
    + rewrite !decide_False by (by apply child_not_self). subst f'. simpl in Ha.
      destruct (latest_invalid_ancestor f) as [b|] eqn:Hb; [|done]. destruct (Z.leb_spec b s); simplify_eq.
      assert (Hak : lia_of m k = Some a) by (by rewrite (lia_at f)).
      destruct (H2 k c a Hc Hak) as [?|[?|(s' & Hs & ?)]]; [auto|auto|].
      right; right. exists s'. split; [|done]. eapply Htl; [exact Hs|]. intros [= ->]. lia.
    + destruct (H2 p c a Hc Ha) as [Hd|[(a' & Ha' & ?)|(s' & Hs & ?)]]; [| |right; right; eauto].
      * left. destruct (decide (c = k)) as [->|]; [|done]. subst f'. simpl. by rewrite <-(dc_at f), Hd.
      * destruct (decide (c = k)) as [->|]; [|right; left; eauto]. subst f'. simpl.
        rewrite (lia_at f) in Ha' by done. rewrite Ha'. destruct (Z.leb_spec a' s); [|right; left; eauto].
        destruct (H5 k p s (tk_child _ _ HT _ _ Hc) Hhead) as [Hks|Hks].
        -- left. rewrite (proj2 (Z.eqb_eq _ _) Hks). apply orb_true_r.
        -- right; right. exists s. split; [by apply Htail|lia].
  - intros p c s' _ Hs. by destruct (Hne p s' p).
  - intros x s' _ Hs. by destruct (Hne x s' x).
  - intros x p s'. rewrite (upd_parent _ _ _ _ Hf Hlinks). intros Hp Hs.
    destruct (H5 x p s' Hp (Htc _ _ Hs)) as [?|H]; [auto|right].
    eapply Htl; [exact H|]. intros [= -> _]. apply (tk_parent _ _ HT) in Hp as [Hlt _]. by eapply Hna.
  - intros x s1 x' s2 Hs%Htc Hs'%Htc. by eapply H6.
Qed.

Lemma marks_invalid s f f' :
  m !! k = Some f -> l = LMarkInvalid s -> op_effect m k (MarkInvalid s) f f' ->
  marks_ok m ((k, l, op) :: ops) -> marks_ok (<[k := f']> m) ops.
Proof.
  intros Hf Hl He [H1 H2 H3 H4 H5 H6].
  pose proof todo_tail as Htl. pose proof todo_not_above as Hna. pose proof todo_cons as Htc.
  pose proof (op_effect_links _ _ _ _ _ He) as Hlinks. destruct He as [Hdup He].
  destruct (H1 _ _ Hf) as [I1 I2 I3].
  assert (Hhead : todo ((k, l, op) :: ops) k (LMarkInvalid s)) by (rewrite <-Hl; apply head_todo).
  destruct (H4 k s ltac:(eauto) Hhead) as [_ Hs].
  assert (Hne : forall x s', todo ((k, l, op) :: ops) x (LMarkValid s') -> False) by (intros x s' Hx; exact (H6 _ _ _ _ Hx Hhead)).
  assert (Hmono : forall c, dc m c = true -> dc (<[k := f']> m) c = true).
  { intros c Hc. rewrite dc_upd. destruct (decide (c = k)) as [->|]; [|done]. rewrite (dc_at f) in Hc by done. congruence. }
  assert (Hup : forall c a, lia_of m c = Some a -> exists a', lia_of (<[k := f']> m) c = Some a' /\ a <= a').
  { intros c a Ha. rewrite lia_upd. destruct (decide (c = k)) as [->|]; [|exists a; split; [done|lia]].
    subst f'. simpl. rewrite (lia_at f) in Ha by done. rewrite Ha. eexists. split; [done|lia]. }
  split.
  - intros x g Hx. destruct (decide (x = k)) as [->|]; simplify_map_eq; [|by apply H1].
    split; simpl; [done|done|]. intros a [= <-].
    destruct (latest_invalid_ancestor f) as [b|]; [specialize (I3 b eq_refl)|]; lia.
  - intros p c a. rewrite (upd_children _ _ _ _ Hf Hlinks). intros Hc Ha.
    assert (Hold : forall b, lia_of m p = Some b -> dc m c = true \/ exists a', lia_of m c = Some a' /\ b <= a').
    { intros b Hb. destruct (H2 _ _ _ Hc Hb) as [?|[?|(s' & Hs' & _)]]; auto. by apply Hne in Hs'. }
    rewrite lia_upd in Ha. destruct (decide (p = k)) as [->|Hpk].
    + assert (Hnew : dc m c = true \/ exists a', lia_of m c = Some a' /\ s <= a').
      { destruct (H3 k c s Hc Hhead) as [H|?]; [|done]. exfalso. pose proof (child_not_self _ Hc).
        apply (tree_child_slot HT) in Hc. eapply Hna; [|exact Hc]. eapply Htl; [exact H|]. by intros [= ->]. }
      destruct Hnew as [?|(a1 & Ha1 & ?)]; [auto|]. destruct (Hup _ _ Ha1) as (a2 & Ha2 & ?).
      rewrite (lia_at f Hf) in Hold. subst f'. simpl in Ha. destruct (latest_invalid_ancestor f) as [b|]; simplify_eq.
      * destruct (Hold b eq_refl) as [?|(a3 & Ha3 & ?)]; [auto|]. simplify_eq. right; left. exists a2. split; [done|lia].
      * right; left. exists a2. split; [done|lia].
    + destruct (Hold _ Ha) as [?|(a1 & Ha1 & ?)]; [auto|]. destruct (Hup _ _ Ha1) as (a2 & Ha2 & ?).
      right; left. exists a2. split; [done|lia].
  - intros p c s'. rewrite (upd_children _ _ _ _ Hf Hlinks). intros Hc Hs'%Htc.
    destruct (H3 _ _ _ Hc Hs') as [H|[?|(a1 & Ha1 & ?)]]; [|auto|].
    + destruct (decide ((c, LMarkInvalid s') = (k, l))) as [Heq|Hn]; [|left; by eapply Htl].
      right; right. rewrite Hl in Heq. simplify_eq. rewrite lia_upd, decide_True by done. simpl. eexists. split; [done|].
      destruct (latest_invalid_ancestor f); lia.
    + destruct (Hup _ _ Ha1) as (a2 & Ha2 & ?). right; right. exists a2. split; [done|lia].
  - intros x s'. rewrite (upd_dom _ _ _ _ Hf), dc_upd. intros Hx Hs'%Htc. destruct (H4 _ _ Hx Hs').
    destruct (decide (x = k)) as [->|]; [|done]. subst f'. done.
  - intros x p s' _ Hs'%Htc. by apply Hne in Hs'.
  - intros x s1 x' s2 Hs1%Htc. by apply Hne in Hs1.
Qed.

Lemma marks_step f f' :
  m !! k = Some f -> op_effect m k op f f' -> marks_ok m ((k, l, op) :: ops) -> marks_ok (<[k := f']> m) ops.
Proof.
  intros Hf He HM. pose proof head_label as Hl. pose proof (op_effect_links _ _ _ _ _ He) as Hlinks.
  pose proof (marks_other f f' Hf Hlinks) as Hother.
  pose proof (fun s => marks_valid s f f' Hf) as Hvalid. pose proof (fun s => marks_invalid s f f' Hf) as Hinvalid.
  pose proof (ik_range _ _ (mk_infos _ _ HM _ _ Hf)) as Hr.
  destruct op as [s|s|s|s|]; [| |by eapply Hinvalid| |].
  - simpl in He, Hl. subst f' l. apply Hother; try done; [by left|apply wrap64_range].
  - by eapply Hvalid.
  - simpl in He, Hl. subst f' l. apply Hother; try done; [by left|apply wrap64_range].
  - simpl in He, Hl. destruct He as (v & Hv & ->). subst l. unfold aggregate_finish in *.
    apply Hother; try done; destruct (av_is_duplicate_confirmed v); try done; [by right|by left].
Qed.
End Step.

(** ** The batch *)
Definition stake_at (m : infos) (k : SlotHashKey) : Z := from_option stake_voted_at 0 (m !! k).

Definition op_delta (op : UpdateOperation) : Z :=
  match op with Add s => s | Subtract s => - s | _ => 0 end.
Definition batch_delta (ops : dops) (k : SlotHashKey) : Z :=
  foldr (fun x d => (if decide (x.1.1 = k) then op_delta x.2 else 0) + d) 0 ops.

(** The tree [t'] has the votes, the root and the links of [t]. *)
Record same_shape (t t' : HeaviestSubtreeForkChoice) : Prop := mk_same_shape {
  sh_votes : latest_votes t' = latest_votes t;
  sh_root : tree_root t' = tree_root t;
  sh_parent : forall k, parent_of (fork_infos t') k = parent_of (fork_infos t) k;
  sh_children : forall k, children_of (fork_infos t') k = children_of (fork_infos t) k;
  sh_dom : forall k, is_Some (fork_infos t' !! k) <-> is_Some (fork_infos t !! k)
}.

Lemma op_effect_stake m k op f f' : op_effect m k op f f' -> in_u64 (stake_voted_at f) ->
  stake_voted_at f' = wrap64 (stake_voted_at f + op_delta op).
Proof.
  destruct op; simpl; [by intros ->| | |by intros ->|]; intros He Hr; rewrite Z.add_0_r, (wrap64_small _ Hr).
  - by subst.
  - by destruct He as [_ ->].
  - destruct He as (v & _ & ->). unfold aggregate_finish. by destruct (av_is_duplicate_confirmed v).
Qed.

Lemma marks_done m root : tree_ok m root -> nodes_ok m [] -> marks_ok m [] -> forks_ok m root.
Proof.
  intros HT HN HM.
  assert (Hn : forall k f, m !! k = Some f -> node_ok m k f).
  { intros k f Hf. destruct (HN _ _ Hf) as [?|[]%not_elem_of_nil]; done. }
  split; [done|done|apply HM|]. intros p c a Hc Ha.
  destruct (mk_edges _ _ HM _ _ _ Hc Ha) as [Hd|[?|(s & []%not_elem_of_nil & _)]]; [|done].
  destruct (children_of_dom _ _ _ Hc) as [f Hf]. rewrite (children_of_Some _ _ _ Hf) in Hc.
  pose proof (nk_dup _ _ _ (Hn _ _ Hf) _ Hc Hd) as Hdf.
  apply (ik_dup _ _ (mk_infos _ _ HM _ _ Hf)) in Hdf. unfold lia_of in Ha. rewrite Hf in Ha. simpl in Ha. congruence.
Qed.

(** A condition that each operation keeps, as it moves from the operations to
    do to those done. *)
Definition op_keeps (root : SlotHashKey) (P : infos -> dops -> Prop) : Prop :=
  (forall m k l op ops f f',
     tree_ok m root -> batch_ok m ((k, l, op) :: ops) -> nodes_ok m ((k, l, op) :: ops) -> marks_ok m ((k, l, op) :: ops) ->
     m !! k = Some f -> op_effect m k op f f' -> P m ((k, l, op) :: ops) -> P (<[k := f']> m) ops) /\
  (forall m k l op ops, tree_ok m root -> m !! k = None -> P m ((k, l, op) :: ops) -> P m ops).

Lemma process_operations_keep P ops t root :
  op_keeps root P ->
  tree_ok (fork_infos t) root -> batch_ok (fork_infos t) ops -> nodes_ok (fork_infos t) ops ->
  marks_ok (fork_infos t) ops -> P (fork_infos t) ops ->
  exists t', process_operations ops t = Ok t' /\ same_shape t t' /\ forks_ok (fork_infos t') root /\ P (fork_infos t') [].
Proof.
  intros [HP1 HP2]. revert t. induction ops as [|[[k l] op] ops IH]; intros t HT HB HN HM HP; simpl.
  - exists t. split; [done|]. split; [by split|]. split; [by apply marks_done|done].
  - destruct (op_runs (fork_infos t) root k l op ops HT HB t eq_refl) as (t1 & Hrun & Hv & Hr & Hm).
    { intros f Hf. apply (mk_infos _ _ HM _ _ Hf). }
    { intros s -> Hk. apply (mk_unconfirmed _ _ HM k s Hk). rewrite (head_label _ _ _ _ _ HB). left. }
    rewrite Hrun. simpl. destruct (fork_infos t !! k) as [f|] eqn:Hf.
    + destruct Hm as (f' & Hm & He). pose proof (op_effect_links _ _ _ _ _ He) as Hlinks.
      destruct (IH t1) as (t2 & Hrun2 & [S1 S2 S3 S4 S5] & Hok & HP'); rewrite ?Hm.
      * by eapply upd_tree.
      * eapply batch_tail; [done|done|]. intros x. by eapply upd_parent.
      * by eapply nodes_step.
      * by eapply marks_step.
      * by eapply HP1.
      * exists t2. split; [done|]. split; [|done].
        split; [congruence|congruence|..]; intros x; rewrite ?S3, ?S4, ?S5, Hm;
          [by eapply upd_parent|by eapply upd_children|by eapply upd_dom].
    + destruct (IH t1) as (t2 & Hrun2 & [S1 S2 S3 S4 S5] & Hok & HP'); rewrite ?Hm.
      * done.
      * by eapply batch_tail.
      * by eapply nodes_absent.
      * by eapply marks_absent.
      * by eapply HP2.
      * exists t2. split; [done|]. rewrite Hm in *. split; [|done]. split; congruence || done.
Qed.

(** The stake of each block changes by what the batch adds. *)
Lemma stake_keeps root (total : SlotHashKey -> Z) :
  op_keeps root (fun m ops => forall k, is_Some (m !! k) -> wrap64 (stake_at m k + batch_delta ops k) = total k).
Proof.
  split.
  - intros m k l op ops f f' HT HB HN HM Hf He HP x Hx. rewrite (upd_dom _ _ _ _ Hf) in Hx. rewrite <-HP by done.
    unfold stake_at. simpl. destruct (decide (k = x)) as [->|Hne]; simplify_map_eq; [|by rewrite Z.add_0_l].
    simpl. rewrite (op_effect_stake _ _ _ _ _ He) by apply (mk_infos _ _ HM _ _ Hf).
    rewrite wrap64_add_l. f_equal. lia.
  - intros m k l op ops HT Hk HP x [f Hx]. rewrite <-HP by eauto. f_equal. simpl.
    destruct (decide (k = x)); [congruence|lia].
Qed.

(** Without a mark of validity no block is confirmed, and the blocks marked
    invalid are not candidates afterwards. *)
Lemma no_confirm m k f f' op :
  m !! k = Some f -> op_effect m k op f f' -> (forall s, op <> MarkValid s) ->
  (forall p c, c ∈ children_of m p -> dc m c = true -> dc m p = true) -> info_ok k f ->
  is_duplicate_confirmed f' = is_duplicate_confirmed f /\
  (latest_invalid_ancestor f' = latest_invalid_ancestor f \/
   exists s a', op = MarkInvalid s /\ latest_invalid_ancestor f' = Some a' /\ s <= a' /\
     forall a, latest_invalid_ancestor f = Some a -> a <= a').
Proof.
  intros Hf He Hop Hcl [_ Hi _]. destruct op as [s|s|s|s|]; simpl in He.
  - subst. auto.
  - by destruct (Hop s).
  - destruct He as [Hd ->]. split; [done|right]. do 2 eexists. split; [done|]. split; [done|].
    split; [destruct (latest_invalid_ancestor f); lia|]. intros a ->. lia.
  - subst. auto.
  - destruct He as (v & Hv & ->). unfold aggregate_finish.
    destruct (av_is_duplicate_confirmed v) eqn:Ev; [|auto]. rewrite (ag_dup _ _ _ _ _ Hv) in Ev.
    apply existsb_exists in Ev as (c & Hc%list_elem_of_In & Hd). rewrite <-(children_of_Some _ _ _ Hf) in Hc.
    pose proof (Hcl _ _ Hc Hd) as Hdk. unfold dc in Hdk. rewrite Hf in Hdk. simpl in *. rewrite Hdk, Hi by done. auto.
Qed.

Record no_valid (m0 : infos) (bad : SlotHashKey -> Z -> Prop) (m : infos) (ops : dops) : Prop := mk_no_valid {
  nv_none : forall k s, ~ todo ops k (LMarkValid s);
  nv_closed : forall p c, c ∈ children_of m p -> dc m c = true -> dc m p = true;
  nv_dup : forall k, dc m k = dc m0 k;
  nv_bad : forall k s, todo ops k (LMarkInvalid s) -> bad k s;
  nv_same : forall k, (forall s, ~ bad k s) -> lia_of m k = lia_of m0 k;
  nv_marked : forall k s, bad k s -> is_Some (m !! k) ->
    todo ops k (LMarkInvalid s) \/ exists a', lia_of m k = Some a' /\ s <= a'
}.

Lemma no_valid_keeps root m0 bad : op_keeps root (no_valid m0 bad).
Proof.
  split.
  - intros m k l op ops f f' HT HB HN HM Hf He [H1 H2 H3 H4 H5 H6].
    pose proof (op_effect_links _ _ _ _ _ He) as Hlinks. pose proof (head_label _ _ _ _ _ HB) as Hl.
    assert (Htd : forall x l', todo ops x l' -> todo ((k, l, op) :: ops) x l') by (intros x l' H; by right).
    destruct (no_confirm m k f f' op Hf He) as [Hd Hlia]; [|done|by apply (mk_infos _ _ HM)|].
    { intros s ->. apply (H1 k s). rewrite Hl. left. }
    assert (Hdc : forall x, dc (<[k := f']> m) x = dc m x).
    { intros x. rewrite dc_upd. destruct (decide (x = k)) as [->|]; [|done]. by rewrite Hd, (dc_at _ _ _ Hf). }
    split.
    + intros x s H. by eapply H1, Htd.
    + intros p c. rewrite !Hdc, (upd_children _ _ _ _ Hf Hlinks). apply H2.
    + intros x. by rewrite Hdc.
    + intros x s H. by apply H4, Htd.
    + intros x Hx. rewrite lia_upd. destruct (decide (x = k)) as [->|]; [|by apply H5].
      destruct Hlia as [->|(s & a' & -> & _)]; [rewrite <-(lia_at _ _ _ Hf); by apply H5|].
      destruct (Hx s). apply H4. rewrite Hl. left.
    + intros x s Hb Hx. rewrite (upd_dom _ _ _ _ Hf) in Hx. rewrite lia_upd.
      destruct (decide ((x, LMarkInvalid s) = (k, l))) as [Heq|Hne].
      * simplify_eq. right. rewrite decide_True by done. destruct op; simplify_eq/=. destruct He as [_ ->].
        eexists. split; [done|]. destruct (latest_invalid_ancestor f); lia.
      * destruct (H6 x s Hb Hx) as [H|(a' & Ha' & ?)]; [left; by eapply todo_tail|right].
        destruct (decide (x = k)) as [->|]; [|eauto]. rewrite (lia_at _ _ _ Hf) in Ha'.
        destruct Hlia as [->|(s' & a2 & -> & Ha2 & _ & Hmax)]; [eauto|]. specialize (Hmax _ Ha').
        exists a2. split; [done|lia].
  - intros m k l op ops HT Hk [H1 H2 H3 H4 H5 H6].
    assert (Htd : forall x l', todo ops x l' -> todo ((k, l, op) :: ops) x l') by (intros x l' H; by right).
    split; try done.
    + intros x s H. by eapply H1, Htd.
    + intros x s H. by apply H4, Htd.
    + intros x s Hb Hx. destruct (H6 x s Hb Hx) as [H|?]; [|auto]. left. eapply todo_tail; [exact H|].
      intros [= -> _]. destruct Hx. congruence.
Qed.

Lemma forks_confirm_up m root p c : forks_ok m root -> c ∈ children_of m p -> dc m c = true -> dc m p = true.
Proof.
  intros HF Hc Hd. destruct (children_of_dom _ _ _ Hc) as [f Hf]. rewrite (children_of_Some _ _ _ Hf) in Hc.
  pose proof (nk_dup _ _ _ (fk_nodes _ _ HF _ _ Hf) _ Hc Hd) as H. unfold dc. by rewrite Hf.
Qed.

Lemma no_valid_start m root ops :
  forks_ok m root -> (forall k s, ~ todo ops k (LMarkValid s)) ->
  no_valid m (fun k s => todo ops k (LMarkInvalid s)) m ops.
Proof. intros HF Hn. split; auto. intros p c. by apply (forks_confirm_up _ root). Qed.

(** Blocks without an operation keep their entry. *)
Lemma untouched_keeps (root : SlotHashKey) (m0 : infos) (S : SlotHashKey -> Prop) :
  op_keeps root (fun m ops => (forall k l, todo ops k l -> S k) /\ forall k, ~ S k -> m !! k = m0 !! k).
Proof.
  split.
  - intros m k l op ops f f' _ _ _ _ Hf _ [H1 H2]. split; [intros x l' H; apply (H1 x l'); by right|].
    intros x Hx. rewrite lookup_insert_ne; [by apply H2|]. intros <-. apply Hx, (H1 k l). left.
  - intros m k l op ops _ _ [H1 H2]. split; [intros x l' H; apply (H1 x l'); by right|done].
Qed.

Lemma op_keeps_and root P Q : op_keeps root P -> op_keeps root Q -> op_keeps root (fun m ops => P m ops /\ Q m ops).
Proof. intros [P1 P2] [Q1 Q2]. split; intros *; [intros ?????? []|intros ?? []]; split; eauto. Qed.
