(* ===== verification/ForkChoiceGen.v ===== *)
(** * Collecting update operations

    The batches that the fork choice builds are ordered, and contain the
    aggregation of every ancestor of the blocks they change, although
    [do_insert_aggregate_operations_across_ancestors] stops at the first
    ancestor that is already there. *)

From S2P Require Import Prelude ForkChoice ForkChoiceTree ForkChoiceInv ForkChoiceBatch.

Lemma StronglySorted_rev {A} (R : A -> A -> Prop) l : StronglySorted R l -> StronglySorted (flip R) (rev l).
Proof.
  induction 1 as [|x l HS IH HF]; simpl; [constructor|]. apply StronglySorted_snoc; [done|].
  intros y Hy. eapply Forall_forall in HF; [exact HF|].
  apply list_elem_of_In in Hy. apply list_elem_of_In. by apply in_rev.
Qed.
Lemma elem_of_rev {A} (x : A) l : x ∈ rev l <-> x ∈ l.
Proof. rewrite !list_elem_of_In. symmetry. apply in_rev. Qed.

Definition ops_labelled (ops : UpdateOperations) : Prop := forall k l op, ((k, l), op) ∈ ops -> l = label_of op.
Definition up_closed_but (m : infos) (ops : UpdateOperations) (k0 : option SlotHashKey) : Prop :=
  forall k l p, todo ops k l -> parent_of m k = Some p -> k0 <> Some k -> todo ops p LAggregate.

Record gen_ok (m : infos) (ops : UpdateOperations) (k0 : option SlotHashKey) : Prop := mk_gen_ok {
  gn_sorted : ops_sorted ops;
  gn_label : ops_labelled ops;
  gn_up : up_closed_but m ops k0;
  gn_valid : forall k s, todo ops k (LMarkValid s) -> todo ops k LAggregate;
  gn_invalid : forall k s, todo ops k (LMarkInvalid s) -> todo ops k LAggregate
}.

Lemma gen_nil m : gen_ok m [] None.
Proof.
  split; [apply SSorted_nil|..].
  - by intros k l op H%not_elem_of_nil.
  - by intros k l p H%not_elem_of_nil.
  - by intros k s H%not_elem_of_nil.
  - by intros k s H%not_elem_of_nil.
Qed.

Lemma todo_rev ops k l : todo (rev ops) k l <-> todo ops k l.
Proof.
  unfold todo. change ((rev ops).*1) with (map fst (rev ops)). rewrite map_rev. apply elem_of_rev.
Qed.

Lemma gen_batch m ops : gen_ok m ops None -> batch_ok m (rev ops).
Proof.
  intros [H1 H2 H3 H4 H5]. split.
  - change ((rev ops).*1) with (map fst (rev ops)). rewrite map_rev. by apply StronglySorted_rev.
  - intros k l op. rewrite elem_of_rev. apply H2.
  - intros k l p. rewrite !todo_rev. intros. by eapply H3.
  - intros k s. rewrite !todo_rev. apply H4.
  - intros k s. rewrite !todo_rev. apply H5.
Qed.

Lemma todo_insert ops k op x l : todo (ops_insert k op ops) x l <-> (x, l) = k \/ todo ops x l.
Proof. unfold todo. apply ops_insert_keys. Qed.

Lemma labelled_insert ops k op :
  ops_sorted ops -> ops_labelled ops -> k.2 = label_of op -> ops_labelled (ops_insert k op ops).
Proof.
  intros HS HL Hk k' l' op' [Heq|[_ H]]%ops_insert_elem; [|by eapply HL|done].
  simplify_eq. done.
Qed.

Lemma batch_delta_app l1 l2 k : batch_delta (l1 ++ l2) k = batch_delta l1 k + batch_delta l2 k.
Proof. induction l1 as [|x l1 IH]; simpl; [done|]. rewrite IH. lia. Qed.
Lemma batch_delta_rev ops k : batch_delta (rev ops) k = batch_delta ops k.
Proof. induction ops as [|x ops IH]; simpl; [done|]. rewrite batch_delta_app, IH. simpl. lia. Qed.

Lemma batch_delta_insert ops key op k :
  ops_sorted ops ->
  batch_delta (ops_insert key op ops) k =
    batch_delta ops k + (if decide (key.1 = k) then op_delta op - from_option op_delta 0 (ops_lookup key ops) else 0).
Proof.
  unfold ops_sorted. induction ops as [|[k' op'] ops IH]; simpl; intros HS.
  - destruct (decide _); simpl; lia.
  - apply StronglySorted_inv in HS as [HS _].
    destruct (opkey_compare_spec key k') as [->| |]; simpl; [destruct (decide _); lia|destruct (decide (key.1 = k)); lia|].
    rewrite (IH HS). lia.
Qed.

Lemma lookup_label ops k op : ops_sorted ops -> ops_labelled ops -> ops_lookup k ops = Some op -> k.2 = label_of op.
Proof. intros HS HL H%ops_lookup_elem; [|done]. destruct k as [k l]. by eapply HL. Qed.

(** [do_insert_aggregate_operation] without a mark *)
Lemma aggregate_insert_delta ops p k :
  ops_sorted ops -> ops_labelled ops -> batch_delta (ops_insert (p, LAggregate) Aggregate ops) k = batch_delta ops k.
Proof.
  intros HS HL. rewrite batch_delta_insert by done. destruct (decide _); [|lia].
  destruct (ops_lookup (p, LAggregate) ops) as [op|] eqn:Hop; simpl; [|lia].
  apply lookup_label in Hop; [|done|done]. destruct op; simpl in *; try done; lia.
Qed.

Lemma gen_insert_aggregate m ops p k0 :
  gen_ok m ops (Some k0) -> parent_of m k0 = Some p ->
  gen_ok m (ops_insert (p, LAggregate) Aggregate ops) (Some p).
Proof.
  intros [H1 H2 H3 H4 H5] Hp. split.
  - by apply ops_insert_sorted.
  - by apply labelled_insert.
  - intros k l q. rewrite !todo_insert. intros [[= -> ->]|H] Hq Hne; [done|].
    destruct (decide (k = k0)) as [->|Hk]; [left; congruence|right; eapply H3; try done; congruence].
  - intros k s. rewrite !todo_insert. intros [[=]|H]. right. by eapply H4.
  - intros k s. rewrite !todo_insert. intros [[=]|H]. right. by eapply H5.
Qed.

Lemma insert_across_keeps ks ops x l : todo ops x l -> todo (insert_across ops None ks) x l.
Proof.
  revert ops. induction ks as [|k ks IH]; intros ops H; simpl; [done|].
  unfold do_insert_aggregate_operation. destruct (ops_contains (k, LAggregate) ops); simpl; [done|].
  apply IH, todo_insert. by right.
Qed.

Section Ancestors.
Context {m : infos} {root : SlotHashKey} (HT : tree_ok m root).

Lemma insert_across_ok k ops :
  gen_ok m ops (Some k) ->
  let ops' := insert_across ops None (@ancestors_of m k) in
  gen_ok m ops' None /\ (forall x, batch_delta ops' x = batch_delta ops x) /\
  (forall x l, l <> LAggregate -> todo ops' x l <-> todo ops x l) /\
  (forall x, todo ops' x LAggregate -> todo ops x LAggregate \/ x ∈ @ancestors_of m k) /\
  (forall p, parent_of m k = Some p -> todo ops' p LAggregate).
Proof.
  remember (slots_below m k) as n eqn:Hn. revert k ops Hn.
  induction n as [n IH] using lt_wf_ind. intros k ops -> HG. rewrite (ancestors_of_unfold HT).
  destruct (parent_of m k) as [p|] eqn:Hp; simpl.
  - unfold do_insert_aggregate_operation. destruct (ops_contains (p, LAggregate) ops) eqn:Hc; simpl.
    + apply ops_contains_spec in Hc; [|apply HG].
      split; [|split; [done|split; [done|split; [by left|by intros q [= <-]]]]]. destruct HG as [H1 H2 H3 H4 H5]. split; try done.
      intros k' l q H Hq _. destruct (decide (k' = k)) as [->|Hk]; [simplify_eq; done|].
      eapply H3; try done. congruence.
    + assert (Hlt : p.1 < k.1) by by apply (tk_parent _ _ HT) in Hp as [? _].
      pose proof (slots_below_lt m k p (tree_parent_dom HT _ _ Hp) Hlt) as Hrank.
      destruct (IH _ Hrank p _ eq_refl (gen_insert_aggregate _ _ _ _ HG Hp)) as (Hg & Hd & Ht & Ha & _).
      split; [done|]. split; [|split; [|split]].
      * intros x. rewrite Hd. apply aggregate_insert_delta; apply HG.
      * intros x l Hl. rewrite Ht by done. rewrite todo_insert. split; [intros [[=]|]; done|auto].
      * intros x H. destruct (Ha _ H) as [[[= ->]|?]%todo_insert|?]; set_solver.
      * intros q [= <-]. apply insert_across_keeps. apply todo_insert. by left.
  - split; [|split; [done|split; [done|split; [by left|done]]]]. destruct HG as [H1 H2 H3 H4 H5]. split; try done.
    intros k' l q H Hq _. eapply H3; try done. congruence.
Qed.
End Ancestors.

(** A batch without marks *)
Lemma marks_none m ops :
  (forall k f, m !! k = Some f -> info_ok k f) ->
  (forall p c a, c ∈ children_of m p -> lia_of m p = Some a -> exists a', lia_of m c = Some a' /\ a <= a') ->
  (forall k s, ~ todo ops k (LMarkValid s) /\ ~ todo ops k (LMarkInvalid s)) -> marks_ok m ops.
Proof.
  intros HI HE HM. split; [done| | | | |].
  - intros p c a Hc Ha. right; left. by eapply HE.
  - intros p c s _ H. by apply HM in H.
  - intros k s _ H. by apply HM in H.
  - intros k p s _ H. by apply HM in H.
  - intros k s k' s' H. by apply HM in H.
Qed.

(** ** Adding and subtracting stake *)
Definition stake_op (l : UpdateLabel) (s : Z) (op : UpdateOperation) : Prop :=
  l = LAdd /\ op = Add s \/ l = LSubtract /\ op = Subtract s.

Lemma entry_stake_ok m ops k l s op :
  gen_ok m ops None -> stake_op l s op ->
  exists ops', ops_entry_stake (k, l) s op ops = Ok ops' /\ gen_ok m ops' (Some k) /\
    (forall x y, wrap64 (y + batch_delta ops' x) = wrap64 (y + batch_delta ops x + if decide (k = x) then op_delta op else 0)) /\
    (forall x l', todo ops' x l' <-> (x, l') = (k, l) \/ todo ops x l').
Proof.
  intros [H1 H2 H3 H4 H5] Hop. unfold ops_entry_stake.
  set (new := match ops_lookup (k, l) ops with
              | Some (Add x) => Add (wrap64 (x + s)) | Some (Subtract x) => Subtract (wrap64 (x + s)) | _ => op end).
  assert (Hl : l = label_of op) by (by destruct Hop as [[-> ->]|[-> ->]]).
  assert (Hnew : label_of new = l /\ match ops_lookup (k, l) ops with
    | Some u => u ←? update_stake u s; Ok (ops_insert (k, l) u ops)
    | None => Ok (ops_insert (k, l) op ops) end = (Ok (ops_insert (k, l) new ops) : fc _) /\
    forall y, wrap64 (y + (op_delta new - from_option op_delta 0 (ops_lookup (k, l) ops))) = wrap64 (y + op_delta op)).
  { subst new. destruct (ops_lookup (k, l) ops) as [u|] eqn:Hu; simpl.
    - apply lookup_label in Hu; [|done|done]. simpl in Hu.
      destruct Hop as [[-> ->]|[-> ->]], u; simpl in Hu |- *; try done; (split; [done|]; split; [done|]); intros y.
      + replace (y + (wrap64 (stake + s) - stake)) with (y - stake + wrap64 (stake + s)) by lia.
        rewrite wrap64_add_r. f_equal. lia.
      + replace (y + (- wrap64 (stake + s) - - stake)) with (y + stake - wrap64 (stake + s)) by lia.
        unfold wrap64. rewrite Zminus_mod_idemp_r. f_equal. lia.
    - split; [done|]. split; [done|]. intros y. f_equal. lia. }
  destruct Hnew as (Hlab & Hrun & Hdelta). eexists. split; [exact Hrun|]. split; [split|split].
  - by apply ops_insert_sorted.
  - by apply labelled_insert.
  - intros x l' p. rewrite !todo_insert. intros [[= -> _]|H] Hp Hne; [done|right; by eapply H3].
  - intros x s'. rewrite !todo_insert. intros [[= -> Hx]|H]; [|right; by eapply H4].
    exfalso. destruct Hop as [[? _]|[? _]]; congruence.
  - intros x s'. rewrite !todo_insert. intros [[= -> Hx]|H]; [|right; by eapply H5].
    exfalso. destruct Hop as [[? _]|[? _]]; congruence.
  - intros x y. rewrite batch_delta_insert by done. simpl. destruct (decide (k = x)); [|f_equal; lia].
    rewrite Z.add_assoc. apply Hdelta.
  - intros x l'. apply todo_insert.
Qed.
