(* ===== verification/ForkChoiceVotes.v ===== *)
(** * Votes in the fork choice

    [add_votes] moves the stake of each voter from the block of its previous
    vote to that of its new one, and leaves every block with the stake of the
    voters whose latest vote it is. *)

From S2P Require Import Prelude AuthorizedVoters EpochSchedule ForkChoice ForkChoiceOps ForkChoiceTree ForkChoiceInv ForkChoiceBatch ForkChoiceGen.

(** ** Sums over the latest votes *)
Definition votes_sum (w : Pubkey -> SlotHashKey -> Z) (votes : gmap Pubkey SlotHashKey) : Z :=
  map_fold (fun p v s => w p v + s) 0 votes.

Lemma votes_sum_empty w : votes_sum w ∅ = 0.
Proof. apply map_fold_empty. Qed.
Lemma votes_sum_fresh w votes p v : votes !! p = None -> votes_sum w (<[p := v]> votes) = w p v + votes_sum w votes.
Proof. intros Hp. unfold votes_sum. apply (map_fold_insert_L (fun p v s => w p v + s) 0); [intros; lia|done]. Qed.
Lemma votes_sum_delete w votes p v : votes !! p = Some v -> votes_sum w votes = w p v + votes_sum w (delete p votes).
Proof. intros Hp. unfold votes_sum. apply (map_fold_delete_L (fun p v s => w p v + s) 0); [intros; lia|done]. Qed.
Lemma votes_sum_insert w votes p v :
  votes_sum w (<[p := v]> votes) = votes_sum w votes - from_option (w p) 0 (votes !! p) + w p v.
Proof.
  destruct (votes !! p) as [v'|] eqn:Hp; simpl.
  - rewrite <-(insert_delete_eq votes p v), votes_sum_fresh by apply lookup_delete_eq.
    rewrite (votes_sum_delete w votes p v' Hp). lia.
  - rewrite votes_sum_fresh by done. lia.
Qed.
Lemma votes_sum_ext w w' votes :
  (forall p v, votes !! p = Some v -> w p v = w' p v) -> votes_sum w votes = votes_sum w' votes.
Proof.
  induction votes as [|p v votes Hp IH] using map_ind; intros H; [done|].
  rewrite !votes_sum_fresh by done. rewrite H by apply lookup_insert_eq. rewrite IH; [done|].
  intros q u Hq. apply H. rewrite lookup_insert_ne; [done|congruence].
Qed.
Lemma votes_sum_add w w' votes : votes_sum (fun p v => w p v + w' p v) votes = votes_sum w votes + votes_sum w' votes.
Proof.
  induction votes as [|p v votes Hp IH] using map_ind; [by rewrite !votes_sum_empty|].
  rewrite !votes_sum_fresh by done. rewrite IH. lia.
Qed.
Lemma votes_sum_zero votes : votes_sum (fun _ _ => 0) votes = 0.
Proof.
  induction votes as [|p v votes Hp IH] using map_ind; [done|]. rewrite votes_sum_fresh by done. lia.
Qed.

Section Votes.
Context (epoch_stakes : gmap Epoch EpochStakes) (epoch_schedule : EpochSchedule).
Notation stake := (vote_stake epoch_stakes epoch_schedule).

Definition stakes_in_range : Prop :=
  forall e es p s, epoch_stakes !! e = Some es -> es !! p = Some s -> in_u64 s.

(** The stake of the voters whose latest vote is for [k]. *)
Definition voted_stake (votes : gmap Pubkey SlotHashKey) (k : SlotHashKey) : Z :=
  votes_sum (fun p v => if decide (v = k) then stake p v.1 else 0) votes.

(** The invariant of the fork choice: the tree is consistent, and each block
    counts the latest votes for it. *)
Record fc_ok (t : HeaviestSubtreeForkChoice) : Prop := mk_fc_ok {
  fc_forks : forks_ok (fork_infos t) (tree_root t);
  fc_stake : forall k, is_Some (fork_infos t !! k) ->
    stake_at (fork_infos t) k = wrap64 (voted_stake (latest_votes t) k)
}.

Lemma stake_nonneg p s : stakes_in_range -> 0 <= stake p s.
Proof.
  intros H. unfold vote_stake, vote_account_stake.
  destruct (epoch_stakes !! get_epoch epoch_schedule s) as [es|] eqn:He; [|lia].
  destruct (es !! p) as [x|] eqn:Hx; simpl; [|lia]. by apply (H _ _ _ _ He Hx).
Qed.

Lemma supersedes_assert new_vote old :
  vote_supersedes new_vote (Some old) = true ->
  (if new_vote.1 =? old.1 then new_vote.2 <? old.2 else old.1 <? new_vote.1) = true.
Proof.
  destruct old as [s h]. simpl. rewrite negb_true_iff, orb_false_iff, andb_false_iff, Z.ltb_ge, Z.eqb_neq, Z.leb_gt.
  intros [? H]. destruct (Z.eqb_spec new_vote.1 s); [apply Z.ltb_lt|apply Z.ltb_lt]; destruct H; lia.
Qed.

(** The batch holds only stake operations and aggregations, and what it adds
    up to. *)
Record votes_batch (m : infos) (votes : gmap Pubkey SlotHashKey) (ops : UpdateOperations) : Prop := mk_votes_batch {
  vb_gen : gen_ok m ops None;
  vb_marks : forall k s, ~ todo ops k (LMarkValid s) /\ ~ todo ops k (LMarkInvalid s);
  vb_stake : forall k, is_Some (m !! k) -> wrap64 (stake_at m k + batch_delta ops k) = wrap64 (voted_stake votes k)
}.

Section Batch.
Context {m : infos} {root : SlotHashKey} (HT : tree_ok m root).

Lemma insert_aggregate_unfold t ops k :
  m = fork_infos t -> insert_aggregate_operations t ops k = insert_across ops None (@ancestors_of m k).
Proof. by intros ->. Qed.

Lemma stake_entry ops k l s op :
  gen_ok m ops None -> (forall x s, ~ todo ops x (LMarkValid s) /\ ~ todo ops x (LMarkInvalid s)) -> stake_op l s op ->
  exists ops', ops_entry_stake (k, l) s op ops = Ok ops' /\
    let ops2 := insert_across ops' None (@ancestors_of m k) in
    gen_ok m ops2 None /\ (forall x s, ~ todo ops2 x (LMarkValid s) /\ ~ todo ops2 x (LMarkInvalid s)) /\
    (forall x y, wrap64 (y + batch_delta ops2 x) = wrap64 (y + batch_delta ops x + if decide (k = x) then op_delta op else 0)).
Proof.
  intros HG HM Hop. destruct (entry_stake_ok m ops k l s op HG Hop) as (ops' & Hrun & HG' & Hd & Ht).
  exists ops'. split; [done|]. destruct (insert_across_ok HT k ops' HG') as (HG2 & Hd2 & Ht2 & _ & _). split; [done|]. split.
  - intros x s'. rewrite !Ht2, !Ht by done. split; (intros [[= _ <-]|H]; [|destruct (HM x s'); done]); by destruct Hop as [[? _]|[? _]].
  - intros x y. rewrite Hd2. apply Hd.
Qed.

Lemma remove_old_ok t ops p new_vote old :
  stakes_in_range -> m = fork_infos t -> gen_ok m ops None ->
  (forall x s, ~ todo ops x (LMarkValid s) /\ ~ todo ops x (LMarkInvalid s)) -> vote_supersedes new_vote old = true ->
  exists ops', remove_old_vote epoch_stakes epoch_schedule t ops p new_vote old = Ok ops' /\ gen_ok m ops' None /\
    (forall x s, ~ todo ops' x (LMarkValid s) /\ ~ todo ops' x (LMarkInvalid s)) /\
    (forall x y, wrap64 (y + batch_delta ops' x) =
       wrap64 (y + batch_delta ops x - from_option (fun v => if decide (v = x) then stake p v.1 else 0) 0 old)).
Proof.
  intros Hr Hm HG HM Hs. destruct old as [old|]; simpl.
  - rewrite (supersedes_assert _ _ Hs). simpl. pose proof (stake_nonneg p old.1 Hr) as Hpos.
    destruct (Z.ltb_spec 0 (stake p old.1)) as [Hlt|Hge].
    + destruct (stake_entry ops old LSubtract (stake p old.1) (Subtract (stake p old.1)) HG HM) as (ops' & Hrun & H1 & H2 & H3);
        [by right|]. rewrite Hrun. simpl. rewrite (insert_aggregate_unfold t _ _ Hm).
      eexists. split; [reflexivity|]. split; [done|]. split; [done|]. intros x y. rewrite H3. f_equal. simpl. destruct (decide (old = x)); lia.
    + exists ops. split; [done|]. split; [done|]. split; [done|]. intros x y. f_equal. destruct (decide (old = x)); lia.
  - exists ops. split; [done|]. split; [done|]. split; [done|]. intros x y. f_equal. lia.
Qed.

Lemma generate_ok votes t ops observed :
  stakes_in_range -> m = fork_infos t -> NoDup votes.*1 -> (forall p, p ∈ votes.*1 -> p ∉ observed) ->
  votes_batch m (latest_votes t) ops ->
  exists t' ops', generate_loop epoch_stakes epoch_schedule votes t ops observed = Ok (t', ops') /\
    fork_infos t' = m /\ tree_root t' = tree_root t /\ votes_batch m (latest_votes t') ops'.
Proof.
  intros Hr. revert t ops observed. induction votes as [|[p v] votes IH]; intros t ops observed Hm Hnd Hobs HV; simpl.
  - exists t, ops. done.
  - apply NoDup_cons in Hnd as [Hp Hnd].
    destruct (v.1 <? (tree_root t).1); [apply IH; set_solver|].
    rewrite bool_decide_true by (apply Hobs; left). simpl.
    assert (Hobs' : forall q, q ∈ votes.*1 -> q ∉ {[p]} ∪ observed) by set_solver.
    destruct (vote_supersedes v (latest_votes t !! p)) eqn:Hs; [|by apply IH].
    destruct HV as [HG HM HS]. set (t1 := set_votes_map _ t).
    destruct (remove_old_ok t1 ops p v _ Hr Hm HG HM Hs) as (ops1 & Hrun1 & HG1 & HM1 & HD1).
    rewrite Hrun1. simpl.
    destruct (stake_entry ops1 v LAdd (stake p v.1) (Add (stake p v.1)) HG1 HM1) as (ops2 & Hrun2 & HG2 & HM2 & HD2);
      [by left|]. rewrite Hrun2. simpl. rewrite (insert_aggregate_unfold t1 _ _ Hm). apply (IH t1); [done|done|done|]. split; [done|done|].
    intros k Hk. rewrite HD2. simpl.
    rewrite <-Z.add_assoc, (Z.add_comm (batch_delta _ _)), Z.add_assoc, HD1.
    unfold voted_stake. simpl. rewrite votes_sum_insert. fold (voted_stake (latest_votes t) k).
    set (add := if decide (v = k) then _ else _). set (sub := from_option _ 0 _).
    replace (stake_at _ k + add + batch_delta ops k - sub)
      with (stake_at m k + batch_delta ops k + (add - sub)) by lia.
    replace (voted_stake (latest_votes t) k - sub + add) with (voted_stake (latest_votes t) k + (add - sub)) by lia.
    apply wrap64_shift. by apply HS.
Qed.
End Batch.

Lemma forks_nodes m root ops : forks_ok m root -> nodes_ok m ops.
Proof. intros H k f Hf. left. by apply H. Qed.

(** The tree [t'] has the links of [t], and the same marks. *)
Record same_forks (t t' : HeaviestSubtreeForkChoice) : Prop := mk_same_forks {
  sf_root : tree_root t' = tree_root t;
  sf_parent : forall k, parent_of (fork_infos t') k = parent_of (fork_infos t) k;
  sf_dom : forall k, is_Some (fork_infos t' !! k) <-> is_Some (fork_infos t !! k);
  sf_invalid : forall k, lia_of (fork_infos t') k = lia_of (fork_infos t) k;
  sf_confirmed : forall k, dc (fork_infos t') k = dc (fork_infos t) k
}.

Lemma stake_batch_run t ops root votes :
  forks_ok (fork_infos t) root -> votes_batch (fork_infos t) votes ops ->
  exists t', process_update_operations ops t = Ok t' /\ latest_votes t' = latest_votes t /\ same_forks t t' /\
    forks_ok (fork_infos t') root /\
    forall k, is_Some (fork_infos t' !! k) -> stake_at (fork_infos t') k = wrap64 (voted_stake votes k).
Proof.
  intros HF [HG HM HV].
  assert (HM' : forall k s, ~ todo (rev ops) k (LMarkValid s) /\ ~ todo (rev ops) k (LMarkInvalid s)).
  { intros k s. rewrite !todo_rev. apply HM. }
  destruct (process_operations_keep _ (rev ops) t root
    (op_keeps_and _ _ _ (stake_keeps root (fun k => wrap64 (voted_stake votes k)))
       (no_valid_keeps root (fork_infos t) (fun k s => todo (rev ops) k (LMarkInvalid s)))))
    as (t2 & Hrun2 & [S1 S2 S3 S4 S5] & HF2 & HS2 & HN2).
  - apply HF.
  - by apply gen_batch.
  - by eapply forks_nodes.
  - apply marks_none; [apply HF|apply HF|done].
  - split; [intros k Hk; rewrite batch_delta_rev; by apply HV|]. eapply no_valid_start; [done|apply HM'].
  - exists t2. split; [done|]. split; [done|]. split; [|split; [done|]].
    + split; [done|done|done| |apply HN2]. intros k. apply (nv_same _ _ _ _ HN2). intros s. apply HM'.
    + intros k Hk. rewrite <-HS2 by done. simpl. rewrite Z.add_0_r. symmetry. apply wrap64_small.
      destruct Hk as [f Hf]. unfold stake_at. rewrite Hf. apply (fk_infos _ _ HF2 _ _ Hf).
Qed.

Lemma add_votes_ok votes t :
  stakes_in_range -> NoDup votes.*1 -> fc_ok t ->
  exists t' best, add_votes epoch_stakes epoch_schedule votes t = Ok (t', best) /\ fc_ok t' /\
    get_best_slot t' (tree_root t') = Some best /\ same_forks t t'.
Proof.
  intros Hr Hnd [HF HS]. pose proof (fk_tree _ _ HF) as HT. unfold add_votes, generate_update_operations.
  destruct (generate_ok HT votes t [] ∅ Hr eq_refl Hnd) as (t1 & ops & Hrun & Hm & Hroot & HV); [set_solver| |].
  { split; [apply gen_nil|intros k s; split; apply not_elem_of_nil|]. intros k Hk. simpl.
    rewrite Z.add_0_r, HS by done. apply wrap64_small, wrap64_range. }
  rewrite Hrun. simpl. rewrite <-Hm in HV, HF.
  destruct (stake_batch_run t1 ops _ _ HF HV) as (t2 & Hrun2 & Hvotes & [S1 S2 S3 S4 S5] & HF2 & HS2).
  rewrite Hrun2. simpl. rewrite <-Hroot, <-S1 in HF2.
  destruct (proj1 (tk_root _ _ (fk_tree _ _ HF2))) as [f Hf].
  unfold best_overall_slot, get_best_slot. rewrite Hf. simpl.
  exists t2, (best_slot f). split; [done|]. split; [|split; [by rewrite Hf|]].
  - split; [done|]. intros k Hk. rewrite Hvotes. by apply HS2.
  - rewrite Hm in *. split; [congruence|done..].
Qed.

(** ** The latest votes *)

(** What a vote makes of the latest vote of its voter. *)
Definition latest_after (root_slot : Z) (old : option SlotHashKey) (v : SlotHashKey) : option SlotHashKey :=
  if v.1 <? root_slot then old else if vote_supersedes v old then Some v else old.

Lemma process_votes ops t t' : process_operations ops t = Ok t' -> latest_votes t' = latest_votes t.
Proof.
  revert t. induction ops as [|[[k l] op] ops IH]; intros t; simpl; [by intros [= <-]|].
  intros (t1 & H1 & Hrun)%bind_Ok. rewrite (IH _ Hrun). clear IH Hrun.
  destruct op; simpl in H1; unfold add_slot_stake, subtract_slot_stake, mark_fork_valid, mark_fork_invalid, aggregate_slot in H1;
    destruct (fork_infos t !! k); try (by simplify_eq);
    apply bind_Ok in H1 as (x & _ & H1); by simplify_eq.
Qed.

Lemma generate_votes votes t ops observed t' ops' :
  NoDup votes.*1 -> generate_loop epoch_stakes epoch_schedule votes t ops observed = Ok (t', ops') ->
  (forall p v, (p, v) ∈ votes -> latest_votes t' !! p = latest_after (tree_root t).1 (latest_votes t !! p) v) /\
  (forall p, p ∉ votes.*1 -> latest_votes t' !! p = latest_votes t !! p).
Proof.
  revert t ops observed. induction votes as [|[p v] votes IH]; intros t ops observed Hnd; simpl.
  - intros [= <- _]. split; [by intros p v []%not_elem_of_nil|done].
  - simpl in Hnd. apply NoDup_cons in Hnd as [Hp Hnd].
    assert (Hgo : forall t1 ops1 obs1, tree_root t1 = tree_root t ->
      (forall q, q <> p -> latest_votes t1 !! q = latest_votes t !! q) ->
      latest_votes t1 !! p = latest_after (tree_root t).1 (latest_votes t !! p) v ->
      generate_loop epoch_stakes epoch_schedule votes t1 ops1 obs1 = Ok (t', ops') ->
      (forall q u, (q, u) ∈ (p, v) :: votes -> latest_votes t' !! q = latest_after (tree_root t).1 (latest_votes t !! q) u) /\
      (forall q, q ∉ p :: votes.*1 -> latest_votes t' !! q = latest_votes t !! q)).
    { intros t1 ops1 obs1 Hr Hq Hpv Hrun. destruct (IH t1 ops1 obs1 Hnd Hrun) as [I1 I2]. rewrite Hr in I1. split.
      - intros q u [[= -> ->]|Hin]%elem_of_cons; [by rewrite I2, Hpv|]. rewrite (I1 _ _ Hin), Hq; [done|].
        intros ->. apply Hp. by apply (list_elem_of_fmap_2 fst _ _ Hin).
      - intros q Hq'. rewrite I2, Hq; [done|set_solver|set_solver]. }
    unfold latest_after in Hgo at 1. destruct (v.1 <? (tree_root t).1) eqn:Elt; [apply Hgo; [done|done|done]|].
    intros (_ & _ & Hrun)%bind_Ok. revert Hrun. destruct (vote_supersedes v (latest_votes t !! p)) eqn:Es; [|by apply Hgo].
    intros (ops1 & _ & Hrun)%bind_Ok. apply bind_Ok in Hrun as (ops2 & _ & Hrun). revert Hrun. apply Hgo; simpl; [done| |].
    + intros q Hq. by rewrite lookup_insert_ne.
    + apply lookup_insert_eq.
Qed.

Lemma add_votes_latest votes t t' best :
  NoDup votes.*1 -> add_votes epoch_stakes epoch_schedule votes t = Ok (t', best) ->
  (forall p v, (p, v) ∈ votes -> latest_votes t' !! p = latest_after (tree_root t).1 (latest_votes t !! p) v) /\
  (forall p, p ∉ votes.*1 -> latest_votes t' !! p = latest_votes t !! p).
Proof.
  intros Hnd. unfold add_votes, generate_update_operations.
  intros ([t1 ops] & Hgen & Hrun)%bind_Ok. apply bind_Ok in Hrun as (t2 & Hproc & Hrun).
  apply bind_Ok in Hrun as (b & _ & Hrun). injection Hrun as <- _.
  rewrite (process_votes _ _ _ Hproc). by eapply generate_votes.
Qed.
End Votes.

(** ** The stakes of a bank

    Each batch comes with the stakes of its bank; only those of its voters in the
    epochs of their new and latest votes are read. *)
Section SameStakes.
Context (table epoch_stakes : gmap Epoch EpochStakes) (epoch_schedule : EpochSchedule).

Definition same_stakes (votes : list (Pubkey * SlotHashKey)) (t : HeaviestSubtreeForkChoice) : Prop :=
  forall pk k, (pk, k) ∈ votes -> forall s, s = k.1 \/ (exists old, latest_votes t !! pk = Some old /\ s = old.1) ->
    vote_stake table epoch_schedule pk s = vote_stake epoch_stakes epoch_schedule pk s.

Lemma generate_loop_same votes t ops observed :
  NoDup votes.*1 -> same_stakes votes t ->
  generate_loop table epoch_schedule votes t ops observed = generate_loop epoch_stakes epoch_schedule votes t ops observed.
Proof.
  revert t ops observed. induction votes as [|[pk k] votes IH]; intros t ops observed Hnd Hs; [done|].
  cbn [fmap list_fmap fst] in Hnd. apply NoDup_cons in Hnd as [Hpk Hnd]. cbn [generate_loop].
  assert (forall t', (forall q, q <> pk -> latest_votes t' !! q = latest_votes t !! q) -> same_stakes votes t') as Hrest.
  { intros t' Ht' q v Hin s Hcase. apply (Hs q v); [by right|]. rewrite Ht' in Hcase; [done|].
    intros ->. by apply Hpk, (list_elem_of_fmap_2 fst _ _ Hin). }
  destruct (_ <? _); [by apply IH, Hrest|]. destruct (rust_assert _); cbn [obind]; [|done|done].
  destruct (vote_supersedes _ _); [|by apply IH, Hrest].
  assert (remove_old_vote table epoch_schedule (set_votes_map (<[pk:=k]> (latest_votes t)) t) ops pk k (latest_votes t !! pk) =
    remove_old_vote epoch_stakes epoch_schedule (set_votes_map (<[pk:=k]> (latest_votes t)) t) ops pk k (latest_votes t !! pk)) as ->.
  { unfold remove_old_vote. destruct (latest_votes t !! pk) as [old|] eqn:Eo; [|done].
    by rewrite (Hs pk k ltac:(left) old.1) by eauto. }
  rewrite (Hs pk k ltac:(left) k.1) by auto.
  destruct (remove_old_vote _ _ _ _ _ _ _); cbn [obind]; [|done|done].
  destruct (ops_entry_stake _ _ _ _); cbn [obind]; [|done|done].
  apply IH, Hrest; [done|]. intros q Hq. cbn. by rewrite lookup_insert_ne.
Qed.

Lemma add_votes_same votes t :
  NoDup votes.*1 -> same_stakes votes t ->
  add_votes table epoch_schedule votes t = add_votes epoch_stakes epoch_schedule votes t.
Proof. intros Hnd Hs. unfold add_votes, generate_update_operations. by rewrite generate_loop_same. Qed.
End SameStakes.
