(* ===== verification/ForkChoiceMarks.v ===== *)
(** * Marking forks invalid and valid

    [mark_fork_invalid_candidate] takes the subtree of a block out of the fork
    choice and [mark_fork_valid_candidate] puts it back: both keep the
    invariant, and panic exactly on the blocks the code excludes. *)

From S2P Require Import Prelude AuthorizedVoters EpochSchedule ForkChoice ForkChoiceOps ForkChoiceTree ForkChoiceInv ForkChoiceBatch ForkChoiceGen ForkChoiceVotes.

Definition is_mark (op : UpdateOperation) : Prop :=
  match op with MarkValid _ | MarkInvalid _ => True | _ => False end.

Definition mark_subtree (op : UpdateOperation) (ops : UpdateOperations) (l : list SlotHashKey) : UpdateOperations :=
  foldl (fun ops c => (do_insert_aggregate_operation ops (Some op) c).1) ops l.

Record marked (op : UpdateOperation) (seen : list SlotHashKey) (ops : UpdateOperations) : Prop := mk_marked {
  md_sorted : ops_sorted ops;
  md_label : ops_labelled ops;
  md_todo : forall k l, todo ops k l <-> k ∈ seen /\ (l = label_of op \/ l = LAggregate);
  md_delta : forall k, batch_delta ops k = 0
}.

Lemma marked_insert op seen ops c :
  is_mark op -> marked op seen ops -> c ∉ seen ->
  marked op (seen ++ [c]) (do_insert_aggregate_operation ops (Some op) c).1.
Proof.
  intros Hop [H1 H2 H3 H4] Hc.
  assert (Hn : forall l, (c, l) ∉ ops.*1) by (intros l H; apply Hc; by apply (H3 c l)).
  assert (Hno : ops_contains (c, LAggregate) ops = false).
  { apply not_true_iff_false. rewrite ops_contains_spec by done. apply Hn. }
  assert (Hlk : ops_lookup (c, label_of op) ops = None).
  { destruct (ops_lookup _ ops) eqn:E; [|done]. apply ops_lookup_elem in E; [|done].
    destruct (Hn (label_of op)). by apply (list_elem_of_fmap_2 fst _ _ E). }
  set (ops1 := ops_insert (c, label_of op) op ops).
  assert (Hstep : do_insert_aggregate_operation ops (Some op) c = (ops_insert (c, LAggregate) Aggregate ops1, true)).
  { unfold do_insert_aggregate_operation. rewrite Hno. by destruct op. }
  rewrite Hstep. simpl. assert (HS1 : ops_sorted ops1) by (by apply ops_insert_sorted).
  assert (HL1 : ops_labelled ops1) by (by apply labelled_insert). split.
  - by apply ops_insert_sorted.
  - by apply labelled_insert.
  - intros k l. unfold ops1. rewrite !todo_insert, H3, elem_of_app, list_elem_of_singleton.
    split; [intros [[= -> ->]|[[= -> ->]|?]]; tauto|].
    intros [[?| ->] [-> | ->]]; tauto.
  - intros k. rewrite aggregate_insert_delta by done. unfold ops1. rewrite batch_delta_insert by done.
    rewrite Hlk, H4. destruct op; try done; simpl; by destruct (decide _).
Qed.

Lemma mark_subtree_ok op seen ops l :
  is_mark op -> marked op seen ops -> NoDup (seen ++ l) -> marked op (seen ++ l) (mark_subtree op ops l).
Proof.
  intros Hop. revert seen ops. induction l as [|c l IH]; intros seen ops HM Hnd; simpl.
  - by rewrite app_nil_r.
  - rewrite cons_middle, app_assoc in Hnd |- *. apply IH; [|done]. apply marked_insert; [done|done|].
    rewrite <-app_assoc in Hnd. apply NoDup_app in Hnd as (_ & Hnd & _). intros Hc. apply (Hnd _ Hc). left.
Qed.

Lemma marked_nil op : marked op [] [].
Proof.
  split; [apply SSorted_nil|by intros k l op' H%not_elem_of_nil| |done].
  intros k l. split; [intros H%not_elem_of_nil; done|intros [H%not_elem_of_nil _]; done].
Qed.

Section Marks.
Context {m : infos} {root : SlotHashKey} (HT : tree_ok m root).

(** The batch of a mark: the subtree of [k], and the ancestors of [k]. *)
Lemma mark_batch_ok op k l :
  is_mark op -> NoDup l -> (forall x, x ∈ l <-> descends m x k) ->
  let ops := insert_across (mark_subtree op [] l) None (@ancestors_of m k) in
  gen_ok m ops None /\ (forall x, batch_delta ops x = 0) /\
  (forall x l', l' <> LAggregate -> todo ops x l' <-> descends m x k /\ l' = label_of op) /\
  (forall x l', todo ops x l' -> descends m x k \/ descends m k x).
Proof.
  intros Hop Hnd Hl. destruct (mark_subtree_ok op [] [] l Hop (marked_nil op) Hnd) as [H1 H2 H3 H4]. simpl in *.
  assert (HG : gen_ok m (mark_subtree op [] l) (Some k)).
  { split; [done|done|..].
    - intros x l' p Hx Hp Hne. apply H3. apply H3 in Hx as [Hx _]. split; [|by right].
      apply Hl. apply Hl in Hx. inversion Hx as [|? y ? Hy Hyk]; subst; [done|]. by assert (y = p) as <- by congruence.
    - intros x s Hx%H3. apply H3. tauto.
    - intros x s Hx%H3. apply H3. tauto. }
  destruct (insert_across_ok HT k _ HG) as (HG' & Hd & Ht & Ha & _). split; [done|]. split; [|split].
  - intros x. rewrite Hd. apply H4.
  - intros x l' Hne. rewrite Ht, H3, Hl by done. split; [intros [? [?|?]]; done|tauto].
  - intros x l' Hx. destruct (decide (l' = LAggregate)) as [->|Hne].
    + destruct (Ha _ Hx) as [[H _]%H3|[H _]%(elem_of_ancestors HT)]; [left; by apply Hl|by right].
    + rewrite Ht in Hx by done. apply H3 in Hx as [H _]. left. by apply Hl.
Qed.
End Marks.

Section Operations.
Context (epoch_stakes : gmap Epoch EpochStakes) (epoch_schedule : EpochSchedule).
Notation fc_ok := (fc_ok epoch_stakes epoch_schedule).

Lemma batch_keeps_fc P t ops :
  op_keeps (tree_root t) P -> fc_ok t -> gen_ok (fork_infos t) ops None -> (forall x, batch_delta ops x = 0) ->
  marks_ok (fork_infos t) (rev ops) -> P (fork_infos t) (rev ops) ->
  exists t', process_update_operations ops t = Ok t' /\ same_shape t t' /\ fc_ok t' /\ P (fork_infos t') [].
Proof.
  intros HK [HF HS] HG Hd HM HP. unfold process_update_operations.
  destruct (process_operations_keep _ (rev ops) t (tree_root t)
    (op_keeps_and _ _ _ (stake_keeps (tree_root t) (fun k => wrap64 (voted_stake epoch_stakes epoch_schedule (latest_votes t) k))) HK))
    as (t' & Hrun & [S1 S2 S3 S4 S5] & HF' & HS' & HP').
  - apply HF.
  - by apply gen_batch.
  - by eapply forks_nodes.
  - done.
  - split; [|done]. intros k Hk. rewrite batch_delta_rev, Hd, Z.add_0_r, HS by done. apply wrap64_small, wrap64_range.
  - exists t'. split; [done|]. split; [done|]. split; [|done]. split; [by rewrite S2|].
    intros k Hk. rewrite S1, <-HS' by done. simpl. rewrite Z.add_0_r. symmetry. apply wrap64_small.
    destruct Hk as [f Hf]. unfold stake_at. rewrite Hf. apply (fk_infos _ _ HF' _ _ Hf).
Qed.

(** Confirmation moves towards the root, so the subtree of an unconfirmed
    block is unconfirmed. *)
Lemma unconfirmed_below m root k x :
  forks_ok m root -> descends m x k -> is_Some (m !! x) -> dc m k = false -> dc m x = false.
Proof.
  intros HF. induction 1 as [|x y z Hxy Hyz IH]; [done|]. intros Hx Hk.
  assert (Hc : x ∈ children_of m y) by (by apply (tree_child_iff (fk_tree _ _ HF))).
  destruct (children_of_dom _ _ _ Hc) as [f Hf]. specialize (IH ltac:(eauto) Hk). unfold dc in IH. rewrite Hf in IH.
  destruct (dc m x) eqn:Hd; [|done]. rewrite (children_of_Some _ _ _ Hf) in Hc.
  pose proof (nk_dup _ _ _ (fk_nodes _ _ HF _ _ Hf) _ Hc Hd). simpl in IH. congruence.
Qed.

Lemma subtree_of_ok t k :
  forks_ok (fork_infos t) (tree_root t) -> is_Some (fork_infos t !! k) -> k <> key_default -> 0 <= (tree_root t).1 ->
  exists l, subtree_diff t k key_default = Ok l /\ NoDup l /\ forall x, x ∈ l <-> descends (fork_infos t) x k.
Proof.
  intros HF Hk Hne Hpos. pose proof (fk_tree _ _ HF) as HT.
  destruct (subtree_diff_ok t _ k key_default HT Hk) as (l & Hrun & Hnd & Hl).
  exists l. split; [done|]. split; [done|]. intros x. rewrite Hl. split; [by intros [? _]|].
  intros Hx. split; [done|]. intros [_ Hd].
  pose proof (descends_slot HT _ _ (tree_descends_root HT _ Hk)) as H1.
  apply (descends_slot HT) in Hd as [->|Hd]; [done|]. simpl in Hd. destruct H1 as [H1|H1]; [rewrite H1 in Hpos|]; lia.
Qed.

(** Below the block marked valid, the marks of its slot and older are cleared,
    and no block is confirmed. *)
Definition clear_invalid (s : Z) (a : option Z) : option Z :=
  match a with Some a => if a <=? s then None else Some a | None => None end.

Record valid_run (m0 : infos) (k : SlotHashKey) (m : infos) (ops : dops) : Prop := mk_valid_run {
  vr_children : forall x, children_of m x = children_of m0 x;
  vr_label : forall x l, todo ops x l -> l = LMarkValid k.1 \/ l = LAggregate;
  vr_dup : forall x, descends m0 x k -> x <> k -> dc m x = dc m0 x;
  vr_lia : forall x, descends m0 x k -> x <> k ->
    todo ops x (LMarkValid k.1) /\ lia_of m x = lia_of m0 x \/ lia_of m x = clear_invalid k.1 (lia_of m0 x)
}.

Lemma clear_invalid_idemp s a : clear_invalid s (clear_invalid s a) = clear_invalid s a.
Proof. destruct a as [a|]; simpl; [|done]. destruct (a <=? s) eqn:E; simpl; by rewrite ?E. Qed.

Lemma valid_run_keeps root m0 k0 : forks_ok m0 root -> op_keeps root (valid_run m0 k0).
Proof.
  intros HF. pose proof (fk_tree _ _ HF) as HT0. split.
  - intros m k l op ops f f' HT HB HN HM Hf He [H1 H2 H3 H4].
    pose proof (op_effect_links _ _ _ _ _ He) as Hlinks. pose proof (head_label _ _ _ _ _ HB) as Hl.
    assert (Htd : forall x l', todo ops x l' -> todo ((k, l, op) :: ops) x l') by (intros x l' H; by right).
    assert (Hstep : descends m0 k k0 -> k <> k0 -> is_duplicate_confirmed f' = is_duplicate_confirmed f /\
      latest_invalid_ancestor f' =
        if decide (l = LMarkValid k0.1) then clear_invalid k0.1 (latest_invalid_ancestor f) else latest_invalid_ancestor f).
    { intros Hk Hkne. destruct (H2 k l ltac:(left)) as [Hlk|Hlk]; rewrite Hlk in *; destruct op; simpl in Hl; simplify_eq.
      - rewrite decide_True by done. simpl in He. subst f'. simpl. split; [|done].
        apply (descends_slot HT0) in Hk as [->|Hlt]; [done|]. rewrite (proj2 (Z.eqb_neq k.1 k0.1)) by lia. by rewrite orb_false_r.
      - rewrite decide_False by done. destruct He as (v & Hv & ->). unfold aggregate_finish.
        destruct (av_is_duplicate_confirmed v) eqn:Ev; [|done]. rewrite (ag_dup _ _ _ _ _ Hv) in Ev.
        apply existsb_exists in Ev as (c & Hc%list_elem_of_In & Hd).
        rewrite <-(children_of_Some _ _ _ Hf), H1 in Hc. pose proof (descends_child HT0 _ _ Hc) as Hck.
        pose proof (tree_child_slot HT0 _ _ Hc) as Hcs. rewrite H3 in Hd.
        + pose proof (forks_confirm_up _ _ _ _ HF Hc Hd) as Hdk. rewrite <-H3 in Hdk by done.
          rewrite (dc_at _ _ _ Hf) in Hdk. simpl. rewrite Hdk. split; [done|]. symmetry. apply (mk_infos _ _ HM _ _ Hf), Hdk.
        + etrans; [exact Hck|done].
        + intros ->. apply (descends_slot HT0) in Hk as [->|]; [done|lia]. }
    split.
    + intros x. by rewrite (upd_children _ _ _ _ Hf Hlinks).
    + intros x l' H. by eapply H2, Htd.
    + intros x Hx Hxne. rewrite dc_upd. destruct (decide (x = k)) as [->|]; [|by apply H3].
      destruct (Hstep Hx Hxne) as [-> _]. rewrite <-H3 by done. by rewrite (dc_at _ _ _ Hf).
    + intros x Hx Hxne. rewrite lia_upd. destruct (decide (x = k)) as [->|].
      * destruct (Hstep Hx Hxne) as [_ ->]. specialize (H4 k Hx Hxne). rewrite (lia_at _ _ _ Hf) in H4.
        destruct (decide (l = LMarkValid k0.1)) as [->|Hlne].
        -- right. destruct H4 as [[_ ->]| ->]; [done|apply clear_invalid_idemp].
        -- destruct H4 as [[H ?]|?]; [left|by right]. split; [|done]. eapply todo_tail; [exact H|]. by intros [= <-].
      * destruct (H4 x Hx Hxne) as [[H ?]|?]; [left|by right]. split; [|done]. eapply todo_tail; [exact H|]. by intros [= -> _].
  - intros m k l op ops HT Hk [H1 H2 H3 H4]. split; [done|intros x l' H; apply (H2 x l'); by right|done|].
    intros x Hx Hxne. destruct (H4 x Hx Hxne) as [[H Hlia]|?]; [|by right].
    destruct (decide (x = k)) as [->|]; [|left; split; [eapply todo_tail; [exact H|]; by intros [= -> _]|done]].
    right. revert Hlia. unfold lia_of. rewrite Hk. simpl. by intros <-.
Qed.

Lemma confirm_keeps root k0 :
  op_keeps root (fun m ops => is_Some (m !! k0) /\ (todo ops k0 (LMarkValid k0.1) \/ dc m k0 = true)).
Proof.
  split.
  - intros m k l op ops f f' HT HB HN HM Hf He [Hs H]. rewrite (upd_dom _ _ _ _ Hf). split; [done|].
    pose proof (head_label _ _ _ _ _ HB) as Hl. rewrite dc_upd. destruct (decide (k0 = k)) as [->|Hne].
    + destruct (decide (l = LMarkValid k.1)) as [->|Hlne].
      * right. destruct op; simplify_eq/=. by rewrite Z.eqb_refl, orb_true_r.
      * destruct H as [H|H]; [left; eapply todo_tail; [exact H|]; congruence|right].
        rewrite (dc_at _ _ _ Hf) in H. destruct op; simpl in He; [by subst| | |by subst|].
        -- subst. simpl. by rewrite H.
        -- destruct He as [? _]. congruence.
        -- destruct He as (v & _ & ->). unfold aggregate_finish. by destruct (av_is_duplicate_confirmed v).
    + destruct H as [H|H]; [left|by right]. eapply todo_tail; [exact H|]. congruence.
  - intros m k l op ops HT Hk [Hs [H|H]]; (split; [done|]); [left|by right].
    eapply todo_tail; [exact H|]. intros [= -> _]. destruct Hs. congruence.
Qed.

Section Marks.
Context (t : HeaviestSubtreeForkChoice) (k : SlotHashKey).
Context (Hok : fc_ok t) (Hne : k <> key_default) (Hpos : 0 <= (tree_root t).1).
Notation m := (fork_infos t).

Lemma invalid_marks_ok ops :
  is_Some (m !! k) -> dc m k = false ->
  (forall x l, l <> LAggregate -> todo ops x l <-> descends m x k /\ l = LMarkInvalid k.1) -> marks_ok m ops.
Proof.
  intros Hk Hd Ht. pose proof (fc_forks _ _ _ Hok) as HF. pose proof (fk_tree _ _ HF) as HT. split.
  - apply HF.
  - intros p c a Hc Ha. right; left. by eapply (fk_edges _ _ HF).
  - intros p c s Hc [Hp Hs]%Ht; [|done]. left. apply Ht; [done|]. split; [|done].
    etrans; [by apply (descends_child HT)|done].
  - intros x s Hx [Hxk [= ->]]%Ht; [|done]. split; [by eapply unconfirmed_below|].
    apply (descends_slot HT) in Hxk as [->|]; lia.
  - intros x p s _ [_ [=]]%Ht. done.
  - intros x s x' s' [_ [=]]%Ht. done.
Qed.

Lemma valid_marks_ok ops :
  (forall x l, l <> LAggregate -> todo ops x l <-> descends m x k /\ l = LMarkValid k.1) -> marks_ok m ops.
Proof.
  intros Ht. pose proof (fc_forks _ _ _ Hok) as HF. pose proof (fk_tree _ _ HF) as HT. split.
  - apply HF.
  - intros p c a Hc Ha. right; left. by eapply (fk_edges _ _ HF).
  - intros p c s _ [_ [=]]%Ht. done.
  - intros x s _ [_ [=]]%Ht. done.
  - intros x p s Hp [Hx [= ->]]%Ht; [|done]. inversion Hx as [|? y ? Hy Hyk]; subst; [by left|right].
    assert (y = p) as -> by congruence. by apply Ht.
  - intros x s x' s' _ [_ [=]]%Ht. done.
Qed.

(** Marking a block that is not duplicate confirmed takes its subtree out of
    the fork choice and changes no other mark. *)
Lemma mark_invalid_ok :
  is_Some (m !! k) -> dc m k = false ->
  exists t', mark_fork_invalid_candidate k t = Ok t' /\ fc_ok t' /\ same_shape t t' /\
    (forall x, dc (fork_infos t') x = dc m x) /\
    (forall x, ~ descends m x k -> lia_of (fork_infos t') x = lia_of m x) /\
    (forall x, descends m x k -> exists a, lia_of (fork_infos t') x = Some a /\ k.1 <= a).
Proof.
  intros Hk Hd. pose proof (fc_forks _ _ _ Hok) as HF. pose proof (fk_tree _ _ HF) as HT.
  destruct (subtree_of_ok t k HF Hk Hne Hpos) as (l & Hrun & Hnd & Hl).
  destruct (mark_batch_ok HT (MarkInvalid k.1) k l I Hnd Hl) as (HG & Hdl & Ht & _). set (ops := insert_across _ _ _) in *.
  assert (Ht' : forall x l, l <> LAggregate -> todo (rev ops) x l <-> descends m x k /\ l = LMarkInvalid k.1).
  { intros x l' Hl'. rewrite todo_rev. by apply Ht. }
  destruct (batch_keeps_fc (no_valid m (fun x s => todo (rev ops) x (LMarkInvalid s))) t ops
    (no_valid_keeps _ _ _) Hok HG Hdl (invalid_marks_ok _ Hk Hd Ht')) as (t' & Hrun' & Hsh & Hok' & [N1 N2 N3 N4 N5 N6]).
  { eapply no_valid_start; [done|]. intros x s [_ [=]]%Ht'. done. }
  destruct Hk as [f Hf]. unfold mark_fork_invalid_candidate, dc in *. rewrite Hf in Hd |- *. simpl in Hd. rewrite Hd. simpl.
  rewrite Hrun. simpl. exists t'. split; [exact Hrun'|]. split; [done|]. split; [done|]. split; [done|]. split.
  - intros x Hx. apply N5. intros s [Hs _]%Ht'; done.
  - intros x Hx. assert (Hb : todo (rev ops) x (LMarkInvalid k.1)) by (by apply Ht').
    assert (Hs : is_Some (fork_infos t' !! x)) by (apply Hsh; eapply descends_up; eauto).
    destruct (N6 x k.1 Hb Hs) as [H%not_elem_of_nil|?]; done.
Qed.

Lemma unconfirmed_keys_ok ks :
  (forall x, x ∈ ks -> is_Some (m !! x)) -> unconfirmed_keys t ks = Ok (filter (fun x => dc m x = false) ks).
Proof.
  induction ks as [|x ks IH]; intros H; [done|]. simpl. destruct (H x) as [f Hf]; [left|].
  unfold get_is_duplicate_confirmed. rewrite Hf. simpl. rewrite IH by set_solver. simpl.
  rewrite filter_cons. unfold dc. rewrite Hf. simpl. by destruct (is_duplicate_confirmed f).
Qed.

(** Marking a block valid confirms it and its ancestors, reports those that
    were not confirmed before, and puts the blocks below back unless they have
    a later invalid ancestor; blocks on other forks are left as they are. *)
Lemma mark_valid_ok :
  is_Some (m !! k) ->
  exists t' newly, mark_fork_valid_candidate k t = Ok (t', newly) /\ fc_ok t' /\ same_shape t t' /\
    newly = filter (fun x => dc m x = false) (k :: ancestor_iterator t k) /\
    (forall x, descends m k x -> dc (fork_infos t') x = true /\ lia_of (fork_infos t') x = None) /\
    (forall x, descends m x k -> x <> k ->
       dc (fork_infos t') x = dc m x /\ lia_of (fork_infos t') x = clear_invalid k.1 (lia_of m x)) /\
    (forall x, ~ descends m k x -> ~ descends m x k -> fork_infos t' !! x = m !! x).
Proof.
  intros Hk. pose proof (fc_forks _ _ _ Hok) as HF. pose proof (fk_tree _ _ HF) as HT.
  destruct (subtree_of_ok t k HF Hk Hne Hpos) as (l & Hrun & Hnd & Hl).
  destruct (mark_batch_ok HT (MarkValid k.1) k l I Hnd Hl) as (HG & Hdl & Ht & Ha). set (ops := insert_across _ _ _) in *.
  assert (Ht' : forall x l, l <> LAggregate -> todo (rev ops) x l <-> descends m x k /\ l = LMarkValid k.1).
  { intros x l' Hl'. rewrite todo_rev. by apply Ht. }
  destruct (batch_keeps_fc _ t ops
    (op_keeps_and _ _ _ (valid_run_keeps _ m k HF)
       (op_keeps_and _ _ _ (confirm_keeps _ k) (untouched_keeps _ m (fun x => descends m x k \/ descends m k x))))
    Hok HG Hdl (valid_marks_ok _ Ht')) as (t' & Hrun' & Hsh & Hok' & [V1 V2 V3 V4] & [_ V5] & _ & V6).
  { assert (Hkk : descends m k k) by reflexivity.
    split; [split|split; [split; [done|left; by apply Ht']|split; [|done]]]; try done.
    - intros x l' Hx. destruct (decide (l' = LAggregate)); [by right|left]. by apply Ht' in Hx as [_ ?].
    - intros x Hx _. left. split; [by apply Ht'|done].
    - intros x l'. rewrite todo_rev. apply Ha. }
  unfold mark_fork_valid_candidate. rewrite unconfirmed_keys_ok.
  2:{ intros x [->|Hx]%elem_of_cons; [done|]. apply (elem_of_ancestors HT) in Hx as [Hx _]. by eapply (descends_dom HT). }
  simpl. rewrite Hrun. simpl. unfold ops, mark_subtree in Hrun'. unfold insert_aggregate_operations.
  unfold do_insert_aggregate_operations_across_ancestors, ancestor_iterator, ancestors_of in *. rewrite Hrun'. simpl.
  exists t'. eexists. split; [reflexivity|]. split; [done|]. split; [done|]. split; [done|]. split; [|split].
  - intros x Hx. pose proof (fc_forks _ _ _ Hok') as HF'.
    assert (Hd : dc (fork_infos t') x = true).
    { destruct V5 as [[]%not_elem_of_nil|V5]. clear -Hx V5 HF' HT Hsh. induction Hx as [|x y z Hxy Hyz IH]; [done|].
      apply IH. eapply (forks_confirm_up _ _ _ x HF'); [|done]. rewrite (sh_children _ _ Hsh). by apply (tree_child_iff HT). }
    split; [done|]. unfold dc, lia_of in *. destruct (fork_infos t' !! x) as [f|] eqn:Hf; [|done].
    by apply (ik_dup _ _ (fk_infos _ _ HF' _ _ Hf)).
  - intros x Hx Hxne. split; [by apply V3|]. destruct (V4 x Hx Hxne) as [[[]%not_elem_of_nil _]|?]; done.
  - intros x H1 H2. apply V6. tauto.
Qed.

Lemma mark_invalid_confirmed : dc m k = true -> mark_fork_invalid_candidate k t = Panic.
Proof.
  unfold dc, mark_fork_invalid_candidate. destruct (m !! k) as [f|]; [|done]. simpl. by intros ->.
Qed.
End Marks.
End Operations.
