(* ===== verification/ForkChoiceLeaf.v ===== *)
(** * New leaves in the fork choice

    [add_new_leaf_slot] does not aggregate: [propagate_new_leaf] changes
    [best_slot] and [deepest_slot] along the ancestors of the leaf and stops as
    soon as an ancestor has its choice elsewhere.  The result is the same as
    that of an aggregation of all ancestors. *)

From S2P Require Import Prelude AuthorizedVoters EpochSchedule ForkChoice ForkChoiceOps ForkChoiceTree ForkChoiceInv ForkChoiceBatch ForkChoiceVotes.

Definition best_ok (m : infos) (k : SlotHashKey) (f : ForkInfo) : Prop :=
  (is_candidate f = true -> best_choice m k (children f) (best_slot f)) /\ descends m (best_slot f) k.
Definition deep_ok (m : infos) (k : SlotHashKey) (f : ForkInfo) : Prop :=
  deepest_choice m k (children f) (height f - 1) (deepest_slot f) /\ descends m (deepest_slot f) k.

(** ** The tests on children *)
Lemma is_best_among_ok t k cs :
  (forall c, c ∈ cs -> is_Some (fork_infos t !! c)) ->
  exists b, is_best_among t (st (fork_infos t) k) k cs = Ok b /\
    (b = true <-> forall c, c ∈ cs -> cd (fork_infos t) c = true -> c = k \/ better (fork_infos t) k c).
Proof.
  induction cs as [|c cs IH]; intros Hd; simpl.
  - exists true. split; [done|]. split; [set_solver|done].
  - destruct (Hd c) as [f Hf]; [left|]. rewrite Hf. simpl.
    assert (Hcd : cd (fork_infos t) c = is_candidate f) by (unfold cd; by rewrite Hf).
    pose proof (better_test (fork_infos t) c k f Hf) as Ht. rewrite (Z.eqb_sym (stake_voted_subtree f)) in Ht.
    destruct (is_candidate f) eqn:Hc; simpl.
    + destruct (_ || _) eqn:Et.
      * exists false. split; [done|]. split; [done|]. intros H. pose proof (proj1 Ht eq_refl) as Hb.
        destruct (H c) as [->|Hb']; [left|done|by apply better_irrefl in Hb|].
        destruct (better_irrefl (fork_infos t) c). by eapply better_trans.
      * destruct IH as (b & Hrun & Hb); [set_solver|]. exists b. split; [done|]. rewrite Hb. split.
        -- intros H c' [->|Hc']%elem_of_cons Hcd'; [|auto].
           destruct (better_total (fork_infos t) c k) as [?|[Hlt%Ht|?]]; [auto|congruence|auto].
        -- intros H c' Hc'. apply H. by right.
    + destruct IH as (b & Hrun & Hb); [set_solver|]. exists b. split; [done|]. rewrite Hb. split.
      * intros H c' [->|Hc']%elem_of_cons Hcd'; [congruence|auto].
      * intros H c' Hc'. apply H. by right.
Qed.

Lemma is_deepest_among_ok t k cs :
  (forall c, c ∈ cs -> is_Some (fork_infos t !! c)) ->
  exists b, is_deepest_among t (st (fork_infos t) k) (ht (fork_infos t) k) k cs = Ok b /\
    (b = true <-> forall c, c ∈ cs -> c = k \/ deeper (fork_infos t) k c).
Proof.
  induction cs as [|c cs IH]; intros Hd; simpl.
  - exists true. split; [done|]. split; [set_solver|done].
  - destruct (Hd c) as [f Hf]; [left|]. rewrite Hf. simpl.
    pose proof (deeper_test (fork_infos t) c k f Hf) as Ht.
    destruct IH as (b & Hrun & Hb); [set_solver|].
    assert (Hno : deeper (fork_infos t) c k -> (forall c', c' ∈ c :: cs -> c' = k \/ deeper (fork_infos t) k c') -> False).
    { intros Hlt H. destruct (H c) as [->|Hb']; [left|by apply deeper_irrefl in Hlt|].
      destruct (deeper_irrefl (fork_infos t) c). by eapply deeper_trans. }
    assert (Hyes : ~ deeper (fork_infos t) c k -> b = true <-> (forall c', c' ∈ c :: cs -> c' = k \/ deeper (fork_infos t) k c')).
    { intros Hn. rewrite Hb. split; [|intros H c' Hc'; apply H; by right].
      intros H c' [->|Hc']%elem_of_cons; [|auto]. destruct (deeper_total (fork_infos t) c k) as [?|[?|?]]; auto; done. }
    destruct (Z.compare (height f) (ht (fork_infos t) k)), (Z.compare (stake_voted_subtree f) (st (fork_infos t) k)),
      (key_compare c k);
      first [exists false; split; [done|]; split; [done|]; intros H; exfalso; by apply Hno; [apply Ht|]
            |exists b; split; [done|]; apply Hyes; intros H%Ht; done].
Qed.

Lemma is_deepest_child_ok t root k p :
  tree_ok (fork_infos t) root -> parent_of (fork_infos t) k = Some p ->
  exists b, is_deepest_child t k = Ok b /\
    (b = true <-> forall c, c ∈ children_of (fork_infos t) p -> c = k \/ deeper (fork_infos t) k c).
Proof.
  intros HT Hp. destruct (parent_of_dom _ _ _ Hp) as [f Hf]. destruct (tree_parent_dom HT _ _ Hp) as [pf Hpf].
  destruct (is_deepest_among_ok t k (children_of (fork_infos t) p)) as (b & Hrun & Hb).
  { intros c. apply (tree_child_dom HT). }
  exists b. split; [|done]. rewrite <-Hrun. unfold is_deepest_child, get_stake_voted_subtree, get_height, get_parent, get_children.
  unfold st, ht, parent_of, children_of in *. rewrite Hf in Hp |- *. simpl in *. rewrite Hp, Hpf. done.
Qed.

Lemma is_best_child_ok t root k p :
  tree_ok (fork_infos t) root -> parent_of (fork_infos t) k = Some p ->
  exists b, is_best_child t k = Ok b /\
    (b = true <-> forall c, c ∈ children_of (fork_infos t) p -> cd (fork_infos t) c = true -> c = k \/ better (fork_infos t) k c).
Proof.
  intros HT Hp. destruct (parent_of_dom _ _ _ Hp) as [f Hf]. destruct (tree_parent_dom HT _ _ Hp) as [pf Hpf].
  destruct (is_best_among_ok t k (children_of (fork_infos t) p)) as (b & Hrun & Hb).
  { intros c. apply (tree_child_dom HT). }
  exists b. split; [|done]. rewrite <-Hrun. unfold is_best_child, get_stake_voted_subtree, get_parent, get_children.
  unfold st, parent_of, children_of in *. rewrite Hf in Hp |- *. simpl in *. rewrite Hp, Hpf. done.
Qed.

(** ** The loop over [best_slot] *)
Definition same_but_best (m m' : infos) : Prop :=
  forall x, set_best_slot key_default <$> m' !! x = set_best_slot key_default <$> m !! x.
Definition same_but_deepest (m m' : infos) : Prop :=
  forall x, set_deepest key_default 0 <$> m' !! x = set_deepest key_default 0 <$> m !! x.

Lemma same_but_best_upd (m : infos) k f b : m !! k = Some f -> same_but_best m (<[k := set_best_slot b f]> m).
Proof. intros Hf x. destruct (decide (x = k)) as [->|]; by simplify_map_eq. Qed.
Lemma same_but_deepest_upd (m : infos) k f b h : m !! k = Some f -> same_but_deepest m (<[k := set_deepest b h f]> m).
Proof. intros Hf x. destruct (decide (x = k)) as [->|]; by simplify_map_eq. Qed.

Lemma set_best_slot_back b f : set_best_slot (best_slot f) (set_best_slot b f) = f.
Proof. by destruct f. Qed.

Lemma set_best_reads m k f b x :
  m !! k = Some f -> x <> k \/ b = best_slot f ->
  st (<[k := set_best_slot b f]> m) x = st m x /\ cd (<[k := set_best_slot b f]> m) x = cd m x /\
  bs (<[k := set_best_slot b f]> m) x = bs m x.
Proof.
  intros Hf H. unfold st, cd, bs. destruct (decide (x = k)) as [->|Hne]; simplify_map_eq; [|done].
  destruct H as [?| ->]; done.
Qed.

Lemma set_best_step m root a fa cc fcc old k :
  tree_ok m root -> parent_of m cc = Some a -> m !! a = Some fa -> m !! cc = Some fcc -> best_slot fcc = k ->
  descends m old cc -> descends m k cc ->
  (forall x f, m !! x = Some f -> x <> a -> descends m (best_slot f) x) ->
  best_ok (<[cc := set_best_slot old fcc]> m) a fa ->
  best_ok m a (if decide (best_slot fa = old) then set_best_slot k fa else fa).
Proof.
  intros HT Hp Ha Hcc Hk Hold Hkd Hins [Hbest Hin].
  assert (Hlk : same_links fcc (set_best_slot old fcc)) by done.
  rewrite (upd_descends _ _ _ _ Hcc Hlk) in Hin.
  assert (Hac : cc ∈ children_of m a) by (by apply (tree_child_iff HT)).
  assert (Hac' : cc ∈ children fa) by (by rewrite <-(children_of_Some _ _ _ Ha)).
  assert (Hother : forall x, x <> cc -> st (<[cc := set_best_slot old fcc]> m) x = st m x /\
    cd (<[cc := set_best_slot old fcc]> m) x = cd m x /\ bs (<[cc := set_best_slot old fcc]> m) x = bs m x).
  { intros x Hx. apply set_best_reads; auto. }
  assert (Hsc : forall x, st (<[cc := set_best_slot old fcc]> m) x = st m x /\ cd (<[cc := set_best_slot old fcc]> m) x = cd m x).
  { intros x. destruct (decide (x = cc)) as [->|Hx]; [|by destruct (Hother x Hx) as (? & ? & _)].
    unfold st, cd. by simplify_map_eq. }
  assert (Hbc : forall c, best_child (<[cc := set_best_slot old fcc]> m) (children fa) c -> best_child m (children fa) c).
  { intros c (H1 & H2 & H3). destruct (Hsc c) as [E1 E2]. split; [done|]. split; [congruence|].
    intros c' Hc' Hcd'. destruct (Hsc c') as [E1' E2']. unfold better in *. rewrite <-E1, <-E1'. apply H3; congruence. }
  assert (Hbscc : bs (<[cc := set_best_slot old fcc]> m) cc = old) by (unfold bs; by simplify_map_eq).
  destruct (decide (best_slot fa = old)) as [E|E]; split; simpl.
  - intros Hcd. right. destruct (Hbest Hcd) as [[_ Hba]|(c & Hc & Hbc')].
    + rewrite <-E, Hba in Hold. by apply (child_not_descends HT) in Hac.
    + exists c. split; [by apply Hbc|]. destruct (decide (c = cc)) as [->|Hne]; [unfold bs; by rewrite Hcc|].
      exfalso. apply Hne. destruct (Hother c Hne) as (_ & _ & Hbs). rewrite Hbs, E in Hbc'.
      assert (Hca : c ∈ children_of m a) by (rewrite (children_of_Some _ _ _ Ha); apply Hc).
      eapply (descends_one_child HT old a); [done|done| |done]. rewrite Hbc'.
      destruct (tree_child_dom HT _ _ Hca) as [g Hg]. unfold bs. rewrite Hg. simpl. apply Hins; [done|].
      intros ->. apply (tree_child_slot HT) in Hca. lia.
  - etrans; [exact Hkd|]. by apply (descends_child HT).
  - intros Hcd. destruct (Hbest Hcd) as [[Hn Hba]|(c & Hc & Hbc')].
    + left. split; [|done]. intros c Hc. destruct (Hsc c) as [_ <-]. by apply Hn.
    + right. exists c. split; [by apply Hbc|]. destruct (decide (c = cc)) as [->|Hne]; [by rewrite Hbscc in Hbc'|].
      by destruct (Hother c Hne) as (_ & _ & <-).
  - done.
Qed.

Lemma best_ok_other m root a fa b x f :
  tree_ok m root -> m !! a = Some fa -> parent_of m a <> Some x -> m !! x = Some f -> best_ok m x f ->
  best_ok (<[a := set_best_slot b fa]> m) x f.
Proof.
  intros HT Ha Hp Hx [H1 H2]. assert (Hlk : same_links fa (set_best_slot b fa)) by done. split.
  - intros Hcd. eapply best_choice_ext; [|by apply H1]. intros c Hc.
    destruct (set_best_reads m a fa b c Ha) as (-> & -> & ->); [|done]. left. intros ->. apply Hp, (tk_child _ _ HT).
    by rewrite (children_of_Some _ _ _ Hx).
  - by rewrite (upd_descends _ _ _ _ Ha Hlk).
Qed.

Lemma best_ok_self m root a fa b f :
  tree_ok m root -> m !! a = Some fa -> children f = children fa -> best_ok m a f -> best_ok (<[a := set_best_slot b fa]> m) a f.
Proof.
  intros HT Ha Hch [H1 H2]. assert (Hlk : same_links fa (set_best_slot b fa)) by done. split.
  - intros Hcd. eapply best_choice_ext; [|by apply H1]. intros c Hc.
    destruct (set_best_reads m a fa b c Ha) as (-> & -> & ->); [|done]. left. intros ->.
    rewrite Hch, <-(children_of_Some _ _ _ Ha) in Hc. apply (tree_child_slot HT) in Hc. lia.
  - by rewrite (upd_descends _ _ _ _ Ha Hlk).
Qed.

Lemma propagate_best_ok fuel t root a cc fa fcc old k :
  tree_ok (fork_infos t) root -> parent_of (fork_infos t) cc = Some a -> (S (slots_below (fork_infos t) a) < fuel)%nat ->
  fork_infos t !! a = Some fa -> fork_infos t !! cc = Some fcc -> best_slot fcc = k ->
  descends (fork_infos t) old cc -> descends (fork_infos t) k cc ->
  (forall x f, fork_infos t !! x = Some f -> x <> a -> best_ok (fork_infos t) x f) ->
  best_ok (<[cc := set_best_slot old fcc]> (fork_infos t)) a fa ->
  exists t', propagate_best fuel old k (Some a) t = Ok t' /\ latest_votes t' = latest_votes t /\ tree_root t' = tree_root t /\
    same_but_best (fork_infos t) (fork_infos t') /\
    forall x f, fork_infos t' !! x = Some f -> best_ok (fork_infos t') x f.
Proof.
  revert t a cc fa fcc. induction fuel as [|fuel IH]; intros t a cc fa fcc HT Hp Hfuel Ha Hcc Hk Hold Hkd Hoth Hown; [lia|].
  simpl. rewrite Ha. simpl.
  pose proof (set_best_step _ root a fa cc fcc old k HT Hp Ha Hcc Hk Hold Hkd
    (fun x f Hx Hne => proj2 (Hoth x f Hx Hne)) Hown) as Hstep.
  destruct (decide (best_slot fa = old)) as [E|E].
  - rewrite bool_decide_true by done. set (fa' := set_best_slot k fa) in *. set (m' := <[a := fa']> (fork_infos t)).
    assert (Hlk : same_links fa fa') by done.
    assert (HT' : tree_ok m' root) by (by eapply upd_tree).
    assert (Hoth' : forall x f, m' !! x = Some f -> parent_of (fork_infos t) a <> Some x -> best_ok m' x f).
    { intros x f Hx Hne. unfold m' in *. destruct (decide (x = a)) as [->|Hxa]; simplify_map_eq.
      - by eapply best_ok_self.
      - eapply best_ok_other; try done. by apply Hoth. }
    destruct (fi_parent fa) as [q|] eqn:Hq.
    + assert (Hpq : parent_of (fork_infos t) a = Some q) by (by rewrite (parent_of_Some _ _ _ Ha)).
      assert (Hlt : q.1 < a.1) by by apply (tk_parent _ _ HT) in Hpq as [? _].
      destruct (tree_parent_dom HT _ _ Hpq) as [fq Hfq].
      pose proof (slots_below_lt _ a q ltac:(eauto) Hlt) as Hrank.
      destruct (IH (set_infos m' t) q a fq fa') as (t' & Hrun & Hv & Hr & Hsb & Hall); simpl.
      * done.
      * unfold m'. by rewrite (upd_parent _ _ _ _ Ha Hlk).
      * unfold m'. rewrite slots_below_upd by eauto. lia.
      * unfold m'. rewrite lookup_insert_ne; [done|]. intros ->. lia.
      * unfold m'. by simplify_map_eq.
      * done.
      * unfold m'. rewrite (upd_descends _ _ _ _ Ha Hlk). etrans; [exact Hold|]. by apply rtc_once.
      * unfold m'. rewrite (upd_descends _ _ _ _ Ha Hlk). etrans; [exact Hkd|]. by apply rtc_once.
      * intros x f Hx Hne. apply Hoth'; [done|]. congruence.
      * unfold m'. rewrite insert_insert_eq. assert (Hback : set_best_slot old fa' = fa).
        { subst old. by destruct fa. }
        rewrite Hback, insert_id by done. apply Hoth; [done|]. intros ->. lia.
      * exists t'. split; [done|]. split; [done|]. split; [done|]. split; [|done].
        intros x. rewrite Hsb. simpl. by apply same_but_best_upd.
    + destruct fuel as [|fuel]; [lia|]. simpl. eexists. split; [reflexivity|]. simpl. split; [done|]. split; [done|]. split.
      * by apply same_but_best_upd.
      * intros x f Hx. apply Hoth'; [done|]. rewrite (parent_of_Some _ _ _ Ha). congruence.
  - rewrite bool_decide_false by done. exists t. split; [done|]. split; [done|]. split; [done|]. split; [done|].
    intros x f Hx. destruct (decide (x = a)) as [->|]; [by simplify_eq|by apply Hoth].
Qed.

(** ** The loop over [deepest_slot] *)

(** What is known of the parent [a] of the block [cc] whose height has grown:
    its entry is right for the children [cs0] in an earlier tree [m0]. *)
Record deep_pre (m : infos) (a : SlotHashKey) (fa : ForkInfo) (cc : SlotHashKey) (cs0 : list SlotHashKey) (m0 : infos) : Prop :=
  mk_deep_pre {
  dp_cs : forall c, c ∈ children fa <-> c = cc \/ c ∈ cs0;
  dp_choice : deepest_choice m0 a cs0 (height fa - 1) (deepest_slot fa);
  dp_same : forall c, c ∈ cs0 -> c <> cc -> st m0 c = st m c /\ ht m0 c = ht m c /\ ds m0 c = ds m c;
  dp_grown : cc ∈ cs0 -> ht m0 cc <= ht m cc /\ st m0 cc = st m cc;
  dp_in : descends m (deepest_slot fa) a
}.

Lemma deep_step_yes m root a fa cc cs0 m0 k :
  tree_ok m root -> m !! a = Some fa -> deep_pre m a fa cc cs0 m0 -> ds m cc = k -> descends m k cc -> 0 <= ht m cc ->
  (forall c, c ∈ children fa -> c = cc \/ deeper m cc c) ->
  deep_ok m a (set_deepest k (ht m cc + 1) fa) /\ height fa <= ht m cc + 1.
Proof.
  intros HT Ha [D1 D2 D3 D4 D5] Hds Hk Hh Hmax.
  assert (Hcc : cc ∈ children fa) by (apply D1; by left). split; [split|].
  - right. exists cc. simpl. split; [by split|]. split; [lia|done].
  - simpl. etrans; [exact Hk|]. apply (descends_child HT). by rewrite (children_of_Some _ _ _ Ha).
  - destruct D2 as [(_ & ? & _)|(c & (Hc & _) & Hhc & _)]; [lia|].
    destruct (decide (c = cc)) as [->|Hne]; [destruct (D4 Hc); lia|]. destruct (D3 c Hc Hne) as (_ & Eh & _).
    destruct (Hmax c) as [?|[?|[? _]]]; [apply D1; by right|done|lia|lia].
Qed.

Lemma deep_step_no m a fa cc cs0 m0 c' :
  deep_pre m a fa cc cs0 m0 -> c' ∈ children fa -> c' <> cc -> ~ deeper m cc c' -> deep_ok m a fa.
Proof.
  intros [D1 D2 D3 D4 D5] Hc' Hne Hno. split; [|done].
  assert (Hc0 : c' ∈ cs0) by (apply D1 in Hc' as [?|?]; done).
  assert (Hlt : deeper m c' cc) by (destruct (deeper_total m c' cc) as [?|[?|?]]; done).
  destruct D2 as [(-> & _)|(c & (Hc & Hmax) & Hhc & Hdc)]; [by apply not_elem_of_nil in Hc0|].
  assert (Hsame : forall x y, x ∈ cs0 -> y ∈ cs0 -> x <> cc -> y <> cc -> deeper m0 x y -> deeper m x y).
  { intros x y Hx Hy Hxn Hyn. destruct (D3 x Hx Hxn) as (Ex1 & Ex2 & _), (D3 y Hy Hyn) as (Ey1 & Ey2 & _).
    unfold deeper, better. by rewrite Ex1, Ex2, Ey1, Ey2. }
  right. destruct (decide (c = cc)) as [->|Hcn].
  - exfalso. destruct (D4 Hc) as [G1 G2]. destruct (D3 c' Hc0 Hne) as (E1 & E2 & _).
    destruct (Hmax c' Hc0) as [?|Hd]; [done|]. apply Hno. revert Hd. unfold deeper, better. rewrite E1, E2, G2.
    intros [?|[??]]; [left; lia|]. destruct (Z.eq_dec (ht m cc) (ht m c')); [by right|left; lia].
  - destruct (D3 c Hc Hcn) as (E1 & E2 & E3). exists c. rewrite <-E2, <-E3. split; [|done]. split; [apply D1; by right|].
    assert (Hcc' : c = c' \/ deeper m c c') by (destruct (Hmax c' Hc0) as [->|?]; auto).
    intros x [->|Hx]%D1; [right|].
    + destruct Hcc' as [->|?]; [done|by eapply deeper_trans].
    + destruct (decide (x = cc)) as [->|Hxn]; [right; destruct Hcc' as [->|?]; [done|by eapply deeper_trans]|].
      destruct (Hmax x Hx) as [?|?]; auto.
Qed.

Lemma set_deepest_reads m k f d h x :
  m !! k = Some f ->
  st (<[k := set_deepest d h f]> m) x = st m x /\
  (x <> k -> ht (<[k := set_deepest d h f]> m) x = ht m x /\ ds (<[k := set_deepest d h f]> m) x = ds m x).
Proof. intros Hf. unfold st, ht, ds. destruct (decide (x = k)) as [->|Hne]; by simplify_map_eq. Qed.

Lemma deep_ok_upd m root a fa d h x f :
  tree_ok m root -> m !! a = Some fa -> a ∉ children f -> deep_ok m x f -> deep_ok (<[a := set_deepest d h fa]> m) x f.
Proof.
  intros HT Ha Hn [H1 H2]. assert (Hlk : same_links fa (set_deepest d h fa)) by done. split.
  - eapply deepest_choice_ext; [|done]. intros c Hc. destruct (set_deepest_reads m a fa d h c Ha) as [-> H].
    destruct H as [-> ->]; [|done]. by intros ->.
  - by rewrite (upd_descends _ _ _ _ Ha Hlk).
Qed.

Lemma propagate_deepest_ok fuel t root a cc fa cs0 m0 k :
  tree_ok (fork_infos t) root -> parent_of (fork_infos t) cc = Some a -> (S (slots_below (fork_infos t) a) < fuel)%nat ->
  fork_infos t !! a = Some fa -> ds (fork_infos t) cc = k -> descends (fork_infos t) k cc -> 0 <= ht (fork_infos t) cc ->
  (forall x f, fork_infos t !! x = Some f -> x <> a -> deep_ok (fork_infos t) x f) ->
  deep_pre (fork_infos t) a fa cc cs0 m0 ->
  exists t', propagate_deepest fuel k cc (ht (fork_infos t) cc) (Some a) t = Ok t' /\ latest_votes t' = latest_votes t /\
    tree_root t' = tree_root t /\ same_but_deepest (fork_infos t) (fork_infos t') /\
    forall x f, fork_infos t' !! x = Some f -> deep_ok (fork_infos t') x f.
Proof.
  revert t a cc fa cs0 m0. induction fuel as [|fuel IH]; intros t a cc fa cs0 m0 HT Hp Hfuel Ha Hds Hkd Hh Hoth Hpre; [lia|].
  simpl. destruct (is_deepest_child_ok t root cc a HT Hp) as (b & Hrun & Hb). rewrite Hrun. simpl.
  rewrite (children_of_Some _ _ _ Ha) in Hb. destruct b.
  - destruct (deep_step_yes _ root a fa cc cs0 m0 k HT Ha Hpre Hds Hkd Hh (proj1 Hb eq_refl)) as [Hself Hgrow].
    rewrite Ha. simpl. set (h := ht (fork_infos t) cc + 1) in *. set (fa' := set_deepest k h fa) in *.
    set (m' := <[a := fa']> (fork_infos t)). assert (Hlk : same_links fa fa') by done.
    assert (HT' : tree_ok m' root) by (by eapply upd_tree).
    assert (Hna : forall x f, fork_infos t !! x = Some f -> parent_of (fork_infos t) a <> Some x -> a ∉ children f).
    { intros x f Hx Hne Hc. apply Hne, (tk_child _ _ HT). by rewrite (children_of_Some _ _ _ Hx). }
    assert (Hoth' : forall x f, m' !! x = Some f -> parent_of (fork_infos t) a <> Some x -> deep_ok m' x f).
    { intros x f Hx Hne. unfold m' in *. destruct (decide (x = a)) as [->|Hxa]; simplify_map_eq.
      - eapply deep_ok_upd; try done. exact (Hna a fa Ha Hne).
      - eapply deep_ok_upd; try done; [by eapply Hna|by apply Hoth]. }
    destruct (fi_parent fa) as [q|] eqn:Hq.
    + assert (Hpq : parent_of (fork_infos t) a = Some q) by (by rewrite (parent_of_Some _ _ _ Ha)).
      assert (Hlt : q.1 < a.1) by by apply (tk_parent _ _ HT) in Hpq as [? _].
      destruct (tree_parent_dom HT _ _ Hpq) as [fq Hfq].
      pose proof (slots_below_lt _ a q ltac:(eauto) Hlt) as Hrank.
      assert (Hht : ht m' a = h) by (unfold ht, m'; by simplify_map_eq).
      destruct (IH (set_infos m' t) q a fq (children fq) (fork_infos t)) as (t' & Hrun' & Hv & Hr & Hsb & Hall);
        simpl; rewrite ?Hht.
      * done.
      * unfold m'. by rewrite (upd_parent _ _ _ _ Ha Hlk).
      * unfold m'. rewrite slots_below_upd by eauto. lia.
      * unfold m'. rewrite lookup_insert_ne; [done|]. intros ->. lia.
      * unfold ds, m'. by simplify_map_eq.
      * unfold m'. rewrite (upd_descends _ _ _ _ Ha Hlk). etrans; [exact Hkd|]. by apply rtc_once.
      * subst h. lia.
      * intros x f Hx Hne. apply Hoth'; [done|]. congruence.
      * destruct (Hoth q fq Hfq) as [Hq1 Hq2]; [intros ->; lia|]. split.
        -- intros c. split; [by right|]. intros [->|?]; [|done].
           apply (tree_child_iff HT) in Hpq. by rewrite (children_of_Some _ _ _ Hfq) in Hpq.
        -- done.
        -- intros c _ Hne. destruct (set_deepest_reads _ a fa k h c Ha) as [E1 E2]. destruct (E2 Hne). done.
        -- intros _. rewrite Hht. destruct (set_deepest_reads _ a fa k h a Ha) as [E1 _]. split; [|done].
           unfold ht at 1. by rewrite Ha.
        -- unfold m'. by rewrite (upd_descends _ _ _ _ Ha Hlk).
      * simpl in Hrun'. rewrite Hht in Hrun'. exists t'. split; [done|]. split; [done|]. split; [done|]. split; [|done].
        intros x. rewrite Hsb. simpl. by apply same_but_deepest_upd.
    + destruct fuel as [|fuel]; [lia|]. simpl. eexists. split; [reflexivity|]. simpl. split; [done|]. split; [done|]. split.
      * by apply same_but_deepest_upd.
      * intros x f Hx. apply Hoth'; [done|]. rewrite (parent_of_Some _ _ _ Ha). congruence.
  - exists t. split; [done|]. split; [done|]. split; [done|]. split; [done|].
    intros x f Hx. destruct (decide (x = a)) as [->|]; [|by apply Hoth]. simplify_eq.
    assert (Hex : ~ forall c, c ∈ children fa -> c = cc \/ deeper (fork_infos t) cc c) by (intros H; by apply Hb in H).
    destruct (decide (Exists (fun c => c <> cc /\ ~ deeper (fork_infos t) cc c) (children fa))) as [He|He].
    + apply Exists_exists in He as (c & Hc & ? & ?). by eapply deep_step_no.
    + exfalso. apply Hex. intros c Hc. destruct (decide (c = cc)); [by left|right].
      destruct (decide (deeper (fork_infos t) cc c)); [done|]. exfalso. apply He, Exists_exists. eauto.
Qed.

(** ** Putting the two loops together *)
Definition base_ok (m : infos) (f : ForkInfo) : Prop :=
  stake_voted_subtree f = wrap64 (stake_voted_at f + child_stakes m (children f)) /\
  (forall c, c ∈ children f -> dc m c = true -> is_duplicate_confirmed f = true).

Lemma node_ok_parts m k f : node_ok m k f <-> base_ok m f /\ best_ok m k f /\ deep_ok m k f.
Proof. split; [intros []; by repeat split|]. intros ([] & [] & []). by split. Qed.

(** The fields that the loops leave alone. *)
Definition fixed (f : ForkInfo) :=
  (stake_voted_at f, stake_voted_subtree f, fi_parent f, children f, latest_invalid_ancestor f, is_duplicate_confirmed f).
Definition same_fixed (m m' : infos) : Prop := forall x, fixed <$> m' !! x = fixed <$> m !! x.

Lemma same_best_fixed m m' : same_but_best m m' -> same_fixed m m'.
Proof.
  intros H x. specialize (H x). apply (f_equal (fmap fixed)) in H. by destruct (m !! x), (m' !! x).
Qed.
Lemma same_deepest_fixed m m' : same_but_deepest m m' -> same_fixed m m'.
Proof.
  intros H x. specialize (H x). apply (f_equal (fmap fixed)) in H. by destruct (m !! x), (m' !! x).
Qed.
Lemma same_fixed_trans m1 m2 m3 : same_fixed m1 m2 -> same_fixed m2 m3 -> same_fixed m1 m3.
Proof. intros H1 H2 x. by rewrite H2, H1. Qed.

Lemma fixed_facts m m' x :
  same_fixed m m' ->
  parent_of m' x = parent_of m x /\ children_of m' x = children_of m x /\ st m' x = st m x /\ cd m' x = cd m x /\
  dc m' x = dc m x /\ lia_of m' x = lia_of m x /\ stake_at m' x = stake_at m x /\ (is_Some (m' !! x) <-> is_Some (m !! x)).
Proof.
  intros H. specialize (H x). unfold fixed, parent_of, children_of, st, cd, dc, lia_of, stake_at, is_candidate in *.
  destruct (m !! x) as [f|], (m' !! x) as [g|]; simpl in *; [|done..].
  injection H as E1 E2 E3 E4 E5 E6. rewrite E1, E2, E3, E4, E5, E6. repeat split; by eexists.
Qed.
Lemma fixed_descends m m' x y : same_fixed m m' -> descends m' x y <-> descends m x y.
Proof. intros H. split; apply descends_shape; intros z; by destruct (fixed_facts m m' z H) as [E _]. Qed.
Lemma fixed_tree m m' root : same_fixed m m' -> tree_ok m root -> tree_ok m' root.
Proof.
  intros H [H1 H2 H3 H4 H5].
  assert (Hp : forall x, parent_of m' x = parent_of m x) by (intros x; by apply (fixed_facts m m' x H)).
  assert (Hc : forall x, children_of m' x = children_of m x) by (intros x; by apply (fixed_facts m m' x H)).
  assert (Hd : forall x, is_Some (m' !! x) <-> is_Some (m !! x)) by (intros x; by apply (fixed_facts m m' x H)).
  split; intros *; rewrite ?Hp, ?Hc, ?Hd; auto.
Qed.

Lemma fixed_lookup m m' x g :
  same_fixed m m' -> m' !! x = Some g -> exists f, m !! x = Some f /\ fixed g = fixed f.
Proof. intros H Hg. specialize (H x). rewrite Hg in H. destruct (m !! x) as [f|]; [|done]. exists f. split; [done|]. simpl in H. congruence. Qed.

Lemma fixed_base m m' f g : same_fixed m m' -> fixed g = fixed f -> base_ok m f -> base_ok m' g.
Proof.
  intros H Hfg [H1 H2]. unfold fixed in Hfg. simplify_eq. split.
  - rewrite (child_stakes_ext m' m); [congruence|]. intros c _. by destruct (fixed_facts m m' c H) as (_ & _ & ? & _).
  - intros c Hc Hd. destruct (fixed_facts m m' c H) as (_ & _ & _ & _ & E & _). rewrite E in Hd. erewrite <-H2; [done| |done]. congruence.
Qed.

Lemma deepest_loop_best m m' x g :
  same_but_deepest m m' -> m' !! x = Some g -> (forall f, m !! x = Some f -> best_ok m x f) -> best_ok m' x g.
Proof.
  intros H Hg Hf. pose proof (same_deepest_fixed _ _ H) as HF.
  assert (Hbs : forall c, bs m' c = bs m c).
  { intros c. specialize (H c). apply (f_equal (fmap best_slot)) in H. unfold bs. destruct (m !! c), (m' !! c); simpl in *; congruence. }
  destruct (m !! x) as [f|] eqn:Hx; [|specialize (H x); by rewrite Hg, Hx in H].
  destruct (Hf f eq_refl) as [H1 H2]. pose proof (Hbs x) as Ebs. unfold bs in Ebs. rewrite Hg, Hx in Ebs. simpl in Ebs.
  destruct (fixed_lookup _ _ _ _ HF Hg) as (f' & Hf' & Efg). assert (f' = f) as -> by congruence. injection Efg as E1 E2 E3 E4 E5 E6.
  unfold best_ok, is_candidate in *. rewrite Ebs, E4, E5, (fixed_descends _ _ _ _ HF). split; [|done].
  intros Hcd. eapply best_choice_ext; [|by apply H1]. intros c _.
  destruct (fixed_facts m m' c HF) as (_ & _ & E & E' & _). by rewrite E, E', Hbs.
Qed.

Lemma best_loop_deepest m m' x g :
  same_but_best m m' -> m' !! x = Some g -> (forall f, m !! x = Some f -> deep_ok m x f) -> deep_ok m' x g.
Proof.
  intros H Hg Hf. pose proof (same_best_fixed _ _ H) as HF.
  assert (Hrd : forall c, ht m' c = ht m c /\ ds m' c = ds m c).
  { intros c. specialize (H c). apply (f_equal (fmap (fun f => (height f, deepest_slot f)))) in H.
    unfold ht, ds. destruct (m !! c), (m' !! c); simpl in *; split; congruence. }
  destruct (m !! x) as [f|] eqn:Hx; [|specialize (H x); by rewrite Hg, Hx in H].
  destruct (Hf f eq_refl) as [H1 H2]. destruct (Hrd x) as [Eh Ed]. unfold ht, ds in Eh, Ed. rewrite Hg, Hx in Eh, Ed. simpl in Eh, Ed.
  destruct (fixed_lookup _ _ _ _ HF Hg) as (f' & Hf' & Efg). assert (f' = f) as -> by congruence. injection Efg as E1 E2 E3 E4 E5 E6.
  unfold deep_ok. rewrite Eh, Ed, E4, (fixed_descends _ _ _ _ HF). split; [|done].
  eapply deepest_choice_ext; [|done]. intros c _.
  destruct (fixed_facts m m' c HF) as (_ & _ & E & _). destruct (Hrd c) as [E' E'']. by rewrite E, E', E''.
Qed.

(** ** The new leaf *)
Section Leaf.
Context (m : infos) (root k p : SlotHashKey) (pf : ForkInfo).
Context (HF : forks_ok m root) (Hk : m !! k = None) (Hp : m !! p = Some pf) (Hlt : p.1 < k.1).

Definition leaf_info : ForkInfo := mkForkInfo 0 0 1 k k (Some p) [] (latest_invalid_ancestor pf) false.
Definition leaf_parent : ForkInfo := set_children (set_insert k (children pf)) pf.
Definition with_leaf : infos := <[p := leaf_parent]> (<[k := leaf_info]> m).

Lemma leaf_ne : p <> k.
Proof. intros ->. lia. Qed.
Lemma with_leaf_k : with_leaf !! k = Some leaf_info.
Proof. unfold with_leaf. rewrite lookup_insert_ne by apply leaf_ne. apply lookup_insert_eq. Qed.
Lemma with_leaf_p : with_leaf !! p = Some leaf_parent.
Proof. apply lookup_insert_eq. Qed.
Lemma with_leaf_other x : x <> k -> x <> p -> with_leaf !! x = m !! x.
Proof. intros ??. unfold with_leaf. by rewrite !lookup_insert_ne. Qed.
Lemma leaf_not_child x : k ∉ children_of m x.
Proof. intros [f Hf]%(tree_child_dom (fk_tree _ _ HF)). congruence. Qed.

Lemma with_leaf_parent x : parent_of with_leaf x = if decide (x = k) then Some p else parent_of m x.
Proof.
  unfold parent_of. destruct (decide (x = k)) as [->|Hxk]; [by rewrite with_leaf_k|].
  destruct (decide (x = p)) as [->|Hxp]; [by rewrite with_leaf_p, Hp|by rewrite with_leaf_other].
Qed.
Lemma with_leaf_children x c : c ∈ children_of with_leaf x <-> c ∈ children_of m x \/ x = p /\ c = k.
Proof.
  unfold children_of. destruct (decide (x = k)) as [->|Hxk].
  - rewrite with_leaf_k, Hk. simpl. pose proof leaf_ne. set_solver.
  - destruct (decide (x = p)) as [->|Hxp]; [|rewrite with_leaf_other by done; naive_solver].
    rewrite with_leaf_p, Hp. simpl. rewrite elem_of_set_insert. naive_solver.
Qed.
Lemma with_leaf_dom x : is_Some (with_leaf !! x) <-> x = k \/ is_Some (m !! x).
Proof.
  destruct (decide (x = k)) as [->|Hxk]; [rewrite with_leaf_k; split; [by left|by eexists]|].
  destruct (decide (x = p)) as [->|Hxp]; [rewrite with_leaf_p, Hp; split; [right; by eexists|by eexists]|].
  rewrite with_leaf_other by done. split; [by right|by intros [?|?]].
Qed.
Lemma with_leaf_descends x y : descends m x y -> descends with_leaf x y.
Proof.
  apply rtc_subrel. intros a b Hab. rewrite with_leaf_parent. destruct (decide (a = k)) as [->|]; [|done].
  apply parent_of_dom in Hab as [? ?]. congruence.
Qed.

Lemma with_leaf_tree : tree_ok with_leaf root.
Proof.
  pose proof (fk_tree _ _ HF) as HT. destruct (tk_root _ _ HT) as [[rf Hr] Hrp].
  assert (Hrk : root <> k) by congruence. split.
  - rewrite with_leaf_dom, with_leaf_parent, decide_False by done. split; [right; by eexists|done].
  - intros x Hx. rewrite with_leaf_parent. destruct (decide (x = k)) as [->|Hxk]; [done|].
    apply with_leaf_dom in Hx as [?|Hx]; [done|]. by apply (tk_only_root _ _ HT).
  - intros x q. rewrite with_leaf_parent, with_leaf_children. destruct (decide (x = k)) as [->|Hxk].
    + intros [= <-]. auto.
    + intros Hq. apply (tk_parent _ _ HT) in Hq as [? ?]. auto.
  - intros x c. rewrite with_leaf_children, with_leaf_parent. intros [Hc|[-> ->]]; [|by rewrite decide_True].
    rewrite decide_False; [by apply (tk_child _ _ HT)|]. intros ->. by apply leaf_not_child in Hc.
  - intros x. unfold children_of. destruct (decide (x = k)) as [->|Hxk]; [rewrite with_leaf_k; constructor|].
    destruct (decide (x = p)) as [->|Hxp].
    + rewrite with_leaf_p. simpl. apply set_insert_sorted. rewrite <-(children_of_Some _ _ _ Hp). apply (tk_sorted _ _ HT).
    + rewrite with_leaf_other by done. apply (tk_sorted _ _ HT).
Qed.

Lemma with_leaf_reads x : x <> k -> reads with_leaf x = reads m x.
Proof.
  intros Hx. unfold reads. destruct (decide (x = p)) as [->|]; [by rewrite with_leaf_p, Hp|by rewrite with_leaf_other].
Qed.

Lemma with_leaf_node x f : with_leaf !! x = Some f -> x <> p -> node_ok with_leaf x f.
Proof.
  intros Hx Hxp. destruct (decide (x = k)) as [->|Hxk].
  - rewrite with_leaf_k in Hx. simplify_eq. split; simpl; try done; try reflexivity; [set_solver|left; set_solver|by left].
  - rewrite with_leaf_other in Hx by done. eapply node_ok_reads; [|apply with_leaf_descends|by apply (fk_nodes _ _ HF)].
    intros c Hc. symmetry. apply with_leaf_reads. intros ->. rewrite <-(children_of_Some _ _ _ Hx) in Hc. by apply leaf_not_child in Hc.
Qed.

Lemma with_leaf_base : base_ok with_leaf leaf_parent.
Proof.
  destruct (fk_nodes _ _ HF _ _ Hp) as [H1 H2 _ _ _ _].
  assert (Hkn : k ∉ children pf) by (rewrite <-(children_of_Some _ _ _ Hp); apply leaf_not_child).
  assert (Hrd : forall c, c ∈ children pf -> reads with_leaf c = reads m c).
  { intros c Hc. apply with_leaf_reads. by intros ->. }
  split; simpl.
  - rewrite H1. f_equal. f_equal. transitivity (child_stakes with_leaf (k :: children pf)).
    + simpl. unfold st at 1. rewrite with_leaf_k. simpl. apply child_stakes_ext. intros c Hc.
      destruct (reads_eq _ _ _ (Hrd c Hc)) as [<- _]. done.
    + apply child_stakes_perm. by rewrite set_insert_perm.
  - intros c [->|Hc]%elem_of_set_insert; [unfold dc; by rewrite with_leaf_k|].
    destruct (reads_eq _ _ _ (Hrd c Hc)) as (_ & _ & _ & -> & _). by apply H2.
Qed.

Lemma leaf_below : descends with_leaf k p.
Proof. apply rtc_once. by rewrite with_leaf_parent, decide_True. Qed.

(** The leaf is the best child of its parent... *)
Lemma leaf_best_yes :
  (forall c, c ∈ children_of with_leaf p -> cd with_leaf c = true -> c = k \/ better with_leaf k c) ->
  best_ok with_leaf p (set_best_slot k leaf_parent).
Proof.
  intros Hmax. rewrite (children_of_Some _ _ _ with_leaf_p) in Hmax. split; [|apply leaf_below].
  intros Hcd. right. exists k. unfold bs. rewrite with_leaf_k. split; [|done]. split; [apply elem_of_set_insert; by left|].
  split; [unfold cd; by rewrite with_leaf_k|done].
Qed.
(** ... or a candidate beats it. *)
Lemma leaf_best_no c :
  c ∈ children_of with_leaf p -> cd with_leaf c = true -> c <> k -> ~ better with_leaf k c -> best_ok with_leaf p leaf_parent.
Proof.
  intros Hc Hcd Hck Hno. destruct (fk_nodes _ _ HF _ _ Hp) as [_ _ H3 _ H5 _]. split; [|by apply with_leaf_descends].
  intros Hpc. specialize (H3 Hpc). rewrite (children_of_Some _ _ _ with_leaf_p) in Hc. simpl in Hc.
  apply elem_of_set_insert in Hc as [?|Hc]; [done|].
  assert (Hkn : k ∉ children pf) by (rewrite <-(children_of_Some _ _ _ Hp); apply leaf_not_child).
  assert (Hrd : forall x, x ∈ children pf -> st with_leaf x = st m x /\ cd with_leaf x = cd m x /\ bs with_leaf x = bs m x).
  { intros x Hx. destruct (reads_eq _ _ _ (with_leaf_reads x ltac:(by intros ->))) as (? & _ & ? & _ & ? & _). done. }
  apply (best_choice_ext m with_leaf) in H3; [|intros x Hx; by destruct (Hrd x Hx) as (-> & -> & ->)].
  destruct H3 as [[Hn _]|(c' & (Hc' & Hcd' & Hmax) & Hb)]; [rewrite (Hn c Hc) in Hcd; done|].
  right. exists c'. split; [|done]. split; [apply elem_of_set_insert; by right|]. split; [done|].
  intros x [->|Hx]%elem_of_set_insert Hxcd; [|by apply Hmax]. right.
  assert (Hck' : better with_leaf c k) by (destruct (better_total with_leaf c k) as [?|[?|?]]; done).
  destruct (Hmax c Hc Hcd) as [->|?]; [done|by eapply better_trans].
Qed.

Lemma leaf_rank (M : infos) : is_Some (M !! p) -> (S (slots_below M p) < S (size M))%nat.
Proof. intros HM. pose proof (slots_below_lt M k p HM Hlt). pose proof (slots_below_le M k). lia. Qed.

Lemma leaf_best_run t :
  fork_infos t = with_leaf ->
  (forall c, c ∈ children_of with_leaf p -> cd with_leaf c = true -> c = k \/ better with_leaf k c) ->
  exists t', propagate_best (S (size (fork_infos t))) (best_slot pf) k (Some p) t = Ok t' /\ latest_votes t' = latest_votes t /\
    tree_root t' = tree_root t /\ same_but_best with_leaf (fork_infos t') /\
    forall x f, fork_infos t' !! x = Some f -> best_ok (fork_infos t') x f.
Proof.
  intros Ht Hmax. pose proof with_leaf_tree as HT. pose proof with_leaf_p as Hlp. pose proof (leaf_best_yes Hmax) as Hself.
  pose proof (leaf_rank with_leaf ltac:(eauto)) as Hrank. simpl. rewrite Ht, Hlp. simpl. rewrite bool_decide_true by done.
  set (fp := set_best_slot k leaf_parent) in *. assert (Hlk : same_links leaf_parent fp) by done.
  set (m' := <[p := fp]> with_leaf). assert (HT' : tree_ok m' root) by (by eapply upd_tree).
  assert (Hoth : forall x f, m' !! x = Some f -> parent_of with_leaf p <> Some x -> best_ok m' x f).
  { intros x f Hx Hne. unfold m' in *. destruct (decide (x = p)) as [->|Hxp]; simplify_map_eq.
    - by eapply best_ok_self.
    - eapply best_ok_other; try done. by apply node_ok_parts, with_leaf_node. }
  destruct (fi_parent pf) as [q|] eqn:Hq.
  - assert (Hpq : parent_of with_leaf p = Some q) by (by rewrite (parent_of_Some _ _ _ Hlp)).
    assert (Hqp : q.1 < p.1) by by apply (tk_parent _ _ HT) in Hpq as [? _].
    destruct (tree_parent_dom HT _ _ Hpq) as [fq Hfq]. pose proof (slots_below_lt _ p q ltac:(eauto) Hqp) as Hrank'.
    assert (Hin : descends with_leaf (best_slot pf) p) by (apply with_leaf_descends, (fk_nodes _ _ HF _ _ Hp)).
    destruct (propagate_best_ok (size with_leaf) (set_infos m' t) root q p fq fp (best_slot pf) k) as (t' & Hrun & Hv & Hr & Hsb & Hall); simpl.
    + done.
    + unfold m'. by rewrite (upd_parent _ _ _ _ Hlp Hlk).
    + unfold m'. rewrite slots_below_upd by eauto. lia.
    + unfold m'. rewrite lookup_insert_ne; [done|]. intros ->. lia.
    + apply lookup_insert_eq.
    + done.
    + unfold m'. by rewrite (upd_descends _ _ _ _ Hlp Hlk).
    + unfold m'. rewrite (upd_descends _ _ _ _ Hlp Hlk). apply leaf_below.
    + intros x f Hx Hne. apply Hoth; [done|]. congruence.
    + unfold m'. rewrite insert_insert_eq. unfold fp. change (best_slot pf) with (best_slot leaf_parent). rewrite set_best_slot_back.
      rewrite insert_id by done. apply node_ok_parts, with_leaf_node; [done|]. intros ->. lia.
    + exists t'. split; [done|]. split; [done|]. split; [done|]. split; [|done].
      intros x. rewrite Hsb. simpl. by apply same_but_best_upd.
  - destruct (size with_leaf) as [|n] eqn:Hn; [lia|]. simpl. eexists. split; [reflexivity|]. simpl.
    split; [done|]. split; [done|]. split; [by apply same_but_best_upd|].
    intros x f Hx. apply Hoth; [done|]. rewrite (parent_of_Some _ _ _ Hlp). simpl. congruence.
Qed.

Lemma leaf_best_stage t :
  fork_infos t = with_leaf ->
  exists b t', is_best_child t k = Ok b /\
    (if b return outcome Empty_set HeaviestSubtreeForkChoice then propagate_best (S (size (fork_infos t))) (best_slot pf) k (Some p) t else Ok t) = Ok t' /\
    latest_votes t' = latest_votes t /\ tree_root t' = tree_root t /\ same_but_best with_leaf (fork_infos t') /\
    forall x f, fork_infos t' !! x = Some f -> best_ok (fork_infos t') x f.
Proof.
  intros Ht. assert (HT : tree_ok (fork_infos t) root) by (rewrite Ht; apply with_leaf_tree).
  destruct (is_best_child_ok t root k p HT) as (b & Hrun & Hb); [rewrite Ht, with_leaf_parent; by rewrite decide_True|].
  rewrite Ht in Hb. exists b. destruct b.
  - destruct (leaf_best_run t Ht (proj1 Hb eq_refl)) as (t' & ? & ? & ? & ? & ?). by exists t'.
  - exists t. rewrite Ht. do 5 (split; [done|]). intros x f Hx.
    destruct (decide (x = p)) as [->|Hxp]; [|by apply node_ok_parts, with_leaf_node].
    rewrite with_leaf_p in Hx. injection Hx as <-.
    destruct (decide (Exists (fun c => cd with_leaf c = true /\ c <> k /\ ~ better with_leaf k c) (children_of with_leaf p))) as [He|He].
    + apply Exists_exists in He as (c & Hc & ? & ? & ?). by eapply leaf_best_no.
    + assert (Hf : false = true); [|done]. apply Hb. intros c Hc Hcd. destruct (decide (c = k)); [by left|right].
      destruct (decide (better with_leaf k c)); [done|]. exfalso. apply He, Exists_exists. eauto.
Qed.

Lemma leaf_deep_stage t :
  same_but_best with_leaf (fork_infos t) ->
  exists t', propagate_deepest (S (size (fork_infos t))) k k 1 (Some p) t = Ok t' /\ latest_votes t' = latest_votes t /\
    tree_root t' = tree_root t /\ same_but_deepest (fork_infos t) (fork_infos t') /\
    forall x f, fork_infos t' !! x = Some f -> deep_ok (fork_infos t') x f.
Proof.
  intros HB. pose proof (same_best_fixed _ _ HB) as HX. set (M := fork_infos t) in *.
  assert (HTM : tree_ok M root) by (eapply fixed_tree; [exact HX|apply with_leaf_tree]).
  assert (Hrd : forall x, ht M x = ht with_leaf x /\ ds M x = ds with_leaf x /\ st M x = st with_leaf x).
  { intros x. destruct (fixed_facts _ _ x HX) as (_ & _ & Est & _). specialize (HB x).
    apply (f_equal (fmap (fun f => (height f, deepest_slot f)))) in HB. unfold ht, ds.
    destruct (with_leaf !! x), (M !! x); simpl in *; repeat split; congruence. }
  assert (Hk1 : ht M k = 1 /\ ds M k = k).
  { destruct (Hrd k) as (-> & -> & _). unfold ht, ds. by rewrite with_leaf_k. }
  assert (Hold : forall x, x <> k -> st m x = st M x /\ ht m x = ht M x /\ ds m x = ds M x).
  { intros x Hx. destruct (Hrd x) as (-> & -> & ->).
    by destruct (reads_eq _ _ _ (with_leaf_reads x Hx)) as (-> & -> & _ & _ & _ & ->). }
  destruct (M !! p) as [fp|] eqn:HMp; [|specialize (HX p); by rewrite HMp, with_leaf_p in HX].
  destruct (fixed_lookup _ _ _ _ HX HMp) as (fp0 & Hfp0 & Efp). rewrite with_leaf_p in Hfp0. injection Hfp0 as <-.
  injection Efp as _ _ _ Ech _ _.
  assert (Ehd : height fp = height pf /\ deepest_slot fp = deepest_slot pf).
  { destruct (Hrd p) as (E1 & E2 & _). unfold ht, ds in E1, E2. by rewrite HMp, with_leaf_p in E1, E2. }
  destruct Hk1 as [Hk1 Hk2]. rewrite <-Hk1.
  destruct (fk_nodes _ _ HF _ _ Hp) as [_ _ _ H4 _ H6]. destruct Ehd as [Eh Ed].
  assert (Hkn : k ∉ children pf) by (rewrite <-(children_of_Some _ _ _ Hp); apply leaf_not_child).
  assert (HR : (S (slots_below M p) < S (size M))%nat) by (apply leaf_rank; eauto).
  eapply (propagate_deepest_ok _ t root p k fp (children pf) m k).
  - done.
  - fold M. destruct (fixed_facts _ _ k HX) as [-> _]. by rewrite with_leaf_parent, decide_True.
  - exact HR.
  - done.
  - done.
  - reflexivity.
  - fold M. lia.
  - intros x f Hx Hxp. eapply best_loop_deepest; [exact HB|exact Hx|].
    intros g Hg. by apply node_ok_parts, with_leaf_node.
  - split.
    + intros c. rewrite Ech. simpl. apply elem_of_set_insert.
    + by rewrite Eh, Ed.
    + intros c _ Hck. by apply Hold.
    + done.
    + fold M. rewrite Ed, (fixed_descends _ _ _ _ HX). by apply with_leaf_descends.
Qed.

Lemma leaf_propagates t :
  fork_infos t = with_leaf ->
  exists t', propagate_new_leaf k p t = Ok t' /\ latest_votes t' = latest_votes t /\ tree_root t' = tree_root t /\
    same_fixed with_leaf (fork_infos t') /\ forall x f, fork_infos t' !! x = Some f -> node_ok (fork_infos t') x f.
Proof.
  intros Ht. unfold propagate_new_leaf.
  assert (get_best_slot t p = Some (best_slot pf)) as -> by (unfold get_best_slot; by rewrite Ht, with_leaf_p). cbn [expect obind].
  destruct (leaf_best_stage t Ht) as (b & t2 & Hb & Hrun2 & Hv2 & Hr2 & HB & Hbest). rewrite Hb. cbn [obind].
  rewrite Hrun2. cbn [obind].
  destruct (leaf_deep_stage t2 HB) as (t3 & Hrun3 & Hv3 & Hr3 & HD & Hdeep). rewrite Hrun3.
  assert (HX : same_fixed with_leaf (fork_infos t3)).
  { eapply same_fixed_trans; [by apply same_best_fixed|by apply same_deepest_fixed]. }
  exists t3. split; [done|]. split; [congruence|]. split; [congruence|]. split; [done|]. intros x f Hx. apply node_ok_parts.
  split; [|split; [|by apply Hdeep]].
  - destruct (fixed_lookup _ _ _ _ HX Hx) as (g & Hg & Eg). eapply fixed_base; [exact HX|exact Eg|].
    destruct (decide (x = p)) as [->|Hxp]; [|by eapply node_ok_parts, with_leaf_node].
    rewrite with_leaf_p in Hg. injection Hg as <-. apply with_leaf_base.
  - eapply deepest_loop_best; [exact HD|exact Hx|]. intros g Hg. by apply Hbest.
Qed.

Lemma leaf_forks_ok m3 :
  same_fixed with_leaf m3 -> (forall x f, m3 !! x = Some f -> node_ok m3 x f) -> forks_ok m3 root.
Proof.
  intros HX HN. split.
  - eapply fixed_tree; [exact HX|apply with_leaf_tree].
  - done.
  - intros x f Hx. destruct (fixed_lookup _ _ _ _ HX Hx) as (g & Hg & Eg). injection Eg as E1 _ _ _ E5 E6.
    assert (Hgi : info_ok x g).
    { destruct (decide (x = k)) as [->|Hxk].
      - rewrite with_leaf_k in Hg. injection Hg as <-. split; simpl; [unfold in_u64, u64_max; lia|done|].
        intros a Ha. apply (ik_invalid _ _ (fk_infos _ _ HF _ _ Hp)) in Ha. lia.
      - destruct (decide (x = p)) as [->|Hxp].
        + rewrite with_leaf_p in Hg. injection Hg as <-. by destruct (fk_infos _ _ HF _ _ Hp).
        + rewrite with_leaf_other in Hg by done. by apply (fk_infos _ _ HF). }
    destruct Hgi as [I1 I2 I3]. split; rewrite ?E1, ?E5, ?E6; done.
  - intros q c a. destruct (fixed_facts _ _ q HX) as (_ & -> & _ & _ & _ & -> & _).
    destruct (fixed_facts _ _ c HX) as (_ & _ & _ & _ & _ & -> & _). rewrite with_leaf_children.
    assert (Hlia : forall x, lia_of with_leaf x = if decide (x = k) then latest_invalid_ancestor pf else lia_of m x).
    { intros x. unfold lia_of. destruct (decide (x = k)) as [->|Hxk]; [by rewrite with_leaf_k|].
      destruct (decide (x = p)) as [->|]; [by rewrite with_leaf_p, Hp|by rewrite with_leaf_other]. }
    rewrite !Hlia. intros [Hc|[-> ->]].
    + rewrite (decide_False (P := c = k)) by (intros ->; by apply leaf_not_child in Hc).
      rewrite decide_False; [by apply (fk_edges _ _ HF)|]. intros ->. apply children_of_dom in Hc as [? ?]. congruence.
    + rewrite decide_False by apply leaf_ne. rewrite decide_True by done. unfold lia_of. rewrite Hp. simpl.
      intros ->. exists a. split; [done|lia].
Qed.
End Leaf.

Section Operation.
Context (epoch_stakes : gmap Epoch EpochStakes) (epoch_schedule : EpochSchedule).
Notation fc_ok := (fc_ok epoch_stakes epoch_schedule).

Lemma no_votes_no_stake votes k :
  (forall q, votes !! q <> Some k) -> voted_stake epoch_stakes epoch_schedule votes k = 0.
Proof.
  intros H. transitivity (votes_sum (fun _ _ => 0) votes); [|apply votes_sum_zero].
  apply votes_sum_ext. intros q v Hq. destruct (decide (v = k)) as [->|]; [|done]. by destruct (H q).
Qed.

(** Adding a leaf below a block of the tree keeps the invariant; a block that
    is already there is left alone. *)
Lemma add_new_leaf_ok t (k p : SlotHashKey) :
  fc_ok t -> is_Some (fork_infos t !! p) -> p.1 < k.1 -> (fork_infos t !! k = None -> forall q, latest_votes t !! q <> Some k) ->
  exists t', add_new_leaf_slot k (Some p) t = Ok t' /\ fc_ok t' /\ latest_votes t' = latest_votes t /\
    tree_root t' = tree_root t /\ (forall x, is_Some (fork_infos t' !! x) <-> x = k \/ is_Some (fork_infos t !! x)) /\
    (fork_infos t !! k = None -> forall x, parent_of (fork_infos t') x = if decide (x = k) then Some p else parent_of (fork_infos t) x).
Proof.
  intros Hok [pf Hp] Hlt Hvotes. unfold add_new_leaf_slot, contains_block.
  destruct (fork_infos t !! k) as [f|] eqn:Hk.
  - rewrite bool_decide_true by eauto. exists t. do 4 (split; [done|]). split; [|done].
    intros x. split; [by right|]. intros [->|?]; [eauto|done].
  - rewrite bool_decide_false by (rewrite ?Hk; apply is_Some_None). destruct Hok as [HF HS]. specialize (Hvotes eq_refl).
    set (m := fork_infos t) in *. simpl. unfold modify_info. simpl.
    assert (Hne : p <> k) by (intros ->; lia). rewrite lookup_insert_ne by done. rewrite Hp. simpl.
    destruct (leaf_propagates m (tree_root t) k p pf HF Hk Hp Hlt (set_infos (with_leaf m k p pf) t)) as
      (t' & Hrun & Hv & Hr & HX & HN); [done|].
    assert (Eleaf : new_leaf_info t k (Some p) = leaf_info k p pf).
    { unfold new_leaf_info, leaf_info, get_latest_invalid_ancestor. simpl. fold m. by rewrite Hp. }
    rewrite Eleaf. change (set_children (set_insert k (children pf)) pf) with (leaf_parent k pf).
    unfold with_leaf, set_infos in Hrun. simpl in Hrun. unfold set_infos. simpl. rewrite Hrun. exists t'. split; [done|].
    pose proof (leaf_forks_ok m (tree_root t) k p pf HF Hk Hp Hlt _ HX HN) as HF'.
    simpl in Hv, Hr. split; [|split; [done|split; [done|split]]].
    + split; [by rewrite Hr|]. intros x. destruct (fixed_facts _ _ x HX) as (_ & _ & _ & _ & _ & _ & -> & ->).
      rewrite Hv, with_leaf_dom by done. intros [->|Hx].
      * rewrite no_votes_no_stake by done. unfold stake_at. erewrite with_leaf_k; done.
      * rewrite <-HS by done. unfold stake_at. destruct (decide (x = k)) as [->|]; [destruct Hx; congruence|].
        destruct (decide (x = p)) as [->|]; [by rewrite with_leaf_p, Hp|by rewrite with_leaf_other].
    + intros x. destruct (fixed_facts _ _ x HX) as (_ & _ & _ & _ & _ & _ & _ & ->). by apply with_leaf_dom.
    + intros _ x. destruct (fixed_facts _ _ x HX) as [-> _]. by eapply with_leaf_parent.
Qed.
End Operation.
