(* ===== verification/ForkChoiceRoots.v ===== *)
(** * Roots and splits of the fork choice

    [set_tree_root] keeps the subtree of the new root, [add_root_parent] puts a
    block above the root, [split_off] cuts the tree in two: the invariant holds
    for every resulting tree. *)

From S2P Require Import Prelude AuthorizedVoters EpochSchedule ForkChoice ForkChoiceOps ForkChoiceTree ForkChoiceInv ForkChoiceBatch ForkChoiceGen ForkChoiceVotes ForkChoiceMarks ForkChoiceLeaf.

(** ** The subtree of a block *)
Record subtree_of (m : infos) (k : SlotHashKey) (m' : infos) : Prop := mk_subtree_of {
  sb_root : m' !! k = set_parent None <$> m !! k;
  sb_in : forall x, descends m x k -> x <> k -> m' !! x = m !! x;
  sb_out : forall x, ~ descends m x k -> m' !! x = None
}.

Section Subtree.
Context (m : infos) (root k : SlotHashKey) (m' : infos).
Context (HF : forks_ok m root) (Hk : is_Some (m !! k)) (HS : subtree_of m k m').
Context (Hdec : forall x, descends m x k \/ ~ descends m x k).

Lemma subtree_lookup x f : m' !! x = Some f -> descends m x k /\ exists g, m !! x = Some g /\ (f = g \/ x = k /\ f = set_parent None g).
Proof.
  intros Hx. destruct (Hdec x) as [Hd|Hd]; [|by rewrite (sb_out _ _ _ HS) in Hx].
  split; [done|]. destruct (decide (x = k)) as [->|Hne].
  - rewrite (sb_root _ _ _ HS) in Hx. destruct Hk as [g Hg]. rewrite Hg in Hx. simpl in Hx. exists g. simplify_eq. auto.
  - rewrite (sb_in _ _ _ HS) in Hx by done. eauto.
Qed.
Lemma subtree_dom x : is_Some (m' !! x) <-> descends m x k.
Proof.
  split; [intros [f Hx]; by apply subtree_lookup in Hx as [? _]|]. intros Hd. destruct (decide (x = k)) as [->|Hne].
  - rewrite (sb_root _ _ _ HS). by destruct Hk as [g ->].
  - rewrite (sb_in _ _ _ HS) by done. by eapply descends_up.
Qed.
Lemma subtree_children x : descends m x k -> children_of m' x = children_of m x.
Proof.
  intros Hd. unfold children_of. destruct (decide (x = k)) as [->|Hne]; [|by rewrite (sb_in _ _ _ HS)].
  rewrite (sb_root _ _ _ HS). by destruct (m !! k).
Qed.
Lemma subtree_parent x : descends m x k -> x <> k -> parent_of m' x = parent_of m x.
Proof. intros Hd Hne. unfold parent_of. by rewrite (sb_in _ _ _ HS). Qed.
Lemma subtree_parent_root : parent_of m' k = None.
Proof. unfold parent_of. rewrite (sb_root _ _ _ HS). by destruct (m !! k). Qed.
Lemma subtree_below c x : descends m x k -> c ∈ children_of m x -> descends m c k /\ c <> k.
Proof.
  intros Hd Hc. pose proof (fk_tree _ _ HF) as HT. split; [etrans; [by apply (descends_child HT)|done]|].
  intros ->. by apply (child_not_descends HT) in Hc.
Qed.
Lemma subtree_descends x y : descends m x y -> descends m y k -> descends m' x y.
Proof.
  pose proof (fk_tree _ _ HF) as HT. induction 1 as [|x z y Hxz Hzy IH]; [reflexivity|]. intros Hy.
  eapply rtc_l; [|by apply IH]. assert (Hz : descends m z k) by (by etrans).
  rewrite subtree_parent; [done|by eapply rtc_l|]. intros ->. apply (tree_child_iff HT) in Hxz.
  by apply (child_not_descends HT) in Hxz.
Qed.
Lemma subtree_reads x : descends m x k -> reads m' x = reads m x /\ lia_of m' x = lia_of m x /\ stake_at m' x = stake_at m x.
Proof.
  intros Hd. unfold reads, lia_of, stake_at. destruct (decide (x = k)) as [->|Hne]; [|by rewrite (sb_in _ _ _ HS)].
  rewrite (sb_root _ _ _ HS). by destruct (m !! k).
Qed.

Lemma subtree_tree : tree_ok m' k.
Proof.
  pose proof (fk_tree _ _ HF) as HT. split.
  - split; [apply subtree_dom; reflexivity|apply subtree_parent_root].
  - intros x Hx%subtree_dom Hp. destruct (decide (x = k)) as [|Hne]; [done|]. rewrite subtree_parent in Hp by done.
    inversion Hx; subst; congruence.
  - intros x p Hp. destruct (decide (x = k)) as [->|Hne]; [by rewrite subtree_parent_root in Hp|].
    assert (Hd : descends m x k) by (by apply subtree_dom, (parent_of_dom _ _ p)).
    rewrite subtree_parent in Hp by done. destruct (tk_parent _ _ HT _ _ Hp) as [? Hc]. split; [done|].
    rewrite subtree_children; [done|]. inversion Hd as [|? y ? Hy Hyk]; subst; [done|]. by assert (y = p) as <- by congruence.
  - intros x c Hc. assert (Hd : descends m x k) by (by apply subtree_dom, (children_of_dom _ _ c)).
    rewrite subtree_children in Hc by done. destruct (subtree_below c x Hd Hc).
    rewrite subtree_parent by done. by apply (tk_child _ _ HT).
  - intros x. destruct (m' !! x) as [f|] eqn:Hx; [|unfold children_of; rewrite Hx; constructor].
    rewrite subtree_children by (apply subtree_dom; eauto). apply (tk_sorted _ _ HT).
Qed.

Lemma subtree_forks : forks_ok m' k.
Proof.
  pose proof (fk_tree _ _ HF) as HT. split; [apply subtree_tree|..].
  - intros x f Hx. destruct (subtree_lookup x f Hx) as (Hd & g & Hg & Hfg).
    assert (Hch : children f = children g) by (by destruct Hfg as [->|[_ ->]]).
    assert (Hnode : node_ok m' x g).
    { destruct (fk_nodes _ _ HF _ _ Hg) as [H1 H2 H3 H4 H5 H6].
      assert (HR : forall c, c ∈ children g -> st m c = st m' c /\ ht m c = ht m' c /\ cd m c = cd m' c /\ dc m c = dc m' c /\
        bs m c = bs m' c /\ ds m c = ds m' c).
      { intros c Hc. apply reads_eq. rewrite <-(children_of_Some _ _ _ Hg) in Hc. symmetry.
        apply subtree_reads. by eapply subtree_below. }
      split.
      - rewrite <-(child_stakes_ext m m'); [done|]. intros c Hc. by destruct (HR c Hc).
      - intros c Hc. destruct (HR c Hc) as (_ & _ & _ & <- & _). by apply H2.
      - intros Hcd. eapply best_choice_ext; [|auto]. intros c Hc. by destruct (HR c Hc) as (? & _ & ? & _ & ? & _).
      - eapply deepest_choice_ext; [|done]. intros c Hc. by destruct (HR c Hc) as (? & ? & _ & _ & _ & ?).
      - by apply subtree_descends.
      - by apply subtree_descends. }
    destruct Hfg as [->|[_ ->]]; [done|]. by destruct Hnode.
  - intros x f Hx. destruct (subtree_lookup x f Hx) as (Hd & g & Hg & Hfg).
    pose proof (fk_infos _ _ HF _ _ Hg) as Hi. destruct Hfg as [->|[_ ->]]; [done|]. by destruct Hi.
  - intros p c a Hc Ha. assert (Hd : descends m p k) by (by apply subtree_dom, (children_of_dom _ _ c)).
    rewrite subtree_children in Hc by done. destruct (subtree_reads p Hd) as (_ & E & _). rewrite E in Ha.
    destruct (subtree_reads c) as (_ & -> & _); [by eapply subtree_below|]. by eapply (fk_edges _ _ HF).
Qed.
End Subtree.

Lemma descends_dec m root k x : tree_ok m root -> descends m x k \/ ~ descends m x k.
Proof.
  intros HT. destruct (decide (x = k)) as [->|Hne]; [left; reflexivity|].
  destruct (decide (k ∈ @ancestors_of m x)) as [H|H]; rewrite (elem_of_ancestors HT) in H; [left; by destruct H|].
  right. intros Hd. apply H. split; [done|congruence].
Qed.

(** ** A new root *)
Lemma remove_all_ok l t :
  NoDup l -> (forall x, x ∈ l -> is_Some (fork_infos t !! x)) ->
  exists t', remove_all l t = Ok t' /\ latest_votes t' = latest_votes t /\ tree_root t' = tree_root t /\
    forall x, fork_infos t' !! x = if decide (x ∈ l) then None else fork_infos t !! x.
Proof.
  revert t. induction l as [|k l IH]; intros t Hnd Hd.
  - exists t. do 3 (split; [done|]). intros x. by destruct (decide (x ∈ [])) as [[]%not_elem_of_nil|].
  - simpl. apply NoDup_cons in Hnd as [Hk Hnd]. destruct (Hd k) as [f Hf]; [left|]. rewrite Hf. simpl.
    destruct (IH (set_infos (delete k (fork_infos t)) t)) as (t' & Hrun & Hv & Hr & Hx); [done| |].
    { intros x Hx. simpl. rewrite lookup_delete_ne by (by intros ->). apply Hd. by right. }
    exists t'. split; [done|]. split; [done|]. split; [done|]. intros x. rewrite Hx. simpl.
    destruct (decide (x = k)) as [->|Hne].
    + rewrite lookup_delete_eq, (decide_True (P := k ∈ k :: l)) by left. by destruct (decide _).
    + rewrite lookup_delete_ne by done. destruct (decide (x ∈ l)), (decide (x ∈ k :: l)); set_solver.
Qed.

(** ** A parent for the root *)
Section RootParent.
Context (m : infos) (root rp : SlotHashKey) (f : ForkInfo).
Context (HF : forks_ok m root) (Hf : m !! root = Some f) (Hrp : m !! rp = None) (Hlt : rp.1 < root.1) (Hcd : is_candidate f = true).

Definition root_parent_info : ForkInfo :=
  mkForkInfo 0 (stake_voted_subtree f) (height f + 1) (best_slot f) (deepest_slot f) None [root] None (is_duplicate_confirmed f).
Definition parented : infos := <[rp := root_parent_info]> (<[root := set_parent (Some rp) f]> m).

Lemma parented_ne : rp <> root.
Proof. intros ->. lia. Qed.
Lemma parented_dom x : is_Some (parented !! x) <-> x = rp \/ is_Some (m !! x).
Proof.
  unfold parented. destruct (decide (x = rp)) as [->|Hx]; [rewrite lookup_insert_eq; split; [by left|by eexists]|].
  rewrite lookup_insert_ne by done. destruct (decide (x = root)) as [->|Hr].
  - rewrite lookup_insert_eq, Hf. split; [right; by eexists|by eexists].
  - rewrite lookup_insert_ne by done. split; [by right|by intros [?|?]].
Qed.
Lemma parented_lookup x g : parented !! x = Some g ->
  x = rp /\ g = root_parent_info \/ x <> rp /\ exists g0, m !! x = Some g0 /\ (g = g0 /\ x <> root \/ x = root /\ g0 = f /\ g = set_parent (Some rp) f).
Proof.
  unfold parented. intros [[<- <-]|[Hx H]]%lookup_insert_Some; [by left|right]. split; [done|].
  apply lookup_insert_Some in H as [[<- <-]|[Hr H]]; [exists f|exists g]; auto 10.
Qed.
Lemma parented_reads x : x <> rp -> stake_at parented x = stake_at m x /\ reads parented x = reads m x /\ lia_of parented x = lia_of m x.
Proof.
  intros Hx. unfold stake_at, reads, lia_of, parented. rewrite lookup_insert_ne by done.
  destruct (decide (x = root)) as [->|Hr]; [by rewrite lookup_insert_eq, Hf|by rewrite lookup_insert_ne].
Qed.
Lemma parented_parent x : parent_of parented x = if decide (x = rp) then None else if decide (x = root) then Some rp else parent_of m x.
Proof.
  unfold parent_of, parented. destruct (decide (x = rp)) as [->|Hx]; [by rewrite lookup_insert_eq|].
  rewrite lookup_insert_ne by done.
  destruct (decide (x = root)) as [->|Hr]; [by rewrite lookup_insert_eq|by rewrite lookup_insert_ne].
Qed.
Lemma parented_children x : children_of parented x = if decide (x = rp) then [root] else children_of m x.
Proof.
  unfold children_of, parented. destruct (decide (x = rp)) as [->|Hx]; [by rewrite lookup_insert_eq|].
  rewrite lookup_insert_ne by done.
  destruct (decide (x = root)) as [->|Hr]; [by rewrite lookup_insert_eq, Hf|by rewrite lookup_insert_ne].
Qed.
Lemma parented_no_child x : rp ∉ children_of m x.
Proof. intros [g Hg]%(tree_child_dom (fk_tree _ _ HF)). congruence. Qed.
Lemma root_no_child x : root ∉ children_of m x.
Proof.
  intros Hc%(tk_child _ _ (fk_tree _ _ HF)). rewrite (proj2 (tk_root _ _ (fk_tree _ _ HF))) in Hc. done.
Qed.
Lemma parented_descends x y : descends m x y -> descends parented x y.
Proof.
  apply rtc_subrel. intros a b Hab. rewrite parented_parent. destruct (decide (a = rp)) as [->|].
  - apply parent_of_dom in Hab. rewrite Hrp in Hab. by apply is_Some_None in Hab.
  - destruct (decide (a = root)) as [->|]; [|done]. by rewrite (proj2 (tk_root _ _ (fk_tree _ _ HF))) in Hab.
Qed.

Lemma parented_tree : tree_ok parented rp.
Proof.
  pose proof (fk_tree _ _ HF) as HT. split.
  - rewrite parented_dom, parented_parent, decide_True by done. split; [by left|done].
  - intros x Hx. rewrite parented_parent. destruct (decide (x = rp)) as [->|Hxr]; [done|].
    destruct (decide (x = root)) as [->|Hxo]; [done|]. apply parented_dom in Hx as [?|Hx]; [done|].
    intros Hp. by apply (tk_only_root _ _ HT) in Hp.
  - intros x p. rewrite parented_parent, parented_children. destruct (decide (x = rp)) as [->|Hxr]; [done|].
    destruct (decide (x = root)) as [->|Hxo].
    + intros [= <-]. rewrite decide_True by done. split; [done|set_solver].
    + intros Hp. destruct (tk_parent _ _ HT _ _ Hp) as [? Hc]. split; [done|]. rewrite decide_False; [done|].
      intros ->. apply children_of_dom in Hc. rewrite Hrp in Hc. by apply is_Some_None in Hc.
  - intros x c. rewrite parented_parent, parented_children. destruct (decide (x = rp)) as [->|Hxr].
    + intros ->%list_elem_of_singleton. pose proof parented_ne. by rewrite decide_False, decide_True by congruence.
    + intros Hc. rewrite decide_False by (intros ->; by apply parented_no_child in Hc).
      rewrite decide_False by (intros ->; by apply root_no_child in Hc). by apply (tk_child _ _ HT).
  - intros x. rewrite parented_children. destruct (decide (x = rp)); [repeat constructor|apply (tk_sorted _ _ HT)].
Qed.

Lemma parented_root_node : node_ok parented rp root_parent_info.
Proof.
  destruct (parented_reads root) as (_ & HR & _); [pose proof parented_ne; congruence|].
  assert (Hself : st m root = stake_voted_subtree f /\ ht m root = height f /\ cd m root = true /\ dc m root = is_duplicate_confirmed f /\
    bs m root = best_slot f /\ ds m root = deepest_slot f) by (unfold st, ht, cd, dc, bs, ds; by rewrite Hf).
  destruct (reads_eq _ _ _ HR) as (<- & <- & <- & <- & <- & <-) in Hself. destruct Hself as (E1 & E2 & E3 & E4 & E5 & E6).
  pose proof (fk_nodes _ _ HF _ _ Hf) as Hn.
  assert (Hup : descends parented root rp).
  { apply rtc_once. pose proof parented_ne. rewrite parented_parent, decide_False, decide_True by congruence. done. }
  split; simpl.
  - rewrite E1, Z.add_0_r. rewrite (nk_stake _ _ _ Hn). symmetry. apply wrap64_small, wrap64_range.
  - intros c ->%list_elem_of_singleton. by rewrite E4.
  - intros _. right. exists root. split; [|done]. split; [set_solver|]. split; [done|].
    intros c' ->%list_elem_of_singleton _. by left.
  - right. exists root. split; [|split; [lia|done]]. split; [set_solver|]. intros c' ->%list_elem_of_singleton. by left.
  - etrans; [|exact Hup]. apply parented_descends, (nk_best_in _ _ _ Hn).
  - etrans; [|exact Hup]. apply parented_descends, (nk_deepest_in _ _ _ Hn).
Qed.

Lemma parented_forks : forks_ok parented rp.
Proof.
  split; [apply parented_tree|..].
  - intros x g Hg. destruct (parented_lookup _ _ Hg) as [[-> ->]|(Hx & g0 & Hg0 & Hgg)]; [apply parented_root_node|].
    assert (Hn : node_ok parented x g0).
    { eapply node_ok_reads; [|apply parented_descends|by apply (fk_nodes _ _ HF)]. intros c Hc. symmetry.
      apply parented_reads. intros ->. rewrite <-(children_of_Some _ _ _ Hg0) in Hc. by apply parented_no_child in Hc. }
    destruct Hgg as [[-> _]|(_ & -> & ->)]; [done|]. by destruct Hn.
  - intros x g Hg. destruct (parented_lookup _ _ Hg) as [[-> ->]|(Hx & g0 & Hg0 & Hgg)].
    + split; simpl; [unfold in_u64, u64_max; lia|done|done].
    + pose proof (fk_infos _ _ HF _ _ Hg0) as Hi. destruct Hgg as [[-> _]|(_ & -> & ->)]; [done|]. by destruct Hi.
  - intros p c a. rewrite parented_children. destruct (decide (p = rp)) as [->|Hp].
    + unfold lia_of, parented. by rewrite lookup_insert_eq.
    + intros Hc. destruct (parented_reads p Hp) as (_ & _ & ->).
      destruct (parented_reads c) as (_ & _ & ->); [intros ->; by apply parented_no_child in Hc|]. by apply (fk_edges _ _ HF).
Qed.
End RootParent.

Section Operations.
Context (epoch_stakes : gmap Epoch EpochStakes) (epoch_schedule : EpochSchedule).
Notation fc_ok := (fc_ok epoch_stakes epoch_schedule).
Notation voted_stake := (voted_stake epoch_stakes epoch_schedule).

(** Keeping the subtree of a block and its votes *)
Lemma subtree_fc t k m' votes' :
  fc_ok t -> is_Some (fork_infos t !! k) -> subtree_of (fork_infos t) k m' ->
  (forall x, is_Some (m' !! x) -> voted_stake votes' x = voted_stake (latest_votes t) x) ->
  fc_ok (mkForkChoice m' votes' k).
Proof.
  intros [HF HS] Hk Hsub Hv. assert (Hdec : forall x, descends (fork_infos t) x k \/ ~ descends (fork_infos t) x k).
  { intros x. by eapply descends_dec, HF. }
  split; simpl; [by eapply subtree_forks|]. intros x Hx. rewrite Hv by done.
  pose proof Hx as Hd. rewrite (subtree_dom _ _ _ Hk Hsub Hdec) in Hd.
  destruct (subtree_reads _ _ _ Hk Hsub x Hd) as (_ & _ & ->). apply HS. by eapply descends_up.
Qed.

Lemma new_ok root : exists t, new root = Ok t /\ fc_ok t /\ tree_root t = root /\ latest_votes t = ∅ /\
  fork_infos t = {[root := mkForkInfo 0 0 1 root root None [] None true]}.
Proof.
  unfold new, add_new_leaf_slot, contains_block. simpl. rewrite bool_decide_false by (rewrite lookup_empty; apply is_Some_None).
  eexists. split; [reflexivity|]. unfold new_leaf_info. simpl. split; [|done].
  set (f := mkForkInfo 0 0 1 root root None [] None true).
  assert (Hl : forall x g, (<[root := f]> ∅ : infos) !! x = Some g -> x = root /\ g = f).
  { intros x g [[<- <-]|[_ H]]%lookup_insert_Some; [done|by rewrite lookup_empty in H]. }
  assert (Hc : forall x, children_of (<[root := f]> ∅) x = []).
  { intros x. unfold children_of. destruct (_ !! x) as [g|] eqn:E; [|done]. by apply Hl in E as [-> ->]. }
  assert (Hp : forall x, parent_of (<[root := f]> ∅) x = None).
  { intros x. unfold parent_of. destruct (_ !! x) as [g|] eqn:E; [|done]. by apply Hl in E as [-> ->]. }
  split; simpl.
  - split; [split|..].
    + split; [rewrite lookup_insert_eq; eauto|apply Hp].
    + intros x [g Hg] _. by apply Hl in Hg as [-> _].
    + intros x p. by rewrite Hp.
    + intros x c. rewrite Hc. by intros []%not_elem_of_nil.
    + intros x. rewrite Hc. constructor.
    + intros x g [-> ->]%Hl. split; simpl; try done; try reflexivity; [left; set_solver|by left].
    + intros x g [-> ->]%Hl. split; simpl; [unfold in_u64, u64_max; lia|done|done].
    + intros p c a. rewrite Hc. by intros []%not_elem_of_nil.
  - intros x [g [-> ->]%Hl]. unfold stake_at, ForkChoiceVotes.voted_stake. by rewrite lookup_insert_eq, votes_sum_empty.
Qed.

Lemma set_tree_root_ok t k :
  fc_ok t -> is_Some (fork_infos t !! k) ->
  exists t', set_tree_root k t = Ok t' /\ fc_ok t' /\ tree_root t' = k /\ latest_votes t' = latest_votes t /\
    subtree_of (fork_infos t) k (fork_infos t').
Proof.
  intros Hok Hk. pose proof (fc_forks _ _ _ Hok) as HF. pose proof (fk_tree _ _ HF) as HT.
  assert (Hroot : forall x, is_Some (fork_infos t !! x) -> descends (fork_infos t) x (tree_root t)).
  { intros x. apply (tree_descends_root HT). }
  unfold set_tree_root. destruct (subtree_diff_ok t _ (tree_root t) k HT) as (l & Hrun & Hnd & Hl); [apply HT|].
  rewrite Hrun. simpl.
  assert (Hin : forall x, is_Some (fork_infos t !! x) -> x ∈ l <-> ~ descends (fork_infos t) x k).
  { intros x Hx. rewrite Hl. pose proof (Hroot x Hx). pose proof (Hroot k Hk). tauto. }
  destruct (remove_all_ok l t Hnd) as (t1 & Hrun1 & Hv1 & Hr1 & Hx1).
  { intros x Hx%Hl. destruct Hx as [Hx _]. eapply descends_up; [exact Hx|]. apply HT. }
  rewrite Hrun1. simpl. unfold modify_info. destruct Hk as [f Hf].
  assert (Hk1 : fork_infos t1 !! k = Some f).
  { rewrite Hx1, decide_False; [done|]. rewrite Hin by eauto. intros H. apply H. reflexivity. }
  rewrite Hk1. simpl. eexists. split; [reflexivity|].
  assert (Hsub : subtree_of (fork_infos t) k (<[k := set_parent None f]> (fork_infos t1))).
  { split.
    - rewrite lookup_insert_eq, Hf. done.
    - intros x Hd Hne. rewrite lookup_insert_ne by done. rewrite Hx1, decide_False; [done|].
      rewrite Hin by (eapply descends_up; eauto). by intros [].
    - intros x Hd. rewrite lookup_insert_ne by (intros <-; apply Hd; reflexivity). rewrite Hx1.
      destruct (fork_infos t !! x) as [g|] eqn:Hx; [|by destruct (decide _)].
      rewrite decide_True; [done|]. apply Hin; eauto. }
  unfold set_root, set_infos. simpl. split; [|done]. rewrite Hv1.
  eapply subtree_fc; [done|eauto|done|done].
Qed.

(** The code takes the best block of the old root as that of the new one, so
    the old root has to be a candidate. *)
Lemma add_root_parent_ok t (rp : SlotHashKey) :
  fc_ok t -> rp.1 < (tree_root t).1 -> fork_infos t !! rp = None -> cd (fork_infos t) (tree_root t) = true ->
  (forall q, latest_votes t !! q <> Some rp) ->
  exists t', add_root_parent rp t = Ok t' /\ fc_ok t' /\ tree_root t' = rp /\ latest_votes t' = latest_votes t.
Proof.
  intros [HF HS] Hlt Hrp Hcd Hvotes. destruct (proj1 (tk_root _ _ (fk_tree _ _ HF))) as [f Hf].
  unfold add_root_parent, contains_block. rewrite (proj2 (Z.ltb_lt _ _) Hlt), Hrp, bool_decide_false by apply is_Some_None.
  simpl. rewrite Hf. simpl. eexists. split; [reflexivity|]. split; [|done].
  assert (Hc : is_candidate f = true) by (unfold cd in Hcd; by rewrite Hf in Hcd).
  pose proof (parented_forks (fork_infos t) (tree_root t) rp f HF Hf Hrp Hlt Hc) as HF'.
  change (fc_ok (mkForkChoice (parented (fork_infos t) (tree_root t) rp f) (latest_votes t) rp)).
  split; [exact HF'|]. intros x. cbn [fork_infos latest_votes]. rewrite (parented_dom _ _ _ _ Hf). intros [->|Hx].
  - rewrite no_votes_no_stake by done. unfold stake_at, parented. by rewrite lookup_insert_eq.
  - rewrite <-HS by done. apply (parented_reads _ _ _ f Hf). intros ->. rewrite Hrp in Hx. by apply is_Some_None in Hx.
Qed.
End Operations.
