(* ===== verification/ForkChoiceSplit.v ===== *)
(** * Splitting the fork choice

    [split_off] aggregates the ancestors of a block after cutting the link to
    it, moves its subtree to a tree of its own, and shares out the votes.
    Both trees satisfy the invariant. *)

From S2P Require Import Prelude AuthorizedVoters EpochSchedule ForkChoice ForkChoiceOps ForkChoiceTree ForkChoiceInv ForkChoiceBatch ForkChoiceGen ForkChoiceVotes ForkChoiceMarks ForkChoiceLeaf ForkChoiceRoots.

(** ** Blocks that no operation reads *)
Lemma aggregate_children_frame (A B : infos) k cs v v' :
  aggregate_children A k v cs = Ok v' -> aggregate_children (A ∪ B) k v cs = Ok v'.
Proof.
  revert v. induction cs as [|c cs IH]; intros v; simpl; [done|].
  intros (v1 & Hv1 & Hrun)%bind_Ok. unfold aggregate_child in *.
  apply bind_Ok in Hv1 as (f & Hf%expect_Ok & Hv1). rewrite (lookup_union_Some_l _ _ _ _ Hf). simpl.
  simpl in Hv1. injection Hv1 as <-. simpl. by apply IH.
Qed.

Lemma process_frame (A B : infos) votes root ops t' :
  (forall k l op, ((k, l), op) ∈ ops -> op = Aggregate /\ is_Some (A !! k)) ->
  process_operations ops (mkForkChoice A votes root) = Ok t' ->
  process_operations ops (mkForkChoice (A ∪ B) votes root) = Ok (mkForkChoice (fork_infos t' ∪ B) votes root).
Proof.
  revert A. induction ops as [|[[k l] op] ops IH]; intros A Hops; simpl; [by intros [= <-]|].
  destruct (Hops k l op) as [-> [f Hf]]; [left|]. intros (t1 & Hrun1 & Hrun)%bind_Ok. simpl in *.
  unfold aggregate_slot in *. simpl in *. rewrite Hf in Hrun1. rewrite (lookup_union_Some_l _ _ _ _ Hf).
  apply bind_Ok in Hrun1 as (v & Hv & Hrun1). rewrite (aggregate_children_frame _ _ _ _ _ _ Hv). simpl.
  injection Hrun1 as <-. unfold set_infos in *. simpl in *. rewrite insert_union_l. apply IH; [|done].
  intros k' l' op' H'. destruct (Hops k' l' op') as [-> Hd]; [by right|]. split; [done|].
  destruct (decide (k' = k)) as [->|]; [rewrite lookup_insert_eq; eauto|by rewrite lookup_insert_ne].
Qed.

(** ** The loop that moves the subtree *)
Section Move.
Context (m : infos) (k p : SlotHashKey).
Context (Hchild : forall x c, c ∈ children_of m x -> parent_of m c = Some x /\ x.1 < c.1).
Context (Hnodup : forall x, NoDup (children_of m x)).
Context (Hdown : forall x y, descends m y k -> parent_of m x = Some y -> x ∈ children_of m y).
Context (Hp : ~ descends m p k).

Lemma split_loop_ok (fuel : nat) (vis stack : list SlotHashKey) (lm rm : infos) :
  walk_ok m k p vis stack -> (size m < fuel + length vis)%nat ->
  (forall x, lm !! x = if decide (x ∈ vis) then None else m !! x) ->
  (forall x, rm !! x = if decide (x ∈ vis) then m !! x else None) ->
  exists vis' lm' rm', split_loop fuel stack lm rm = Ok (lm', rm') /\ walk_ok m k p vis' [] /\
    (forall x, lm' !! x = if decide (x ∈ vis') then None else m !! x) /\
    (forall x, rm' !! x = if decide (x ∈ vis') then m !! x else None).
Proof.
  revert vis stack lm rm. induction fuel as [|fuel IH]; intros vis stack lm rm Hw Hfuel Hl Hr;
    pose proof (walk_bound _ _ _ _ _ Hw) as Hb; [lia|].
  destruct stack as [|cur stack]; simpl; [by exists vis, lm, rm|].
  assert (Hin : cur ∈ vis ++ cur :: stack) by (apply elem_of_app; right; left).
  destruct (wk_dom _ _ _ _ _ Hw cur Hin) as [f Hf].
  assert (Hcv : cur ∉ vis). { intros Hc. pose proof (wk_nodup _ _ _ _ _ Hw) as (_ & Hnd & _)%NoDup_app. by apply (Hnd _ Hc); left. }
  assert (Hcp : cur <> p) by (intros ->; apply Hp, (wk_below _ _ _ _ _ Hw), Hin).
  rewrite Hl, decide_False, Hf by done. simpl.
  apply (walk_push m k p Hchild Hnodup Hdown) in Hw; [|done]. rewrite (children_of_Some _ _ _ Hf) in Hw.
  apply (IH (vis ++ [cur])); [done|rewrite length_app; simpl; lia|..]; intros x.
  - destruct (decide (x = cur)) as [->|Hne].
    + rewrite lookup_delete_eq, decide_True; [done|set_solver].
    + rewrite lookup_delete_ne, Hl by done. destruct (decide (x ∈ vis)), (decide (x ∈ vis ++ [cur])); set_solver.
  - destruct (decide (x = cur)) as [->|Hne].
    + rewrite lookup_insert_eq, decide_True; [done|set_solver].
    + rewrite lookup_insert_ne, Hr by done. destruct (decide (x ∈ vis)), (decide (x ∈ vis ++ [cur])); set_solver.
Qed.

Lemma split_loop_moves (A B : infos) :
  is_Some (m !! k) -> m = A ∪ B -> (forall x, is_Some (B !! x) <-> descends m x k) ->
  (forall x, is_Some (A !! x) -> ~ descends m x k) ->
  split_loop (S (size m)) [k] m ∅ = Ok (A, B).
Proof.
  intros Hk Hm HB HA.
  destruct (split_loop_ok (S (size m)) [] [k] m ∅) as (vis & l & r & Hrun & Hw & Hl & Hr).
  - by apply walk_start.
  - simpl. lia.
  - intros x. by destruct (decide (x ∈ [])) as [[]%not_elem_of_nil|].
  - intros x. rewrite lookup_empty. by destruct (decide (x ∈ [])) as [[]%not_elem_of_nil|].
  - rewrite Hrun. f_equal.
    assert (Hvis : forall x, x ∈ vis <-> descends m x k).
    { intros x. pose proof (walk_end m k p Hchild Hdown vis x Hw) as H. rewrite list_elem_of_filter in H. split.
      - intros Hx. apply (wk_below _ _ _ _ _ Hw). by rewrite app_nil_r.
      - intros Hx. apply H. split; [done|]. by intros [_ ?]. }
    assert (HAn : forall x, descends m x k -> A !! x = None).
    { intros x Hx. destruct (A !! x) eqn:E; [|done]. destruct (HA x); eauto. }
    assert (HBn : forall x, ~ descends m x k -> B !! x = None).
    { intros x Hx. destruct (B !! x) eqn:E; [|done]. destruct Hx. apply HB. eauto. }
    f_equal; apply map_eq; intros x.
    + rewrite Hl. destruct (decide (x ∈ vis)) as [Hx%Hvis|Hx]; [by rewrite HAn|]. rewrite Hm, lookup_union_l; [done|].
      apply HBn. by rewrite <-Hvis.
    + rewrite Hr. destruct (decide (x ∈ vis)) as [Hx%Hvis|Hx]; [|rewrite HBn; [done|by rewrite <-Hvis]].
      rewrite Hm, lookup_union_r; [done|by apply HAn].
Qed.
End Move.

(** ** The tree without the subtree *)
Section Cut.
Context (m : infos) (root k p : SlotHashKey) (pf : ForkInfo) (l : list SlotHashKey).
Context (HF : forks_ok m root) (Hpk : parent_of m k = Some p) (Hp : m !! p = Some pf).
Context (Hl : forall x, x ∈ l <-> descends m x k).

Definition cut_parent : ForkInfo := set_children (set_remove k (children pf)) pf.
Definition unlinked : infos := <[p := cut_parent]> m.
Definition kept : infos := filter (fun kv => kv.1 ∉ l) unlinked.
Definition moved : infos := filter (fun kv => kv.1 ∈ l) m.

Lemma cut_tree : tree_ok m root.
Proof. apply HF. Qed.
Lemma parent_not_below : ~ descends m p k.
Proof. apply (child_not_descends cut_tree). by apply (tree_child_iff cut_tree). Qed.
Lemma kept_p : kept !! p = Some cut_parent.
Proof.
  unfold kept. apply map_lookup_filter_Some. simpl. split; [apply lookup_insert_eq|]. rewrite Hl. apply parent_not_below.
Qed.
Lemma kept_out x : x ∈ l -> kept !! x = None.
Proof. intros Hx. unfold kept. apply map_lookup_filter_None. right. intros f _ H. by apply H. Qed.
Lemma kept_other x : x ∉ l -> x <> p -> kept !! x = m !! x.
Proof.
  intros Hx Hxp. unfold kept. destruct (m !! x) as [f|] eqn:Hf.
  - apply map_lookup_filter_Some. simpl. split; [|done]. unfold unlinked. by rewrite lookup_insert_ne.
  - apply map_lookup_filter_None. left. unfold unlinked. by rewrite lookup_insert_ne.
Qed.
Lemma kept_dom x : is_Some (kept !! x) <-> is_Some (m !! x) /\ x ∉ l.
Proof.
  destruct (decide (x ∈ l)) as [Hx|Hx].
  - rewrite kept_out by done. split; [intros []%is_Some_None|by intros [_ ?]].
  - destruct (decide (x = p)) as [->|Hxp]; [rewrite kept_p, Hp; split; eauto|rewrite kept_other by done; tauto].
Qed.
Lemma kept_parent x : x ∉ l -> parent_of kept x = parent_of m x.
Proof.
  intros Hx. unfold parent_of. destruct (decide (x = p)) as [->|]; [by rewrite kept_p, Hp|by rewrite kept_other].
Qed.
Lemma kept_children x c : c ∈ children_of kept x <-> x ∉ l /\ c ∈ children_of m x /\ c <> k.
Proof.
  unfold children_of. destruct (decide (x ∈ l)) as [Hx|Hx]; [rewrite kept_out by done; simpl; set_solver|].
  destruct (decide (x = p)) as [->|Hxp].
  - rewrite kept_p, Hp. simpl. rewrite elem_of_set_remove. tauto.
  - rewrite kept_other by done. split; [|tauto]. intros Hc. split; [done|]. split; [done|]. intros ->.
    apply (tree_child_iff cut_tree) in Hc. congruence.
Qed.
Lemma above_cut x y : parent_of m x = Some y -> x ∉ l -> y ∉ l.
Proof. rewrite !Hl. intros Hxy Hx Hy. apply Hx. by eapply rtc_l. Qed.
Lemma below_cut x c : c ∈ children_of m x -> x ∉ l -> c <> k -> c ∉ l.
Proof.
  rewrite !Hl. intros Hc%(tree_child_iff cut_tree) Hx Hck Hd. inversion Hd as [|? y ? Hy Hyk]; subst; [done|].
  by assert (y = x) as -> by congruence.
Qed.

Lemma kept_tree : k <> root -> tree_ok kept root.
Proof.
  intros Hkr. pose proof cut_tree as HT. destruct (tk_root _ _ HT) as [Hr1 Hr2].
  assert (Hroot : root ∉ l).
  { rewrite Hl. intros Hd. inversion Hd; subst; congruence. }
  split.
  - split; [by apply kept_dom|by rewrite kept_parent].
  - intros x [Hx Hxl]%kept_dom. rewrite kept_parent by done. by apply (tk_only_root _ _ HT).
  - intros x y Hxy. assert (Hxl : x ∉ l) by (by apply kept_dom, (parent_of_dom _ _ y)).
    rewrite kept_parent in Hxy by done. destruct (tk_parent _ _ HT _ _ Hxy) as [? Hc]. split; [done|].
    apply kept_children. split; [by eapply above_cut|]. split; [done|]. intros ->. apply Hxl, Hl. reflexivity.
  - intros x c (Hx & Hc & Hck)%kept_children. rewrite kept_parent by (by eapply below_cut). by apply (tk_child _ _ HT).
  - intros x. unfold children_of. destruct (decide (x ∈ l)); [rewrite kept_out by done; constructor|].
    destruct (decide (x = p)) as [->|].
    + rewrite kept_p. simpl. apply set_remove_sorted. rewrite <-(children_of_Some _ _ _ Hp). apply (tk_sorted _ _ HT).
    + rewrite kept_other by done. apply (tk_sorted _ _ HT).
Qed.

Lemma kept_descends x y : descends m x y -> x ∉ l -> descends kept x y.
Proof.
  induction 1 as [|x z y Hxz Hzy IH]; [reflexivity|]. intros Hx.
  eapply rtc_l; [by rewrite kept_parent|]. apply IH. by eapply above_cut.
Qed.
Lemma kept_reads x : x ∉ l -> reads kept x = reads m x /\ lia_of kept x = lia_of m x /\ stake_at kept x = stake_at m x.
Proof.
  intros Hx. unfold reads, lia_of, stake_at.
  destruct (decide (x = p)) as [->|]; [by rewrite kept_p, Hp|by rewrite kept_other].
Qed.

(** Blocks that are not ancestors of the cut are as before. *)
Lemma kept_node x f : kept !! x = Some f -> ~ descends m k x -> node_ok kept x f.
Proof.
  intros Hx Hnk. assert (Hxl : x ∉ l) by (apply kept_dom; eauto).
  assert (Hxp : x <> p) by (intros ->; apply Hnk; by apply rtc_once).
  assert (Hxm : m !! x = Some f) by (by rewrite kept_other in Hx).
  assert (Hin : forall y, descends m y x -> y ∉ l).
  { intros y Hy Hyl%Hl. destruct (descends_comparable _ _ _ Hy Hyl) as [H|H]; [by apply Hxl, Hl|done]. }
  destruct (fk_nodes _ _ HF _ _ Hxm) as [H1 H2 H3 H4 H5 H6].
  assert (HR : forall c, c ∈ children f -> st m c = st kept c /\ ht m c = ht kept c /\ cd m c = cd kept c /\ dc m c = dc kept c /\
    bs m c = bs kept c /\ ds m c = ds kept c).
  { intros c Hc. apply reads_eq. symmetry. apply kept_reads, Hin. apply (descends_child cut_tree). by rewrite (children_of_Some _ _ _ Hxm). }
  split.
  - rewrite <-(child_stakes_ext m kept); [done|]. intros c Hc. by destruct (HR c Hc).
  - intros c Hc. destruct (HR c Hc) as (_ & _ & _ & <- & _). by apply H2.
  - intros Hcd. eapply best_choice_ext; [|auto]. intros c Hc. by destruct (HR c Hc) as (? & _ & ? & _ & ? & _).
  - eapply deepest_choice_ext; [|done]. intros c Hc. by destruct (HR c Hc) as (? & ? & _ & _ & _ & ?).
  - apply kept_descends; auto.
  - apply kept_descends; auto.
Qed.

Lemma kept_info x f : kept !! x = Some f -> info_ok x f.
Proof.
  intros Hx. assert (Hxl : x ∉ l) by (apply kept_dom; eauto). destruct (decide (x = p)) as [->|Hxp].
  - rewrite kept_p in Hx. injection Hx as <-. by destruct (fk_infos _ _ HF _ _ Hp).
  - rewrite kept_other in Hx by done. by apply (fk_infos _ _ HF).
Qed.
Lemma kept_edges q c a : c ∈ children_of kept q -> lia_of kept q = Some a -> exists a', lia_of kept c = Some a' /\ a <= a'.
Proof.
  intros (Hq & Hc & Hck)%kept_children. destruct (kept_reads q Hq) as (_ & -> & _).
  destruct (kept_reads c) as (_ & -> & _); [by eapply below_cut|]. by apply (fk_edges _ _ HF).
Qed.

Lemma unlinked_union : unlinked = kept ∪ moved.
Proof.
  apply map_eq. intros x. destruct (decide (x ∈ l)) as [Hx|Hx].
  - rewrite lookup_union_r by (by apply kept_out). unfold unlinked, moved.
    rewrite lookup_insert_ne by (intros <-; by apply parent_not_below, Hl). destruct (m !! x) as [f|] eqn:Hf; symmetry.
    + by apply map_lookup_filter_Some.
    + apply map_lookup_filter_None. by left.
  - rewrite lookup_union_l.
    2:{ apply map_lookup_filter_None. right. intros f _ H. by apply Hx. }
    destruct (decide (x = p)) as [->|Hxp].
    + rewrite kept_p. apply lookup_insert_eq.
    + rewrite kept_other by done. unfold unlinked. by rewrite lookup_insert_ne.
Qed.

Lemma moved_lookup x : moved !! x = if decide (x ∈ l) then m !! x else None.
Proof.
  unfold moved. destruct (decide (x ∈ l)) as [Hx|Hx].
  - destruct (m !! x) as [f|] eqn:Hf; [by apply map_lookup_filter_Some|apply map_lookup_filter_None; by left].
  - apply map_lookup_filter_None. right. intros f _ H. by apply Hx.
Qed.

(** The batch of [split_off]: the ancestors of the cut *)
Lemma cut_batch :
  let ops := insert_across [] None (@ancestors_of m k) in
  gen_ok kept ops None /\ (forall x, batch_delta ops x = 0) /\
  (forall x l', todo ops x l' -> l' = LAggregate /\ descends m k x /\ x <> k) /\
  (forall x, descends m k x -> x <> k -> todo ops x LAggregate).
Proof.
  pose proof cut_tree as HT.
  assert (HG0 : gen_ok m [] (Some k)).
  { destruct (gen_nil m) as [G1 G2 _ G4 G5]. split; try done. by intros x l' q H%not_elem_of_nil. }
  destruct (insert_across_ok HT k [] HG0) as (HG & Hd & Ht & Ha & Hpar). set (ops := insert_across _ _ _) in *. simpl.
  assert (Htd : forall x l', todo ops x l' -> l' = LAggregate /\ descends m k x /\ x <> k).
  { intros x l' Hx. destruct (decide (l' = LAggregate)) as [->|Hne].
    - split; [done|]. destruct (Ha _ Hx) as [[]%not_elem_of_nil|H]. by apply (elem_of_ancestors HT).
    - rewrite Ht in Hx by done. by apply not_elem_of_nil in Hx. }
  assert (Hall : forall y x, descends m y x -> y = k \/ todo ops y LAggregate -> x <> k -> todo ops x LAggregate).
  { induction 1 as [|y z x Hyz Hzx IH]; [intros [?|?] ?; done|]. intros Hy Hx. apply IH; [right|done].
    destruct Hy as [->|Hy]; [by apply Hpar|]. eapply (gn_up _ _ _ HG); [exact Hy|done|done]. }
  split; [|split; [done|split; [done|intros x Hx Hne; eapply Hall; [exact Hx|by left|done]]]].
  destruct HG as [G1 G2 G3 G4 G5]. split; try done.
  intros x l' q Hx Hq _. eapply G3; [exact Hx| |done].
  assert (Hxl : x ∉ l) by (by apply kept_dom, (parent_of_dom _ _ q)). by rewrite kept_parent in Hq.
Qed.
End Cut.

(** ** Sharing out the votes *)
Lemma votes_sum_retain (w : Pubkey -> SlotHashKey -> Z) (m : infos) (votes : gmap Pubkey SlotHashKey) :
  (forall p v, votes !! p = Some v -> m !! v = None -> w p v = 0) -> votes_sum w (retain_votes m votes) = votes_sum w votes.
Proof.
  unfold retain_votes. induction votes as [|p v votes Hp IH] using map_ind; intros H; [by rewrite map_filter_empty|].
  assert (IH' : votes_sum w (filter (fun x => is_Some (m !! x.2)) votes) = votes_sum w votes).
  { apply IH. intros q u Hq. apply H. rewrite lookup_insert_ne; [done|congruence]. }
  rewrite votes_sum_fresh by done. destruct (m !! v) as [f|] eqn:Hv.
  - rewrite map_filter_insert_True by (simpl; rewrite Hv; eauto). rewrite votes_sum_fresh; [lia|].
    apply map_lookup_filter_None. by left.
  - rewrite map_filter_insert_False by (simpl; rewrite Hv; apply is_Some_None).
    rewrite delete_id by done. rewrite H; [lia|apply lookup_insert_eq|done].
Qed.

Lemma set_remove_id k l : k ∉ l -> set_remove k l = l.
Proof. intros Hk. unfold set_remove. apply filter_all. apply Forall_forall. by intros x Hx ->. Qed.

Section Operation.
Context (epoch_stakes : gmap Epoch EpochStakes) (epoch_schedule : EpochSchedule).
Notation fc_ok := (fc_ok epoch_stakes epoch_schedule).
Notation voted_stake := (voted_stake epoch_stakes epoch_schedule).

Lemma retain_stake (m : infos) (votes : gmap Pubkey SlotHashKey) (x : SlotHashKey) : is_Some (m !! x) -> voted_stake (retain_votes m votes) x = voted_stake votes x.
Proof.
  intros [f Hf]. apply votes_sum_retain. intros p v _ Hv. rewrite decide_False; [done|]. congruence.
Qed.

(** The aggregation of the ancestors *)
Lemma cut_process t k p pf l :
  fc_ok t -> k <> tree_root t -> parent_of (fork_infos t) k = Some p -> fork_infos t !! p = Some pf ->
  (forall x, x ∈ l <-> descends (fork_infos t) x k) ->
  exists A, process_update_operations (insert_aggregate_operations t [] k)
              (set_infos (unlinked (fork_infos t) k p pf) t)
            = Ok (set_infos (A ∪ moved (fork_infos t) l) t) /\ forks_ok A (tree_root t) /\
    (forall x, parent_of A x = parent_of (kept (fork_infos t) k p pf l) x) /\
    (forall x, children_of A x = children_of (kept (fork_infos t) k p pf l) x) /\
    (forall x, is_Some (A !! x) <-> is_Some (kept (fork_infos t) k p pf l !! x)) /\
    (forall x, is_Some (A !! x) -> stake_at A x = stake_at (fork_infos t) x).
Proof.
  intros [HF HS] Hkr Hpk Hp Hl. set (m := fork_infos t) in *. pose proof (fk_tree _ _ HF) as HT.
  destruct (cut_batch m (tree_root t) k p pf l HF Hpk Hp Hl) as (HG & Hd & Ht & Hall). set (ops := insert_across _ _ _) in *.
  pose proof (kept_tree m (tree_root t) k p pf l HF Hpk Hp Hl Hkr) as HTk. set (K := kept m k p pf l) in *.
  assert (Hkd : forall x, is_Some (K !! x) <-> is_Some (m !! x) /\ x ∉ l) by (intros x; by eapply kept_dom).
  destruct (process_operations_keep _ (rev ops) (mkForkChoice K (latest_votes t) (tree_root t)) (tree_root t)
    (stake_keeps _ (fun x => stake_at m x))) as (t' & Hrun & [S1 S2 S3 S4 S5] & HF' & HS'); simpl.
  - done.
  - by apply gen_batch.
  - intros x f Hx. destruct (descends_dec m _ x k HT) as [Hkx|Hkx]; [right|left; by eapply kept_node].
    rewrite todo_rev. apply Hall; [done|]. intros ->. assert (Hxk : k ∉ l) by (apply Hkd; eauto). apply Hxk, Hl. reflexivity.
  - apply marks_none; [by eapply kept_info|by eapply kept_edges|].
    intros x s. rewrite !todo_rev. split; intros [[=] _]%Ht.
  - intros x [Hx Hxl]%Hkd. rewrite batch_delta_rev, Hd, Z.add_0_r.
    destruct (kept_reads m (tree_root t) k p pf l HF Hpk Hp Hl x Hxl) as (_ & _ & E).
    fold K in E. rewrite E, HS by done. apply wrap64_small, wrap64_range.
  - simpl in *. exists (fork_infos t'). split; [|split; [done|split; [done|split; [done|split; [done|]]]]].
    + unfold process_update_operations, insert_aggregate_operations, do_insert_aggregate_operations_across_ancestors.
      change (ancestor_iterator t k) with (@ancestors_of m k). fold ops. unfold set_infos.
      rewrite (unlinked_union m (tree_root t) k p pf l HF Hpk Hl).
      apply process_frame; [|done]. intros x l' op Hx. rewrite elem_of_rev in Hx.
      assert (Htx : todo ops x l') by (by apply (list_elem_of_fmap_2 fst _ _ Hx)).
      apply Ht in Htx as (-> & Hkx & Hxk). pose proof (gn_label _ _ _ HG _ _ _ Hx) as Hop.
      split; [by destruct op|]. apply Hkd. split.
      * eapply (descends_dom HT); [exact Hkx|]. by eapply parent_of_dom.
      * rewrite Hl. intros Hxk'. apply Hxk. by eapply (descends_antisym HT).
    + intros x Hx. rewrite S5 in Hx. rewrite <-HS' by (by apply S5). simpl. rewrite Z.add_0_r. symmetry.
      apply wrap64_small. apply S5 in Hx as [f Hf]. unfold stake_at. rewrite Hf. apply (fk_infos _ _ HF' _ _ Hf).
Qed.

(** Moving the subtree out of the aggregated tree *)
Lemma cut_moves (m A : infos) (root k p : SlotHashKey) (pf : ForkInfo) (l : list SlotHashKey) :
  forks_ok m root -> parent_of m k = Some p -> m !! p = Some pf -> (forall x, x ∈ l <-> descends m x k) ->
  (forall x, parent_of A x = parent_of (kept m k p pf l) x) ->
  (forall x, children_of A x = children_of (kept m k p pf l) x) ->
  (forall x, is_Some (A !! x) <-> is_Some (kept m k p pf l !! x)) ->
  split_loop (S (size (A ∪ moved m l))) [k] (A ∪ moved m l) ∅ = Ok (A, moved m l).
Proof.
  intros HF Hpk Hp Hl HAp HAc HAd. pose proof (fk_tree _ _ HF) as HT. set (M := A ∪ moved m l).
  assert (HAn : forall x, x ∈ l -> A !! x = None).
  { intros x Hx. destruct (A !! x) eqn:E; [|done]. assert (H : is_Some (kept m k p pf l !! x)) by (apply HAd; eauto).
    rewrite kept_out in H by done. by apply is_Some_None in H. }
  assert (HMin : forall x, x ∈ l -> M !! x = m !! x).
  { intros x Hx. unfold M. rewrite lookup_union_r by (by apply HAn). by rewrite moved_lookup, decide_True. }
  assert (HMout : forall x, x ∉ l -> M !! x = A !! x).
  { intros x Hx. unfold M. apply lookup_union_l. by rewrite moved_lookup, decide_False. }
  assert (HMp : forall x, parent_of M x = parent_of m x).
  { intros x. destruct (decide (x ∈ l)) as [Hx|Hx]; [unfold parent_of; by rewrite HMin|].
    rewrite <-(kept_parent m root k p pf l HF Hpk Hp Hl x Hx), <-HAp. unfold parent_of. by rewrite HMout. }
  assert (HMc : forall x c, c ∈ children_of M x -> c ∈ children_of m x).
  { intros x c. destruct (decide (x ∈ l)) as [Hx|Hx]; [unfold children_of; by rewrite HMin|].
    intros Hc. assert (Hc' : c ∈ children_of (kept m k p pf l) x).
    { rewrite <-HAc. unfold children_of in *. by rewrite HMout in Hc. }
    rewrite (kept_children m root k p pf l HF Hpk Hp Hl) in Hc'. tauto. }
  assert (HMd : forall x y, descends M x y <-> descends m x y).
  { intros x y. split; apply descends_shape; auto. }
  apply (split_loop_moves M k p).
  - intros x c Hc. rewrite HMp. split; [by apply (tk_child _ _ HT), HMc|]. by apply (tree_child_slot HT), HMc.
  - intros x. destruct (decide (x ∈ l)) as [Hx|Hx].
    + unfold children_of. rewrite HMin by done. apply (tree_children_NoDup HT).
    + assert (children_of M x = children_of A x) as -> by (unfold children_of; by rewrite HMout). rewrite HAc.
      unfold children_of. destruct (decide (x = p)) as [->|Hxp].
      * rewrite (kept_p m root k p pf l HF Hpk Hl). simpl. apply NoDup_filter.
        rewrite <-(children_of_Some _ _ _ Hp). apply (tree_children_NoDup HT).
      * rewrite kept_other by done. apply (tree_children_NoDup HT).
  - intros x y. rewrite HMd, HMp. intros Hy Hxy. assert (Hyl : y ∈ l) by (by apply Hl).
    unfold children_of. rewrite HMin by done. by apply (tree_child_iff HT).
  - rewrite HMd. by apply (parent_not_below m root k p HF Hpk).
  - rewrite HMin; [by eapply parent_of_dom|]. apply Hl. reflexivity.
  - done.
  - intros x. rewrite HMd, <-Hl, moved_lookup. destruct (decide (x ∈ l)) as [Hx|Hx]; split; try done.
    intros _. apply Hl in Hx. eapply descends_up; [exact Hx|]. by eapply parent_of_dom.
  - intros x Hx. rewrite HMd, <-Hl. intros Hxl. rewrite HAn in Hx by done. by apply is_Some_None in Hx.
Qed.

Lemma split_off_ok t k :
  fc_ok t -> is_Some (fork_infos t !! k) -> k <> tree_root t ->
  exists t1 t2, split_off k t = Ok (t1, t2) /\ fc_ok t1 /\ fc_ok t2 /\ tree_root t1 = tree_root t /\ tree_root t2 = k /\
    subtree_of (fork_infos t) k (fork_infos t2) /\
    (forall x, is_Some (fork_infos t1 !! x) <-> is_Some (fork_infos t !! x) /\ ~ descends (fork_infos t) x k) /\
    (forall x, ~ descends (fork_infos t) x k -> parent_of (fork_infos t1) x = parent_of (fork_infos t) x) /\
    latest_votes t1 = retain_votes (fork_infos t1) (latest_votes t) /\
    latest_votes t2 = retain_votes (fork_infos t2) (latest_votes t).
Proof.
  intros Hok [fk Hfk] Hkr. pose proof (fc_forks _ _ _ Hok) as HF. pose proof (fk_tree _ _ HF) as HT.
  destruct (parent_of (fork_infos t) k) as [p|] eqn:Hpk; [|apply (tk_only_root _ _ HT) in Hpk; [done|eauto]].
  destruct (tree_parent_dom HT _ _ Hpk) as [pf Hp].
  destruct (subtree_diff_ok t _ k p HT) as (l & _ & _ & Hl0); [eauto|].
  assert (Hl : forall x, x ∈ l <-> descends (fork_infos t) x k).
  { intros x. rewrite Hl0. pose proof (parent_not_below _ _ _ _ HF Hpk). tauto. }
  destruct (cut_process t k p pf l Hok Hkr Hpk Hp Hl) as (A & Hrun & HFA & HAp & HAc & HAd & HAs).
  pose proof (cut_moves _ A _ _ _ _ _ HF Hpk Hp Hl HAp HAc HAd) as Hmove.
  set (m := fork_infos t) in *. set (B := moved m l) in *.
  unfold split_off. rewrite bool_decide_true by (by apply not_eq_sym). cbn [rust_assert obind]. fold m. rewrite Hfk. cbn [expect obind].
  assert (Hfkp : fi_parent fk = Some p) by (by rewrite <-(parent_of_Some _ _ _ Hfk)). rewrite Hfkp. cbn [expect obind].
  rewrite Hp. cbn [expect obind].
  rewrite bool_decide_true by (rewrite <-(children_of_Some _ _ _ Hp); by apply (tree_child_iff HT)). cbn [rust_assert obind].
  change (<[p := set_children (set_remove k (children pf)) pf]> m) with (unlinked m k p pf). rewrite Hrun. cbn [obind].
  change (fork_infos (set_infos (A ∪ B) t)) with (A ∪ B). rewrite Hmove. cbn [obind].
  assert (HAd' : forall x, is_Some (A !! x) <-> is_Some (m !! x) /\ ~ descends m x k).
  { intros x. rewrite HAd, (kept_dom m _ k p pf l HF Hpk Hp Hl x), Hl. done. }
  destruct (A !! p) as [fp|] eqn:HAp0.
  2:{ exfalso. destruct (HAd' p) as [_ H]. rewrite HAp0 in H. apply (is_Some_None (A := ForkInfo)), H.
      split; [eauto|by eapply parent_not_below]. }
  cbn [expect obind].
  assert (Hfp : set_children (set_remove k (children fp)) fp = fp).
  { rewrite set_remove_id; [by destruct fp|]. rewrite <-(children_of_Some _ _ _ HAp0), HAc.
    rewrite (kept_children m _ k p pf l HF Hpk Hp Hl). tauto. }
  rewrite Hfp, insert_id by done. set (B' := <[k := set_parent None fk]> B).
  do 2 eexists. split; [reflexivity|]. simpl.
  assert (Hsub : subtree_of m k B').
  { split; unfold B'; [by rewrite lookup_insert_eq, Hfk|..]; intros x Hx.
    - intros Hne. rewrite lookup_insert_ne by done. unfold B. rewrite moved_lookup, decide_True; [done|by apply Hl].
    - rewrite lookup_insert_ne by (intros <-; apply Hx; reflexivity). unfold B.
      rewrite moved_lookup, decide_False; [done|by rewrite Hl]. }
  split; [|split; [|do 3 (split; [done|]); split; [done|split; [|done]]]].
  - split; [done|]. simpl. intros x Hx. rewrite retain_stake by done. rewrite HAs by done. apply Hok. by apply HAd'.
  - eapply subtree_fc; [done|eauto|done|]. intros x Hx. by apply retain_stake.
  - intros x Hx. rewrite HAp. eapply kept_parent; try done. by rewrite Hl.
Qed.
End Operation.
