(* ===== verification/ForkChoiceMerge.v ===== *)
(** * Merging and pruning the fork choice

    [merge] adds the blocks of another tree below a leaf, parents first because
    slots grow away from the root, and then its votes; [purge_prune] walks down
    from the root, drops the blocks before the new root and splits off the forks
    past it. *)

From S2P Require Import Prelude AuthorizedVoters EpochSchedule ForkChoice ForkChoiceOps ForkChoiceTree ForkChoiceInv ForkChoiceBatch ForkChoiceVotes ForkChoiceMarks ForkChoiceLeaf ForkChoiceRoots ForkChoiceSplit.

(** ** Sorting the blocks *)
Lemma insert_node_perm n l : insert_node n l ≡ₚ n :: l.
Proof.
  induction l as [|x l IH]; simpl; [done|]. destruct (key_ltb x.1 n.1); [|done]. rewrite IH. apply Permutation_swap.
Qed.
Lemma sort_nodes_perm l : sort_nodes l ≡ₚ l.
Proof. induction l as [|n l IH]; simpl; [done|]. by rewrite insert_node_perm, IH. Qed.

Lemma elem_of_sort_nodes n l : n ∈ sort_nodes l <-> n ∈ l.
Proof. by rewrite (sort_nodes_perm l). Qed.
Lemma sort_nodes_keys x l : x ∈ (sort_nodes l).*1 <-> x ∈ l.*1.
Proof. by rewrite (sort_nodes_perm l). Qed.

Definition nodes_sorted (l : list (SlotHashKey * SlotHashKey)) : Prop := StronglySorted key_lt l.*1.

Lemma insert_node_sorted n l : nodes_sorted l -> n.1 ∉ l.*1 -> nodes_sorted (insert_node n l).
Proof.
  unfold nodes_sorted. induction l as [|x l IH]; simpl; intros HS Hn; [repeat constructor|].
  apply StronglySorted_inv in HS as [HS HF]. destruct (key_ltb x.1 n.1) eqn:E; simpl.
  - apply key_ltb_lt in E. constructor; [apply IH; [done|set_solver]|]. apply Forall_forall. intros y Hy.
    rewrite (insert_node_perm n l) in Hy. simpl in Hy. apply elem_of_cons in Hy as [->|Hy]; [done|]. by eapply Forall_forall in HF.
  - assert (Hlt : key_lt n.1 x.1).
    { destruct (key_lt_total n.1 x.1) as [Heq|[?|H]]; [rewrite Heq in Hn; set_solver|done|]. apply key_ltb_lt in H. congruence. }
    constructor; [by constructor|]. constructor; [done|]. eapply Forall_impl; [exact HF|]. intros y ?. by etrans.
Qed.
Lemma sort_nodes_sorted l : NoDup l.*1 -> nodes_sorted (sort_nodes l).
Proof.
  induction l as [|n l IH]; simpl; intros Hnd; [constructor|]. apply NoDup_cons in Hnd as [Hn Hnd].
  apply insert_node_sorted; [by apply IH|]. by rewrite (sort_nodes_perm l).
Qed.

Section Merge.
Context (epoch_stakes : gmap Epoch EpochStakes) (epoch_schedule : EpochSchedule).
Notation fc_ok := (fc_ok epoch_stakes epoch_schedule).

Lemma add_leaves_ok nodes t :
  fc_ok t -> nodes_sorted nodes ->
  (forall k p, (k, p) ∈ nodes -> p.1 < k.1 /\ (is_Some (fork_infos t !! p) \/ p ∈ nodes.*1)) ->
  (forall k p, (k, p) ∈ nodes -> fork_infos t !! k = None -> forall q, latest_votes t !! q <> Some k) ->
  exists t', add_leaves nodes t = Ok t' /\ fc_ok t' /\ latest_votes t' = latest_votes t /\ tree_root t' = tree_root t /\
    forall x, is_Some (fork_infos t' !! x) <-> x ∈ nodes.*1 \/ is_Some (fork_infos t !! x).
Proof.
  unfold nodes_sorted. revert t. induction nodes as [|[k p] nodes IH]; intros t Hok HS Hpar Hvotes; simpl.
  - exists t. do 4 (split; [done|]). intros x. split; [by right|]. intros [[]%not_elem_of_nil|]; done.
  - simpl in HS. apply StronglySorted_inv in HS as [HS HF]. destruct (Hpar k p) as [Hlt Hin]; [left|].
    assert (Hp : is_Some (fork_infos t !! p)).
    { simpl in Hin. destruct Hin as [?|[->|Hin]%elem_of_cons]; [done|lia|]. eapply Forall_forall in HF; [|exact Hin].
      apply key_lt_slot in HF. simpl in *. lia. }
    destruct (add_new_leaf_ok _ _ t k p Hok Hp Hlt) as (t1 & Hrun & Hok1 & Hv1 & Hr1 & Hd1 & _).
    { intros Hk. eapply Hvotes; [left|done]. }
    rewrite Hrun. simpl. destruct (IH t1 Hok1 HS) as (t2 & Hrun2 & Hok2 & Hv2 & Hr2 & Hd2).
    + intros k' p' H. destruct (Hpar k' p') as [? Hin']; [by right|]. split; [done|]. rewrite Hd1. simpl in Hin'.
      destruct Hin' as [?|[->|?]%elem_of_cons]; auto.
    + intros k' p' H Hk'. rewrite Hv1. eapply Hvotes; [by right|].
      destruct (fork_infos t !! k') eqn:E; [|done]. assert (Hs : is_Some (fork_infos t1 !! k')) by (apply Hd1; eauto).
      rewrite Hk' in Hs. by apply is_Some_None in Hs.
    + exists t2. split; [done|]. split; [done|]. split; [congruence|]. split; [congruence|].
      intros x. rewrite Hd2, Hd1, elem_of_cons. tauto.
Qed.

Lemma merge_ok table t other (leaf : SlotHashKey) :
  stakes_in_range epoch_stakes -> fc_ok t -> tree_ok (fork_infos other) (tree_root other) ->
  is_Some (fork_infos t !! leaf) -> leaf.1 < (tree_root other).1 ->
  (forall k, is_Some (fork_infos other !! k) -> fork_infos t !! k = None -> forall q, latest_votes t !! q <> Some k) ->
  same_stakes table epoch_stakes epoch_schedule (map_to_list (latest_votes other)) t ->
  exists t', merge table epoch_schedule other leaf t = Ok t' /\ fc_ok t' /\ tree_root t' = tree_root t /\
    forall x, is_Some (fork_infos t' !! x) <-> is_Some (fork_infos other !! x) \/ is_Some (fork_infos t !! x).
Proof.
  intros Hr Hok HT Hleaf Hlt Hvotes Hsame. unfold merge, contains_block. rewrite bool_decide_true by done. simpl.
  set (raw := other_slots_nodes leaf other).
  assert (Hkeys : raw.*1 = (map_to_list (fork_infos other)).*1).
  { unfold raw, other_slots_nodes. rewrite <-list_fmap_compose. done. }
  assert (Hraw : forall k p, (k, p) ∈ raw <-> exists f, fork_infos other !! k = Some f /\ p = default leaf (fi_parent f)).
  { intros k p. unfold raw, other_slots_nodes. rewrite list_elem_of_fmap. split.
    - intros ([k' f] & [= -> ->] & H%elem_of_map_to_list). eauto.
    - intros (f & Hf & ->). exists (k, f). split; [done|]. by apply elem_of_map_to_list. }
  assert (Hdom : forall x, x ∈ (sort_nodes raw).*1 <-> is_Some (fork_infos other !! x)).
  { intros x. rewrite sort_nodes_keys, Hkeys, list_elem_of_fmap. split.
    - intros ([k f] & -> & H%elem_of_map_to_list). eauto.
    - intros [f Hf]. exists (x, f). split; [done|]. by apply elem_of_map_to_list. }
  destruct (add_leaves_ok (sort_nodes raw) t Hok) as (t1 & Hrun1 & Hok1 & Hv1 & Hr1 & Hd1).
  - apply sort_nodes_sorted. rewrite Hkeys. apply NoDup_fst_map_to_list.
  - intros k p. rewrite elem_of_sort_nodes, Hraw. intros (f & Hf & ->).
    pose proof (parent_of_Some _ _ _ Hf) as Hp. destruct (fi_parent f) as [p|] eqn:Hpar; simpl.
    + split; [by apply (tk_parent _ _ HT) in Hp as [? _]|right]. apply Hdom. by eapply (tree_parent_dom HT).
    + apply (tk_only_root _ _ HT) in Hp; [|eauto]. subst k. auto.
  - intros k p. rewrite elem_of_sort_nodes, Hraw. intros (f & Hf & _). apply Hvotes. eauto.
  - rewrite Hrun1. simpl.
    destruct (add_votes_ok _ epoch_schedule (map_to_list (latest_votes other)) t1 Hr) as (t2 & best & Hrun2 & Hok2 & _ & [S1 S2 S3 S4 S5]);
      [apply NoDup_fst_map_to_list|done|].
    rewrite (add_votes_same _ epoch_stakes), Hrun2;
      [|apply NoDup_fst_map_to_list|unfold same_stakes; rewrite Hv1; exact Hsame].
    simpl. exists t2. split; [done|]. split; [done|]. split; [congruence|].
    intros x. by rewrite S3, Hd1, Hdom.
Qed.
End Merge.

(** ** Pruning *)
Section Purge.
Context (epoch_stakes : gmap Epoch EpochStakes) (epoch_schedule : EpochSchedule).
Notation fc_ok := (fc_ok epoch_stakes epoch_schedule).
Context (t0 : HeaviestSubtreeForkChoice) (nr : SlotHashKey).
Context (Hle : tree_root t0 = nr \/ key_lt (tree_root t0) nr).

(** [vis] lists the blocks taken from the stack, in the tree [t] of that
    moment. *)
Record purge_inv (t : HeaviestSubtreeForkChoice) (vis stack : list SlotHashKey) (root : option SlotHashKey)
    (purged : list SlotHashKey) (pruned : list HeaviestSubtreeForkChoice) : Prop := mk_purge_inv {
  pg_fc : fc_ok t;
  pg_pruned : Forall fc_ok pruned;
  pg_root : tree_root t = tree_root t0;
  pg_new : is_Some (fork_infos t !! nr);
  pg_sub : forall x, is_Some (fork_infos t !! x) ->
    is_Some (fork_infos t0 !! x) /\ parent_of (fork_infos t) x = parent_of (fork_infos t0) x;
  pg_nodup : NoDup (vis ++ stack);
  pg_dom : forall x, x ∈ vis ++ stack -> is_Some (fork_infos t0 !! x);
  pg_stack : forall x, x ∈ stack -> is_Some (fork_infos t !! x);
  pg_purged : forall x, x ∈ purged -> x ∈ vis /\ is_Some (fork_infos t !! x) /\ key_lt x nr;
  pg_purged_nodup : NoDup purged;
  pg_from : forall x, x ∈ vis ++ stack -> x = tree_root t0 \/ exists q, q ∈ purged /\ parent_of (fork_infos t0) x = Some q;
  pg_closed : forall x c, x ∈ purged -> c ∈ children_of (fork_infos t) x -> c ∈ vis ++ stack;
  pg_vis : forall x, x ∈ vis -> x ∈ purged \/ x = nr \/ fork_infos t !! x = None;
  pg_flag : nr ∈ vis -> root = Some nr;
  pg_start : tree_root t0 ∈ vis ++ stack;
  pg_keep : forall x, descends (fork_infos t0) x nr -> is_Some (fork_infos t !! x) /\ descends (fork_infos t) x nr
}.

Lemma purge_bound t vis stack root purged pruned :
  purge_inv t vis stack root purged pruned -> (length vis + length stack <= size (fork_infos t0))%nat.
Proof.
  intros H. rewrite <-length_app, <-size_dom. rewrite <-(size_list_to_set (C := gset SlotHashKey)) by apply H.
  apply subseteq_size. intros x Hx%elem_of_list_to_set. by apply elem_of_dom, (pg_dom _ _ _ _ _ _ H).
Qed.

(** The blocks above a block that was reached are purged, ... *)
Lemma purge_above t vis stack root purged pruned x y :
  purge_inv t vis stack root purged pruned -> x ∈ vis ++ stack -> is_Some (fork_infos t !! x) ->
  descends (fork_infos t) x y -> y = x \/ y ∈ purged.
Proof.
  intros H Hx Hs Hd. revert Hx Hs. induction Hd as [|x z y Hxz Hzy IH]; [by left|]. intros Hx Hs. right.
  destruct (pg_from _ _ _ _ _ _ H _ Hx) as [->|(q & Hq & Hpq)].
  - rewrite <-(pg_root _ _ _ _ _ _ H) in Hxz.
    rewrite (proj2 (tk_root _ _ (fk_tree _ _ (fc_forks _ _ _ (pg_fc _ _ _ _ _ _ H))))) in Hxz. done.
  - rewrite <-(proj2 (pg_sub _ _ _ _ _ _ H _ Hs)) in Hpq. assert (q = z) as -> by congruence.
    destruct (pg_purged _ _ _ _ _ _ H _ Hq) as (Hv & Hzt & _). destruct IH as [->|?]; [set_solver|done|done|done].
Qed.
(** ... so a block on the stack is not below another one. *)
Lemma purge_apart t vis cur stack root purged pruned x :
  purge_inv t vis (cur :: stack) root purged pruned -> x ∈ vis ++ cur :: stack -> is_Some (fork_infos t !! x) -> x <> cur ->
  ~ descends (fork_infos t) x cur.
Proof.
  intros H Hx Hs Hne Hd. destruct (purge_above _ _ _ _ _ _ _ _ H Hx Hs Hd) as [?|Hp]; [done|].
  apply (pg_purged _ _ _ _ _ _ H) in Hp as [Hv _]. pose proof (pg_nodup _ _ _ _ _ _ H) as (_ & Hnd & _)%NoDup_app.
  apply (Hnd _ Hv). left.
Qed.

Lemma purge_found t vis stack root purged pruned :
  purge_inv t vis (nr :: stack) root purged pruned -> purge_inv t (vis ++ [nr]) stack (Some nr) purged pruned.
Proof.
  intros [H1 H2 H3 H4 H5 H6 H7 H8 H9 H10 H11 H12 H13 H14 H15 H16]. split; rewrite <-?app_assoc; simpl; try done.
  - intros x Hx. apply H8. by right.
  - intros x Hx. destruct (H9 x Hx) as (? & ? & ?). split; [set_solver|done].
  - intros x [Hx| ->%list_elem_of_singleton]%elem_of_app; auto.
Qed.

Lemma purge_drop t vis cur stack root purged pruned :
  purge_inv t vis (cur :: stack) root purged pruned -> key_lt cur nr ->
  purge_inv t (vis ++ [cur]) (reverse (children_of (fork_infos t) cur) ++ stack) root (purged ++ [cur]) pruned.
Proof.
  intros [H1 H2 H3 H4 H5 H6 H7 H8 H9 H10 H11 H12 H13 H14 H15 H16] Hlt. pose proof (fk_tree _ _ (fc_forks _ _ _ H1)) as HT.
  assert (Hcv : cur ∉ vis) by (intros Hc; apply NoDup_app in H6 as (_ & Hnd & _); apply (Hnd _ Hc); left).
  assert (Hch : forall c, c ∈ children_of (fork_infos t) cur ->
    is_Some (fork_infos t !! c) /\ is_Some (fork_infos t0 !! c) /\ parent_of (fork_infos t0) c = Some cur /\ c ∉ vis ++ cur :: stack).
  { intros c Hc. pose proof (tree_child_dom HT _ _ Hc) as Hd. destruct (H5 _ Hd) as [Hd0 Hp].
    rewrite (tk_child _ _ HT _ _ Hc) in Hp. split; [done|]. split; [done|]. split; [done|]. intros Hin.
    destruct (H11 _ Hin) as [->|(q & Hq & Hpq)].
    - rewrite <-H3 in Hc. apply (tk_child _ _ HT) in Hc. rewrite (proj2 (tk_root _ _ HT)) in Hc. done.
    - assert (q = cur) as -> by congruence. by apply Hcv, H9. }
  assert (Hsplit : forall x, x ∈ vis ++ cur :: reverse (children_of (fork_infos t) cur) ++ stack <->
    x ∈ vis ++ cur :: stack \/ x ∈ children_of (fork_infos t) cur).
  { intros x. rewrite !elem_of_app, !elem_of_cons, elem_of_app, elem_of_reverse. tauto. }
  split; rewrite <-?app_assoc; simpl; try done.
  - rewrite (Permutation_app_comm (reverse _)), app_comm_cons, app_assoc. apply NoDup_app. split; [exact H6|split].
    + intros x Hx Hc. rewrite elem_of_reverse in Hc. by destruct (Hch x Hc) as (_ & _ & _ & ?).
    + rewrite reverse_Permutation. apply (tree_children_NoDup HT).
  - intros x [Hx|Hx]%Hsplit; [by apply H7|by apply Hch].
  - intros x [Hx|Hx]%elem_of_app; [rewrite elem_of_reverse in Hx; by apply Hch|apply H8; by right].
  - intros x [Hx| ->%list_elem_of_singleton]%elem_of_app.
    + destruct (H9 x Hx) as (? & ? & ?). split; [set_solver|done].
    + split; [set_solver|]. split; [apply H8; left|done].
  - apply NoDup_app. split; [done|]. split; [|apply NoDup_singleton]. intros x Hx ->%list_elem_of_singleton. by apply Hcv, H9.
  - intros x [Hx|Hx]%Hsplit.
    + destruct (H11 x Hx) as [?|(q & ? & ?)]; [by left|right; exists q; set_solver].
    + right. exists cur. split; [set_solver|by apply Hch].
  - intros x c [Hx| ->%list_elem_of_singleton]%elem_of_app Hc; apply Hsplit; [left; by eapply H12|by right].
  - intros x [Hx| ->%list_elem_of_singleton]%elem_of_app; [destruct (H13 x Hx); set_solver|left; set_solver].
  - intros [Hx|Hx%list_elem_of_singleton]%elem_of_app; [by apply H14|]. subst. by apply key_lt_irrefl in Hlt.
  - apply Hsplit. by left.
Qed.

Lemma purge_split t vis cur stack root purged pruned :
  purge_inv t vis (cur :: stack) root purged pruned -> key_lt nr cur ->
  exists t1 t2, split_off cur t = Ok (t1, t2) /\ purge_inv t1 (vis ++ [cur]) stack root purged (pruned ++ [t2]).
Proof.
  intros HI Hlt. pose proof HI as [H1 H2 H3 H4 H5 H6 H7 H8 H9 H10 H11 H12 H13 H14 H15 H16].
  pose proof (fk_tree _ _ (fc_forks _ _ _ H1)) as HT.
  assert (Hcur : cur <> tree_root t).
  { rewrite H3. intros ->. destruct Hle as [E|Hr]; [rewrite E in Hlt; by apply key_lt_irrefl in Hlt|]. destruct (key_lt_irrefl nr). by etrans. }
  destruct (split_off_ok _ _ t cur H1) as (t1 & t2 & Hrun & Hok1 & Hok2 & Hr1 & _ & _ & Hd1 & Hp1 & _); [apply H8; left|done|].
  exists t1, t2. split; [done|].
  assert (Hcv : cur ∉ vis) by (intros Hc; apply NoDup_app in H6 as (_ & Hnd & _); apply (Hnd _ Hc); left).
  assert (Hcs : cur ∉ stack) by (apply NoDup_app in H6 as (_ & _ & Hnd); by apply NoDup_cons in Hnd as [? _]).
  assert (Hstay : forall x, x ∈ vis ++ cur :: stack -> is_Some (fork_infos t !! x) -> x <> cur -> is_Some (fork_infos t1 !! x)).
  { intros x Hx Hs Hne. apply Hd1. split; [done|]. by eapply purge_apart. }
  split; rewrite <-?app_assoc; simpl; try done.
  - apply Forall_app. split; [done|by constructor].
  - congruence.
  - apply Hd1. split; [done|]. intros [->|Hs]%(descends_slot HT); [by apply key_lt_irrefl in Hlt|].
    apply key_lt_slot in Hlt. lia.
  - intros x [Hx Hn]%Hd1. rewrite Hp1 by done. by apply H5.
  - intros x Hx. apply Hstay; [set_solver|apply H8; by right|]. by intros ->.
  - intros x Hx. destruct (H9 x Hx) as (Hv & Hs & ?). split; [set_solver|]. split; [|done].
    apply Hstay; [set_solver|done|]. by intros ->.
  - intros x c Hx Hc. apply (H12 x c Hx). pose proof (fk_tree _ _ (fc_forks _ _ _ Hok1)) as HT1.
    pose proof (tree_child_dom HT1 _ _ Hc) as [_ Hn]%Hd1. apply (tk_child _ _ HT1) in Hc. rewrite Hp1 in Hc by done.
    by apply (tree_child_iff HT).
  - intros x [Hx| ->%list_elem_of_singleton]%elem_of_app.
    + destruct (H13 x Hx) as [?|[?|Hn]]; [auto|auto|right; right]. destruct (fork_infos t1 !! x) eqn:E; [|done].
      assert (Hs : is_Some (fork_infos t1 !! x)) by eauto. apply Hd1 in Hs as [Hs _]. rewrite Hn in Hs. by apply is_Some_None in Hs.
    + right; right. destruct (fork_infos t1 !! cur) eqn:E; [|done].
      assert (Hs : is_Some (fork_infos t1 !! cur)) by eauto. apply Hd1 in Hs as [_ Hs]. destruct Hs. reflexivity.
  - intros [Hx|Hx%list_elem_of_singleton]%elem_of_app; [by apply H14|]. subst. by apply key_lt_irrefl in Hlt.
  - assert (Hout : forall x, is_Some (fork_infos t !! x) -> descends (fork_infos t) x nr -> ~ descends (fork_infos t) x cur).
    { intros x Hx Hxn Hxc. destruct (descends_comparable _ _ _ Hxn Hxc) as [H|H].
      - apply (descends_slot HT) in H as [->|H]; [by apply key_lt_irrefl in Hlt|]. apply key_lt_slot in Hlt. lia.
      - destruct (purge_above _ _ _ _ _ _ cur nr HI) as [->|Hp]; [set_solver|apply H8; left|done|by apply key_lt_irrefl in Hlt|].
        apply H9 in Hp as (_ & _ & Hp). by apply key_lt_irrefl in Hp. }
    intros x Hx. destruct (H16 x Hx) as [Hs Hd]. split; [apply Hd1; split; [done|by apply Hout]|].
    clear Hx. revert Hs. induction Hd as [|x z y Hxz Hzy IH]; [reflexivity|]. intros Hs. eapply rtc_l.
    + rewrite Hp1; [exact Hxz|]. apply Hout; [done|by eapply rtc_l].
    + apply IH; try done. by eapply (tree_parent_dom HT).
Qed.

Lemma purge_loop_ok fuel t vis stack root purged pruned :
  purge_inv t vis stack root purged pruned -> (size (fork_infos t0) < fuel + length vis)%nat ->
  exists t' vis' root' purged' pruned', purge_loop fuel nr stack root purged pruned t = Ok (t', root', purged', pruned') /\
    purge_inv t' vis' [] root' purged' pruned'.
Proof.
  revert t vis stack root purged pruned. induction fuel as [|fuel IH]; intros t vis stack root purged pruned HI Hfuel;
    pose proof (purge_bound _ _ _ _ _ _ HI) as Hb; [lia|].
  destruct stack as [|cur stack]; simpl; [eauto 10|]. case_bool_decide as Hc.
  - subst cur. apply (IH t (vis ++ [nr])); [by eapply purge_found|rewrite length_app; simpl; lia].
  - destruct (key_ltb cur nr) eqn:E.
    + apply key_ltb_lt in E. assert (Hs : is_Some (fork_infos t !! cur)) by (apply (pg_stack _ _ _ _ _ _ HI); left).
      destruct Hs as [f Hf]. unfold get_children. rewrite Hf. simpl. pose proof (purge_drop _ _ _ _ _ _ _ HI E) as HI'.
      rewrite (children_of_Some _ _ _ Hf) in HI'. apply (IH t (vis ++ [cur])); [done|rewrite length_app; simpl; lia].
    + assert (Hlt : key_lt nr cur).
      { destruct (key_lt_total nr cur) as [?|[?|H]]; [congruence|done|]. apply key_ltb_lt in H. congruence. }
      destruct (purge_split _ _ _ _ _ _ _ HI Hlt) as (t1 & t2 & Hrun & HI'). rewrite Hrun. simpl.
      apply (IH t1 (vis ++ [cur])); [done|rewrite length_app; simpl; lia].
Qed.

Lemma purge_start : fc_ok t0 -> is_Some (fork_infos t0 !! nr) -> purge_inv t0 [] [tree_root t0] None [] [].
Proof.
  intros Hok Hnr. pose proof (fk_tree _ _ (fc_forks _ _ _ Hok)) as HT. split; simpl; try done.
  - apply NoDup_singleton.
  - intros x ->%list_elem_of_singleton. apply HT.
  - intros x ->%list_elem_of_singleton. apply HT.
  - by intros x []%not_elem_of_nil.
  - constructor.
  - intros x ->%list_elem_of_singleton. by left.
  - by intros x c []%not_elem_of_nil.
  - by intros x []%not_elem_of_nil.
  - by intros []%not_elem_of_nil.
  - set_solver.
  - intros x Hx. split; [by eapply descends_up|done].
Qed.

(** At the end every block left is purged or below the new root. *)
Lemma purge_end t vis root purged pruned x :
  purge_inv t vis [] root purged pruned -> is_Some (fork_infos t !! x) -> x ∈ purged <-> ~ descends (fork_infos t) x nr.
Proof.
  intros [H1 H2 H3 H4 H5 H6 H7 H8 H9 H10 H11 H12 H13 H14 H15 H16] Hx. rewrite app_nil_r in *.
  pose proof (fk_tree _ _ (fc_forks _ _ _ H1)) as HT. split.
  - intros (_ & _ & Hlt)%H9 [->|Hs]%(descends_slot HT); [by apply key_lt_irrefl in Hlt|]. apply key_lt_slot in Hlt. lia.
  - assert (Hcase : forall y, descends (fork_infos t) x y -> y = tree_root t0 -> x ∈ purged \/ descends (fork_infos t) x nr).
    { intros y Hd Hy. revert Hx. induction Hd as [|x z y Hxz Hzy IH]; intros Hx.
      - subst x. destruct (H13 _ H15) as [?|[<-|Hn]]; [by left|right; reflexivity|]. rewrite Hn in Hx. by apply is_Some_None in Hx.
      - destruct IH as [Hz|Hz]; [done|by eapply (tree_parent_dom HT)| |right; by eapply rtc_l].
        apply (tree_child_iff HT) in Hxz. destruct (H13 _ (H12 _ _ Hz Hxz)) as [?|[<-|Hn]]; [by left|right; reflexivity|].
        rewrite Hn in Hx. by apply is_Some_None in Hx. }
    intros Hn. destruct (Hcase (tree_root t0)) as [?|?]; [rewrite <-H3; by apply (tree_descends_root HT)|done|done|done].
Qed.

Lemma purge_found_root t vis root purged pruned : purge_inv t vis [] root purged pruned -> root = Some nr.
Proof.
  intros H. pose proof (fk_tree _ _ (fc_forks _ _ _ (pg_fc _ _ _ _ _ _ H))) as HT. apply (pg_flag _ _ _ _ _ _ H).
  destruct (parent_of (fork_infos t) nr) as [q|] eqn:Hq.
  - assert (Hqp : q ∈ purged).
    { eapply purge_end; [done|by eapply (tree_parent_dom HT)|]. apply (child_not_descends HT). by apply (tree_child_iff HT). }
    pose proof (pg_closed _ _ _ _ _ _ H q nr Hqp) as Hv. rewrite app_nil_r in Hv. apply Hv. by apply (tree_child_iff HT).
  - apply (tk_only_root _ _ HT) in Hq; [|apply H]. pose proof (pg_start _ _ _ _ _ _ H) as Hs. rewrite app_nil_r in Hs.
    by rewrite Hq, (pg_root _ _ _ _ _ _ H).
Qed.
End Purge.

Lemma purge_prune_ok epoch_stakes epoch_schedule t nr :
  fc_ok epoch_stakes epoch_schedule t -> is_Some (fork_infos t !! nr) ->
  exists t' purged pruned, purge_prune nr t = Ok (t', purged, pruned) /\ fc_ok epoch_stakes epoch_schedule t' /\
    Forall (fc_ok epoch_stakes epoch_schedule) pruned /\ tree_root t' = nr /\ Forall (fun x => key_lt x nr) purged /\
    forall x, is_Some (fork_infos t' !! x) <-> descends (fork_infos t) x nr.
Proof.
  intros Hok Hnr. pose proof (fk_tree _ _ (fc_forks _ _ _ Hok)) as HT.
  assert (Hle : tree_root t = nr \/ key_lt (tree_root t) nr).
  { destruct (descends_slot HT _ _ (tree_descends_root HT _ Hnr)); [by left|right; by apply slot_lt_key]. }
  unfold purge_prune.
  destruct (purge_loop_ok epoch_stakes epoch_schedule t nr Hle (S (size (fork_infos t))) t [] [tree_root t] None [] []) as
    (t1 & vis & root & purged & pruned & Hrun & HI); [by apply purge_start|simpl; lia|].
  rewrite Hrun. simpl. assert (root = Some nr) as -> by (eapply purge_found_root; eauto).
  destruct (remove_all_ok purged t1) as (t2 & Hrun2 & Hv2 & Hr2 & Hx2).
  { apply HI. } { intros x Hx. by apply (pg_purged _ _ _ _ _ _ _ _ _ _ HI). }
  rewrite Hrun2. simpl. destruct (pg_new _ _ _ _ _ _ _ _ _ _ HI) as [f Hf].
  assert (Hend : forall x, is_Some (fork_infos t1 !! x) -> x ∈ purged <-> ~ descends (fork_infos t1) x nr).
  { intros x Hx. by eapply purge_end. }
  assert (Hf2 : fork_infos t2 !! nr = Some f).
  { rewrite Hx2, decide_False; [done|]. rewrite Hend by eauto. intros H. apply H. reflexivity. }
  unfold modify_info. rewrite Hf2. simpl. exists (set_root nr (set_infos (<[nr := set_parent None f]> (fork_infos t2)) t2)), purged, pruned.
  split; [done|].
  assert (Hsub : subtree_of (fork_infos t1) nr (<[nr := set_parent None f]> (fork_infos t2))).
  { split; [by rewrite lookup_insert_eq, Hf|..]; intros x Hx.
    - intros Hne. rewrite lookup_insert_ne by done. rewrite Hx2, decide_False; [done|].
      rewrite Hend by (eapply descends_up; eauto). by intros [].
    - rewrite lookup_insert_ne by (intros <-; apply Hx; reflexivity). rewrite Hx2.
      destruct (fork_infos t1 !! x) as [g|] eqn:Hg; [|by destruct (decide _)]. rewrite decide_True; [done|]. apply Hend; eauto. }
  pose proof (pg_fc _ _ _ _ _ _ _ _ _ _ HI) as Hok1. pose proof (fk_tree _ _ (fc_forks _ _ _ Hok1)) as HT1.
  split; [|split; [apply HI|split; [done|split]]].
  - unfold set_root, set_infos. simpl. rewrite Hv2. eapply subtree_fc; [done|eauto|done|done].
  - apply Forall_forall. intros x Hx. by apply (pg_purged _ _ _ _ _ _ _ _ _ _ HI).
  - assert (Hs1 : is_Some (fork_infos t1 !! nr)) by eauto.
    intros x. simpl. rewrite (subtree_dom _ _ _ Hs1 Hsub (fun y => descends_dec _ _ nr y HT1) x). split.
    + intros Hd. clear -Hd HI Hf HT1. assert (Hs : is_Some (fork_infos t1 !! x)) by (eapply descends_up; eauto).
      revert Hs. induction Hd as [|x z y Hxz Hzy IH]; [reflexivity|]. intros Hs. eapply rtc_l.
      * rewrite <-(proj2 (pg_sub _ _ _ _ _ _ _ _ _ _ HI _ Hs)). exact Hxz.
      * apply IH; try done. by eapply (tree_parent_dom HT1).
    + intros Hd. by apply (pg_keep _ _ _ _ _ _ _ _ _ _ HI).
Qed.
