(* ===== verification/ForkChoiceSpec.v ===== *)
(** * What the fork choice promises

    The weight of a subtree is the stake of the validators whose latest vote is
    in it, and the block to build on is the one that a walk from the root to
    the heaviest candidate child finds.  [HeaviestSubtreeForkChoice] keeps both
    up to date in every reachable state, and no operation panics on arguments
    its callers may pass. *)

From S2P Require Import Prelude AuthorizedVoters EpochSchedule ForkChoice ForkChoiceOps ForkChoiceTree ForkChoiceInv ForkChoiceBatch ForkChoiceGen ForkChoiceVotes ForkChoiceMarks ForkChoiceLeaf ForkChoiceRoots ForkChoiceSplit ForkChoiceMerge.

Section Spec.
Context (epoch_stakes : gmap Epoch EpochStakes) (epoch_schedule : EpochSchedule).
Notation stake := (vote_stake epoch_stakes epoch_schedule).
Notation fc_ok := (fc_ok epoch_stakes epoch_schedule).
Notation voted_stake := (voted_stake epoch_stakes epoch_schedule).

(** ** The reference *)
Definition on_fork (t : HeaviestSubtreeForkChoice) (k v : SlotHashKey) : bool :=
  bool_decide (v = k \/ k ∈ ancestor_iterator t v).

(** The stake of the latest votes in the subtree of [k] *)
Definition subtree_weight (t : HeaviestSubtreeForkChoice) (k : SlotHashKey) : Z :=
  votes_sum (fun p v => if on_fork t k v then stake p v.1 else 0) (latest_votes t).

Fixpoint heaviest (w : SlotHashKey -> Z) (cs : list SlotHashKey) : option SlotHashKey :=
  match cs with
  | [] => None
  | c :: cs =>
      match heaviest w cs with
      | None => Some c
      | Some c' => if (w c' <? w c) || (w c =? w c') && key_ltb c c' then Some c else Some c'
      end
  end.

(** The heaviest chain of candidates from [k] *)
Fixpoint ghost (fuel : nat) (t : HeaviestSubtreeForkChoice) (k : SlotHashKey) : SlotHashKey :=
  match fuel with
  | O => k
  | S fuel =>
      match heaviest (subtree_weight t) (filter (fun c => cd (fork_infos t) c = true) (children_of (fork_infos t) k)) with
      | None => k
      | Some c => ghost fuel t c
      end
  end.

(** ** Weights *)
Lemma on_fork_spec t k v : tree_ok (fork_infos t) (tree_root t) -> on_fork t k v = true <-> descends (fork_infos t) v k.
Proof.
  intros HT. unfold on_fork. rewrite bool_decide_eq_true. change (ancestor_iterator t v) with (@ancestors_of (fork_infos t) v).
  rewrite (elem_of_ancestors HT). split; [intros [->|[? _]]; [reflexivity|done]|].
  intros Hd. destruct (decide (v = k)); [by left|right; split; [done|congruence]].
Qed.

Lemma votes_sum_list (w : SlotHashKey -> Pubkey -> SlotHashKey -> Z) votes cs :
  foldr (fun c s => votes_sum (w c) votes + s) 0 cs = votes_sum (fun p v => foldr (fun c s => w c p v + s) 0 cs) votes.
Proof.
  induction cs as [|c cs IH]; simpl; [symmetry; apply votes_sum_zero|]. by rewrite IH, votes_sum_add.
Qed.

Lemma one_branch t k v s cs :
  tree_ok (fork_infos t) (tree_root t) -> (forall c, c ∈ cs -> c ∈ children_of (fork_infos t) k) -> NoDup cs ->
  foldr (fun c z => (if on_fork t c v then s else 0) + z) 0 cs = if decide (Exists (fun c => on_fork t c v = true) cs) then s else 0.
Proof.
  intros HT Hin. induction cs as [|c cs IH]; intros Hnd.
  - by destruct (decide (Exists _ [])) as [?%Exists_nil|].
  - cbn [foldr]. apply NoDup_cons in Hnd as [Hc Hnd]. rewrite IH; [|set_solver|done]. destruct (on_fork t c v) eqn:Hv.
    + rewrite (decide_True (P := Exists _ (c :: cs))) by (by left). rewrite decide_False; [lia|].
      intros (c' & Hc' & Hv')%Exists_exists. apply Hc. apply (on_fork_spec t _ _ HT) in Hv, Hv'.
      rewrite (descends_one_child HT v k c c'); [done|set_solver|set_solver|done|done].
    + destruct (decide (Exists _ cs)) as [He|He], (decide (Exists _ (c :: cs))) as [He'|He']; try done.
      * destruct He'. by right.
      * apply Exists_cons in He' as [?|?]; [congruence|done].
Qed.

Lemma subtree_weight_unfold t k :
  tree_ok (fork_infos t) (tree_root t) ->
  subtree_weight t k = voted_stake (latest_votes t) k + foldr (fun c s => subtree_weight t c + s) 0 (children_of (fork_infos t) k).
Proof.
  intros HT. unfold subtree_weight. rewrite votes_sum_list. unfold ForkChoiceVotes.voted_stake. rewrite <-votes_sum_add.
  apply votes_sum_ext. intros p v _. rewrite (one_branch t k v (stake p v.1)) by (done || apply (tree_children_NoDup HT)).
  pose proof (on_fork_spec t k v HT) as Hk. destruct (decide (v = k)) as [->|Hne].
  - rewrite (proj2 Hk) by reflexivity. rewrite decide_False; [lia|].
    intros (c & Hc & Hv%(on_fork_spec t _ _ HT))%Exists_exists. by apply (child_not_descends HT) in Hc.
  - destruct (on_fork t k v) eqn:Hv; [|rewrite decide_False; [lia|]].
    + destruct (descends_inv HT v k) as [?|(c & Hc & Hd)]; [by apply Hk|done|]. rewrite decide_True; [lia|].
      apply Exists_exists. exists c. split; [done|]. by apply (on_fork_spec t _ _ HT).
    + intros (c & Hc & Hd%(on_fork_spec t _ _ HT))%Exists_exists. assert (Hkv : false = true); [|done]. apply Hk.
      etrans; [exact Hd|]. by apply (descends_child HT).
Qed.

Lemma st_weight t k : fc_ok t -> is_Some (fork_infos t !! k) -> st (fork_infos t) k = wrap64 (subtree_weight t k).
Proof.
  intros [HF HS]. pose proof (fk_tree _ _ HF) as HT. revert k. apply (tree_ind_down HT). intros k [f Hf] IH.
  rewrite subtree_weight_unfold by done. pose proof (fk_nodes _ _ HF _ _ Hf) as Hn.
  assert (Hst : st (fork_infos t) k = wrap64 (stake_voted_at f + child_stakes (fork_infos t) (children f))).
  { unfold st. rewrite Hf. apply Hn. }
  specialize (HS k ltac:(eauto)). unfold stake_at in HS. rewrite Hf in HS. simpl in HS.
  rewrite Hst, HS, wrap64_add_l. rewrite (children_of_Some _ _ _ Hf) in IH |- *. clear Hst HS Hn.
  set (v := voted_stake _ k). clearbody v. revert v. induction (children f) as [|c cs IHc]; intros v; simpl; [done|].
  rewrite IH by left. replace (v + (_ + child_stakes (fork_infos t) cs)) with
    (v + child_stakes (fork_infos t) cs + wrap64 (subtree_weight t c)) by lia.
  rewrite wrap64_add_r. replace (_ + subtree_weight t c) with (v + subtree_weight t c + child_stakes (fork_infos t) cs) by lia.
  rewrite IHc; [f_equal; lia|]. intros c' Hc'. apply IH. by right.
Qed.

(** No block has more stake than all the votes. *)
Definition total_voted (t : HeaviestSubtreeForkChoice) : Z := votes_sum (fun p v => stake p v.1) (latest_votes t).

Lemma votes_sum_le w w' votes : (forall p v, w p v <= w' p v) -> votes_sum w votes <= votes_sum w' votes.
Proof.
  intros H. induction votes as [|p v votes Hp IH] using map_ind; [by rewrite !votes_sum_empty|].
  rewrite !votes_sum_fresh by done. specialize (H p v). lia.
Qed.

Lemma weight_bounds t k : stakes_in_range epoch_stakes -> 0 <= subtree_weight t k <= total_voted t.
Proof.
  intros Hr. split.
  - rewrite <-(votes_sum_zero (latest_votes t)). apply votes_sum_le. intros p v.
    pose proof (stake_nonneg epoch_stakes epoch_schedule p v.1 Hr). destruct (on_fork t k v); lia.
  - apply votes_sum_le. intros p v.
    pose proof (stake_nonneg epoch_stakes epoch_schedule p v.1 Hr). destruct (on_fork t k v); lia.
Qed.

Lemma st_exact t k :
  stakes_in_range epoch_stakes -> total_voted t <= u64_max -> fc_ok t -> is_Some (fork_infos t !! k) ->
  st (fork_infos t) k = subtree_weight t k.
Proof.
  intros Hr Hmax Hok Hk. rewrite st_weight by done. apply wrap64_small. pose proof (weight_bounds t k Hr). unfold in_u64. lia.
Qed.

(** ** The walk *)
Lemma heaviest_None w cs : heaviest w cs = None -> cs = [].
Proof. destruct cs as [|c cs]; simpl; [done|]. destruct (heaviest w cs); [by destruct (_ || _)|done]. Qed.

Lemma heaviest_best m cs c (w : SlotHashKey -> Z) :
  (forall x, x ∈ cs -> w x = st m x) -> heaviest w cs = Some c ->
  c ∈ cs /\ forall c', c' ∈ cs -> c' = c \/ better m c c'.
Proof.
  revert c. induction cs as [|x cs IH]; intros c Hw; simpl; [done|].
  destruct (heaviest w cs) as [y|] eqn:Hy.
  - destruct (IH y) as [Hin Hmax]; [set_solver|done|].
    assert (Htest : (w y <? w x) || (w x =? w y) && key_ltb x y = true <-> better m x y).
    { unfold better. rewrite !Hw by set_solver. by rewrite orb_true_iff, andb_true_iff, Z.ltb_lt, Z.eqb_eq, key_ltb_lt. }
    destruct (_ || _); intros [= <-].
    + split; [left|]. pose proof (proj1 Htest eq_refl) as Hxy. intros c' [->|Hc']%elem_of_cons; [by left|right].
      destruct (Hmax c' Hc') as [->|?]; [done|by eapply better_trans].
    + split; [by right|]. intros c' [->|Hc']%elem_of_cons; [|by apply Hmax].
      destruct (better_total m x y) as [?|[H%Htest|?]]; auto. done.
  - apply heaviest_None in Hy as ->. intros [= <-]. split; [left|]. intros c' ->%list_elem_of_singleton. by left.
Qed.

Lemma best_slot_ghost t k f fuel :
  stakes_in_range epoch_stakes -> total_voted t <= u64_max -> fc_ok t ->
  fork_infos t !! k = Some f -> is_candidate f = true -> (size (fork_infos t) <= slots_below (fork_infos t) k + fuel)%nat ->
  best_slot f = ghost fuel t k.
Proof.
  intros Hr Hmax Hok. pose proof (fc_forks _ _ _ Hok) as HF. pose proof (fk_tree _ _ HF) as HT.
  revert k f. induction fuel as [|fuel IH]; intros k f Hf Hcd Hfuel.
  - exfalso. assert (Hlt : (slots_below (fork_infos t) k < size (fork_infos t))%nat); [|lia].
    unfold slots_below. rewrite <-(size_dom (fork_infos t)). apply subset_size. split; [set_solver|].
    intros Hsub. assert (Hk : k ∈ dom (fork_infos t)) by (apply elem_of_dom; eauto).
    apply Hsub in Hk. apply elem_of_filter in Hk as [? _]. lia.
  - simpl. rewrite (children_of_Some _ _ _ Hf). pose proof (nk_best _ _ _ (fk_nodes _ _ HF _ _ Hf) Hcd) as Hb.
    set (cs := filter _ (children f)).
    assert (Hcs : forall c, c ∈ cs <-> cd (fork_infos t) c = true /\ c ∈ children f) by (intros c; unfold cs; by rewrite list_elem_of_filter).
    assert (Hdom : forall c, c ∈ children f -> is_Some (fork_infos t !! c)).
    { intros c Hc. apply (tree_child_dom HT k). by rewrite (children_of_Some _ _ _ Hf). }
    destruct (heaviest (subtree_weight t) cs) as [c|] eqn:Hh.
    + apply (heaviest_best (fork_infos t)) in Hh as [Hc Hbest].
      2:{ intros x [_ Hx]%Hcs. symmetry. apply st_exact; auto. }
      destruct Hb as [[Hn _]|(c' & (Hc' & Hcd' & Hmax') & ->)].
      { apply Hcs in Hc as [Hc1 Hc2]. specialize (Hn _ Hc2). congruence. }
      assert (c' = c) as ->.
      { apply Hcs in Hc as [Hc1 Hc2]. destruct (Hbest c') as [?|Hb1]; [by apply Hcs|done|].
        destruct (Hmax' c Hc2 Hc1) as [?|Hb2]; [done|]. destruct (better_irrefl (fork_infos t) c). by eapply better_trans. }
      destruct (Hdom c Hc') as [g Hg]. unfold bs, cd in *. rewrite Hg in *. simpl in *. apply IH; [done|done|].
      assert (Hkc : k.1 < c.1) by (apply (tree_child_slot HT); by rewrite (children_of_Some _ _ _ Hf)).
      pose proof (slots_below_lt (fork_infos t) c k ltac:(eauto) Hkc). lia.
    + apply heaviest_None in Hh. destruct Hb as [[_ ->]|(c' & (Hc' & Hcd' & _) & _)]; [done|].
      assert (Hin : c' ∈ cs) by (by apply Hcs). rewrite Hh in Hin. by apply not_elem_of_nil in Hin.
Qed.
End Spec.

(** A candidate has a candidate as its best block. *)
Lemma best_is_candidate m root k f :
  forks_ok m root -> m !! k = Some f -> is_candidate f = true -> cd m (best_slot f) = true.
Proof.
  intros HF Hf. pose proof (fk_tree _ _ HF) as HT. assert (Hk : is_Some (m !! k)) by eauto. revert f Hf.
  apply (tree_ind_down HT (fun k => forall f, m !! k = Some f -> is_candidate f = true -> cd m (best_slot f) = true)); [|done].
  clear k Hk. intros k _ IH f Hf Hcd. destruct (nk_best _ _ _ (fk_nodes _ _ HF _ _ Hf) Hcd) as [[_ ->]|(c & (Hc & Hcc & _) & ->)].
  - unfold cd. by rewrite Hf.
  - rewrite <-(children_of_Some _ _ _ Hf) in Hc. destruct (tree_child_dom HT _ _ Hc) as [g Hg]. unfold bs. rewrite Hg. simpl.
    apply (IH c Hc g Hg). unfold cd in Hcc. by rewrite Hg in Hcc.
Qed.
