(* ===== verification/ForkChoiceProps.v ===== *)
(** * Runs of the fork choice

    The operations of [HeaviestSubtreeForkChoice] with the arguments their
    callers may pass, the states they reach from [new], and what holds in all
    of them. *)

From S2P Require Import Prelude AuthorizedVoters EpochSchedule ForkChoice ForkChoiceOps ForkChoiceTree ForkChoiceInv ForkChoiceBatch ForkChoiceGen ForkChoiceVotes ForkChoiceMarks ForkChoiceLeaf ForkChoiceRoots ForkChoiceSplit ForkChoiceMerge ForkChoiceSpec.

Inductive ForkChoiceOp :=
| OpAddVotes (table : gmap Epoch EpochStakes) (pubkey_votes : list (Pubkey * SlotHashKey))
| OpAddLeaf (k parent : SlotHashKey)
| OpMarkInvalid (k : SlotHashKey)
| OpMarkValid (k : SlotHashKey)
| OpSetTreeRoot (k : SlotHashKey)
| OpAddRootParent (k : SlotHashKey)
| OpSplitOff (k : SlotHashKey)
| OpPurgePrune (k : SlotHashKey)
| OpMerge (table : gmap Epoch EpochStakes) (other : HeaviestSubtreeForkChoice) (leaf : SlotHashKey).

Section Runs.
Context (epoch_stakes : gmap Epoch EpochStakes) (epoch_schedule : EpochSchedule).
Notation fc_ok := (fc_ok epoch_stakes epoch_schedule).

Definition run_op (op : ForkChoiceOp) (t : HeaviestSubtreeForkChoice) : fc HeaviestSubtreeForkChoice :=
  match op with
  | OpAddVotes table votes => r ←? add_votes table epoch_schedule votes t; Ok r.1
  | OpAddLeaf k p => add_new_leaf_slot k (Some p) t
  | OpMarkInvalid k => mark_fork_invalid_candidate k t
  | OpMarkValid k => r ←? mark_fork_valid_candidate k t; Ok r.1
  | OpSetTreeRoot k => set_tree_root k t
  | OpAddRootParent k => add_root_parent k t
  | OpSplitOff k => r ←? split_off k t; Ok r.1
  | OpPurgePrune k => r ←? purge_prune k t; Ok r.1.1
  | OpMerge table other leaf => merge table epoch_schedule other leaf t
  end.

(** What callers guarantee: a voter votes once in a batch, and the stakes of the
    bank that brings it are those of the run for the votes of its voters; a new block is newer
    than its parent and has not been voted for before; a block marked invalid
    is not duplicate confirmed; the other blocks named are in the tree. *)
Definition op_allowed (op : ForkChoiceOp) (t : HeaviestSubtreeForkChoice) : Prop :=
  let known k := is_Some (fork_infos t !! k) in
  let unvoted (k : SlotHashKey) := forall q, latest_votes t !! q <> Some k in
  match op with
  | OpAddVotes table votes => NoDup votes.*1 /\ same_stakes table epoch_stakes epoch_schedule votes t
  | OpAddLeaf k p => known p /\ p.1 < k.1 /\ (~ known k -> unvoted k)
  | OpMarkInvalid k => k <> key_default /\ 0 <= (tree_root t).1 /\ dc (fork_infos t) k = false
  | OpMarkValid k => k <> key_default /\ 0 <= (tree_root t).1 /\ known k
  | OpSetTreeRoot k => known k
  | OpAddRootParent k => k.1 < (tree_root t).1 /\ ~ known k /\ cd (fork_infos t) (tree_root t) = true /\ unvoted k
  | OpSplitOff k => known k /\ k <> tree_root t
  | OpPurgePrune k => known k
  | OpMerge table other leaf =>
      same_stakes table epoch_stakes epoch_schedule (map_to_list (latest_votes other)) t /\
      known leaf /\ tree_ok (fork_infos other) (tree_root other) /\ leaf.1 < (tree_root other).1 /\
      forall k, is_Some (fork_infos other !! k) -> ~ known k -> unvoted k
  end.

Inductive fc_reachable : HeaviestSubtreeForkChoice -> Prop :=
| reach_new root t : new root = Ok t -> fc_reachable t
| reach_op op t t' : fc_reachable t -> op_allowed op t -> run_op op t = Ok t' -> fc_reachable t'.

Lemma not_known (m : gmap SlotHashKey ForkInfo) k : m !! k = None <-> ~ is_Some (m !! k).
Proof. apply eq_None_not_Some. Qed.

Lemma op_keeps_ok op t :
  stakes_in_range epoch_stakes -> fc_ok t -> op_allowed op t -> exists t', run_op op t = Ok t' /\ fc_ok t'.
Proof.
  intros Hr Hok. destruct op as [table votes|k p|k|k|k|k|k|k|table other leaf]; cbn [op_allowed run_op].
  - intros [Hnd Hs]. rewrite (add_votes_same _ epoch_stakes) by done.
    destruct (add_votes_ok _ _ votes t Hr Hnd Hok) as (t' & b & -> & ? & _). simpl. eauto.
  - intros (Hp & Hlt & Hv). destruct (add_new_leaf_ok _ _ t k p Hok Hp Hlt) as (t' & -> & ? & _); [|eauto].
    intros Hk. by apply Hv, not_known.
  - intros (Hne & Hpos & Hd). destruct (fork_infos t !! k) as [f|] eqn:Hk.
    + destruct (mark_invalid_ok _ _ t k Hok Hne Hpos) as (t' & -> & ? & _); eauto.
    + unfold mark_fork_invalid_candidate. rewrite Hk. eauto.
  - intros (Hne & Hpos & Hk). destruct (mark_valid_ok _ _ t k Hok Hne Hpos Hk) as (t' & n & -> & ? & _). simpl. eauto.
  - intros Hk. destruct (set_tree_root_ok _ _ t k Hok Hk) as (t' & -> & ? & _). eauto.
  - intros (Hlt & Hk%not_known & Hcd & Hv).
    destruct (add_root_parent_ok _ _ t k Hok Hlt Hk Hcd Hv) as (t' & -> & ? & _). eauto.
  - intros [Hk Hne]. destruct (split_off_ok _ _ t k Hok Hk Hne) as (t1 & t2 & -> & ? & _). simpl. eauto.
  - intros Hk. destruct (purge_prune_ok _ _ t k Hok Hk) as (t' & a & b & -> & ? & _). simpl. eauto.
  - intros (Hs & Hl & HT & Hlt & Hv). destruct (merge_ok _ _ table t other leaf Hr Hok HT Hl Hlt) as (t' & -> & ? & _); [|done|eauto].
    intros k Hk Hn. apply Hv; [done|]. by apply not_known.
Qed.

Lemma reachable_fc_ok t : stakes_in_range epoch_stakes -> fc_reachable t -> fc_ok t.
Proof.
  intros Hr. induction 1 as [root t Ht|op t t' _ IH Hop Hrun].
  - destruct (new_ok epoch_stakes epoch_schedule root) as (t' & Hnew & ? & _). by assert (t' = t) as <- by congruence.
  - destruct (op_keeps_ok op t Hr IH Hop) as (t'' & Hrun' & ?). by assert (t'' = t') as <- by congruence.
Qed.

(** C21: in every state the fork choice reaches, the tree is well formed, each
    block records the stake, the height, the best and the deepest block of its
    subtree, and no operation panics or runs forever on arguments that its
    callers may pass. *)
Theorem fork_choice_never_panics t :
  stakes_in_range epoch_stakes -> fc_reachable t ->
  fc_ok t /\ forall op, op_allowed op t -> exists t', run_op op t = Ok t' /\ fc_reachable t'.
Proof.
  intros Hr Ht. pose proof (reachable_fc_ok t Hr Ht) as Hok. split; [done|]. intros op Hop.
  destruct (op_keeps_ok op t Hr Hok Hop) as (t' & Hrun & _). exists t'. split; [done|]. by eapply reach_op.
Qed.

(** C8: the block the fork choice returns is the one that a walk from the root
    to the heaviest candidate child finds, with the weights recomputed from the
    latest vote of each validator, as long as the stake of all votes fits in 64
    bits. *)
Theorem best_overall_slot_is_ghost t :
  stakes_in_range epoch_stakes -> fc_reachable t -> total_voted epoch_stakes epoch_schedule t <= u64_max ->
  cd (fork_infos t) (tree_root t) = true ->
  best_overall_slot t = Ok (ghost epoch_stakes epoch_schedule (size (fork_infos t)) t (tree_root t)).
Proof.
  intros Hr Ht Hmax Hcd. pose proof (reachable_fc_ok t Hr Ht) as Hok.
  destruct (proj1 (tk_root _ _ (fk_tree _ _ (fc_forks _ _ _ Hok)))) as [f Hf].
  unfold best_overall_slot, get_best_slot, cd in *. rewrite Hf in *. simpl in *. f_equal.
  by apply best_slot_ghost; [..|lia].
Qed.

(** C22: the stake recorded for the subtree of a block is that of the
    validators whose latest vote is for a block of the subtree, modulo 2^64. *)
Theorem subtree_stake_counts_latest_votes t k :
  stakes_in_range epoch_stakes -> fc_reachable t ->
  get_stake_voted_subtree t k =
    if contains_block t k then Some (wrap64 (subtree_weight epoch_stakes epoch_schedule t k)) else None.
Proof.
  intros Hr Ht. pose proof (reachable_fc_ok t Hr Ht) as Hok. unfold get_stake_voted_subtree, contains_block.
  destruct (fork_infos t !! k) as [f|] eqn:Hf; [|done]. rewrite bool_decide_true by eauto. simpl. f_equal.
  rewrite <-(st_weight _ _ t k Hok) by eauto. unfold st. by rewrite Hf.
Qed.

(** [add_votes] ignores votes below the root, replaces the latest vote of a
    voter by one for a later slot, or for a smaller hash of the same slot, keeps
    it otherwise, and returns the best block of the tree it leaves. *)
Theorem add_votes_keeps_latest votes t :
  stakes_in_range epoch_stakes -> fc_reachable t -> NoDup votes.*1 ->
  exists t' best, add_votes epoch_stakes epoch_schedule votes t = Ok (t', best) /\ best_overall_slot t' = Ok best /\
    same_forks t t' /\
    (forall p v, (p, v) ∈ votes -> latest_votes t' !! p = latest_after (tree_root t).1 (latest_votes t !! p) v) /\
    (forall p, p ∉ votes.*1 -> latest_votes t' !! p = latest_votes t !! p).
Proof.
  intros Hr Ht Hnd. pose proof (reachable_fc_ok t Hr Ht) as Hok.
  destruct (add_votes_ok _ _ votes t Hr Hnd Hok) as (t' & b & Hrun & _ & Hb & Hsame). exists t', b. split; [done|].
  split; [unfold best_overall_slot; by rewrite Hb|]. split; [done|]. by eapply add_votes_latest.
Qed.

(** C23: after a block that is not duplicate confirmed is marked invalid, the
    fork choice returns no block of its subtree, and the blocks outside of the
    subtree are candidates exactly if they were before. *)
Theorem invalid_fork_not_chosen t k :
  stakes_in_range epoch_stakes -> fc_reachable t -> op_allowed (OpMarkInvalid k) t -> is_Some (fork_infos t !! k) ->
  k <> tree_root t -> cd (fork_infos t) (tree_root t) = true ->
  exists t' best, mark_fork_invalid_candidate k t = Ok t' /\ best_overall_slot t' = Ok best /\
    ~ descends (fork_infos t) best k /\
    forall x, is_Some (fork_infos t !! x) ->
      cd (fork_infos t') x = cd (fork_infos t) x && negb (bool_decide (k = x \/ k ∈ ancestor_iterator t x)).
Proof.
  intros Hr Ht (Hne & Hpos & Hd) Hk Hkr Hcd. pose proof (reachable_fc_ok t Hr Ht) as Hok.
  pose proof (fk_tree _ _ (fc_forks _ _ _ Hok)) as HT.
  destruct (mark_invalid_ok _ _ t k Hok Hne Hpos Hk Hd) as (t' & Hrun & Hok' & Hsh & Hdc & Hout & Hin).
  assert (Hcand : forall x, is_Some (fork_infos t !! x) -> cd (fork_infos t') x = bool_decide (lia_of (fork_infos t') x = None) /\
    cd (fork_infos t) x = bool_decide (lia_of (fork_infos t) x = None)).
  { intros x Hx. pose proof (proj2 (sh_dom _ _ Hsh x) Hx) as [g Hg]. destruct Hx as [f Hf]. unfold cd, lia_of. by rewrite Hf, Hg. }
  assert (Hroot : ~ descends (fork_infos t) (tree_root t) k).
  { intros Hd'. inversion Hd' as [|? y ? Hy _]; subst; [done|]. by rewrite (proj2 (tk_root _ _ HT)) in Hy. }
  destruct (proj1 (tk_root _ _ HT)) as [rf Hrf]. pose proof (proj2 (sh_dom _ _ Hsh (tree_root t)) ltac:(eauto)) as [rf' Hrf'].
  assert (Hcd' : is_candidate rf' = true).
  { destruct (Hcand (tree_root t)) as [E1 E2]; [eauto|]. rewrite Hout in E1 by done. rewrite <-E2, Hcd in E1.
    unfold cd in E1. by rewrite Hrf' in E1. }
  exists t', (best_slot rf'). split; [done|].
  split; [unfold best_overall_slot, get_best_slot; by rewrite (sh_root _ _ Hsh), Hrf'|].
  pose proof (best_is_candidate _ _ _ _ (fc_forks _ _ _ Hok') Hrf' Hcd') as Hbc. split.
  - intros Hb. destruct (Hin _ Hb) as (a & Ha & _). assert (Hs : is_Some (fork_infos t !! best_slot rf')) by (by eapply descends_up).
    destruct (Hcand _ Hs) as [E _]. rewrite Hbc, Ha in E. done.
  - intros x Hx. destruct (Hcand x Hx) as [-> ->].
    assert (Hfork : k = x \/ k ∈ ancestor_iterator t x <-> descends (fork_infos t) x k).
    { change (ancestor_iterator t x) with (@ancestors_of (fork_infos t) x). rewrite (elem_of_ancestors HT). split.
      - intros [->|[? _]]; [reflexivity|done].
      - intros H. destruct (decide (k = x)); auto. }
    destruct (decide (k = x \/ k ∈ ancestor_iterator t x)) as [Hb|Hb].
    + rewrite (bool_decide_true _ Hb), andb_false_r. apply Hfork in Hb. destruct (Hin x Hb) as (a & -> & _). done.
    + rewrite (bool_decide_false _ Hb), andb_true_r. rewrite Hout; [done|]. by rewrite <-Hfork.
Qed.
(** Marking a block valid confirms it and all its ancestors and makes each
    of them a candidate again, returns exactly those that were not confirmed
    before, and changes no block that is neither an ancestor nor a descendant of
    it; a descendant keeps a later invalid mark of its own. *)
Theorem valid_fork_confirmed t k :
  stakes_in_range epoch_stakes -> fc_reachable t -> op_allowed (OpMarkValid k) t ->
  exists t' newly, mark_fork_valid_candidate k t = Ok (t', newly) /\
    newly = filter (fun x => dc (fork_infos t) x = false) (k :: ancestor_iterator t k) /\
    (forall x, x = k \/ x ∈ ancestor_iterator t k ->
       get_is_duplicate_confirmed t' x = Some true /\ get_is_candidate t' x = Some true) /\
    (forall x, is_Some (fork_infos t !! x) -> x <> k -> k ∈ ancestor_iterator t x ->
       get_is_duplicate_confirmed t' x = get_is_duplicate_confirmed t x /\
       get_latest_invalid_ancestor t' x = clear_invalid k.1 (get_latest_invalid_ancestor t x)) /\
    (forall x, x <> k -> x ∉ ancestor_iterator t k -> k ∉ ancestor_iterator t x ->
       fork_infos t' !! x = fork_infos t !! x).
Proof.
  intros Hr Ht (Hne & Hpos & Hk). pose proof (reachable_fc_ok t Hr Ht) as Hok.
  pose proof (fk_tree _ _ (fc_forks _ _ _ Hok)) as HT.
  destruct (mark_valid_ok _ _ t k Hok Hne Hpos Hk) as (t' & n & Hrun & _ & Hsh & Hn & Hup & Hdown & Hout).
  exists t', n. split; [done|]. split; [done|].
  assert (Hanc : forall x y, y ∈ ancestor_iterator t x <-> descends (fork_infos t) x y /\ y <> x)
    by (intros x y; apply (elem_of_ancestors HT)).
  assert (Hsome : forall x, is_Some (fork_infos t !! x) -> is_Some (fork_infos t' !! x)) by (intros x; apply (sh_dom _ _ Hsh)).
  split; [|split].
  - intros x Hx. assert (Hd : descends (fork_infos t) k x) by (destruct Hx as [->|[? _]%Hanc]; [reflexivity|done]).
    destruct (Hsome x) as [f Hf]; [by eapply (descends_dom HT)|]. destruct (Hup x Hd) as [Hdc Hlia].
    unfold get_is_duplicate_confirmed, get_is_candidate, dc, lia_of in *. rewrite Hf in *. simpl in *.
    unfold is_candidate. by rewrite Hdc, Hlia.
  - intros x Hs Hxk [Hd _]%Hanc. destruct (Hsome x Hs) as [f' Hf'], Hs as [f Hf]. destruct (Hdown x Hd Hxk) as [Hdc Hlia].
    unfold get_is_duplicate_confirmed, get_latest_invalid_ancestor, dc, lia_of in *. rewrite Hf, Hf' in *. simpl in *.
    by rewrite Hdc, Hlia.
  - intros x Hxk Hx1 Hx2. apply Hout; intros Hd; [apply Hx1|apply Hx2]; by apply Hanc.
Qed.
End Runs.
