(* ===== verification/ForkChoiceSample.v ===== *)
(** * A small run of the fork choice

    A root with one child and two forks below it, three voters: the theorems
    about runs of the fork choice applied to it. *)

From S2P Require Import Prelude AuthorizedVoters EpochSchedule ForkChoice ForkChoiceOps ForkChoiceTree ForkChoiceInv ForkChoiceBatch ForkChoiceVotes ForkChoiceMarks ForkChoiceSpec ForkChoiceProps.

Definition k0 : SlotHashKey := (0, 10).
Definition k1 : SlotHashKey := (1, 11).
Definition k2 : SlotHashKey := (2, 12).
Definition k3 : SlotHashKey := (3, 13).

Definition sample_stakes : gmap Epoch EpochStakes := {[0 := <[1 := 30]> (<[2 := 60]> {[3 := 10]})]}.
Definition sample_schedule : EpochSchedule := mkEpochSchedule 32 32 false 0 0.
Definition sample_votes : list (Pubkey * SlotHashKey) := [(1, k2); (2, k3); (3, k2)].

Definition state_or_empty (r : fc HeaviestSubtreeForkChoice) : HeaviestSubtreeForkChoice :=
  match r with Ok t => t | _ => mkForkChoice ∅ ∅ key_default end.
Definition run (op : ForkChoiceOp) (t : HeaviestSubtreeForkChoice) : HeaviestSubtreeForkChoice :=
  state_or_empty (run_op sample_schedule op t).

Definition tree0 : HeaviestSubtreeForkChoice := state_or_empty (new k0).
Definition tree1 : HeaviestSubtreeForkChoice := run (OpAddLeaf k1 k0) tree0.
Definition tree2 : HeaviestSubtreeForkChoice := run (OpAddLeaf k2 k1) tree1.
Definition tree3 : HeaviestSubtreeForkChoice := run (OpAddLeaf k3 k1) tree2.
Definition tree4 : HeaviestSubtreeForkChoice := run (OpAddVotes sample_stakes sample_votes) tree3.

Lemma sample_range : stakes_in_range sample_stakes.
Proof.
  intros e es p s He Hs. unfold sample_stakes in He. apply lookup_singleton_Some in He as [_ <-].
  unfold in_u64, u64_max. repeat apply lookup_insert_Some in Hs as [[_ <-]|[_ Hs]]; try lia.
  apply lookup_singleton_Some in Hs as [_ <-]. lia.
Qed.

Lemma known_by_run (m : gmap SlotHashKey ForkInfo) k : bool_decide (is_Some (m !! k)) = true -> is_Some (m !! k).
Proof. apply bool_decide_eq_true_1. Qed.
Lemma unvoted_by_run (t : HeaviestSubtreeForkChoice) k : latest_votes t = ∅ -> forall q, latest_votes t !! q <> Some k.
Proof. intros -> q. by rewrite lookup_empty. Qed.

Lemma reach3 : fc_reachable sample_stakes sample_schedule tree3.
Proof.
  apply (reach_op _ _ (OpAddLeaf k3 k1) tree2); [|split; [|split; [done|]]|by vm_compute].
  - apply (reach_op _ _ (OpAddLeaf k2 k1) tree1); [|split; [|split; [done|]]|by vm_compute].
    + apply (reach_op _ _ (OpAddLeaf k1 k0) tree0); [|split; [|split; [done|]]|by vm_compute].
      * apply (reach_new _ _ k0). by vm_compute.
      * by apply known_by_run; vm_compute.
      * intros _. apply unvoted_by_run. by vm_compute.
    + by apply known_by_run; vm_compute.
    + intros _. apply unvoted_by_run. by vm_compute.
  - by apply known_by_run; vm_compute.
  - intros _. apply unvoted_by_run. by vm_compute.
Qed.
Lemma sample_votes_once : NoDup sample_votes.*1.
Proof. apply (bool_decide_eq_true_1 (NoDup sample_votes.*1)). by vm_compute. Qed.
Lemma reach4 : fc_reachable sample_stakes sample_schedule tree4.
Proof. apply (reach_op _ _ (OpAddVotes sample_stakes sample_votes) tree3); [apply reach3|split; [apply sample_votes_once|done]|by vm_compute]. Qed.

Lemma fork_choice_never_panics_witness : exists t', run_op sample_schedule (OpSplitOff k2) tree4 = Ok t'.
Proof.
  destruct (fork_choice_never_panics sample_stakes sample_schedule tree4 sample_range reach4) as [_ H].
  destruct (H (OpSplitOff k2)) as (t' & Hrun & _); [|exists t'; exact Hrun].
  split; [by apply known_by_run; vm_compute|by vm_compute].
Defined.

Lemma best_overall_slot_is_ghost_witness :
  best_overall_slot tree4 = Ok (ghost sample_stakes sample_schedule (size (fork_infos tree4)) tree4 k0) /\
  ghost sample_stakes sample_schedule (size (fork_infos tree4)) tree4 k0 = k3.
Proof.
  split; [|by vm_compute].
  apply (best_overall_slot_is_ghost sample_stakes sample_schedule tree4 sample_range reach4); by vm_compute.
Defined.

Lemma subtree_stake_counts_latest_votes_witness :
  get_stake_voted_subtree tree4 k1 = Some (wrap64 (subtree_weight sample_stakes sample_schedule tree4 k1)) /\
  subtree_weight sample_stakes sample_schedule tree4 k1 = 100.
Proof.
  split; [|by vm_compute].
  exact (subtree_stake_counts_latest_votes sample_stakes sample_schedule tree4 k1 sample_range reach4).
Defined.

Lemma add_votes_keeps_latest_witness :
  exists t' best, add_votes sample_stakes sample_schedule sample_votes tree3 = Ok (t', best) /\ latest_votes t' !! (2 : Pubkey) = Some k3.
Proof.
  destruct (add_votes_keeps_latest sample_stakes sample_schedule sample_votes tree3 sample_range reach3 sample_votes_once)
    as (t' & best & Hrun & _ & _ & Hv & _).
  exists t', best. split; [exact Hrun|]. rewrite (Hv 2 k3); [by vm_compute|]. right; left.
Defined.

Lemma invalid_fork_not_chosen_witness :
  exists t' best, mark_fork_invalid_candidate k3 tree4 = Ok t' /\ best_overall_slot t' = Ok best /\
    ~ descends (fork_infos tree4) best k3.
Proof.
  destruct (invalid_fork_not_chosen sample_stakes sample_schedule tree4 k3 sample_range reach4) as (t' & best & H1 & H2 & H3 & _).
  - split; [done|]. split; [by vm_compute|by vm_compute].
  - by apply known_by_run; vm_compute.
  - by vm_compute.
  - by vm_compute.
  - exists t', best. split; [exact H1|split; [exact H2|exact H3]].
Defined.

(** ** Siblings of a confirmed block *)
Definition tree5 : HeaviestSubtreeForkChoice := run (OpMarkInvalid k1) tree4.
Definition tree6 : HeaviestSubtreeForkChoice := run (OpMarkValid k3) tree5.

Lemma reach5 : fc_reachable sample_stakes sample_schedule tree5.
Proof.
  apply (reach_op _ _ (OpMarkInvalid k1) tree4); [apply reach4| |by vm_compute].
  split; [done|]. split; by vm_compute.
Qed.

Lemma valid_fork_confirmed_witness :
  exists t' newly, mark_fork_valid_candidate k3 tree5 = Ok (t', newly) /\
    get_is_duplicate_confirmed t' k1 = Some true /\ get_is_candidate t' k1 = Some true.
Proof.
  destruct (valid_fork_confirmed sample_stakes sample_schedule tree5 k3 sample_range reach5) as (t' & n & H1 & _ & H2 & _).
  - split; [done|]. split; [by vm_compute|by apply known_by_run; vm_compute].
  - exists t', n. split; [exact H1|]. apply (H2 k1). right.
    apply (bool_decide_eq_true_1 (k1 ∈ ancestor_iterator tree5 k3)). by vm_compute.
Defined.

(** Confirming a block confirms its parent and clears the invalid mark of the
    parent, but the other children of the parent keep it: they stay out of the
    fork choice because of an ancestor that is a confirmed candidate. *)
Lemma confirmed_parent_keeps_sibling_excluded :
  get_is_duplicate_confirmed tree6 k1 = Some true /\ get_is_candidate tree6 k1 = Some true /\
  get_latest_invalid_ancestor tree6 k2 = Some 1 /\ get_is_candidate tree6 k2 = Some false.
Proof. by vm_compute. Qed.
