(* ===== verification/FrozenVotes.v ===== *)
(** * Votes seen by a validator

    [LatestValidatorVotesForFrozenBanks] keeps the latest vote of each validator
    for a frozen bank, once as seen in gossip and once as seen in replayed
    blocks, and hands new replayed votes to the fork choice
    ([fdp-solana/core/src/consensus/latest_validator_votes_for_frozen_banks.rs]).
    [VoteStakeTracker] adds up the stake of the validators that voted for a slot
    ([fdp-solana/core/src/consensus/vote_stake_tracker.rs]). *)

From S2P Require Import Prelude AuthorizedVoters VoteState ForkChoice.

(** ** Latest votes for frozen banks *)

Notation VoteMap := (gmap Pubkey (Slot * list Hash)).

Record LatestValidatorVotesForFrozenBanks := mkLatestVotes {
  max_gossip_frozen_votes : VoteMap;
  max_replay_frozen_votes : VoteMap;
  fork_choice_dirty_set : VoteMap
}.

Definition latest_votes_default : LatestValidatorVotesForFrozenBanks := mkLatestVotes ∅ ∅ ∅.

Definition vote_map (is_replay_vote : bool) (self : LatestValidatorVotesForFrozenBanks) : VoteMap :=
  if is_replay_vote then max_replay_frozen_votes self else max_gossip_frozen_votes self.
Definition set_vote_map (is_replay_vote : bool) (m : VoteMap) (self : LatestValidatorVotesForFrozenBanks)
    : LatestValidatorVotesForFrozenBanks :=
  if is_replay_vote
  then mkLatestVotes (max_gossip_frozen_votes self) m (fork_choice_dirty_set self)
  else mkLatestVotes m (max_replay_frozen_votes self) (fork_choice_dirty_set self).
Definition set_dirty (m : VoteMap) (self : LatestValidatorVotesForFrozenBanks) : LatestValidatorVotesForFrozenBanks :=
  mkLatestVotes (max_gossip_frozen_votes self) (max_replay_frozen_votes self) m.

(** [self.fork_choice_dirty_set.insert(vote_pubkey, (vote_slot, vec![frozen_hash]))],
    for a replayed vote *)
Definition mark_dirty (is_replay_vote : bool) (pk : Pubkey) (slot : Slot) (h : Hash)
    (self : LatestValidatorVotesForFrozenBanks) : LatestValidatorVotesForFrozenBanks :=
  if is_replay_vote then set_dirty (<[pk := (slot, [h])]> (fork_choice_dirty_set self)) self else self.

(** A further hash of a slot: the entry is created with [or_default] if there is
    none. *)
Definition push_dirty (is_replay_vote : bool) (pk : Pubkey) (h : Hash)
    (self : LatestValidatorVotesForFrozenBanks) : fc LatestValidatorVotesForFrozenBanks :=
  if is_replay_vote then
    let '(slot, hashes) := default (0, []) (fork_choice_dirty_set self !! pk) in
    _ ←? rust_assert (bool_decide (h ∉ hashes));
    Ok (set_dirty (<[pk := (slot, hashes ++ [h])]> (fork_choice_dirty_set self)) self)
  else Ok self.

Definition check_add_vote (vote_pubkey : Pubkey) (vote_slot : Slot) (frozen_hash : option Hash)
    (is_replay_vote : bool) (self : LatestValidatorVotesForFrozenBanks)
    : fc (LatestValidatorVotesForFrozenBanks * (bool * option Slot)) :=
  let votes := vote_map is_replay_vote self in
  match frozen_hash, votes !! vote_pubkey with
  | Some h, Some (latest_slot, latest_hashes) =>
      if latest_slot <? vote_slot then
        let self := mark_dirty is_replay_vote vote_pubkey vote_slot h self in
        Ok (set_vote_map is_replay_vote (<[vote_pubkey := (vote_slot, [h])]> votes) self, (true, Some vote_slot))
      else if (vote_slot =? latest_slot) && bool_decide (h ∉ latest_hashes) then
        self ←? push_dirty is_replay_vote vote_pubkey h self;
        Ok (set_vote_map is_replay_vote (<[vote_pubkey := (latest_slot, latest_hashes ++ [h])]> votes) self,
            (true, Some vote_slot))
      else Ok (self, (false, Some latest_slot))
  | Some h, None =>
      let self := set_vote_map is_replay_vote (<[vote_pubkey := (vote_slot, [h])]> votes) self in
      Ok (mark_dirty is_replay_vote vote_pubkey vote_slot h self, (true, Some vote_slot))
  | None, entry => Ok (self, (false, fst <$> entry))
  end.

(** The order of the result is that of a hash map's iteration. *)
Definition take_votes_dirty_set (root : Slot) (self : LatestValidatorVotesForFrozenBanks)
    : LatestValidatorVotesForFrozenBanks * list (Pubkey * SlotHashKey) :=
  (set_dirty ∅ self,
   '(pk, (slot, hashes)) ← filter (fun e => root <= e.2.1) (map_to_list (fork_choice_dirty_set self));
   h ← hashes;
   [(pk, (slot, h))]).

(** ** Stake of the voters for a slot *)

Record VoteStakeTracker := mkVoteStakeTracker { voted : gset Pubkey; tracker_stake : Z }.

Definition vote_stake_tracker_default : VoteStakeTracker := mkVoteStakeTracker ∅ 0.

Definition threshold_stake (total_stake : Z) (threshold : f64) : Z :=
  f64_to_u64 (f64_mul (f64_of_u64 total_stake) threshold).

Definition add_vote_pubkey (vote_pubkey : Pubkey) (stake total_stake : Z) (thresholds_to_check : list f64)
    (self : VoteStakeTracker) : VoteStakeTracker * (list bool * bool) :=
  let is_new := negb (bool_decide (vote_pubkey ∈ voted self)) in
  if is_new then
    let old_stake := tracker_stake self in
    let new_stake := wrap64 (tracker_stake self + stake) in
    (mkVoteStakeTracker ({[vote_pubkey]} ∪ voted self) new_stake,
     ((fun threshold => let t := threshold_stake total_stake threshold in
                        (old_stake <=? t) && (t <? new_stake)) <$> thresholds_to_check, is_new))
  else (self, (replicate (length thresholds_to_check) false, is_new)).

(** ** The latest votes are tracked *)

(** A vote as it is recorded. *)
Record seen := mkSeen { sn_key : Pubkey; sn_slot : Slot; sn_hash : option Hash; sn_replay : bool }.

Definition counts (replay : bool) (pk : Pubkey) (v : seen) : bool :=
  Bool.eqb (sn_replay v) replay && (sn_key v =? pk).

(** The reference: the greatest frozen slot, and each of its hashes once. *)
Definition frozen_votes (replay : bool) (pk : Pubkey) (l : list seen) : list (Slot * Hash) :=
  v ← l; if counts replay pk v then match sn_hash v with Some h => [(sn_slot v, h)] | None => [] end else [].
Definition greatest_slot (l : list (Slot * Hash)) : option Slot := max_list_Z l.*1.
Fixpoint first_of_each (l : list Hash) (acc : list Hash) : list Hash :=
  match l with
  | [] => acc
  | h :: l => first_of_each l (if bool_decide (h ∈ acc) then acc else acc ++ [h])
  end.
Definition latest_reference (l : list (Slot * Hash)) : option (Slot * list Hash) :=
  s ← greatest_slot l;
  Some (s, first_of_each (filter (fun v => v.1 = s) l).*2 []).

(** Votes are recorded and the new ones taken, in any order. *)
Inductive event := ERecord (v : seen) | ETake (root : Slot).
Definition run_event (e : event) (self : LatestValidatorVotesForFrozenBanks) : fc LatestValidatorVotesForFrozenBanks :=
  match e with
  | ERecord v => r ←? check_add_vote (sn_key v) (sn_slot v) (sn_hash v) (sn_replay v) self; Ok r.1
  | ETake root => Ok (take_votes_dirty_set root self).1
  end.
Fixpoint run_events (l : list event) (self : LatestValidatorVotesForFrozenBanks) : fc LatestValidatorVotesForFrozenBanks :=
  match l with
  | [] => Ok self
  | e :: l => self ←? run_event e self; run_events l self
  end.
Definition recorded (l : list event) : list seen := e ← l; match e with ERecord v => [v] | ETake _ => [] end.

(** One more vote, as the code counts it. *)
Definition track (old : option (Slot * list Hash)) (slot : Slot) (h : Hash) : option (Slot * list Hash) :=
  match old with
  | Some (s, hs) =>
      if s <? slot then Some (slot, [h])
      else if (slot =? s) && bool_decide (h ∉ hs) then Some (s, hs ++ [h]) else old
  | None => Some (slot, [h])
  end.

Lemma first_of_each_snoc l h acc :
  first_of_each (l ++ [h]) acc =
  if bool_decide (h ∈ first_of_each l acc) then first_of_each l acc else first_of_each l acc ++ [h].
Proof. revert acc. induction l as [|x l IH]; intros acc; cbn; [done|apply IH]. Qed.
Lemma greatest_slot_ub l s v : greatest_slot l = Some s -> v ∈ l -> v.1 <= s.
Proof. intros Hs Hv. eapply max_list_Z_ub; [exact Hs|]. by apply list_elem_of_fmap_2. Qed.
Lemma greatest_slot_None l : greatest_slot l = None -> l = [].
Proof. by destruct l as [|[]]. Qed.

Lemma latest_reference_snoc l s h : latest_reference (l ++ [(s, h)]) = track (latest_reference l) s h.
Proof.
  unfold latest_reference, greatest_slot. rewrite fmap_app. cbn [fmap list_fmap fst]. rewrite max_list_Z_snoc.
  destruct (max_list_Z l.*1) as [m|] eqn:Em; cbn; last first.
  { apply greatest_slot_None in Em as ->. cbn. by destruct (decide (s = s)). }
  rewrite filter_app, fmap_app. destruct (Z.ltb_spec m s) as [Hlt|Hge].
  - rewrite Z.max_l by lia. rewrite (filter_none _ l), filter_cons_True; [done|done|].
    apply Forall_forall. intros v Hv. pose proof (greatest_slot_ub l m v Em Hv). lia.
  - rewrite Z.max_r by lia. destruct (Z.eqb_spec s m) as [->|Hne].
    + rewrite filter_cons_True by done. cbn. rewrite first_of_each_snoc.
      destruct (decide (h ∈ first_of_each (filter (fun v : Z * Z => v.1 = m) l).*2 [])) as [Hin|Hin];
        [rewrite (bool_decide_true _ Hin), (bool_decide_false (h ∉ _)) by (by intros [])
        |rewrite (bool_decide_false _ Hin), (bool_decide_true (h ∉ _)) by done]; done.
    + rewrite filter_cons_False by done. by rewrite app_nil_r.
Qed.

(** The dirty hashes of a voter are among those of its latest replayed vote. *)
Definition dirty_ok (self : LatestValidatorVotesForFrozenBanks) : Prop :=
  forall pk s hs, fork_choice_dirty_set self !! pk = Some (s, hs) ->
    exists s' hs', max_replay_frozen_votes self !! pk = Some (s', hs') /\ hs ⊆ hs'.

Definition map_after (v : seen) (self : LatestValidatorVotesForFrozenBanks) (replay : bool) (pk : Pubkey)
    : option (Slot * list Hash) :=
  match sn_hash v with
  | Some h => if counts replay pk v then track (vote_map replay self !! pk) (sn_slot v) h else vote_map replay self !! pk
  | None => vote_map replay self !! pk
  end.

(** The dirty entry after a new latest vote, and after a further hash. *)
Definition dirty_after (v : seen) (self : LatestValidatorVotesForFrozenBanks) (pk : Pubkey) : option (Slot * list Hash) :=
  let old := fork_choice_dirty_set self !! pk in
  match sn_hash v with
  | Some h =>
      if counts true pk v then
        match max_replay_frozen_votes self !! pk with
        | Some (s, hs) =>
            if s <? sn_slot v then Some (sn_slot v, [h])
            else if (sn_slot v =? s) && bool_decide (h ∉ hs)
            then Some ((default (0, []) old).1, (default (0, []) old).2 ++ [h]) else old
        | None => Some (sn_slot v, [h])
        end
      else old
  | None => old
  end.

Lemma counts_key v replay pk : counts replay pk v = true <-> sn_replay v = replay /\ sn_key v = pk.
Proof. unfold counts. rewrite andb_true_iff, Bool.eqb_true_iff, Z.eqb_eq. done. Qed.

Lemma push_dirty_ok r pk h self s hs :
  dirty_ok self -> vote_map r self !! pk = Some (s, hs) -> h ∉ hs ->
  push_dirty r pk h self =
    Ok (if r then
          let old := default (0, []) (fork_choice_dirty_set self !! pk) in
          set_dirty (<[pk := (old.1, old.2 ++ [h])]> (fork_choice_dirty_set self)) self
        else self).
Proof.
  intros Hd Hm Hh. unfold push_dirty. destruct r; [|done].
  destruct (default (0, []) (fork_choice_dirty_set self !! pk)) as [ds dhs] eqn:Ed. cbn.
  rewrite bool_decide_true; [done|]. destruct (fork_choice_dirty_set self !! pk) as [[s0 hs0]|] eqn:E0; cbn in Ed.
  - injection Ed as -> ->. destruct (Hd _ _ _ E0) as (s' & hs' & Hm' & Hsub). cbn in Hm. rewrite Hm in Hm'.
    injection Hm' as -> ->. set_solver.
  - injection Ed as _ <-. apply not_elem_of_nil.
Qed.

(** Splits on the key that is read and on the map that is written. *)
Ltac vote_maps key :=
  repeat match goal with
  | |- forall _ : bool, _ => intros []
  | |- forall _, _ => intros ?
  end;
  unfold counts; cbn;
  repeat match goal with |- context [key =? ?pk] => destruct (Z.eqb_spec key pk) as [<-|] end; cbn; rewrite ?lookup_insert_eq, ?lookup_insert_ne by done; try done.

(** ** What recording a vote does *)
Lemma check_add_vote_ok v self :
  dirty_ok self ->
  exists self' r, check_add_vote (sn_key v) (sn_slot v) (sn_hash v) (sn_replay v) self = Ok (self', r) /\
    (forall replay pk, vote_map replay self' !! pk = map_after v self replay pk) /\
    (forall pk, fork_choice_dirty_set self' !! pk = dirty_after v self pk) /\
    (r.1 = true <-> map_after v self (sn_replay v) (sn_key v) <> vote_map (sn_replay v) self !! sn_key v) /\
    r.2 = fst <$> map_after v self (sn_replay v) (sn_key v).
Proof.
  intros Hd. destruct v as [key slot hash rep]. unfold check_add_vote, map_after, dirty_after. cbn.
  destruct hash as [h|]; last first.
  { eexists _, _. split; [done|]. split; [done|]. split; [done|]. cbn. split; [|done]. by split; [|intros []]. }
  change (counts rep key _) with (Bool.eqb rep rep && (key =? key)). rewrite Bool.eqb_reflx, Z.eqb_refl. cbn.
  destruct (vote_map rep self !! key) as [[s hs]|] eqn:Em.
  - cbn [track]. destruct (Z.ltb_spec s slot) as [Hlt|Hge].
    + eexists _, _. split; [done|]. split; [|split; [|split; [split; [intros _ [= -> _]; lia|done]|done]]].
      * destruct rep; cbn in *; vote_maps key; rewrite Em; cbn; by rewrite (proj2 (Z.ltb_lt _ _) Hlt).
      * destruct rep; cbn in *; vote_maps key; rewrite Em; cbn; by rewrite (proj2 (Z.ltb_lt _ _) Hlt).
    + destruct ((slot =? s) && bool_decide (h ∉ hs)) eqn:Eb.
      * assert (Eb' := Eb). apply andb_true_iff in Eb' as [->%Z.eqb_eq Hh%bool_decide_eq_true].
        rewrite (push_dirty_ok rep key h self s hs Hd Em Hh). cbn. eexists _, _. split; [done|].
        split; [|split; [|split; [split; [intros _ [= H]|done]|done]]].
        -- destruct rep; cbn in *; vote_maps key; rewrite Em; cbn; by rewrite Z.ltb_irrefl, Eb.
        -- destruct rep; cbn in *; vote_maps key; rewrite Em; cbn; by rewrite Z.ltb_irrefl, Eb.
        -- apply (f_equal length) in H. rewrite length_app in H. cbn in H. lia.
      * eexists _, _. split; [done|]. split; [|split; [|split; [split; [done|by intros []]|done]]].
        all: destruct rep; cbn in *; vote_maps key; rewrite Em; cbn; by rewrite (proj2 (Z.ltb_ge _ _) Hge), Eb.
  - eexists _, _. split; [done|]. split; [|split; [|done]].
    + destruct rep; cbn in *; vote_maps key; by rewrite Em.
    + destruct rep; cbn in *; vote_maps key; by rewrite Em.
Qed.

Lemma dirty_ok_step v self self' :
  dirty_ok self ->
  (forall replay pk, vote_map replay self' !! pk = map_after v self replay pk) ->
  (forall pk, fork_choice_dirty_set self' !! pk = dirty_after v self pk) -> dirty_ok self'.
Proof.
  intros Hd Hm Hdi pk s hs. rewrite Hdi. specialize (Hm true pk). cbn in Hm. rewrite Hm.
  unfold dirty_after, map_after. cbn. destruct (sn_hash v) as [h|]; [|apply Hd].
  destruct (counts true pk v); [|apply Hd]. unfold track.
  destruct (max_replay_frozen_votes self !! pk) as [[s0 hs0]|] eqn:Em.
  - destruct (s0 <? sn_slot v); [intros [= <- <-]; by eexists _, _|].
    destruct ((sn_slot v =? s0) && bool_decide (h ∉ hs0)).
    + intros [= <- <-]. eexists _, _. split; [done|].
      destruct (fork_choice_dirty_set self !! pk) as [[s1 hs1]|] eqn:Ed; cbn; [|set_solver].
      destruct (Hd _ _ _ Ed) as (? & ? & He & ?). rewrite Em in He. simplify_eq. set_solver.
    + intros Hp. rewrite <-Em. by apply (Hd _ _ _ Hp).
  - intros [= <- <-]. by eexists _, _.
Qed.

Lemma frozen_votes_snoc replay pk l v :
  frozen_votes replay pk (l ++ [v]) =
  frozen_votes replay pk l ++
    (if counts replay pk v then match sn_hash v with Some h => [(sn_slot v, h)] | None => [] end else []).
Proof. unfold frozen_votes. rewrite bind_app. cbn. by rewrite app_nil_r. Qed.

Definition tracks (l : list seen) (self : LatestValidatorVotesForFrozenBanks) : Prop :=
  dirty_ok self /\ forall replay pk, vote_map replay self !! pk = latest_reference (frozen_votes replay pk l).

Lemma run_event_tracks e l self :
  tracks l self -> exists self', run_event e self = Ok self' /\ tracks (l ++ recorded [e]) self'.
Proof.
  intros [Hd Hm]. destruct e as [v|root]; cbn.
  - destruct (check_add_vote_ok v self Hd) as (self' & r & Hrun & Hm' & Hd' & _). rewrite Hrun. cbn.
    exists self'. split; [done|]. split; [by eapply dirty_ok_step|]. intros replay pk.
    rewrite Hm', frozen_votes_snoc. unfold map_after. rewrite Hm.
    destruct (counts replay pk v), (sn_hash v); try by rewrite app_nil_r. by rewrite latest_reference_snoc.
  - eexists. split; [done|]. split; [done|]. intros replay pk. rewrite app_nil_r, <-Hm. by destruct replay.
Qed.

(** C35: however votes are recorded and new votes taken, nothing panics, and for
    each validator both maps hold the greatest slot of its votes for frozen
    banks together with the hashes it voted for in that slot, each once and in
    the order they were seen. *)
Theorem frozen_votes_tracked l :
  exists self, run_events l latest_votes_default = Ok self /\
    forall replay pk, vote_map replay self !! pk = latest_reference (frozen_votes replay pk (recorded l)).
Proof.
  assert (H0 : tracks [] latest_votes_default).
  { split; [by intros pk s hs|]. by intros [] pk. }
  revert H0. generalize latest_votes_default. change (recorded l) with ([] ++ recorded l).
  generalize (@nil seen). induction l as [|e l IH]; intros old self Hs.
  - exists self. split; [done|]. rewrite app_nil_r. apply Hs.
  - destruct (run_event_tracks e old self Hs) as (self1 & Hrun & Hs1). cbn [run_events]. rewrite Hrun. cbn [obind].
    destruct (IH _ _ Hs1) as (self' & Hrun' & Hm). exists self'. split; [done|].
    intros replay pk. rewrite Hm. f_equal. f_equal. unfold recorded. cbn. by rewrite app_nil_r, app_assoc.
Qed.

(** ** Handing new votes to the fork choice *)

(** The entry a vote leaves in an empty dirty set. *)
Definition fresh_entry (self : LatestValidatorVotesForFrozenBanks) (v : seen) : option (Slot * list Hash) :=
  match sn_hash v, max_replay_frozen_votes self !! sn_key v with
  | Some h, Some (s, hs) =>
      if s <? sn_slot v then Some (sn_slot v, [h])
      else if (sn_slot v =? s) && bool_decide (h ∉ hs) then Some (0, [h]) else None
  | Some h, None => Some (sn_slot v, [h])
  | None, _ => None
  end.

Lemma record_pass l self self0 :
  dirty_ok self -> NoDup (sn_key <$> l) -> Forall (fun v => sn_replay v = true) l ->
  (forall v, v ∈ l -> fork_choice_dirty_set self !! sn_key v = None /\
     max_replay_frozen_votes self !! sn_key v = max_replay_frozen_votes self0 !! sn_key v) ->
  exists self', run_events (ERecord <$> l) self = Ok self' /\
    (forall v, v ∈ l -> fork_choice_dirty_set self' !! sn_key v = fresh_entry self0 v) /\
    (forall pk, pk ∉ sn_key <$> l -> fork_choice_dirty_set self' !! pk = fork_choice_dirty_set self !! pk).
Proof.
  revert self. induction l as [|v l IH]; intros self Hd Hnd Hrep Hun; cbn.
  - exists self. split; [done|]. split; [|done]. by intros v []%not_elem_of_nil.
  - apply NoDup_cons in Hnd as [Hv Hnd]. apply Forall_cons in Hrep as [Hr Hrep].
    destruct (check_add_vote_ok v self Hd) as (self1 & r & Hrun & Hm1 & Hd1 & _). rewrite Hrun. cbn.
    assert (Hout : forall pk, pk <> sn_key v -> fork_choice_dirty_set self1 !! pk = fork_choice_dirty_set self !! pk /\
      max_replay_frozen_votes self1 !! pk = max_replay_frozen_votes self !! pk).
    { intros pk Hne. specialize (Hm1 true pk). cbn in Hm1. rewrite Hm1, Hd1. unfold dirty_after, map_after.
      assert (counts true pk v = false) as ->; [|by destruct (sn_hash v)].
      apply not_true_iff_false. rewrite counts_key. intros [_ ?]. congruence. }
    destruct (IH self1) as (self' & Hrun' & Hin & Hno); [by eapply dirty_ok_step|done|done| |].
    { intros w Hw. destruct (Hun w) as [H1 H2]; [by right|].
      destruct (Hout (sn_key w)) as [-> ->]; [|done]. intros He. apply Hv. rewrite <-He. by apply list_elem_of_fmap_2. }
    exists self'. split; [done|]. split.
    + intros w [->|Hw]%elem_of_cons; [|by apply Hin]. rewrite Hno by done. rewrite Hd1. unfold dirty_after, fresh_entry.
      destruct (Hun v) as [-> ->]; [by left|]. rewrite (proj2 (counts_key v true (sn_key v))) by done.
      destruct (sn_hash v); [|done]. by destruct (max_replay_frozen_votes self0 !! sn_key v) as [[]|].
    + intros pk [Hne Hpk]%not_elem_of_cons. rewrite Hno by done. by apply Hout.
Qed.

Lemma elem_of_taken root self pk s h :
  (pk, (s, h)) ∈ (take_votes_dirty_set root self).2 <->
  root <= s /\ exists hs, fork_choice_dirty_set self !! pk = Some (s, hs) /\ h ∈ hs.
Proof.
  cbn. rewrite list_elem_of_bind. split.
  - intros ([pk' [s' hs]] & Hh & [Hr Hin]%list_elem_of_filter). apply list_elem_of_bind in Hh as (h' & He & Hh).
    apply list_elem_of_singleton in He. simplify_eq. split; [done|]. exists hs. split; [|done]. by apply elem_of_map_to_list.
  - intros (Hr & hs & Hs & Hh). exists (pk, (s, hs)). split.
    + apply list_elem_of_bind. exists h. split; [by apply list_elem_of_singleton|done].
    + apply list_elem_of_filter. split; [done|]. by apply elem_of_map_to_list.
Qed.

Lemma taken_once root self :
  (forall pk s hs, fork_choice_dirty_set self !! pk = Some (s, hs) -> exists h, hs = [h]) ->
  NoDup (take_votes_dirty_set root self).2.*1.
Proof.
  intros H1. unfold take_votes_dirty_set. cbn [snd]. pose proof (NoDup_fst_map_to_list (fork_choice_dirty_set self)) as Hnd.
  assert (Hall : forall e, e ∈ map_to_list (fork_choice_dirty_set self) -> exists h, e.2.2 = [h]).
  { intros [pk [s hs]] He%elem_of_map_to_list. by eapply H1. }
  revert Hnd Hall. generalize (map_to_list (fork_choice_dirty_set self)) as l.
  induction l as [|[pk [s hs]] l IH]; intros Hnd Hall; [constructor|]. apply NoDup_cons in Hnd as [Hp Hnd].
  destruct (Hall (pk, (s, hs))) as [h Hh]; [by left|]. change (hs = [h]) in Hh. subst hs.
  specialize (IH Hnd (fun e He => Hall e (proj2 (elem_of_cons _ _ _) (or_intror He)))).
  rewrite filter_cons. destruct (decide _); [|done]. cbn. apply NoDup_cons. split; [|done].
  intros ([? [s' h']] & -> & He)%list_elem_of_fmap. apply Hp.
  apply list_elem_of_bind in He as ([pk' [s2 hs2]] & He & [_ Hin]%list_elem_of_filter).
  apply list_elem_of_bind in He as (? & He & _). apply list_elem_of_singleton in He. simplify_eq.
  by apply (list_elem_of_fmap_2 fst _ _ Hin).
Qed.

(** A replayed vote for a frozen bank of a later slot than the voter's latest *)
Definition votes_later (self : LatestValidatorVotesForFrozenBanks) (v : seen) (s : Slot) (h : Hash) : Prop :=
  sn_slot v = s /\ sn_hash v = Some h /\
  forall s0 hs, max_replay_frozen_votes self !! sn_key v = Some (s0, hs) -> s0 < s.

Lemma fresh_entry_later self v s h : 0 < s -> fresh_entry self v = Some (s, [h]) <-> votes_later self v s h.
Proof.
  intros Hs. unfold fresh_entry, votes_later. destruct (sn_hash v) as [h0|]; [|naive_solver].
  destruct (max_replay_frozen_votes self !! sn_key v) as [[s0 hs]|]; [|naive_solver].
  destruct (Z.ltb_spec s0 (sn_slot v)); [naive_solver|].
  split; [|intros (<- & _ & Hlt); specialize (Hlt s0 hs eq_refl); lia].
  destruct ((sn_slot v =? s0) && _); [intros [= <- _]; lia|done].
Qed.

(** C36: after a pass that records one replayed vote of each voter and starts with
    nothing to hand over, the fork choice is handed, once its root is past slot 0,
    exactly the votes for frozen banks that are not older than its root and are for a
    later slot than the voter's latest vote before the pass, one per voter; a vote
    for another version of the voter's latest slot is not among them. *)
Theorem new_votes_handed_over self l root :
  fork_choice_dirty_set self = ∅ -> NoDup (sn_key <$> l) -> Forall (fun v => sn_replay v = true) l -> 0 < root ->
  exists self', run_events (ERecord <$> l) self = Ok self' /\
    let votes := (take_votes_dirty_set root self').2 in
    NoDup votes.*1 /\
    forall pk s h, (pk, (s, h)) ∈ votes <-> root <= s /\ exists v, v ∈ l /\ sn_key v = pk /\ votes_later self v s h.
Proof.
  intros H0 Hnd Hrep Hroot. destruct (record_pass l self self) as (self' & Hrun & Hin & Hno); [|done|done| |].
  { intros pk s hs. by rewrite H0. }
  { intros v _. by rewrite H0. }
  exists self'. split; [done|]. cbn zeta.
  assert (Hall : forall pk s hs, fork_choice_dirty_set self' !! pk = Some (s, hs) ->
    exists v, v ∈ l /\ sn_key v = pk /\ fresh_entry self v = Some (s, hs)).
  { intros pk s hs Hs. destruct (decide (pk ∈ sn_key <$> l)) as [(v & -> & Hv)%list_elem_of_fmap|Hpk].
    - exists v. by rewrite <-Hin.
    - by rewrite Hno, H0 in Hs. }
  assert (Hone : forall v s hs, fresh_entry self v = Some (s, hs) -> exists h, hs = [h]).
  { intros v s hs. unfold fresh_entry. repeat case_match; intros; simplify_eq; eauto. }
  split.
  - apply taken_once. intros pk s hs (v & _ & _ & Hf)%Hall. by eapply Hone.
  - intros pk s h. rewrite elem_of_taken. split.
    + intros (Hr & hs & (v & Hv & <- & Hf)%Hall & Hh). split; [done|]. exists v. destruct (Hone _ _ _ Hf) as [h' ->].
      apply list_elem_of_singleton in Hh as ->. split; [done|]. split; [done|]. apply (fresh_entry_later self v s h'); [lia|done].
    + intros (Hr & v & Hv & <- & Hf). split; [done|]. exists [h]. rewrite Hin by done.
      split; [apply fresh_entry_later; [lia|done]|by apply list_elem_of_singleton].
Qed.

Definition pass_votes : list seen := [mkSeen 7 5 (Some 50) true; mkSeen 8 4 (Some 40) true].
Lemma new_votes_handed_over_witness :
  exists self', run_events (ERecord <$> pass_votes) latest_votes_default = Ok self' /\
    (7, (5, 50)) ∈ (take_votes_dirty_set 1 self').2.
Proof.
  destruct (new_votes_handed_over latest_votes_default pass_votes 1) as (self' & Hrun & _ & Hin).
  - reflexivity.
  - apply (bool_decide_eq_true_1 (NoDup (sn_key <$> pass_votes))). reflexivity.
  - repeat constructor.
  - lia.
  - exists self'. split; [exact Hrun|]. apply Hin. split; [lia|].
    exists (mkSeen 7 5 (Some 50) true). split; [left|]. split; [reflexivity|]. split; [reflexivity|]. split; [reflexivity|].
    intros s0 hs H. cbn in H. discriminate.
Defined.

(** A vote for the repaired version of a slot is recorded as the latest vote of
    its voter, but what the fork choice is handed for it has slot 0 and is
    dropped: the dirty set's entry is gone after the first version was taken, and
    [or_default] makes a new one without the slot. *)
Definition repaired_vote : list event :=
  [ERecord (mkSeen 7 5 (Some 50) true); ETake 1; ERecord (mkSeen 7 5 (Some 51) true)].
Lemma repaired_vote_lost :
  exists self, run_events repaired_vote latest_votes_default = Ok self /\
    max_replay_frozen_votes self !! (7 : Pubkey) = Some (5, [50; 51]) /\
    (take_votes_dirty_set 1 self).2 = [].
Proof. eexists. split; [vm_compute; reflexivity|]. split; by vm_compute. Qed.

(** ** Thresholds are reported once *)
Lemma f64_to_u64_nonneg x : 0 <= f64_to_u64 x.
Proof.
  destruct x as [| [] | |[] m e]; cbn; unfold u64_max; try lia.
  apply Z.min_glb; [lia|]. destruct e as [|p|p]; [lia| |apply Z.div_pos; lia].
  pose proof (Z.pow_nonneg 2 (Z.pos p)). lia.
Qed.

Section Tracker.
Variables (total_stake : Z) (thresholds : list f64).

Fixpoint add_votes_pubkeys (l : list (Pubkey * Z)) (self : VoteStakeTracker)
    : VoteStakeTracker * list (list bool * bool) :=
  match l with
  | [] => (self, [])
  | (pk, stake) :: l =>
      let '(self, r) := add_vote_pubkey pk stake total_stake thresholds self in
      let '(self, rs) := add_votes_pubkeys l self in
      (self, r :: rs)
  end.

(** The stake of the voters, each counted at its first vote. *)
Fixpoint distinct_stake (seen : gset Pubkey) (l : list (Pubkey * Z)) : Z :=
  match l with
  | [] => 0
  | (pk, stake) :: l =>
      if decide (pk ∈ seen) then distinct_stake seen l else stake + distinct_stake ({[pk]} ∪ seen) l
  end.

Definition reports (i : nat) (rs : list (list bool * bool)) : nat :=
  length (filter (fun r => r.1 !! i = Some true) rs).

Lemma distinct_stake_nonneg seen l : Forall (fun v => 0 <= v.2) l -> 0 <= distinct_stake seen l.
Proof.
  intros Hl. revert seen. induction Hl as [|[pk s] l Hs _ IH]; intros seen; cbn; [lia|].
  destruct (decide _); [apply IH|]. specialize (IH ({[pk]} ∪ seen)). cbn in Hs. lia.
Qed.

Lemma tracker_run l self :
  Forall (fun v => 0 <= v.2) l -> 0 <= tracker_stake self ->
  tracker_stake self + distinct_stake (voted self) l <= u64_max ->
  let '(self', rs) := add_votes_pubkeys l self in
  tracker_stake self' = tracker_stake self + distinct_stake (voted self) l /\
  voted self' = list_to_set l.*1 ∪ voted self /\
  forall i f, thresholds !! i = Some f ->
    let t := threshold_stake total_stake f in
    reports i rs = if decide (tracker_stake self <= t < tracker_stake self') then 1%nat else 0%nat.
Proof.
  intros Hl. revert self. induction Hl as [|[pk s] l Hs Hl IH]; intros self H0 Hmax; cbn [add_votes_pubkeys].
  - split; [cbn; lia|]. split; [set_solver|]. intros i f _. cbn. rewrite decide_False by lia. done.
  - cbn in Hs. unfold add_vote_pubkey. cbn [distinct_stake] in Hmax |- *.
    pose proof (distinct_stake_nonneg ({[pk]} ∪ voted self) l Hl) as Hpos.
    destruct (decide (pk ∈ voted self)) as [Hin|Hin]; cbn [negb].
    + rewrite bool_decide_true by done. cbn [negb]. specialize (IH self H0 Hmax).
      destruct (add_votes_pubkeys l self) as [self' rs]. destruct IH as (E1 & E2 & E3).
      split; [done|]. split; [set_solver|]. intros i f Hf. rewrite <-(E3 i f Hf). unfold reports.
      rewrite filter_cons_False; [done|]. cbn. by intros [? _]%lookup_replicate.
    + rewrite bool_decide_false by done. cbn [negb].
      assert (Hw : wrap64 (tracker_stake self + s) = tracker_stake self + s).
      { apply Z.mod_small. unfold u64_max in Hmax. lia. }
      rewrite Hw. specialize (IH (mkVoteStakeTracker ({[pk]} ∪ voted self) (tracker_stake self + s))).
      cbn [tracker_stake voted] in IH. specialize (IH ltac:(lia) ltac:(lia)).
      destruct (add_votes_pubkeys l _) as [self' rs]. destruct IH as (E1 & E2 & E3).
      split; [lia|]. split; [set_solver|]. intros i f Hf. specialize (E3 i f Hf). cbn zeta in E3 |- *.
      unfold reports in *. rewrite filter_cons. cbn [fst]. rewrite list_lookup_fmap, Hf. cbn [fmap option_fmap option_map].
      destruct (Z.leb_spec (tracker_stake self) (threshold_stake total_stake f)),
        (Z.ltb_spec (threshold_stake total_stake f) (tracker_stake self + s)); cbn [andb];
        first [rewrite (decide_True (P := Some true = Some true)) by done
              |rewrite (decide_False (P := Some false = Some true)) by done]; cbn [length]; rewrite E3;
        repeat first [rewrite decide_True by lia|rewrite decide_False by lia]; try done;
        by destruct (decide _), (decide _); done || lia.
Qed.

(** While the stake of the distinct voters fits in 64 bits, a tracker's
    stake is exactly theirs, repeated votes included only once, and each
    threshold is reported as newly reached by exactly one vote if the stake ends
    above it and by none otherwise. *)
Theorem thresholds_reported_once l :
  Forall (fun v => 0 <= v.2) l -> distinct_stake ∅ l <= u64_max ->
  let '(self, rs) := add_votes_pubkeys l vote_stake_tracker_default in
  tracker_stake self = distinct_stake ∅ l /\ voted self = list_to_set l.*1 /\
  forall i f, thresholds !! i = Some f ->
    reports i rs = if decide (threshold_stake total_stake f < distinct_stake ∅ l) then 1%nat else 0%nat.
Proof.
  intros Hl Hmax. pose proof (tracker_run l vote_stake_tracker_default Hl) as Hr. cbn in Hr.
  specialize (Hr ltac:(lia) Hmax). destruct (add_votes_pubkeys l _) as [self rs]. destruct Hr as (E1 & E2 & E3).
  split; [done|]. split; [set_solver|]. intros i f Hf. rewrite (E3 i f Hf), E1.
  pose proof (f64_to_u64_nonneg (f64_mul (f64_of_u64 total_stake) f)). unfold threshold_stake.
  destruct (decide _), (decide _); done || lia.
Qed.
End Tracker.

Definition tracked_votes : list (Pubkey * Z) := [(1, 4); (2, 3); (1, 4); (3, 5)].
Lemma thresholds_reported_once_witness :
  reports 0 (add_votes_pubkeys 12 [f64_div (f64_of_u64 1) (f64_of_u64 2)] tracked_votes vote_stake_tracker_default).2 = 1%nat.
Proof.
  pose proof (thresholds_reported_once 12 [f64_div (f64_of_u64 1) (f64_of_u64 2)] tracked_votes) as H.
  destruct (add_votes_pubkeys _ _ _ _) as [self rs]. destruct H as (_ & _ & H).
  - repeat constructor; cbn; lia.
  - vm_compute. discriminate.
  - cbn [snd]. rewrite (H 0%nat _ eq_refl). vm_compute. reflexivity.
Defined.
