(* ===== verification/SlotHistory.v ===== *)
(** * The slot history

    [SlotHistory] remembers which of the last [MAX_ENTRIES] slots were rooted
    ([fdp-solana/sdk/program/src/slot_history.rs]), in a ring of bits.  The bit
    vector is [bv::BitVec] of a third-party crate and is a parameter. *)

From S2P Require Import Prelude AuthorizedVoters.

Definition MAX_ENTRIES : Z := 1048576.

(** [bv::BitVec<u64>], as far as it is used here *)
Class BitsOps (B : Type) := {
  bits_new_fill : bool -> Z -> B;
  bits_len : B -> Z;
  bits_get : B -> Z -> bool;
  bits_set : B -> Z -> bool -> B;
  bits_set_block : B -> Z -> Z -> B
}.

(** A read returns what was last written at its position; a block is 64 bits. *)
Class BitsLaws (B : Type) `{!BitsOps B} := {
  bits_len_new b n : bits_len (bits_new_fill b n) = n;
  bits_get_new b n i : 0 <= i < n -> bits_get (bits_new_fill b n) i = b;
  bits_len_set v i b : bits_len (bits_set v i b) = bits_len v;
  bits_get_set v i b j : 0 <= i < bits_len v -> 0 <= j < bits_len v ->
    bits_get (bits_set v i b) j = if i =? j then b else bits_get v j;
  bits_len_set_block v i x : bits_len (bits_set_block v i x) = bits_len v;
  bits_get_set_block v i x j : 0 <= i -> 64 * i + 64 <= bits_len v -> 0 <= j < bits_len v ->
    bits_get (bits_set_block v i x) j = if j / 64 =? i then Z.testbit x (j mod 64) else bits_get v j
}.

Section SlotHistory.
Context {B : Type} `{!BitsOps B}.

Record SlotHistory := mkSlotHistory { history_bits : B; next_slot : Slot }.

Inductive CheckResult := Future | TooOld | Found | NotFound.
#[global] Instance CheckResult_eq_dec : EqDecision CheckResult.
Proof. solve_decision. Defined.

Definition slot_history_default : SlotHistory :=
  mkSlotHistory (bits_set (bits_new_fill false MAX_ENTRIES) 0 true) 1.

Definition clear_blocks (bits : B) : B :=
  foldl (fun bits i => bits_set_block bits i 0) bits (seqZ 0 (MAX_ENTRIES / 64)).

Definition clear_skipped (next slot : Slot) (bits : B) : B :=
  foldl (fun bits skipped => bits_set bits (skipped mod MAX_ENTRIES) false) bits (seqZ next (slot - next)).

Definition history_add (slot : Slot) (self : SlotHistory) : SlotHistory :=
  let bits :=
    if (next_slot self <? slot) && (MAX_ENTRIES <=? slot - next_slot self)
    then clear_blocks (history_bits self)
    else clear_skipped (next_slot self) slot (history_bits self) in
  mkSlotHistory (bits_set bits (slot mod MAX_ENTRIES) true) (wrap64 (slot + 1)).

Definition history_oldest (self : SlotHistory) : Slot := sat_sub (next_slot self) MAX_ENTRIES.
Definition history_newest (self : SlotHistory) : Slot := wrap64 (next_slot self - 1).

Definition history_check (self : SlotHistory) (slot : Slot) : CheckResult :=
  if history_newest self <? slot then Future
  else if slot <? history_oldest self then TooOld
  else if bits_get (history_bits self) (slot mod MAX_ENTRIES) then Found
  else NotFound.

(** ** The history is exact *)
Context `{!BitsLaws B}.

(** The history holds the slots [added] that are in its window. *)
Record history_ok (added : Slot -> Prop) (self : SlotHistory) : Prop := {
  ho_len : bits_len (history_bits self) = MAX_ENTRIES;
  ho_next : 1 <= next_slot self <= u64_max;
  ho_below : forall s, added s -> 0 <= s < next_slot self;
  ho_bits : forall s, 0 <= s < next_slot self -> next_slot self - MAX_ENTRIES <= s ->
    bits_get (history_bits self) (s mod MAX_ENTRIES) = true <-> added s
}.

Lemma mod_range s : 0 <= s mod MAX_ENTRIES < MAX_ENTRIES.
Proof. apply Z.mod_pos_bound. done. Qed.

Lemma mod_distinct s t : s < t < s + MAX_ENTRIES -> s mod MAX_ENTRIES <> t mod MAX_ENTRIES.
Proof.
  intros Hst Heq. pose proof (Z.div_mod s MAX_ENTRIES ltac:(done)). pose proof (Z.div_mod t MAX_ENTRIES ltac:(done)).
  unfold MAX_ENTRIES in *. lia.
Qed.

Lemma clear_skipped_len l bits :
  bits_len (foldl (fun bits skipped => bits_set bits (skipped mod MAX_ENTRIES) false) bits l) = bits_len bits.
Proof. revert bits. induction l as [|s l IH]; intros bits; cbn; [done|]. by rewrite IH, bits_len_set. Qed.

Lemma clear_skipped_get l bits j :
  bits_len bits = MAX_ENTRIES -> 0 <= j < MAX_ENTRIES ->
  bits_get (foldl (fun bits skipped => bits_set bits (skipped mod MAX_ENTRIES) false) bits l) j =
  if decide (Exists (fun s => s mod MAX_ENTRIES = j) l) then false else bits_get bits j.
Proof.
  intros Hlen Hj. revert bits Hlen. induction l as [|s l IH]; intros bits Hlen; cbn [foldl].
  - rewrite decide_False; [done|]. by intros ?%Exists_nil.
  - rewrite IH by (by rewrite bits_len_set). pose proof (mod_range s).
    destruct (decide (Exists _ l)) as [He|He]; [rewrite decide_True by (by right); done|].
    rewrite bits_get_set by lia. destruct (Z.eqb_spec (s mod MAX_ENTRIES) j) as [Hs|Hs].
    + by rewrite decide_True by (by left).
    + rewrite decide_False; [done|]. by intros [?|?]%Exists_cons.
Qed.

Lemma clear_blocks_get_aux l bits j :
  bits_len bits = MAX_ENTRIES -> 0 <= j < MAX_ENTRIES -> Forall (fun i => 0 <= i < MAX_ENTRIES / 64) l ->
  bits_get (foldl (fun bits i => bits_set_block bits i 0) bits l) j =
    (if decide (j / 64 ∈ l) then false else bits_get bits j) /\
  bits_len (foldl (fun bits i => bits_set_block bits i 0) bits l) = MAX_ENTRIES.
Proof.
  intros Hlen Hj Hl. revert bits Hlen. induction Hl as [|i l Hi _ IH]; intros bits Hlen; cbn [foldl].
  - split; [|done]. rewrite decide_False; [done|]. apply not_elem_of_nil.
  - destruct (IH (bits_set_block bits i 0)) as [-> ->]; [by rewrite bits_len_set_block|]. split; [|done].
    change (MAX_ENTRIES / 64) with 16384 in Hi.
    destruct (decide (j / 64 ∈ l)) as [He|He]; [rewrite decide_True by (by right); done|].
    rewrite bits_get_set_block; [|lia|rewrite Hlen; unfold MAX_ENTRIES; lia|by rewrite Hlen].
    destruct (Z.eqb_spec (j / 64) i) as [<-|Hne].
    + rewrite decide_True by left. apply Z.testbit_0_l.
    + rewrite decide_False; [done|]. by intros [?|?]%elem_of_cons.
Qed.

Lemma clear_blocks_get bits j :
  bits_len bits = MAX_ENTRIES -> 0 <= j < MAX_ENTRIES ->
  bits_get (clear_blocks bits) j = false /\ bits_len (clear_blocks bits) = MAX_ENTRIES.
Proof.
  intros Hlen Hj. unfold clear_blocks. change (MAX_ENTRIES / 64) with 16384.
  destruct (clear_blocks_get_aux (seqZ 0 16384) bits j Hlen Hj) as [-> ->].
  - apply Forall_forall. intros i Hi%elem_of_seqZ. by change (MAX_ENTRIES / 64) with 16384.
  - rewrite decide_True; [done|]. apply elem_of_seqZ. unfold MAX_ENTRIES in Hj.
    pose proof (Z.div_pos j 64 ltac:(lia) ltac:(lia)). pose proof (Z.div_lt_upper_bound j 64 16384 ltac:(lia) ltac:(lia)). lia.
Qed.

#[local] Opaque clear_blocks.

(** The bits of the new window, but the one of the slot itself, before it is set. *)
Lemma cleared_bits added self slot :
  history_ok added self -> next_slot self <= slot ->
  let bits := if (next_slot self <? slot) && (MAX_ENTRIES <=? slot - next_slot self)
    then clear_blocks (history_bits self)
    else clear_skipped (next_slot self) slot (history_bits self) in
  bits_len bits = MAX_ENTRIES /\
  forall s, 0 <= s < slot -> slot + 1 - MAX_ENTRIES <= s -> bits_get bits (s mod MAX_ENTRIES) = true <-> added s.
Proof.
  intros [Hlen Hnext Hbelow Hbits] Hle. cbn zeta.
  destruct ((next_slot self <? slot) && (MAX_ENTRIES <=? slot - next_slot self)) eqn:Eb.
  - apply andb_true_iff in Eb as [_ Hfar%Z.leb_le]. split; [apply (clear_blocks_get _ 0 Hlen); unfold MAX_ENTRIES; lia|].
    intros s Hs Hin. destruct (clear_blocks_get _ (s mod MAX_ENTRIES) Hlen (mod_range s)) as [-> _].
    split; [discriminate|]. intros ?%Hbelow. lia.
  - unfold clear_skipped. rewrite clear_skipped_len. split; [exact Hlen|]. intros s Hs Hin.
    rewrite clear_skipped_get by (exact Hlen || apply mod_range).
    destruct (Z.lt_ge_cases s (next_slot self)) as [Hlt|Hge].
    + rewrite decide_False; [apply Hbits; lia|]. intros (x & Hx%elem_of_seqZ & He)%Exists_exists.
      apply (mod_distinct s x); [lia|]. by symmetry.
    + rewrite decide_True; [split; [discriminate|intros ?%Hbelow; lia]|].
      apply Exists_exists. exists s. split; [apply elem_of_seqZ; lia|reflexivity].
Qed.

Lemma history_add_ok added self slot :
  history_ok added self -> next_slot self <= slot -> slot < u64_max ->
  history_ok (fun s => s = slot \/ added s) (history_add slot self).
Proof.
  intros Hok Hle Hmax. destruct (cleared_bits added self slot Hok Hle) as [Hbl Hb].
  destruct Hok as [Hlen Hnext Hbelow Hbits].
  assert (Hw : wrap64 (slot + 1) = slot + 1) by (apply Z.mod_small; unfold u64_max in *; lia).
  unfold history_add. match goal with |- context [bits_set ?b (slot mod _) true] => set (bits := b) in * end.
  split; cbn.
  - by rewrite bits_len_set.
  - rewrite Hw. lia.
  - intros s [->|Hs%Hbelow]; rewrite Hw; lia.
  - rewrite Hw. intros s Hs Hin. rewrite bits_get_set by (rewrite Hbl; apply mod_range).
    destruct (decide (s = slot)) as [->|Hne]; [rewrite Z.eqb_refl; by split; [left|]|].
    rewrite (proj2 (Z.eqb_neq _ _)) by (intros He; symmetry in He; by apply mod_distinct in He; [|lia]).
    rewrite Hb by lia. split; [by right|]. by intros [?|?].
Qed.

Lemma slot_history_default_ok : history_ok (fun s => s = 0) slot_history_default.
Proof.
  split; cbn.
  - by rewrite bits_len_set, bits_len_new.
  - unfold u64_max. lia.
  - intros s ->. lia.
  - intros s Hs _. assert (s = 0) as -> by lia.
    rewrite Z.mod_0_l by done. rewrite bits_get_set by (rewrite bits_len_new; done). done.
Qed.

Lemma history_check_ok (added : Slot -> Prop) `{!forall s, Decision (added s)} self s :
  history_ok added self -> 0 <= s ->
  history_check self s =
    if next_slot self <=? s then Future
    else if s <? next_slot self - MAX_ENTRIES then TooOld
    else if decide (added s) then Found else NotFound.
Proof.
  intros [Hlen Hnext Hbelow Hbits] Hs. unfold history_check, history_newest, history_oldest, sat_sub.
  assert (wrap64 (next_slot self - 1) = next_slot self - 1) as -> by (apply Z.mod_small; unfold u64_max in *; lia).
  destruct (Z.ltb_spec (next_slot self - 1) s), (Z.leb_spec (next_slot self) s); try lia; [reflexivity|].
  destruct (Z.ltb_spec s (Z.max (next_slot self - MAX_ENTRIES) 0)), (Z.ltb_spec s (next_slot self - MAX_ENTRIES));
    try lia; [reflexivity|].
  specialize (Hbits s ltac:(lia) ltac:(lia)).
  destruct (bits_get _ _), (decide (added s)) as [Ha|Ha]; try reflexivity.
  - by destruct Ha; apply Hbits.
  - by apply Hbits in Ha.
Qed.

(** ** Adding slots in order *)
Definition add_slots (l : list Slot) (self : SlotHistory) : SlotHistory := foldl (fun h s => history_add s h) self l.

Lemma add_slots_ok l added self :
  history_ok added self -> StronglySorted Z.lt l -> Forall (fun s => next_slot self <= s < u64_max) l ->
  history_ok (fun s => s ∈ l \/ added s) (add_slots l self) /\
  next_slot (add_slots l self) = default (next_slot self) (Z.succ <$> last l).
Proof.
  intros Hok Hsort. revert added self Hok. induction Hsort as [|s l Hsort IH Hlt]; intros added self Hok Hall.
  - split; [|done]. destruct Hok as [H1 H2 H3 H4]. split; cbn; try done.
    + intros s [[]%not_elem_of_nil|?]. by apply H3.
    + intros s Hs Hin. rewrite H4 by done. split; [by right|]. by intros [[]%not_elem_of_nil|?].
  - apply Forall_cons in Hall as [Hs Hall]. pose proof (history_add_ok added self s Hok ltac:(lia) ltac:(lia)) as Hadd.
    assert (Hn : next_slot (history_add s self) = s + 1) by (apply Z.mod_small; unfold u64_max in *; destruct Hok; lia).
    destruct (IH _ _ Hadd) as [Hok' Hlast].
    { rewrite Hn. apply Forall_forall. intros x Hx. rewrite Forall_forall in Hlt, Hall. specialize (Hlt x Hx). specialize (Hall x Hx). lia. }
    cbn. split.
    + destruct Hok' as [H1 H2 H3 H4]. split; [done|done| |].
      * intros x [[->|?]%elem_of_cons|?]; apply H3; auto.
      * intros x Hx Hin. rewrite H4 by done. rewrite elem_of_cons. tauto.
    + unfold add_slots in *. rewrite Hlast, Hn. destruct l as [|y l]; [done|].
      change (last (s :: y :: l)) with (last (y :: l)). destruct (last (y :: l)) eqn:El; [done|]. by apply last_None in El.
Qed.

(** C34: a history to which slots were added in increasing order answers every
    query exactly: a slot after the last one is in the future, a slot more than
    [MAX_ENTRIES] behind it is too old, and a slot in between is found if and
    only if it was added (or is slot 0). *)
Theorem slot_history_exact l s :
  StronglySorted Z.lt l -> Forall (fun s => 1 <= s < u64_max) l -> 0 <= s ->
  let newest := default 0 (last l) in
  history_check (add_slots l slot_history_default) s =
    if newest <? s then Future
    else if s <=? newest - MAX_ENTRIES then TooOld
    else if decide (s = 0 \/ s ∈ l) then Found else NotFound.
Proof.
  intros Hsort Hall Hs. cbn zeta.
  destruct (add_slots_ok l _ _ slot_history_default_ok Hsort Hall) as [Hok Hn].
  rewrite (history_check_ok (fun s => s ∈ l \/ s = 0) _ s Hok Hs), Hn.
  assert (default (next_slot slot_history_default) (Z.succ <$> last l) = default 0 (last l) + 1) as ->
    by (destruct (last l); cbn; lia).
  destruct (Z.leb_spec (default 0 (last l) + 1) s), (Z.ltb_spec (default 0 (last l)) s); try lia; [reflexivity|].
  destruct (Z.ltb_spec s (default 0 (last l) + 1 - MAX_ENTRIES)), (Z.leb_spec s (default 0 (last l) - MAX_ENTRIES));
    try lia; [reflexivity|].
  destruct (decide (s ∈ l \/ s = 0)), (decide (s = 0 \/ s ∈ l)); tauto.
Qed.
End SlotHistory.
Arguments SlotHistory B : clear implicits.

(** ** A bit vector *)
Module IntegerBits.
Record t := mk { len : Z; val : Z }.

#[export] Instance ops : BitsOps t := {|
  bits_new_fill b n := mk n (if b then Z.ones n else 0);
  bits_len := len;
  bits_get v i := Z.testbit (val v) i;
  bits_set v i b := mk (len v) (if b then Z.setbit (val v) i else Z.clearbit (val v) i);
  bits_set_block v i x :=
    mk (len v) (Z.lor (Z.ldiff (val v) (Z.shiftl (Z.ones 64) (64 * i))) (Z.shiftl (Z.land x (Z.ones 64)) (64 * i)))
|}.

Lemma block_bit a i x j :
  0 <= i -> 0 <= j ->
  Z.testbit (Z.lor (Z.ldiff a (Z.shiftl (Z.ones 64) (64 * i))) (Z.shiftl (Z.land x (Z.ones 64)) (64 * i))) j =
  if j / 64 =? i then Z.testbit x (j mod 64) else Z.testbit a j.
Proof.
  intros Hi Hj. rewrite Z.lor_spec, Z.ldiff_spec, !Z.shiftl_spec, Z.land_spec by lia.
  pose proof (Z.div_mod j 64 ltac:(lia)) as Hdiv. pose proof (Z.mod_pos_bound j 64 ltac:(lia)) as Hmod.
  destruct (Z.eqb_spec (j / 64) i) as [Heq|Hne].
  - replace (j - 64 * i) with (j mod 64) by lia. rewrite Z.testbit_ones_nonneg, (proj2 (Z.ltb_lt _ _)) by lia.
    by rewrite andb_false_r, andb_true_r.
  - destruct (Z.lt_ge_cases (j - 64 * i) 0).
    + rewrite !(Z.testbit_neg_r _ (j - 64 * i)) by lia. by rewrite andb_true_r, orb_false_r.
    + rewrite Z.testbit_ones_nonneg, (proj2 (Z.ltb_ge _ _)) by lia. by rewrite andb_false_r, andb_true_r, orb_false_r.
Qed.

#[export] Instance laws : BitsLaws t.
Proof.
  split; cbn; try done.
  - intros b n i Hi. destruct b; [|apply Z.testbit_0_l]. rewrite Z.testbit_ones_nonneg by lia. apply Z.ltb_lt. lia.
  - intros v i b j Hi Hj. destruct b.
    + rewrite Z.setbit_eqb by lia. by destruct (i =? j).
    + rewrite Z.clearbit_eqb. destruct (i =? j); [apply andb_false_r|apply andb_true_r].
  - intros v i x j Hi _ Hj. apply block_bit; lia.
Qed.
End IntegerBits.

#[local] Existing Instances IntegerBits.ops IntegerBits.laws.
Lemma slot_history_exact_witness :
  history_check (add_slots (B := IntegerBits.t) [2; 20; 1048580] slot_history_default) 20 = Found /\
  history_check (add_slots (B := IntegerBits.t) [2; 20; 1048580] slot_history_default) 2 = TooOld.
Proof.
  assert (Hs : StronglySorted Z.lt [2; 20; 1048580]) by (repeat first [lia|constructor]).
  assert (Ha : Forall (fun s => 1 <= s < u64_max) [2; 20; 1048580]) by (unfold u64_max; repeat (apply Forall_cons; split; [lia|]); constructor).
  split.
  - rewrite (slot_history_exact [2; 20; 1048580] 20 Hs Ha ltac:(lia)). vm_compute. reflexivity.
  - rewrite (slot_history_exact [2; 20; 1048580] 2 Hs Ha ltac:(lia)). vm_compute. reflexivity.
Defined.
