(* ===== verification/ValidatorTower.v ===== *)
(** * The tower of a validator

    [Tower] decides which slots a validator may vote for and records its votes
    ([fdp-solana/core/src/consensus.rs]).  This file has its state, the votes it
    sends ([VoteTransaction] of [fdp-solana/programs/vote/src/vote_state/mod.rs]),
    the lockout and threshold checks, and the recording of votes.  The wall clock
    is an argument; metrics and logging are left out. *)

From S2P Require Import Prelude InstructionError AuthorizedVoters VoteState VoteProcess VoteProgram VoteVersions.

(** ** Votes that are sent *)
Inductive VoteTransaction :=
| TxVote (vote : Vote)
| TxVoteStateUpdate (vote_state_update : VoteStateUpdate)
| TxCompactVoteStateUpdate (vote_state_update : VoteStateUpdate).

Definition vote_default : Vote := mkVote [] hash_default None.
Definition vsu_default : VoteStateUpdate := mkVoteStateUpdate [] None hash_default None.
Definition vsu_new (lockouts : list Lockout) (root : option Slot) (hash : Hash) : VoteStateUpdate :=
  mkVoteStateUpdate lockouts root hash None.

#[global] Instance Vote_eq_dec : EqDecision Vote.
Proof. solve_decision. Defined.
#[global] Instance VoteStateUpdate_eq_dec : EqDecision VoteStateUpdate.
Proof. solve_decision. Defined.
#[global] Instance VoteTransaction_eq_dec : EqDecision VoteTransaction.
Proof. solve_decision. Defined.

Definition tx_slots (self : VoteTransaction) : list Slot :=
  match self with
  | TxVote vote => vote_slots vote
  | TxVoteStateUpdate u | TxCompactVoteStateUpdate u => vsu_slots u
  end.
(** [self.slots[i]]: out of range is a panic. *)
Definition tx_slot {E} (self : VoteTransaction) (i : nat) : outcome E Slot :=
  match self with
  | TxVote vote => expect (vote_slots vote !! i)
  | TxVoteStateUpdate u | TxCompactVoteStateUpdate u => expect (lo_slot <$> vsu_lockouts u !! i)
  end.
Definition tx_len (self : VoteTransaction) : nat :=
  match self with
  | TxVote vote => length (vote_slots vote)
  | TxVoteStateUpdate u | TxCompactVoteStateUpdate u => length (vsu_lockouts u)
  end.
Definition tx_is_empty (self : VoteTransaction) : bool :=
  match self with
  | TxVote vote => bool_decide (vote_slots vote = [])
  | TxVoteStateUpdate u | TxCompactVoteStateUpdate u => bool_decide (vsu_lockouts u = [])
  end.
Definition tx_hash (self : VoteTransaction) : Hash :=
  match self with
  | TxVote vote => vote_hash vote
  | TxVoteStateUpdate u | TxCompactVoteStateUpdate u => vsu_hash u
  end.
Definition tx_timestamp (self : VoteTransaction) : option UnixTimestamp :=
  match self with
  | TxVote vote => vote_timestamp vote
  | TxVoteStateUpdate u | TxCompactVoteStateUpdate u => vsu_timestamp u
  end.
Definition vsu_set_timestamp (ts : option UnixTimestamp) (u : VoteStateUpdate) : VoteStateUpdate :=
  mkVoteStateUpdate (vsu_lockouts u) (vsu_root u) (vsu_hash u) ts.
Definition tx_set_timestamp (ts : option UnixTimestamp) (self : VoteTransaction) : VoteTransaction :=
  match self with
  | TxVote vote => TxVote (mkVote (vote_slots vote) (vote_hash vote) ts)
  | TxVoteStateUpdate u => TxVoteStateUpdate (vsu_set_timestamp ts u)
  | TxCompactVoteStateUpdate u => TxCompactVoteStateUpdate (vsu_set_timestamp ts u)
  end.
Definition tx_last_voted_slot (self : VoteTransaction) : option Slot :=
  match self with
  | TxVote vote => vote_last_voted_slot vote
  | TxVoteStateUpdate u | TxCompactVoteStateUpdate u => vsu_last_voted_slot u
  end.
Definition tx_last_voted_slot_hash (self : VoteTransaction) : option (Slot * Hash) :=
  s ← tx_last_voted_slot self; Some (s, tx_hash self).

(** ** Decisions *)
Inductive ThresholdDecision :=
| PassedThreshold
| FailedThreshold (vote_depth observed_stake : Z).

Definition passed (self : ThresholdDecision) : bool :=
  match self with PassedThreshold => true | FailedThreshold _ _ => false end.

Inductive SwitchForkDecision :=
| SwitchProof (switch_proof_hash : Hash)
| SameFork
| FailedSwitchThreshold (switch_proof_stake total_stake : Z)
| FailedSwitchDuplicateRollback (latest_duplicate_ancestor : Slot).

#[global] Instance SwitchForkDecision_eq_dec : EqDecision SwitchForkDecision.
Proof. solve_decision. Defined.

Definition can_vote (self : SwitchForkDecision) : bool :=
  match self with
  | FailedSwitchThreshold _ _ => false
  | FailedSwitchDuplicateRollback _ => false
  | SameFork => true
  | SwitchProof _ => true
  end.

(** [Instruction] with the vote instruction it carries, before it is serialized *)
Record AccountMeta := mkAccountMeta { am_pubkey : Pubkey; am_is_signer : bool; am_is_writable : bool }.
Record Instruction := mkInstruction {
  ix_program_id : Pubkey;
  ix_data : VoteInstruction;
  ix_accounts : list AccountMeta
}.

Section Instructions.
Context (vote_program_id slot_hashes_id clock_id : Pubkey).

Definition meta_new (pubkey : Pubkey) (is_signer : bool) : AccountMeta := mkAccountMeta pubkey is_signer true.
Definition meta_new_readonly (pubkey : Pubkey) (is_signer : bool) : AccountMeta := mkAccountMeta pubkey is_signer false.

(** [vote] and [vote_switch] *)
Definition vote_accounts_metas (vote_pubkey authorized_voter_pubkey : Pubkey) : list AccountMeta :=
  [meta_new vote_pubkey false; meta_new_readonly slot_hashes_id false; meta_new_readonly clock_id false;
   meta_new_readonly authorized_voter_pubkey true].
(** [update_vote_state], [compact_update_vote_state] and their switch variants *)
Definition update_accounts_metas (vote_pubkey authorized_voter_pubkey : Pubkey) : list AccountMeta :=
  [meta_new vote_pubkey false; meta_new_readonly authorized_voter_pubkey true].

Definition to_vote_instruction {E} (self : SwitchForkDecision) (vote : VoteTransaction)
    (vote_account_pubkey authorized_voter_pubkey : Pubkey) : outcome E (option Instruction) :=
  let vote_ix data := Some (mkInstruction vote_program_id data
    (vote_accounts_metas vote_account_pubkey authorized_voter_pubkey)) in
  let update_ix data := Some (mkInstruction vote_program_id data
    (update_accounts_metas vote_account_pubkey authorized_voter_pubkey)) in
  match self, vote with
  | FailedSwitchThreshold _ total_stake, _ => _ ←? rust_assert (negb (total_stake =? 0)); Ok None
  | FailedSwitchDuplicateRollback _, _ => Ok None
  | SameFork, TxVote v => Ok (vote_ix (IVote v))
  | SameFork, TxVoteStateUpdate v => Ok (update_ix (UpdateVoteState v))
  | SwitchProof h, TxVote v => Ok (vote_ix (VoteSwitch v h))
  | SwitchProof h, TxVoteStateUpdate v => Ok (update_ix (UpdateVoteStateSwitch v h))
  | SameFork, TxCompactVoteStateUpdate v => Ok (update_ix (CompactUpdateVoteState v))
  | SwitchProof h, TxCompactVoteStateUpdate v => Ok (update_ix (CompactUpdateVoteStateSwitch v h))
  end.
End Instructions.

(** ** Constants: [38.0 / 100.0] and [1.0 / 10.0] round to the literals [0.38] and
    [0.1] *)
Definition VOTE_THRESHOLD_DEPTH_SHALLOW : nat := 4.
Definition VOTE_THRESHOLD_DEPTH : nat := 8.
Definition SWITCH_FORK_THRESHOLD : f64 := f64_div (f64_of_u64 38) (f64_of_u64 100).
Definition VOTE_THRESHOLD_SIZE : f64 := f64_div (f64_of_u64 2) (f64_of_u64 3).
Definition SUPERMINORITY_THRESHOLD : f64 := f64_div (f64_of_u64 1) (f64_of_u64 3).
Definition DUPLICATE_LIVENESS_THRESHOLD : f64 := f64_div (f64_of_u64 1) (f64_of_u64 10).
Definition DUPLICATE_THRESHOLD : f64 :=
  f64_sub (f64_sub (f64_of_u64 1) SWITCH_FORK_THRESHOLD) DUPLICATE_LIVENESS_THRESHOLD.

Abbreviation Stake := Z.
Notation VotedStakes := (gmap Slot Stake).

(** [*stake as f64 / total_stake as f64] *)
Definition stake_ratio (stake total_stake : Stake) : f64 := f64_div (f64_of_u64 stake) (f64_of_u64 total_stake).

Inductive TowerError :=
| IoError (not_found : bool)
| SerializeError
| InvalidSignature
| WrongTower (msg : string)
| TooOldTower (newest_in_tower oldest_in_history : Slot)
| FatallyInconsistent (msg : string)
| HardFork (slot : Slot).

Definition is_file_missing (self : TowerError) : bool := match self with IoError not_found => not_found | _ => false end.
Definition is_too_old (self : TowerError) : bool := match self with TooOldTower _ _ => true | _ => false end.

(** ** The tower *)
Record Tower := mkTower {
  node_pubkey : Pubkey;
  threshold_depth : nat;
  threshold_size : f64;
  vote_state : VoteState;
  last_vote : VoteTransaction;
  last_vote_tx_blockhash : option Hash;
  tw_last_timestamp : BlockTimestamp;
  stray_restored_slot : option Slot;
  last_switch_threshold_check : option (Slot * SwitchForkDecision)
}.

Definition with_vote_state (v : VoteState) (t : Tower) : Tower :=
  mkTower (node_pubkey t) (threshold_depth t) (threshold_size t) v (last_vote t) (last_vote_tx_blockhash t)
    (tw_last_timestamp t) (stray_restored_slot t) (last_switch_threshold_check t).
Definition with_last_vote (v : VoteTransaction) (t : Tower) : Tower :=
  mkTower (node_pubkey t) (threshold_depth t) (threshold_size t) (vote_state t) v (last_vote_tx_blockhash t)
    (tw_last_timestamp t) (stray_restored_slot t) (last_switch_threshold_check t).
Definition with_blockhash (h : option Hash) (t : Tower) : Tower :=
  mkTower (node_pubkey t) (threshold_depth t) (threshold_size t) (vote_state t) (last_vote t) h
    (tw_last_timestamp t) (stray_restored_slot t) (last_switch_threshold_check t).
Definition with_timestamp (ts : BlockTimestamp) (t : Tower) : Tower :=
  mkTower (node_pubkey t) (threshold_depth t) (threshold_size t) (vote_state t) (last_vote t) (last_vote_tx_blockhash t)
    ts (stray_restored_slot t) (last_switch_threshold_check t).
Definition with_stray (s : option Slot) (t : Tower) : Tower :=
  mkTower (node_pubkey t) (threshold_depth t) (threshold_size t) (vote_state t) (last_vote t) (last_vote_tx_blockhash t)
    (tw_last_timestamp t) s (last_switch_threshold_check t).
Definition with_switch_check (c : option (Slot * SwitchForkDecision)) (t : Tower) : Tower :=
  mkTower (node_pubkey t) (threshold_depth t) (threshold_size t) (vote_state t) (last_vote t) (last_vote_tx_blockhash t)
    (tw_last_timestamp t) (stray_restored_slot t) c.

Definition tower_default : Tower :=
  mkTower pubkey_default VOTE_THRESHOLD_DEPTH VOTE_THRESHOLD_SIZE (set_root_slot vote_state_default (Some 0))
    (TxVoteStateUpdate vsu_default) None (mkBlockTimestamp 0 0) None None.

Definition initialize_root (root : Slot) (self : Tower) : Tower :=
  with_vote_state (set_root_slot (vote_state self) (Some root)) self.

(** [votes.retain(should_retain)], for a predicate of the vote *)
Definition initialize_lockouts (should_retain : LandedVote -> bool) (self : Tower) : Tower :=
  with_vote_state (set_votes (vote_state self) (List.filter should_retain (votes (vote_state self)))) self.

(** A vote account of a bank: [None] where its data is not a vote state. *)
Definition initialize_lockouts_from_bank (vote_account : option (option VoteState)) (root : Slot) (self : Tower)
    : outcome TowerError Tower :=
  match vote_account with
  | Some account =>
      vs ←? expect account;
      let self := initialize_root root (with_vote_state vs self) in
      Ok (initialize_lockouts (fun v => root <? slot v) self)
  | None => Ok (initialize_root root self)
  end.

Definition tower_new (node : Pubkey) (vote_account : option (option VoteState)) (root : Slot) : outcome TowerError Tower :=
  initialize_lockouts_from_bank vote_account root
    (mkTower node VOTE_THRESHOLD_DEPTH VOTE_THRESHOLD_SIZE (vote_state tower_default) (last_vote tower_default)
       None (mkBlockTimestamp 0 0) None None).

Definition tower_slots (self : Tower) : list Slot := tower (vote_state self).
Definition voted_slots (self : Tower) : list Slot := slot <$> votes (vote_state self).

(** [self.last_vote.slot(self.last_vote.len() - 1)] *)
Definition tower_last_voted_slot (self : Tower) : outcome TowerError (option Slot) :=
  if tx_is_empty (last_vote self) then Ok None
  else s ←? tx_slot (last_vote self) (tx_len (last_vote self) - 1); Ok (Some s).
Definition last_voted_slot_hash (self : Tower) : outcome TowerError (option (Slot * Hash)) :=
  s ←? tower_last_voted_slot self; Ok (s ← s; Some (s, tx_hash (last_vote self))).

Definition is_stray_last_vote (self : Tower) : outcome TowerError bool :=
  if bool_decide (is_Some (stray_restored_slot self))
  then s ←? tower_last_voted_slot self; Ok (bool_decide (stray_restored_slot self = s))
  else Ok false.

Definition tower_root (self : Tower) : outcome TowerError Slot := expect (root_slot (vote_state self)).

(** ** Slots that may be voted for *)
Definition is_recent (self : Tower) (s : Slot) : bool :=
  match last_voted_slot (vote_state self) with
  | Some last_voted_slot => negb (s <=? last_voted_slot)
  | None => match root_slot (vote_state self) with Some root => negb (s <=? root) | None => true end
  end.

Definition has_voted (self : Tower) (s : Slot) : bool := existsb (fun vote => s =? slot vote) (votes (vote_state self)).

Definition is_locked_out (self : Tower) (s : Slot) (ancestors : gset Slot) : outcome TowerError bool :=
  if negb (is_recent self s) then Ok true
  else
    let vs := process_slot_vote_unchecked (vote_state self) s in
    if existsb (fun vote => negb (s =? slot vote) && negb (bool_decide (slot vote ∈ ancestors))) (votes vs)
    then Ok true
    else
      match root_slot vs with
      | Some root_slot =>
          if negb (s =? root_slot)
          then _ ←? rust_assert (bool_decide (root_slot ∈ ancestors)); Ok false
          else Ok false
      | None => Ok false
      end.

Definition is_slot_confirmed (self : Tower) (s : Slot) (voted_stakes : VotedStakes) (total_stake : Stake) : bool :=
  match voted_stakes !! s with
  | Some stake => f64_ltb (threshold_size self) (stake_ratio stake total_stake)
  | None => false
  end.
Definition is_slot_duplicate_confirmed (s : Slot) (voted_stakes : VotedStakes) (total_stake : Stake) : bool :=
  match voted_stakes !! s with
  | Some stake => f64_ltb DUPLICATE_THRESHOLD (stake_ratio stake total_stake)
  | None => false
  end.

Definition check_vote_stake_threshold (threshold_vote : option Lockout) (before : VoteState)
    (threshold_depth : nat) (threshold_size : f64) (voted_stakes : VotedStakes) (total_stake : Stake)
    : ThresholdDecision :=
  match threshold_vote with
  | None => PassedThreshold
  | Some threshold_vote =>
      match voted_stakes !! lo_slot threshold_vote with
      | None => FailedThreshold (Z.of_nat threshold_depth) 0
      | Some fork_stake =>
          if (Z.of_nat threshold_depth <? lo_confirmation_count threshold_vote)
             && existsb (fun old => (slot old =? lo_slot threshold_vote)
                                    && (confirmation_count old =? lo_confirmation_count threshold_vote)) (votes before)
          then PassedThreshold
          else if f64_ltb threshold_size (stake_ratio fork_stake total_stake) then PassedThreshold
          else FailedThreshold (Z.of_nat threshold_depth) fork_stake
      end
  end.

Definition check_vote_stake_thresholds (self : Tower) (s : Slot) (voted_stakes : VotedStakes) (total_stake : Stake)
    : list ThresholdDecision :=
  let vs := process_slot_vote_unchecked (vote_state self) s in
  let vote_thresholds_and_depths :=
    [(VOTE_THRESHOLD_DEPTH_SHALLOW, SWITCH_FORK_THRESHOLD);
     ((VOTE_THRESHOLD_DEPTH_SHALLOW + 1)%nat, SWITCH_FORK_THRESHOLD);
     (threshold_depth self, threshold_size self)] in
  '(depth, size) ← vote_thresholds_and_depths;
  match check_vote_stake_threshold (nth_recent_lockout vs depth) (vote_state self) depth size voted_stakes total_stake with
  | FailedThreshold vote_depth stake => [FailedThreshold vote_depth stake]
  | PassedThreshold => []
  end.

(** ** Recording votes *)

(** [now] is [Utc::now().timestamp()]. *)
Definition maybe_timestamp (now : UnixTimestamp) (current_slot : Slot) (self : Tower) : Tower * option UnixTimestamp :=
  let last := tw_last_timestamp self in
  if (bt_slot last <? current_slot) || (bt_slot last =? 0) && (current_slot =? bt_slot last) then
    if bt_timestamp last <=? now then (with_timestamp (mkBlockTimestamp current_slot now) self, Some now)
    else (self, None)
  else (self, None).

Definition update_last_vote_from_vote_state (now : UnixTimestamp) (vote_hash : Hash) (self : Tower)
    : outcome TowerError Tower :=
  let new_vote :=
    TxVoteStateUpdate (vsu_new (lockout <$> votes (vote_state self)) (root_slot (vote_state self)) vote_hash) in
  last ←? tower_last_voted_slot self;
  let '(self, ts) := maybe_timestamp now (default 0 last) self in
  Ok (with_last_vote (tx_set_timestamp ts new_vote) self).

Definition record_bank_vote_and_update_lockouts (now : UnixTimestamp) (vote_slot : Slot) (vote_hash : Hash) (self : Tower)
    : outcome TowerError (Tower * option Slot) :=
  old_root ←? tower_root self;
  let '(vs, r) := process_vote_unchecked (vote_state self) (vote_new [vote_slot] vote_hash) in
  _ ←? match r with Ok _ => Ok tt | _ => Panic end;
  self ←? update_last_vote_from_vote_state now vote_hash (with_vote_state vs self);
  new_root ←? tower_root self;
  Ok (self, if negb (old_root =? new_root) then Some new_root else None).

(** A vote for a bank with this slot and hash *)
Definition record_bank_vote (now : UnixTimestamp) (bank_slot : Slot) (bank_hash : Hash) (self : Tower)
    : outcome TowerError (Tower * option Slot) :=
  record_bank_vote_and_update_lockouts now bank_slot bank_hash self.

Definition increase_lockout (confirmation_count_increase : Z) (self : Tower) : Tower :=
  with_vote_state
    (set_votes (vote_state self)
       ((fun v => mkLandedVote (latency v) (increase_confirmation_count (lockout v) confirmation_count_increase))
          <$> votes (vote_state self))) self.

Definition refresh_last_vote_timestamp (heaviest_slot_on_same_fork : Slot) (self : Tower) : Tower :=
  let timestamp :=
    match tx_timestamp (last_vote self) with
    | Some last_vote_timestamp => sat_add_i64 last_vote_timestamp 1
    | None => sat_add_i64 (bt_timestamp (tw_last_timestamp self)) 1
    end in
  match tx_last_voted_slot (last_vote self) with
  | Some last_voted_slot =>
      if heaviest_slot_on_same_fork <=? last_voted_slot then self
      else with_last_vote (tx_set_timestamp (Some timestamp) (last_vote self))
             (with_timestamp (mkBlockTimestamp last_voted_slot timestamp) self)
  | None => self
  end.

Definition refresh_last_vote_tx_blockhash (new_vote_tx_blockhash : Hash) (self : Tower) : Tower :=
  with_blockhash (Some new_vote_tx_blockhash) self.

Definition last_voted_slot_in_bank (vote_account : option (option VoteState)) : option Slot :=
  account ← vote_account; vs ← account; last_voted_slot vs.
