(* ===== verification/TowerSafety.v ===== *)
(** * Lockouts are respected

    A validator that votes only for slots its tower does not lock out never
    contradicts a lockout it took on, and every slot it rooted is an ancestor of
    everything it votes for later.  Conversely no lockout lasts forever. *)

From S2P Require Import Prelude InstructionError AuthorizedVoters VoteState VoteProcess Credits Tower VoteSafety ValidatorTower.

(** ** A vote for one slot *)
Lemma process_vote_unchecked_newer vs s h :
  match last_voted_slot vs with Some l => l < s | None => True end ->
  process_vote_unchecked vs (vote_new [s] h) =
  (process_next_vote_slot vs s (current_epoch vs) 0 true true, Ok tt).
Proof.
  intros Hl. unfold process_vote_unchecked, process_vote_unfiltered, check_slots_are_valid. cbn.
  assert (match last_voted_slot vs with Some l => s <=? l | None => false end = false) as ->.
  { destruct (last_voted_slot vs); [|done]. by apply Z.leb_gt. }
  cbn. rewrite Z.eqb_refl. cbn. by rewrite Z.eqb_refl.
Qed.

Lemma process_vote_unchecked_older vs s h l :
  last_voted_slot vs = Some l -> s <= l -> process_vote_unchecked vs (vote_new [s] h) = (vs, Err VoteTooOld).
Proof.
  intros Hl Hs. unfold process_vote_unchecked, process_vote_unfiltered, check_slots_are_valid. cbn.
  rewrite Hl. by rewrite (proj2 (Z.leb_le _ _) Hs).
Qed.

Lemma is_recent_spec t s :
  is_recent t s = true <->
  match last_voted_slot (vote_state t) with
  | Some l => l < s
  | None => forall r, root_slot (vote_state t) = Some r -> r < s
  end.
Proof.
  unfold is_recent. destruct (last_voted_slot (vote_state t)); [rewrite negb_true_iff, Z.leb_gt; done|].
  destruct (root_slot (vote_state t)) as [r|]; [|by split].
  rewrite negb_true_iff, Z.leb_gt. split; [by intros ? ? [= <-]|]. auto.
Qed.

Lemma is_recent_newer t s :
  is_recent t s = true -> match last_voted_slot (vote_state t) with Some l => l < s | None => True end.
Proof. intros H%is_recent_spec. by destruct (last_voted_slot (vote_state t)). Qed.

(** The vote state after a vote for a slot that is newer than all votes. *)
Abbreviation next_state vs s := (process_next_vote_slot vs s (current_epoch vs) 0 true true).

Lemma is_locked_out_false t s ancestors :
  is_locked_out t s ancestors = Ok false <->
  is_recent t s = true /\
  (forall v, v ∈ votes (next_state (vote_state t) s) -> slot v = s \/ slot v ∈ ancestors) /\
  (forall r, root_slot (next_state (vote_state t) s) = Some r -> r = s \/ r ∈ ancestors).
Proof.
  unfold is_locked_out. destruct (is_recent t s) eqn:Hr; cbn [negb]; [|by split; [|intros [? _]]].
  unfold process_slot_vote_unchecked. rewrite process_vote_unchecked_newer by (by apply is_recent_newer). cbn [fst].
  set (vs := next_state (vote_state t) s). destruct (existsb _ (votes vs)) eqn:He.
  - split; [done|]. intros (_ & Hv & _). apply existsb_exists in He as (v & Hin%list_elem_of_In & He).
    apply andb_true_iff in He as [He1%negb_true_iff%Z.eqb_neq He2%negb_true_iff%bool_decide_eq_false].
    destruct (Hv v Hin); [congruence|done].
  - assert (Hv : forall v, v ∈ votes vs -> slot v = s \/ slot v ∈ ancestors).
    { intros v Hin. destruct (decide (slot v = s)); [by left|right]. apply dec_stable. intros Hno.
      apply not_true_iff_false in He. apply He, existsb_exists. exists v. split; [by apply list_elem_of_In|].
      by rewrite bool_decide_false, (proj2 (Z.eqb_neq _ _)). }
    destruct (root_slot vs) as [r|]; [|by split; [|done]].
    destruct (Z.eqb_spec s r) as [->|Hne]; cbn [negb].
    + split; [|done]. intros _. split; [done|]. split; [done|]. intros ? [= <-]. by left.
    + case_bool_decide as Hd; cbn.
      * split; [|done]. intros _. split; [done|]. split; [done|]. intros ? [= <-]. by right.
      * split; [done|]. intros (_ & _ & H). destruct (H r eq_refl); [congruence|done].
Qed.

(** ** Recording a vote *)
Lemma lookup_last {A} (l : list A) : l !! (length l - 1)%nat = last l.
Proof. rewrite last_lookup. f_equal. lia. Qed.
Lemma last_nonempty {A} (l : list A) : l <> [] -> is_Some (last l).
Proof. intros H. destruct (last l) eqn:E; [by eexists|]. by apply last_None in E. Qed.

Lemma tower_last_voted_slot_ok t : tower_last_voted_slot t = Ok (tx_last_voted_slot (last_vote t)).
Proof.
  unfold tower_last_voted_slot. destruct (last_vote t) as [v|u|u]; cbn; case_bool_decide as He;
    unfold vote_last_voted_slot, vsu_last_voted_slot.
  1,3,5: by rewrite He.
  all: rewrite lookup_last; destruct (last_nonempty _ He) as [x ->]; done.
Qed.

Lemma tx_set_timestamp_keeps ts v :
  tx_slots (tx_set_timestamp ts v) = tx_slots v /\ tx_hash (tx_set_timestamp ts v) = tx_hash v /\
  tx_last_voted_slot (tx_set_timestamp ts v) = tx_last_voted_slot v.
Proof. by destruct v. Qed.

(** What recording a vote leaves: the vote state after the vote, and a last vote
    that proposes exactly its lockouts and root. *)
Lemma record_bank_vote_ok now s h t r :
  root_slot (vote_state t) = Some r ->
  match last_voted_slot (vote_state t) with Some l => l < s | None => True end ->
  exists t' ts, let vs := next_state (vote_state t) s in
    record_bank_vote now s h t =
      Ok (t', r' ← root_slot vs; if negb (r =? r') then Some r' else None) /\
    vote_state t' = vs /\
    last_vote t' = TxVoteStateUpdate (mkVoteStateUpdate (lockout <$> votes vs) (root_slot vs) h ts) /\
    node_pubkey t' = node_pubkey t /\ threshold_depth t' = threshold_depth t /\ threshold_size t' = threshold_size t /\
    stray_restored_slot t' = stray_restored_slot t.
Proof.
  intros Hr Hl. unfold record_bank_vote, record_bank_vote_and_update_lockouts.
  assert (tower_root t = Ok r) as -> by (unfold tower_root; by rewrite Hr). cbn [obind]. rewrite process_vote_unchecked_newer by done. cbn [obind].
  unfold update_last_vote_from_vote_state. rewrite tower_last_voted_slot_ok. cbn [obind].
  assert (Hroot : exists r', root_slot (next_state (vote_state t) s) = Some r').
  { unfold process_next_vote_slot. destruct (match last_voted_slot _ with Some _ => _ | None => _ end); [by exists r|].
    cbn. destruct (_ =? _)%nat; [|by exists r]. destruct (pop_back_while _ _); [by exists r|]. cbn. by eexists. }
  destruct Hroot as [r' Hr']. destruct (maybe_timestamp _ _ _) as [t1 ts] eqn:Et.
  assert (Hsame : vote_state t1 = next_state (vote_state t) s /\ node_pubkey t1 = node_pubkey t /\
    threshold_depth t1 = threshold_depth t /\ threshold_size t1 = threshold_size t /\ stray_restored_slot t1 = stray_restored_slot t).
  { unfold maybe_timestamp in Et. repeat case_match; injection Et as <- _; done. }
  destruct Hsame as (Hv & ? & ? & ? & ?).
  assert (Hfin : forall v, tower_root (with_last_vote v t1) = Ok r').
  { intros v. unfold tower_root. cbn. by rewrite Hv, Hr'. }
  cbn [obind]. rewrite Hfin. cbn [obind]. eexists _, ts. cbn zeta. split; [by rewrite Hr'|]. by split_and!.
Qed.

(** Membership in a concatenation. *)
Ltac in_app := rewrite !elem_of_app; tauto.

(** ** Runs on a tree of slots *)
Section Forks.
(** The ancestors of each slot. *)
Context (anc : Slot -> gset Slot).
Hypothesis anc_lt : forall a b, a ∈ anc b -> a < b.
Hypothesis anc_trans : forall a b c, a ∈ anc b -> b ∈ anc c -> a ∈ anc c.

(** The votes of a tower lie on one fork, above its root. *)
Record on_one_fork (t : Tower) : Prop := {
  of_tower : tower_ok (votes (vote_state t));
  of_root : exists r, root_slot (vote_state t) = Some r /\ forall v, v ∈ votes (vote_state t) -> r ∈ anc (slot v);
  of_chain : forall v w, v ∈ votes (vote_state t) -> w ∈ votes (vote_state t) -> slot v < slot w -> slot v ∈ anc (slot w)
}.

(** A validator votes for slots that are not locked out; [past] is the list of
    its earlier towers, the latest first. *)
Inductive voting_run (t0 : Tower) : list Tower -> Tower -> Prop :=
| voting_start : voting_run t0 [] t0
| voting_vote past t now s h t' new_root :
    voting_run t0 past t -> in_u64 s -> is_locked_out t s (anc s) = Ok false ->
    record_bank_vote now s h t = Ok (t', new_root) -> voting_run t0 (t :: past) t'.

(** A lockout of an earlier tower: over, still there, or rooted. *)
Definition settled (t : Tower) (w : LandedVote) : Prop :=
  (exists v, v ∈ votes (vote_state t) /\ last_locked_out_slot (lockout w) < slot v) \/
  (exists v, v ∈ votes (vote_state t) /\ slot v = slot w /\
     last_locked_out_slot (lockout w) <= last_locked_out_slot (lockout v)) \/
  (exists r, root_slot (vote_state t) = Some r /\ (slot w = r \/ slot w ∈ anc r)).

Definition root_settled (t : Tower) (r0 : Slot) : Prop :=
  exists r, root_slot (vote_state t) = Some r /\ (r0 = r \/ r0 ∈ anc r).

(** The shape of the next vote state, with what the check of the lockouts gives. *)
Record safe_vote (t : Tower) (s : Slot) (vs : VoteState) (rooted kept expired : list LandedVote) (w : LandedVote) : Prop := {
  sv_shape : next_vote_shape (vote_state t) vs s (current_epoch (vote_state t)) true true rooted kept expired w;
  sv_kept : forall v, v ∈ kept -> slot v ∈ anc s;
  sv_root : forall r, root_slot vs = Some r -> r ∈ anc s
}.

Lemma root_below t s r :
  on_one_fork t -> is_recent t s = true -> root_slot (vote_state t) = Some r -> r < s.
Proof.
  intros [_ (r0 & Hr0 & Hr) _] Hs%is_recent_spec Hroot. rewrite Hroot in Hr0. injection Hr0 as <-.
  rewrite last_voted_slot_last in Hs. destruct (last (votes (vote_state t))) as [v|] eqn:El; cbn in Hs; [|by apply Hs].
  apply last_Some_elem_of, Hr, anc_lt in El. lia.
Qed.

Lemma safe_vote_shape t s :
  on_one_fork t -> is_locked_out t s (anc s) = Ok false ->
  exists rooted kept expired w, safe_vote t s (next_state (vote_state t) s) rooted kept expired w.
Proof.
  intros Hf (Hr & Hv & Hroot)%is_locked_out_false. pose proof (is_recent_newer _ _ Hr) as Hnew.
  destruct (process_next_vote_slot_shape (vote_state t) s (current_epoch (vote_state t)) 0 true true (of_tower _ Hf))
    as [[_ (l & Hl & Hle)]|(rooted & kept & expired & w & Hsh)]; [rewrite Hl in Hnew; lia|].
  exists rooted, kept, expired, w. split; [done| |].
  - intros v Hin. pose proof Hsh as []. assert (slot v < s) by (apply nv_newer; rewrite nv_split; in_app).
    assert (Hok : vote_ok v).
    { pose proof (tower_conf _ (of_tower _ Hf)) as Hc. rewrite Forall_forall in Hc. apply Hc. rewrite nv_split. in_app. }
    destruct (bump_elem_of (zlength (kept ++ [w])) (kept ++ [w]) v Hok ltac:(in_app)) as (x & Hx & Hxs & _).
    rewrite <-nv_votes in Hx. destruct (Hv x Hx) as [?|?]; [lia|congruence].
  - intros r Hr'. destruct (Hroot r Hr') as [->|?]; [exfalso|done].
    destruct (nv_root _ _ _ _ _ _ _ _ _ _ Hsh) as [(_ & He & _)|(v & Hrt & He & _)]; rewrite Hr' in He.
    + symmetry in He. apply (root_below t s s Hf Hr) in He. lia.
    + injection He as ->. assert (slot v < slot v); [|lia]. apply (nv_newer _ _ _ _ _ _ _ _ _ _ Hsh).
      rewrite (nv_split _ _ _ _ _ _ _ _ _ _ Hsh), Hrt. left.
Qed.

Section Step.
Context (t t' : Tower) (s : Slot) (rooted kept expired : list LandedVote) (w : LandedVote).
Context (Hf : on_one_fork t) (Hs : in_u64 s).
Context (Hsafe : safe_vote t s (vote_state t') rooted kept expired w).

Lemma step_tower : tower_ok (votes (vote_state t')).
Proof. eapply next_vote_tower_ok; [apply Hf|exact Hs|apply Hsafe]. Qed.

Lemma step_elem v : v ∈ votes (vote_state t') -> slot v = s \/ slot v ∈ anc s.
Proof.
  intros [?|(y & Hy & ->)]%(next_vote_elem _ _ _ _ _ _ _ _ _ _ (sv_shape _ _ _ _ _ _ _ Hsafe)); [by left|right].
  by apply (sv_kept _ _ _ _ _ _ _ Hsafe).
Qed.

Lemma step_split : votes (vote_state t) = rooted ++ kept ++ expired.
Proof. apply (nv_split _ _ _ _ _ _ _ _ _ _ (sv_shape _ _ _ _ _ _ _ Hsafe)). Qed.

Lemma step_newer v : v ∈ votes (vote_state t) -> slot v < s.
Proof. apply (nv_newer _ _ _ _ _ _ _ _ _ _ (sv_shape _ _ _ _ _ _ _ Hsafe)). Qed.

Lemma step_new : exists v, v ∈ votes (vote_state t') /\ slot v = s.
Proof.
  pose proof (sv_shape _ _ _ _ _ _ _ Hsafe) as []. exists (bump (zlength (kept ++ [w])) (Z.of_nat (length kept)) w).
  rewrite bump_slot. split; [|done]. rewrite nv_votes.
  apply (elem_of_lookup_imap_2 (fun i v => bump (zlength (kept ++ [w])) (Z.of_nat i) v) (kept ++ [w]) w (length kept)).
  by rewrite lookup_app_r, Nat.sub_diag by lia.
Qed.

(** The root stays, or is the oldest vote. *)
Lemma step_root :
  exists r r', root_slot (vote_state t) = Some r /\ root_slot (vote_state t') = Some r' /\ r' ∈ anc s /\
    (r' = r /\ rooted = [] \/ exists v, rooted = [v] /\ r' = slot v /\ r ∈ anc r').
Proof.
  destruct (of_root _ Hf) as (r & Hr & Hbelow). exists r.
  destruct (nv_root _ _ _ _ _ _ _ _ _ _ (sv_shape _ _ _ _ _ _ _ Hsafe)) as [(Hrt & He & _)|(v & Hrt & He & _)].
  - exists r. rewrite He. split; [done|]. split; [done|]. split; [|by left]. apply (sv_root _ _ _ _ _ _ _ Hsafe). congruence.
  - exists (slot v). split; [done|]. split; [done|]. split; [by apply (sv_root _ _ _ _ _ _ _ Hsafe)|].
    right. exists v. split; [done|]. split; [done|]. apply Hbelow. rewrite step_split, Hrt. left.
Qed.

Lemma step_on_one_fork : on_one_fork t'.
Proof.
  destruct step_root as (r & r' & Hr & Hr' & Hrs & Hcase). destruct (of_root _ Hf) as (r0 & Hr0 & Hbelow).
  rewrite Hr in Hr0. injection Hr0 as <-. split; [apply step_tower| |].
  - exists r'. split; [done|].
    intros v [->|(y & Hy & ->)]%(next_vote_elem _ _ _ _ _ _ _ _ _ _ (sv_shape _ _ _ _ _ _ _ Hsafe)); [done|].
    assert (Hin : y ∈ votes (vote_state t)) by (rewrite step_split; in_app).
    destruct Hcase as [[-> _]|(u & Hrt & -> & _)]; [by apply Hbelow|].
    apply (of_chain _ Hf); [rewrite step_split, Hrt; left|done|].
    eapply next_vote_rooted_lt; [apply Hf|exact Hs|apply Hsafe|rewrite Hrt; left|done].
  - pose proof (next_vote_elem _ _ _ _ _ _ _ _ _ _ (sv_shape _ _ _ _ _ _ _ Hsafe)) as Hel.
    intros v u [Hv|(y & Hy & Hv)]%Hel [Hu|(z & Hz & Hu)]%Hel Hlt.
    + lia.
    + assert (slot z < s) by (apply step_newer; rewrite step_split; in_app). lia.
    + rewrite Hu, Hv. by apply (sv_kept _ _ _ _ _ _ _ Hsafe).
    + rewrite Hu, Hv in *. apply (of_chain _ Hf); [rewrite step_split; in_app..|done].
Qed.

Lemma step_settled x : settled t x -> settled t' x /\ (slot x ∈ anc s \/ last_locked_out_slot (lockout x) < s).
Proof.
  destruct step_new as (vn & Hvn & Hvs). destruct step_root as (r & r' & Hr & Hr' & Hrs & Hcase).
  intros [(v & Hv & Hlt)|[(v & Hv & Hsl & Hle)|(r0 & Hr0 & Hx)]].
  - apply step_newer in Hv. split; [left; exists vn|right]; [split; [done|lia]|lia].
  - rewrite step_split in Hv. apply elem_of_app in Hv as [Hv|[Hv|Hv]%elem_of_app].
    + destruct Hcase as [[_ Hrt]|(u & Hrt & -> & _)]; rewrite Hrt in Hv; [by apply not_elem_of_nil in Hv|].
      apply list_elem_of_singleton in Hv as ->. rewrite <-Hsl. split; [|by left]. right; right. exists (slot u). auto.
    + pose proof (sv_kept _ _ _ _ _ _ _ Hsafe v Hv) as Ha. rewrite <-Hsl. split; [|by left].
      right; left. pose proof (sv_shape _ _ _ _ _ _ _ Hsafe) as Hsh. pose proof Hsh as []. rewrite nv_votes.
      apply list_elem_of_lookup in Hv as (i & Hi). exists (bump (zlength (kept ++ [w])) (Z.of_nat i) v).
      split; [|rewrite bump_slot; split; [done|etrans; [exact Hle|]; apply bump_locked]].
      * apply (elem_of_lookup_imap_2 (fun i v => bump (zlength (kept ++ [w])) (Z.of_nat i) v) (kept ++ [w]) v i).
        by apply lookup_app_l_Some.
      * pose proof (tower_conf _ (next_vote_kept_ok _ _ _ _ _ _ _ _ _ _ (of_tower _ Hf) Hsh)) as Hc.
        rewrite Forall_forall in Hc. apply Hc. by eapply list_elem_of_lookup_2.
    + pose proof (nv_expired _ _ _ _ _ _ _ _ _ _ (sv_shape _ _ _ _ _ _ _ Hsafe) v Hv) as Hexp.
      split; [left; exists vn|right]; [split; [done|lia]|lia].
  - rewrite Hr in Hr0. injection Hr0 as <-. assert (Hx' : slot x = r' \/ slot x ∈ anc r').
    { destruct Hcase as [[-> _]|(v & _ & _ & Ha)]; [done|right]. destruct Hx as [->|Hx]; [done|by eapply anc_trans]. }
    split; [right; right; by exists r'|left]. destruct Hx' as [->|?]; [done|by eapply anc_trans].
Qed.

Lemma step_root_settled r0 : root_settled t r0 -> root_settled t' r0 /\ r0 ∈ anc s.
Proof.
  intros (r1 & Hr1 & Hor). destruct step_root as (r & r' & Hr & Hr' & Hrs & Hcase).
  rewrite Hr in Hr1. injection Hr1 as <-. assert (Hx : r0 = r' \/ r0 ∈ anc r').
  { destruct Hcase as [[-> _]|(v & _ & _ & Ha)]; [done|right]. destruct Hor as [->|?]; [done|by eapply anc_trans]. }
  split; [by exists r'|]. destruct Hx as [->|?]; [done|by eapply anc_trans].
Qed.
End Step.

Definition past_settled (past : list Tower) (t : Tower) : Prop :=
  on_one_fork t /\ forall t1, t1 ∈ t :: past ->
    (forall w, w ∈ votes (vote_state t1) -> settled t w) /\
    (forall r, root_slot (vote_state t1) = Some r -> root_settled t r).

Lemma settled_self t : on_one_fork t -> past_settled [] t.
Proof.
  intros Hf. split; [done|]. intros t1 ->%list_elem_of_singleton. split.
  - intros w Hw. right; left. by exists w.
  - intros r Hr. exists r. auto.
Qed.

Lemma run_settled t0 past t : on_one_fork t0 -> voting_run t0 past t -> past_settled past t.
Proof.
  intros H0. induction 1 as [|past t now s h t' nr _ [Hf IH] Hs Hlock Hrec]; [by apply settled_self|].
  destruct (of_root _ Hf) as (r & Hr & _).
  pose proof (proj1 (proj1 (is_locked_out_false _ _ _) Hlock)) as Hrecent.
  destruct (record_bank_vote_ok now s h t r Hr (is_recent_newer _ _ Hrecent)) as (t2 & ts & Hrun & Hvs & _).
  cbn zeta in Hrun. rewrite Hrec in Hrun. injection Hrun as -> _.
  destruct (safe_vote_shape t s Hf Hlock) as (rooted & kept & expired & w & Hsafe). rewrite <-Hvs in Hsafe.
  assert (Hf' : on_one_fork t2) by (by eapply step_on_one_fork). split; [done|].
  destruct (settled_self t2 Hf') as [_ Hself].
  intros t1 [->|Ht1]%elem_of_cons; [by apply Hself; left|]. destruct (IH t1 Ht1) as [H1 H2]. split.
  - intros x Hx. by eapply step_settled; [..|by apply H1].
  - intros r1 Hr1. by eapply step_root_settled; [..|by apply H2].
Qed.

Lemma open_slot_on_fork t0 past t s :
  on_one_fork t0 -> voting_run t0 past t -> is_locked_out t s (anc s) = Ok false ->
  forall t1, t1 ∈ t :: past ->
    (forall w, w ∈ votes (vote_state t1) -> s <= last_locked_out_slot (lockout w) -> slot w ∈ anc s) /\
    (forall r, root_slot (vote_state t1) = Some r -> r ∈ anc s).
Proof.
  intros H0 Hrun Hlock t1 Ht1. destruct (run_settled t0 past t H0 Hrun) as [Hf Hall]. destruct (Hall t1 Ht1) as [H1 H2].
  destruct (safe_vote_shape t s Hf Hlock) as (rooted & kept & expired & wn & Hsafe).
  assert (Hsafe' : safe_vote t s (vote_state (with_vote_state (next_state (vote_state t) s) t)) rooted kept expired wn) by exact Hsafe.
  split.
  - intros w Hw Hle. destruct (step_settled _ _ _ _ _ _ _ Hf Hsafe' w (H1 w Hw)) as [_ [?|?]]; [done|lia].
  - intros r Hr. by apply (step_root_settled _ _ _ _ _ _ _ Hf Hsafe' r (H2 r Hr)).
Qed.

(** C5: lockouts are respected.  Along every run in which a validator votes only
    for slots that [is_locked_out] does not reject, each slot it may vote for
    next descends from every vote of every tower it ever had whose lockout, as
    it was then, has not run out, and descends from every slot it ever rooted. *)
Theorem lockouts_respected t0 past t s :
  on_one_fork t0 -> voting_run t0 past t -> is_locked_out t s (anc s) = Ok false ->
  forall t1, t1 ∈ t :: past ->
    (forall w, w ∈ votes (vote_state t1) -> s <= last_locked_out_slot (lockout w) -> slot w ∈ anc s) /\
    (forall r, root_slot (vote_state t1) = Some r -> r ∈ anc s).
Proof. apply open_slot_on_fork. Qed.
End Forks.

(** ** Lockouts expire *)
Lemma pop_back_while_all {A} (p : A -> bool) l : Forall (fun x => p x = true) l -> pop_back_while p l = [].
Proof.
  intros Hl. destruct (pop_back_while_split p l) as (tl & Hs & _ & Hlast).
  destruct (pop_back_while p l) as [|x k _] using rev_ind; [done|]. rewrite last_snoc in Hlast.
  rewrite Hs, !Forall_app, Forall_singleton in Hl. destruct Hl as [[_ Hx] _]. congruence.
Qed.

Lemma expired_next_state vs s :
  Forall (fun v => last_locked_out_slot (lockout v) < s) (votes vs) -> (forall v, v ∈ votes vs -> slot v < s) ->
  votes (next_state vs s) = [mkLandedVote (compute_vote_latency s 0) (lockout_new s)] /\
  root_slot (next_state vs s) = root_slot vs.
Proof.
  intros Hexp Hnew. unfold process_next_vote_slot. rewrite last_voted_slot_last.
  assert (match slot <$> last (votes vs) with Some l => s <=? l | None => false end = false) as ->.
  { destruct (last (votes vs)) as [v|] eqn:El; [|done]. cbn. apply Z.leb_gt, Hnew. by apply last_Some_elem_of. }
  unfold pop_expired_votes. rewrite pop_back_while_all; [done|]. eapply Forall_impl; [exact Hexp|].
  intros v Hv. cbn in Hv. unfold is_locked_out_at_slot. rewrite (proj2 (Z.leb_gt _ _) Hv). done.
Qed.

Lemma locked_out_bound v :
  vote_ok v -> last_locked_out_slot (lockout v) <= slot v + 2 ^ Z.of_nat MAX_LOCKOUT_HISTORY.
Proof.
  intros (_ & Hc1 & Hc2). unfold last_locked_out_slot, sat_add.
  change (lo_slot (lockout v)) with (slot v). unfold confirmation_count, MAX_LOCKOUT_HISTORY in *.
  rewrite lockout_of_pow by lia. pose proof (Z.pow_le_mono_r 2 (lo_confirmation_count (lockout v)) (Z.of_nat 31)). lia.
Qed.

(** C29: no lockout lasts.  Whatever a validator voted for, every slot on a fork of
    its root that is more than [2^31] slots after all its votes is open: the
    lockout check passes, recording the vote succeeds, and the tower then holds
    just that vote. *)
Theorem lockouts_expire t r s ancestors now h :
  tower_ok (votes (vote_state t)) -> root_slot (vote_state t) = Some r -> r < s -> r ∈ ancestors ->
  (forall v, v ∈ votes (vote_state t) -> slot v + 2 ^ Z.of_nat MAX_LOCKOUT_HISTORY < s) ->
  is_locked_out t s ancestors = Ok false /\
  exists t', record_bank_vote now s h t = Ok (t', None) /\
    tower_slots t' = [s] /\ root_slot (vote_state t') = Some r /\ tx_last_voted_slot_hash (last_vote t') = Some (s, h).
Proof.
  intros Hok Hr Hrs Hra Hfar. pose proof (tower_conf _ Hok) as Hc. rewrite Forall_forall in Hc.
  assert (Hnew : forall v, v ∈ votes (vote_state t) -> slot v < s).
  { intros v Hv. specialize (Hfar v Hv). pose proof (Z.pow_nonneg 2 (Z.of_nat MAX_LOCKOUT_HISTORY)). lia. }
  destruct (expired_next_state (vote_state t) s) as [Hvotes Hroot]; [|done|].
  { apply Forall_forall. intros v Hv. pose proof (locked_out_bound v (Hc v Hv)). specialize (Hfar v Hv). lia. }
  assert (Hrec : is_recent t s = true).
  { apply is_recent_spec. rewrite last_voted_slot_last. destruct (last (votes (vote_state t))) as [v|] eqn:El; cbn.
    - by apply Hnew, last_Some_elem_of.
    - by intros ? [= <-]%(eq_trans (eq_sym Hr)). }
  split.
  - apply is_locked_out_false. split; [done|]. rewrite Hvotes, Hroot. split.
    + intros v ->%list_elem_of_singleton. by left.
    + intros r' Hr'. right. congruence.
  - destruct (record_bank_vote_ok now s h t r Hr (is_recent_newer _ _ Hrec)) as (t' & ts & Hrun & Hvs & Hlv & _).
    cbn zeta in *. exists t'. rewrite Hrun, Hroot, Hr. cbn [mbind option_bind]. rewrite Z.eqb_refl. split; [done|].
    unfold tower_slots, tower. rewrite Hvs, Hvotes, Hroot, Hlv. split; [done|]. split; [done|].
    unfold tx_last_voted_slot_hash. cbn. by rewrite Hvotes.
Qed.

(** ** A small run: votes for slots 1 and 2 of a chain, then for slot 3 *)
Definition sample_anc (s : Slot) : gset Slot :=
  if s <=? 5 then list_to_set (seqZ 0 s) else if s =? 10 then list_to_set (seqZ 0 3) else ∅.

Lemma elem_of_sample_anc a b : a ∈ sample_anc b -> 0 <= a < b /\ (b <= 5 \/ a <= 2).
Proof.
  unfold sample_anc. destruct (Z.leb_spec b 5); [|destruct (Z.eqb_spec b 10)].
  - rewrite elem_of_list_to_set, elem_of_seqZ. lia.
  - rewrite elem_of_list_to_set, elem_of_seqZ. lia.
  - by intros []%not_elem_of_empty.
Qed.
Lemma sample_anc_lt a b : a ∈ sample_anc b -> a < b.
Proof. intros ?%elem_of_sample_anc. lia. Qed.
Lemma sample_anc_trans a b c : a ∈ sample_anc b -> b ∈ sample_anc c -> a ∈ sample_anc c.
Proof.
  intros [Ha _]%elem_of_sample_anc Hb. pose proof (elem_of_sample_anc _ _ Hb) as [Hbc Hor]. revert Hb.
  unfold sample_anc. destruct (Z.leb_spec c 5); [|destruct (Z.eqb_spec c 10)].
  - rewrite !elem_of_list_to_set, !elem_of_seqZ. lia.
  - rewrite !elem_of_list_to_set, !elem_of_seqZ. lia.
  - done.
Qed.

Definition voted (s : Slot) (t : Tower) : Tower :=
  match record_bank_vote 0 s 7 t with Ok (t', _) => t' | _ => t end.
Definition voted1 : Tower := voted 1 tower_default.
Definition voted2 : Tower := voted 2 voted1.

Lemma sample_start : on_one_fork sample_anc tower_default.
Proof.
  split; [apply tower_ok_nil| |by intros v w []%not_elem_of_nil].
  exists 0. split; [done|]. by intros v []%not_elem_of_nil.
Qed.

Lemma sample_voting : voting_run sample_anc tower_default [voted1; tower_default] voted2.
Proof.
  apply (voting_vote _ _ _ _ 0 2 7 _ None).
  - apply (voting_vote _ _ _ _ 0 1 7 _ None); [constructor|unfold in_u64, u64_max; lia|by vm_compute|by vm_compute].
  - unfold in_u64, u64_max. lia.
  - by vm_compute.
  - by vm_compute.
Qed.

Lemma lockouts_respected_witness : (1 : Slot) ∈ sample_anc 3.
Proof.
  destruct (lockouts_respected sample_anc sample_anc_lt sample_anc_trans tower_default [voted1; tower_default] voted2 3)
    with (t1 := voted1) as [H _].
  - exact sample_start.
  - exact sample_voting.
  - vm_compute. reflexivity.
  - right. left.
  - apply (H (mkLandedVote 0 (lockout_new 1))); [vm_compute; left|vm_compute; discriminate].
Defined.

Lemma lockouts_expire_witness :
  is_locked_out voted2 2147483660 {[0]} = Ok false.
Proof.
  destruct (lockouts_expire voted2 0 2147483660 {[0]} 0 7) as [H _].
  - apply (of_tower _ _ (proj1 (run_settled sample_anc sample_anc_lt sample_anc_trans _ _ _ sample_start sample_voting))).
  - vm_compute. reflexivity.
  - lia.
  - apply elem_of_singleton. reflexivity.
  - intros v Hv. assert (Hs : slot v ∈ tower_slots voted2) by (apply list_elem_of_fmap_2; exact Hv).
    change (tower_slots voted2) with [1; 2] in Hs. change (2 ^ Z.of_nat MAX_LOCKOUT_HISTORY) with 2147483648.
    apply elem_of_cons in Hs as [->|Hs%list_elem_of_singleton]; lia.
  - exact H.
Defined.
