(* ===== verification/VoteLockouts.v ===== *)
(** * The votes that landed on a bank

    [Tower::collect_vote_lockouts] reads the vote accounts of a bank: it adds up
    the stake that is locked out on each slot, keeps the lockout intervals for
    switching proofs and records the latest votes
    ([fdp-solana/core/src/consensus.rs]). *)

From S2P Require Import Prelude InstructionError AuthorizedVoters VoteState VoteProcess Credits Tower VoteSafety ForkChoice FrozenVotes ValidatorTower TowerSafety.

(** The vote accounts of a bank, in the order of the hash map's iteration; the
    vote state is [None] where the account's data is not one. *)
Abbreviation VoteAccounts := (list (Pubkey * (Stake * option VoteState))).

(** Keyed by the end of the interval *)
Notation LockoutIntervals := (gmap Slot (list (Slot * Pubkey))).

Record ComputedBankState := mkComputedBankState {
  voted_stakes : VotedStakes;
  cb_total_stake : Stake;
  cb_fork_stake : Stake;
  cb_lockout_intervals : LockoutIntervals;
  cb_my_latest_landed_vote : option Slot
}.

Definition add_interval (key : Pubkey) (intervals : LockoutIntervals) (vote : LandedVote) : LockoutIntervals :=
  let e := last_locked_out_slot (lockout vote) in
  <[e := default [] (intervals !! e) ++ [(slot vote, key)]]> intervals.

(** [*voted_stakes.entry(slot).or_default() += voted_stake] *)
Definition entry_add (voted_stake : Stake) (stakes : VotedStakes) (s : Slot) : VotedStakes :=
  <[s := wrap64 (default 0 (stakes !! s) + voted_stake)]> stakes.

Definition update_ancestor_voted_stakes (stakes : VotedStakes) (voted_slot : Slot) (voted_stake : Stake)
    (ancestors : gmap Slot (gset Slot)) : VotedStakes :=
  match ancestors !! voted_slot with
  | Some vote_slot_ancestors =>
      foldl (entry_add voted_stake) (entry_add voted_stake stakes voted_slot) (elements vote_slot_ancestors)
  | None => stakes
  end.

(** [voted_stakes.entry(slot).or_default()] *)
Definition entry_or_default (stakes : VotedStakes) (s : Slot) : VotedStakes :=
  <[s := default 0 (stakes !! s)]> stakes.

Definition populate_ancestor_voted_stakes (stakes : VotedStakes) (vote_slots : list Slot)
    (ancestors : gmap Slot (gset Slot)) : VotedStakes :=
  foldl (fun stakes vote_slot =>
    match ancestors !! vote_slot with
    | Some slot_ancestors => foldl entry_or_default (entry_or_default stakes vote_slot) (elements slot_ancestors)
    | None => stakes
    end) stakes vote_slots.

Section Collect.
Context (vote_account_pubkey : Pubkey) (bank_slot : Slot) (ancestors : gmap Slot (gset Slot))
  (get_frozen_hash : Slot -> option Hash).

Record CollectState := mkCollectState {
  cl_vote_slots : gset Slot;
  cl_voted_stakes : VotedStakes;
  cl_total_stake : Stake;
  cl_intervals : LockoutIntervals;
  cl_my_latest : option Slot;
  cl_latest_votes : LatestValidatorVotesForFrozenBanks
}.

(** The body of the loop, for an account with stake and a vote state *)
Definition collect_vote_state (key : Pubkey) (voted_stake : Stake) (vs : VoteState) (st : CollectState)
    : fc CollectState :=
  let intervals := foldl (add_interval key) (cl_intervals st) (votes vs) in
  let my_latest := if key =? vote_account_pubkey then lo_slot <$> nth_recent_lockout vs 0 else cl_my_latest st in
  let start_root := root_slot vs in
  latest ←? match last_voted_slot vs with
            | Some s => r ←? check_add_vote key s (get_frozen_hash s) true (cl_latest_votes st); Ok r.1
            | None => Ok (cl_latest_votes st)
            end;
  let vs := process_slot_vote_unchecked vs bank_slot in
  let vote_slots := cl_vote_slots st ∪ list_to_set (slot <$> votes vs) in
  let vote_slots :=
    if bool_decide (start_root <> root_slot vs)
    then match start_root with Some root => {[root]} ∪ vote_slots | None => vote_slots end
    else vote_slots in
  let vote_slots := match root_slot vs with Some root => {[root]} ∪ vote_slots | None => vote_slots end in
  _ ←? rust_assert (bool_decide (lo_slot <$> nth_recent_lockout vs 0 = Some bank_slot));
  let stakes :=
    match nth_recent_lockout vs 1 with
    | Some vote => update_ancestor_voted_stakes (cl_voted_stakes st) (lo_slot vote) voted_stake ancestors
    | None => cl_voted_stakes st
    end in
  Ok (mkCollectState vote_slots stakes (wrap64 (cl_total_stake st + voted_stake)) intervals my_latest latest).

Fixpoint collect_accounts (accounts : VoteAccounts) (st : CollectState) : fc CollectState :=
  match accounts with
  | [] => Ok st
  | (key, (voted_stake, vs)) :: accounts =>
      if voted_stake =? 0 then collect_accounts accounts st
      else
        match vs with
        | None => collect_accounts accounts st
        | Some vs => st ←? collect_vote_state key voted_stake vs st; collect_accounts accounts st
        end
  end.

Definition collect_vote_lockouts (vote_accounts : VoteAccounts) (latest : LatestValidatorVotesForFrozenBanks)
    : fc (LatestValidatorVotesForFrozenBanks * ComputedBankState) :=
  st ←? collect_accounts vote_accounts (mkCollectState ∅ ∅ 0 ∅ None latest);
  let stakes := populate_ancestor_voted_stakes (cl_voted_stakes st) (elements (cl_vote_slots st)) ancestors in
  let fork_stake :=
    default 0 (bank_ancestors ← ancestors !! bank_slot;
               parent ← max_list_Z (elements bank_ancestors);
               stakes !! parent) in
  Ok (cl_latest_votes st,
      mkComputedBankState stakes (cl_total_stake st) fork_stake (cl_intervals st) (cl_my_latest st)).

(** ** What is collected *)

(** The accounts that count, with their stake and vote state. *)
Definition counted (accounts : VoteAccounts) : list (Pubkey * Stake * VoteState) :=
  '(key, (stake, vs)) ← accounts;
  if stake =? 0 then [] else match vs with Some vs => [(key, stake, vs)] | None => [] end.

(** The last vote that is still locked out at the bank's slot *)
Definition locked_vote (vs : VoteState) : option Slot :=
  slot <$> last (pop_back_while (fun v => negb (is_locked_out_at_slot (lockout v) bank_slot)) (votes vs)).

(** Whether a vote for [v] counts for [s] *)
Definition votes_for (v s : Slot) : bool :=
  match ancestors !! v with Some a => bool_decide (s = v \/ s ∈ a) | None => false end.

Definition stake_for (s : Slot) (a : Pubkey * Stake * VoteState) : Stake :=
  match locked_vote a.2 with Some v => if votes_for v s then a.1.2 else 0 | None => 0 end.
Definition sum_of {A} (f : A -> Z) (l : list A) : Z := foldr (fun a n => f a + n) 0 l.

(** The latest votes, as they are recorded *)
Definition landed_votes (accounts : list (Pubkey * Stake * VoteState)) : list seen :=
  '(key, _, vs) ← accounts;
  match last_voted_slot vs with Some s => [mkSeen key s (get_frozen_hash s) true] | None => [] end.

(** ** The stakes *)
Lemma entry_add_lookup stake m s x :
  default 0 (entry_add stake m s !! x) = if decide (s = x) then wrap64 (default 0 (m !! x) + stake) else default 0 (m !! x).
Proof.
  unfold entry_add. destruct (decide (s = x)) as [->|]; [by rewrite lookup_insert_eq|by rewrite lookup_insert_ne].
Qed.

Lemma entries_add_lookup stake l m x :
  NoDup l ->
  default 0 (foldl (entry_add stake) m l !! x) =
  if decide (x ∈ l) then wrap64 (default 0 (m !! x) + stake) else default 0 (m !! x).
Proof.
  intros Hnd. revert m. induction Hnd as [|s l Hs _ IH]; intros m; cbn [foldl].
  - by rewrite decide_False by apply not_elem_of_nil.
  - rewrite IH, entry_add_lookup. destruct (decide (s = x)) as [->|Hne].
    + by rewrite decide_False, decide_True by (done || left).
    + destruct (decide (x ∈ l)); [rewrite decide_True by (by right); done|].
      rewrite decide_False; [done|]. by intros [?|?]%elem_of_cons; [congruence|].
Qed.

Lemma update_ancestor_lookup m v stake x :
  (forall a, ancestors !! v = Some a -> v ∉ a) ->
  default 0 (update_ancestor_voted_stakes m v stake ancestors !! x) =
  if votes_for v x then wrap64 (default 0 (m !! x) + stake) else default 0 (m !! x).
Proof.
  intros Hself. unfold update_ancestor_voted_stakes, votes_for.
  destruct (ancestors !! v) as [a|] eqn:Ea; [|done]. specialize (Hself a eq_refl).
  rewrite entries_add_lookup by apply NoDup_elements. rewrite entry_add_lookup.
  destruct (decide (v = x)) as [->|Hne].
  - rewrite decide_False by (by rewrite elem_of_elements). by rewrite bool_decide_true by auto.
  - destruct (decide (x ∈ elements a)) as [Hx|Hx]; rewrite elem_of_elements in Hx.
    + by rewrite bool_decide_true by auto.
    + rewrite bool_decide_false; [done|]. by intros [?|?].
Qed.

Lemma or_default_lookup l m x : default 0 (foldl entry_or_default m l !! x) = default 0 (m !! x).
Proof.
  revert m. induction l as [|s l IH]; intros m; cbn [foldl]; [done|]. rewrite IH. unfold entry_or_default.
  destruct (decide (s = x)) as [->|]; [by rewrite lookup_insert_eq|by rewrite lookup_insert_ne].
Qed.

Lemma populate_lookup m l x : default 0 (populate_ancestor_voted_stakes m l ancestors !! x) = default 0 (m !! x).
Proof.
  unfold populate_ancestor_voted_stakes. revert m. induction l as [|v l IH]; intros m; cbn [foldl]; [done|].
  rewrite IH. destruct (ancestors !! v); [|done]. rewrite or_default_lookup. apply (or_default_lookup [v]).
Qed.

(** ** The simulated vote *)
Lemma recent_pushed vs kept w d pos :
  votes vs = imap (fun i v => bump d (Z.of_nat i) v) (kept ++ [w]) ->
  lo_slot <$> nth_recent_lockout vs pos =
  match pos with O => Some (slot w) | S pos => slot <$> kept !! (length kept - pos - 1)%nat end \/ (length kept < pos)%nat.
Proof.
  intros Hv. unfold nth_recent_lockout. rewrite Hv, length_imap, length_app, list_lookup_imap. cbn [length].
  destruct (Nat.ltb_spec pos (length kept + 1)); [left|right; lia]. destruct pos as [|pos].
  - rewrite lookup_app_r by lia. replace (length kept + 1 - 0 - 1 - length kept)%nat with 0%nat by lia. cbn.
    f_equal. apply bump_slot.
  - rewrite lookup_app_l by lia. replace (length kept + 1 - S pos - 1)%nat with (length kept - pos - 1)%nat by lia.
    destruct (kept !! _) as [x|]; [|done]. cbn. f_equal. apply (bump_slot d).
Qed.

Lemma pushed_last kept w d vs :
  votes vs = imap (fun i v => bump d (Z.of_nat i) v) (kept ++ [w]) ->
  lo_slot <$> nth_recent_lockout vs 0 = Some (slot w) /\ lo_slot <$> nth_recent_lockout vs 1 = slot <$> last kept.
Proof.
  intros Hv. destruct (recent_pushed vs kept w d 0 Hv) as [H0|]; [|lia]. split; [done|].
  destruct (recent_pushed vs kept w d 1 Hv) as [H1|Hlt].
  - rewrite H1, last_lookup. do 2 f_equal. lia.
  - destruct kept; [|cbn in Hlt; lia]. unfold nth_recent_lockout. by rewrite Hv.
Qed.

Lemma simulated_vote vs :
  tower_ok (votes vs) -> (forall v, v ∈ votes vs -> slot v < bank_slot) ->
  let vs' := process_slot_vote_unchecked vs bank_slot in
  lo_slot <$> nth_recent_lockout vs' 0 = Some bank_slot /\ lo_slot <$> nth_recent_lockout vs' 1 = locked_vote vs.
Proof.
  intros Hok Hnew. cbn zeta. unfold process_slot_vote_unchecked.
  assert (Hlast : match last_voted_slot vs with Some l => l < bank_slot | None => True end).
  { rewrite last_voted_slot_last. destruct (last (votes vs)) eqn:El; [|done]. cbn. by apply Hnew, last_Some_elem_of. }
  rewrite process_vote_unchecked_newer by done. cbn [fst]. unfold process_next_vote_slot.
  assert (match last_voted_slot vs with Some l => bank_slot <=? l | None => false end = false) as ->.
  { destruct (last_voted_slot vs); [by apply Z.leb_gt|done]. }
  unfold locked_vote. cbn [votes set_votes pop_expired_votes]. set (pop := pop_back_while _ (votes vs)).
  set (w := mkLandedVote _ (lockout_new bank_slot)).
  change (Some bank_slot) with (Some (slot w)).
  destruct (Nat.eqb_spec (length pop) MAX_LOCKOUT_HISTORY) as [Hfull|Hroom].
  - destruct pop as [|v rest]; [done|]. assert (Hl : last (v :: rest) = last rest).
    { destruct rest; [|done]. discriminate Hfull. }
    rewrite Hl. eapply pushed_last. done.
  - eapply pushed_last. done.
Qed.

(** ** The loop *)
Definition account_ok (a : Pubkey * Stake * VoteState) : Prop :=
  tower_ok (votes a.2) /\ (forall v, v ∈ votes a.2 -> slot v < bank_slot) /\ in_u64 a.1.2.

Definition has_interval (intervals : LockoutIntervals) (key : Pubkey) (s e : Slot) : Prop :=
  (s, key) ∈ default [] (intervals !! e).

Definition my_vote (l : list (Pubkey * Stake * VoteState)) (old : option Slot) : option Slot :=
  foldl (fun old a => if a.1.1 =? vote_account_pubkey then last_voted_slot a.2 else old) old l.

Definition in_range (st : CollectState) : Prop :=
  in_u64 (cl_total_stake st) /\ forall x, in_u64 (default 0 (cl_voted_stakes st !! x)).

Record collected (l : list (Pubkey * Stake * VoteState)) (st st' : CollectState) : Prop := {
  co_total : wrap64 (cl_total_stake st') = wrap64 (cl_total_stake st + sum_of (fun a => a.1.2) l);
  co_stakes : forall x, wrap64 (default 0 (cl_voted_stakes st' !! x)) =
    wrap64 (default 0 (cl_voted_stakes st !! x) + sum_of (stake_for x) l);
  co_intervals : forall key s e, has_interval (cl_intervals st') key s e <->
    has_interval (cl_intervals st) key s e \/
    exists a v, a ∈ l /\ a.1.1 = key /\ v ∈ votes a.2 /\ slot v = s /\ last_locked_out_slot (lockout v) = e;
  co_latest : run_events (ERecord <$> landed_votes l) (cl_latest_votes st) = Ok (cl_latest_votes st');
  co_mine : cl_my_latest st' = my_vote l (cl_my_latest st);
  co_range : in_range st -> in_range st'
}.

Lemma add_intervals_elem key l iv k s e :
  has_interval (foldl (add_interval key) iv l) k s e <->
  has_interval iv k s e \/ (key = k /\ exists v, v ∈ l /\ slot v = s /\ last_locked_out_slot (lockout v) = e).
Proof.
  revert iv. induction l as [|v l IH]; intros iv; cbn [foldl].
  - split; [by left|]. intros [?|(_ & v & []%not_elem_of_nil & _)]; done.
  - rewrite IH. assert (Hadd : has_interval (add_interval key iv v) k s e <->
      has_interval iv k s e \/ (key = k /\ slot v = s /\ last_locked_out_slot (lockout v) = e)).
    { unfold has_interval, add_interval. destruct (decide (last_locked_out_slot (lockout v) = e)) as [<-|Hne].
      - rewrite lookup_insert_eq. cbn. rewrite elem_of_app, list_elem_of_singleton. naive_solver.
      - rewrite lookup_insert_ne by done. naive_solver. }
    rewrite Hadd. setoid_rewrite elem_of_cons. naive_solver.
Qed.

Lemma nth_recent_0 vs : lo_slot <$> nth_recent_lockout vs 0 = last_voted_slot vs.
Proof.
  unfold nth_recent_lockout, last_voted_slot, last_lockout. rewrite last_lookup.
  destruct (Nat.ltb_spec 0 (length (votes vs))) as [Hlt|Hge].
  - by replace (length (votes vs) - 0 - 1)%nat with (pred (length (votes vs))) by lia.
  - destruct (votes vs); [done|cbn in Hge; lia].
Qed.

Lemma landed_votes_cons key stake vs l :
  landed_votes ((key, stake, vs) :: l) =
  match last_voted_slot vs with Some s => [mkSeen key s (get_frozen_hash s) true] | None => [] end ++ landed_votes l.
Proof. done. Qed.

Lemma run_events_app l1 l2 self :
  run_events (l1 ++ l2) self = (self ←? run_events l1 self; run_events l2 self).
Proof.
  revert self. induction l1 as [|e l1 IH]; intros self; cbn; [done|]. destruct (run_event e self); cbn; [apply IH|done|done].
Qed.

Lemma collect_vote_state_ok key stake vs st :
  (forall v a, ancestors !! v = Some a -> v ∉ a) -> account_ok (key, stake, vs) -> dirty_ok (cl_latest_votes st) ->
  exists st', collect_vote_state key stake vs st = Ok st' /\ dirty_ok (cl_latest_votes st') /\
    collected [(key, stake, vs)] st st'.
Proof.
  intros Hanc (Hok & Hnew & _) Hd. cbn in Hok, Hnew. unfold collect_vote_state.
  destruct (simulated_vote vs Hok Hnew) as [H0 H1]. rewrite (nth_recent_0 vs).
  assert (Hlatest : exists latest,
    match last_voted_slot vs with
    | Some s => r ←? check_add_vote key s (get_frozen_hash s) true (cl_latest_votes st); Ok r.1
    | None => Ok (cl_latest_votes st)
    end = Ok latest /\ dirty_ok latest /\
    run_events (ERecord <$> landed_votes [(key, stake, vs)]) (cl_latest_votes st) = Ok latest).
  { rewrite landed_votes_cons. destruct (last_voted_slot vs) as [s|]; cbn; [|by eexists].
    destruct (check_add_vote_ok (mkSeen key s (get_frozen_hash s) true) _ Hd) as (self' & r & Hrun & Hm & Hdi & _).
    cbn in Hrun. rewrite Hrun. cbn. eexists. split; [done|]. split; [by eapply dirty_ok_step|done]. }
  destruct Hlatest as (latest & -> & Hd' & Hrun). cbn [obind].
  rewrite H0. rewrite bool_decide_true by done. cbn [rust_assert obind]. eexists. split; [reflexivity|].
  split; [done|]. split; cbn [cl_total_stake cl_voted_stakes cl_intervals cl_latest_votes cl_my_latest].
  - cbn. rewrite Z.add_0_r. apply wrap64_small, wrap64_range.
  - intros x. unfold stake_for. cbn. rewrite <-H1. rewrite Z.add_0_r. destruct (nth_recent_lockout _ 1) as [v|]; cbn.
    + rewrite update_ancestor_lookup by (intros a; apply Hanc). destruct (votes_for (lo_slot v) x).
      * apply wrap64_small, wrap64_range.
      * by rewrite Z.add_0_r.
    + by rewrite Z.add_0_r.
  - intros k s e. rewrite add_intervals_elem. f_equiv. split.
    + intros (<- & v & Hv & Hs & He). exists (key, stake, vs), v. split; [by left|]. done.
    + intros (a & v & ->%list_elem_of_singleton & <- & Hv & Hs & He). split; [done|]. by exists v.
  - done.
  - done.
  - intros [_ Hr]. split; [apply wrap64_range|]. intros x. cbn. destruct (nth_recent_lockout _ 1); [|apply Hr].
    rewrite update_ancestor_lookup by (intros a; apply Hanc). case_match; [apply wrap64_range|apply Hr].
Qed.

Lemma collected_trans l1 l2 st1 st2 st3 :
  collected l1 st1 st2 -> collected l2 st2 st3 -> collected (l1 ++ l2) st1 st3.
Proof.
  intros [T1 S1 I1 L1 M1 R1] [T2 S2 I2 L2 M2 R2].
  assert (Hsum : forall f, sum_of f (l1 ++ l2) = sum_of f l1 + sum_of f l2).
  { intros f. clear. induction l1; cbn; [done|]. unfold sum_of in *. lia. }
  split.
  - rewrite T2, Hsum, <-wrap64_add_l, T1, wrap64_add_l. f_equal. lia.
  - intros x. rewrite S2, Hsum, <-wrap64_add_l, S1, wrap64_add_l. f_equal. lia.
  - intros k s e. rewrite I2, I1. setoid_rewrite elem_of_app. naive_solver.
  - unfold landed_votes in *. rewrite bind_app, fmap_app, run_events_app, L1. cbn. apply L2.
  - rewrite M2, M1. unfold my_vote. by rewrite foldl_app.
  - auto.
Qed.

Lemma collect_accounts_ok accounts st :
  (forall v a, ancestors !! v = Some a -> v ∉ a) -> Forall account_ok (counted accounts) -> dirty_ok (cl_latest_votes st) ->
  exists st', collect_accounts accounts st = Ok st' /\ dirty_ok (cl_latest_votes st') /\ collected (counted accounts) st st'.
Proof.
  intros Hanc. revert st. induction accounts as [|[key [stake vs]] accounts IH]; intros st Hall Hd.
  - exists st. split; [done|]. split; [done|]. split; cbn; try done.
    + by rewrite Z.add_0_r.
    + intros x. by rewrite Z.add_0_r.
    + intros k s e. split; [by left|]. intros [?|(a & v & []%not_elem_of_nil & _)]; done.
  - unfold counted in Hall. cbn [mbind list_bind] in Hall. apply Forall_app in Hall as [Ha Hall].
    change (counted ((key, (stake, vs)) :: accounts)) with
      ((if stake =? 0 then [] else match vs with Some vs => [(key, stake, vs)] | None => [] end) ++ counted accounts).
    cbn [collect_accounts]. destruct (stake =? 0); [by apply IH|]. destruct vs as [vs|]; [|by apply IH].
    rewrite Forall_singleton in Ha. destruct (collect_vote_state_ok key stake vs st Hanc Ha Hd) as (st1 & -> & Hd1 & Hc1).
    cbn [obind]. destruct (IH st1 Hall Hd1) as (st' & Hrun & Hd' & Hc). exists st'. split; [done|]. split; [done|].
    by eapply collected_trans.
Qed.

(** The stake on a slot: that of the accounts whose last vote that is still
    locked out at the bank is for the slot or one of its descendants. *)
Definition stake_on (accounts : VoteAccounts) (s : Slot) : Stake := sum_of (stake_for s) (counted accounts).

Lemma sum_of_nonneg {A} (f : A -> Z) l : Forall (fun a => 0 <= f a) l -> 0 <= sum_of f l.
Proof. induction 1; cbn; [done|]. unfold sum_of in *. lia. Qed.
Lemma sum_of_le {A} (f g : A -> Z) l : Forall (fun a => f a <= g a) l -> sum_of f l <= sum_of g l.
Proof. induction 1; cbn; [done|]. unfold sum_of in *. lia. Qed.

(** C25: reading the vote accounts of a bank never panics if no account voted for
    the bank or a later slot, and is exact as long as the stake of all counted
    accounts fits in 64 bits: the total is their stake, the stake on each slot is
    that of the accounts whose last vote that is still locked out is for the slot
    or a descendant, the fork's stake is that on the bank's parent, the lockout
    intervals are those of all their votes, and their latest votes are recorded
    one by one. *)
Theorem collect_vote_lockouts_exact accounts latest :
  (forall v a, ancestors !! v = Some a -> v ∉ a) -> Forall account_ok (counted accounts) -> dirty_ok latest ->
  sum_of (fun a => a.1.2) (counted accounts) <= u64_max ->
  exists latest' st, collect_vote_lockouts accounts latest = Ok (latest', st) /\
    cb_total_stake st = sum_of (fun a => a.1.2) (counted accounts) /\
    (forall s, default 0 (voted_stakes st !! s) = stake_on accounts s) /\
    cb_fork_stake st = default 0 (a ← ancestors !! bank_slot; p ← max_list_Z (elements a); Some (stake_on accounts p)) /\
    (forall key s e, has_interval (cb_lockout_intervals st) key s e <->
       exists a v, a ∈ counted accounts /\ a.1.1 = key /\ v ∈ votes a.2 /\ slot v = s /\ last_locked_out_slot (lockout v) = e) /\
    cb_my_latest_landed_vote st = my_vote (counted accounts) None /\
    run_events (ERecord <$> landed_votes (counted accounts)) latest = Ok latest'.
Proof.
  intros Hanc Hall Hd Hmax. unfold collect_vote_lockouts.
  destruct (collect_accounts_ok accounts (mkCollectState ∅ ∅ 0 ∅ None latest) Hanc Hall Hd) as (st & -> & _ & Hc).
  cbn [obind]. destruct Hc as [T S I L M R].
  cbn [cl_total_stake cl_voted_stakes cl_intervals cl_latest_votes cl_my_latest] in *.
  assert (Hz : in_u64 0) by (unfold in_u64, u64_max; lia).
  destruct R as [RT RS]; [split; [exact Hz|]; intros x; cbn; by rewrite lookup_empty|].
  rewrite Forall_forall in Hall. set (l := counted accounts) in *.
  assert (Hst : forall x, 0 <= sum_of (stake_for x) l <= u64_max).
  { intros x. split.
    - apply sum_of_nonneg, Forall_forall. intros a Ha. destruct (Hall a Ha) as (_ & _ & [? _]).
      unfold stake_for. repeat case_match; lia.
    - etrans; [|exact Hmax]. apply sum_of_le, Forall_forall. intros a Ha. destruct (Hall a Ha) as (_ & _ & [? _]).
      unfold stake_for. repeat case_match; lia. }
  assert (Hstake : forall x, default 0 (populate_ancestor_voted_stakes (cl_voted_stakes st) (elements (cl_vote_slots st)) ancestors !! x) =
    stake_on accounts x).
  { intros x. rewrite populate_lookup. rewrite <-(wrap64_small _ (RS x)), S, lookup_empty. cbn.
    apply wrap64_small. apply Hst. }
  eexists _, _. split; [reflexivity|]. cbn. split; [|split; [done|split; [|split; [|done]]]].
  - rewrite <-(wrap64_small _ RT), T. apply wrap64_small. split; [|done].
    apply sum_of_nonneg, Forall_forall. intros a Ha. by destruct (Hall a Ha) as (_ & _ & [? _]).
  - destruct (ancestors !! bank_slot) as [a|]; [|done]. cbn. destruct (max_list_Z (elements a)) as [p|]; [|done]. cbn.
    apply Hstake.
  - intros k s e. rewrite I. unfold has_interval. rewrite lookup_empty. cbn. rewrite elem_of_nil. naive_solver.
Qed.
End Collect.

(** ** A bank with two voters *)
Definition sample_ancestors : gmap Slot (gset Slot) := {[5 := {[0; 1; 2]}; 2 := {[0; 1]}; 1 := {[0]}; 0 := ∅]}.
Definition sample_vote (s : Slot) : VoteState := set_votes vote_state_default [mkLandedVote 0 (new_with_confirmation_count s 2)].
Definition sample_accounts : VoteAccounts :=
  [(1, (30, Some (sample_vote 2))); (2, (0, Some (sample_vote 2))); (3, (10, Some (sample_vote 1))); (4, (7, None))].

Lemma sample_vote_ok key stake s : 0 <= s < 5 -> in_u64 stake -> account_ok 5 (key, stake, sample_vote s).
Proof.
  intros Hs Hst. split; [|split; [|exact Hst]]; cbn.
  - split; [|repeat constructor]. constructor; [|constructor].
    unfold vote_ok, slot, confirmation_count, in_u64, u64_max, MAX_LOCKOUT_HISTORY. cbn. lia.
  - intros v ->%list_elem_of_singleton. cbn. lia.
Qed.

Lemma collect_vote_lockouts_exact_witness :
  exists latest' st, collect_vote_lockouts 1 5 sample_ancestors (fun s => Some (10 * s)) sample_accounts latest_votes_default = Ok (latest', st) /\
    cb_fork_stake st = 30.
Proof.
  destruct (collect_vote_lockouts_exact 1 5 sample_ancestors (fun s => Some (10 * s)) sample_accounts latest_votes_default)
    as (latest' & st & Hrun & _ & _ & Hfork & _).
  - intros v a Ha. unfold sample_ancestors in Ha.
    repeat (apply lookup_insert_Some in Ha as [[<- <-]|[_ Ha]]; [apply (bool_decide_eq_true_1 (_ ∉ _)); vm_compute; reflexivity|]).
    apply lookup_singleton_Some in Ha as [<- <-]. apply not_elem_of_empty.
  - unfold sample_accounts, counted. cbn.
    repeat (apply Forall_cons; split; [apply sample_vote_ok; [lia|unfold in_u64, u64_max; lia]|]). constructor.
  - intros pk s hs Hs. discriminate Hs.
  - vm_compute. discriminate.
  - exists latest', st. split; [exact Hrun|]. rewrite Hfork. vm_compute. reflexivity.
Defined.
