(* ===== verification/ProgressMap.v ===== *)
(** * Progress of the forks

    [ProgressMap] holds what the replay stage knows of each slot: the statistics
    of its votes and how far the validator's own blocks have spread
    ([fdp-solana/core/src/consensus/progress_map.rs]).  The propagation status
    is updated by [update_fork_propagated_threshold_from_votes]
    ([fdp-solana/core/src/replay_stage.rs]), which walks back over the
    validator's own leader slots. *)

From S2P Require Import Prelude InstructionError AuthorizedVoters VoteState VoteProcess Credits Tower VoteSafety ForkChoice FrozenVotes ValidatorTower TowerSafety VoteLockouts.

(** ** Banks

    What is read of a bank.  [bk_epoch_stakes] is the entry of its epoch stakes
    for its own epoch. *)
Record BankEpochStakes := mkBankEpochStakes {
  es_vote_accounts : gmap Pubkey Stake;
  es_node_accounts : gmap Pubkey (list Pubkey);
  es_total_stake : Stake
}.
Record Bank := mkBank {
  bk_slot : Slot;
  bk_hash : Hash;
  bk_parent_slot : Slot;
  bk_collector_id : Pubkey;
  bk_is_frozen : bool;
  bk_epoch_stakes : option BankEpochStakes;
  bk_slot_hashes : list Slot;
  bk_vote_accounts : VoteAccounts;
  bk_block_height : Z
}.

Definition epoch_vote_account_stake {E} (bank : Bank) (vote_account : Pubkey) : outcome E Stake :=
  es ←? expect (bk_epoch_stakes bank); Ok (default 0 (es_vote_accounts es !! vote_account)).
Definition epoch_vote_accounts_for_node_id {E} (bank : Bank) (node_id : Pubkey) : outcome E (option (list Pubkey)) :=
  es ←? expect (bk_epoch_stakes bank); Ok (es_node_accounts es !! node_id).
Definition total_epoch_stake {E} (bank : Bank) : outcome E Stake :=
  es ←? expect (bk_epoch_stakes bank); Ok (es_total_stake es).
Definition is_in_slot_hashes_history (bank : Bank) (s : Slot) : bool :=
  (s <? bk_slot bank) && bool_decide (s ∈ bk_slot_hashes bank).

Record BankForks := mkBankForks { bf_banks : gmap Slot Bank; bf_root : Slot }.

Definition get_with_checked_hash {E} (bank_forks : BankForks) (k : SlotHashKey) : outcome E (option Bank) :=
  match bf_banks bank_forks !! k.1 with
  | Some bank => _ ←? rust_assert (bk_hash bank =? k.2); Ok (Some bank)
  | None => Ok None
  end.

(** ** Statistics *)
Record ForkStats := mkForkStats {
  fs_fork_stake : Stake;
  fs_total_stake : Stake;
  fs_block_height : Z;
  fs_has_voted : bool;
  fs_is_recent : bool;
  fs_is_empty : bool;
  fs_vote_threshold : list ThresholdDecision;
  fs_is_locked_out : bool;
  fs_voted_stakes : VotedStakes;
  fs_is_supermajority_confirmed : bool;
  fs_computed : bool;
  fs_lockout_intervals : LockoutIntervals;
  fs_bank_hash : option Hash;
  fs_my_latest_landed_vote : option Slot
}.
Definition fork_stats_default : ForkStats := mkForkStats 0 0 0 false false false [] false ∅ false false ∅ None None.
Definition fork_weight (s : ForkStats) : f64 := stake_ratio (fs_fork_stake s) (fs_total_stake s).

(** The two trackers are shared with other threads; they are handles here. *)
Record PropagatedStats := mkPropagatedStats {
  propagated_validators : gset Pubkey;
  propagated_node_ids : gset Pubkey;
  propagated_validators_stake : Stake;
  is_propagated : bool;
  is_leader_slot : bool;
  prev_leader_slot : option Slot;
  slot_vote_tracker : option Z;
  cluster_slot_pubkeys : option Z;
  ps_total_epoch_stake : Stake
}.

Definition set_is_propagated (s : PropagatedStats) : PropagatedStats :=
  mkPropagatedStats (propagated_validators s) (propagated_node_ids s) (propagated_validators_stake s) true
    (is_leader_slot s) (prev_leader_slot s) (slot_vote_tracker s) (cluster_slot_pubkeys s) (ps_total_epoch_stake s).
Definition set_trackers (t c : option Z) (s : PropagatedStats) : PropagatedStats :=
  mkPropagatedStats (propagated_validators s) (propagated_node_ids s) (propagated_validators_stake s) (is_propagated s)
    (is_leader_slot s) (prev_leader_slot s) t c (ps_total_epoch_stake s).

Definition stats_add_vote_pubkey (vote_pubkey : Pubkey) (stake : Stake) (s : PropagatedStats) : PropagatedStats :=
  if bool_decide (vote_pubkey ∈ propagated_validators s) then s
  else
    mkPropagatedStats ({[vote_pubkey]} ∪ propagated_validators s) (propagated_node_ids s)
      (wrap64 (propagated_validators_stake s + stake)) (is_propagated s)
      (is_leader_slot s) (prev_leader_slot s) (slot_vote_tracker s) (cluster_slot_pubkeys s) (ps_total_epoch_stake s).

Definition insert_node_id (node_pubkey : Pubkey) (s : PropagatedStats) : PropagatedStats :=
  mkPropagatedStats (propagated_validators s) ({[node_pubkey]} ∪ propagated_node_ids s) (propagated_validators_stake s)
    (is_propagated s) (is_leader_slot s) (prev_leader_slot s) (slot_vote_tracker s) (cluster_slot_pubkeys s)
    (ps_total_epoch_stake s).

Definition add_node_pubkey_internal (node_pubkey : Pubkey) (vote_account_pubkeys : list Pubkey)
    (epoch_vote_accounts : gmap Pubkey Stake) (s : PropagatedStats) : PropagatedStats :=
  foldl (fun s k => stats_add_vote_pubkey k (default 0 (epoch_vote_accounts !! k)) s)
    (insert_node_id node_pubkey s) vote_account_pubkeys.

Definition add_node_pubkey {E} (node_pubkey : Pubkey) (bank : Bank) (s : PropagatedStats) : outcome E PropagatedStats :=
  if bool_decide (node_pubkey ∈ propagated_node_ids s) then Ok s
  else
    node_vote_accounts ←? epoch_vote_accounts_for_node_id bank node_pubkey;
    match node_vote_accounts with
    | Some node_vote_accounts =>
        es ←? expect (bk_epoch_stakes bank);
        Ok (add_node_pubkey_internal node_pubkey node_vote_accounts (es_vote_accounts es) s)
    | None => Ok s
    end.

(** Times are milliseconds. *)
Definition RETRANSMIT_BASE_DELAY_MS : Z := 5000.
Definition RETRANSMIT_BACKOFF_CAP : Z := 6.
Record RetransmitInfo := mkRetransmitInfo { retry_time : Z; retry_iteration : Z }.
Definition reached_retransmit_threshold (now : Z) (self : RetransmitInfo) : bool :=
  let backoff := Z.min (retry_iteration self) RETRANSMIT_BACKOFF_CAP in
  let backoff_duration_ms := Z.shiftl 1 backoff * RETRANSMIT_BASE_DELAY_MS in
  backoff_duration_ms <? now - retry_time self.
Definition increment_retry_iteration (now : Z) (self : RetransmitInfo) : RetransmitInfo :=
  mkRetransmitInfo now (Z.min (2 ^ 32 - 1) (retry_iteration self + 1)).

Record ValidatorStakeInfo := mkValidatorStakeInfo {
  validator_vote_pubkey : Pubkey;
  vi_stake : Stake;
  vi_total_epoch_stake : Stake
}.

(** The statistics and progress of the replay itself are left out. *)
Record ForkProgress := mkForkProgress {
  fp_is_dead : bool;
  fork_stats : ForkStats;
  propagated_stats : PropagatedStats;
  retransmit_info : RetransmitInfo;
  num_blocks_on_fork : Z;
  num_dropped_blocks_on_fork : Z
}.

Definition with_fork_stats (s : ForkStats) (f : ForkProgress) : ForkProgress :=
  mkForkProgress (fp_is_dead f) s (propagated_stats f) (retransmit_info f) (num_blocks_on_fork f)
    (num_dropped_blocks_on_fork f).
Definition with_propagated_stats (s : PropagatedStats) (f : ForkProgress) : ForkProgress :=
  mkForkProgress (fp_is_dead f) (fork_stats f) s (retransmit_info f) (num_blocks_on_fork f)
    (num_dropped_blocks_on_fork f).

(** [total_epoch_stake == 0 || stake / total_epoch_stake > SUPERMINORITY_THRESHOLD] *)
Definition superminority (stake total : Stake) : bool :=
  (total =? 0) || f64_ltb SUPERMINORITY_THRESHOLD (stake_ratio stake total).

Definition fork_progress_new (now : Z) (prev : option Slot) (info : option ValidatorStakeInfo)
    (num_blocks num_dropped : Z) : ForkProgress :=
  let stats :=
    match info with
    | Some info =>
        mkPropagatedStats {[validator_vote_pubkey info]} ∅ (vi_stake info)
          (superminority (vi_stake info) (vi_total_epoch_stake info)) true prev None None (vi_total_epoch_stake info)
    | None => mkPropagatedStats ∅ ∅ 0 false false prev None None 0
    end in
  mkForkProgress false fork_stats_default stats (mkRetransmitInfo now 0) num_blocks num_dropped.

Definition set_bank_hash (h : option Hash) (s : ForkStats) : ForkStats :=
  mkForkStats (fs_fork_stake s) (fs_total_stake s) (fs_block_height s) (fs_has_voted s) (fs_is_recent s) (fs_is_empty s)
    (fs_vote_threshold s) (fs_is_locked_out s) (fs_voted_stakes s) (fs_is_supermajority_confirmed s) (fs_computed s)
    (fs_lockout_intervals s) h (fs_my_latest_landed_vote s).

Definition new_from_bank {E} (now : Z) (bank : Bank) (validator_identity vote_pubkey : Pubkey) (prev : option Slot)
    (num_blocks num_dropped : Z) : outcome E ForkProgress :=
  info ←? (if bk_collector_id bank =? validator_identity
           then stake ←? epoch_vote_account_stake bank vote_pubkey;
                total ←? total_epoch_stake bank;
                Ok (Some (mkValidatorStakeInfo vote_pubkey stake total))
           else Ok None);
  let new_progress := fork_progress_new now prev info num_blocks num_dropped in
  Ok (if bk_is_frozen bank
      then with_fork_stats (set_bank_hash (Some (bk_hash bank)) (fork_stats new_progress)) new_progress
      else new_progress).

(** ** The map *)
Notation ProgressMap := (gmap Slot ForkProgress).

Definition get_propagated_stats (p : ProgressMap) (s : Slot) : option PropagatedStats := propagated_stats <$> p !! s.
Definition get_propagated_stats_must_exist {E} (p : ProgressMap) (s : Slot) : outcome E PropagatedStats :=
  expect (get_propagated_stats p s).
Definition get_fork_stats (p : ProgressMap) (s : Slot) : option ForkStats := fork_stats <$> p !! s.
Definition pm_is_dead (p : ProgressMap) (s : Slot) : option bool := fp_is_dead <$> p !! s.
Definition get_hash (p : ProgressMap) (s : Slot) : option Hash := p !! s ≫= fun f => fs_bank_hash (fork_stats f).
Definition pm_is_propagated (p : ProgressMap) (s : Slot) : option bool := is_propagated <$> get_propagated_stats p s.
Definition my_latest_landed_vote (p : ProgressMap) (s : Slot) : option Slot :=
  p !! s ≫= fun f => fs_my_latest_landed_vote (fork_stats f).

(** Writing through [get_propagated_stats_mut] and [get_fork_stats_mut] *)
Definition set_propagated_stats (s : Slot) (stats : PropagatedStats) (p : ProgressMap) : ProgressMap :=
  alter (with_propagated_stats stats) s p.
Definition set_fork_stats (s : Slot) (stats : ForkStats) (p : ProgressMap) : ProgressMap :=
  alter (with_fork_stats stats) s p.

Definition latest_leader_slot (s : Slot) (stats : PropagatedStats) : option Slot :=
  if is_leader_slot stats then Some s else prev_leader_slot stats.

Definition get_latest_leader_slot_must_exist {E} (p : ProgressMap) (s : Slot) : outcome E (option Slot) :=
  stats ←? get_propagated_stats_must_exist p s; Ok (latest_leader_slot s stats).

Definition get_leader_propagation_slot_must_exist {E} (p : ProgressMap) (s : Slot) : outcome E (bool * option Slot) :=
  leader_slot ←? get_latest_leader_slot_must_exist p s;
  Ok match leader_slot with
     | Some leader_slot => (default true (pm_is_propagated p leader_slot), Some leader_slot)
     | None => (true, None)
     end.

Definition set_confirmed (s : ForkStats) : ForkStats :=
  mkForkStats (fs_fork_stake s) (fs_total_stake s) (fs_block_height s) (fs_has_voted s) (fs_is_recent s) (fs_is_empty s)
    (fs_vote_threshold s) (fs_is_locked_out s) (fs_voted_stakes s) true (fs_computed s)
    (fs_lockout_intervals s) (fs_bank_hash s) (fs_my_latest_landed_vote s).
Definition set_supermajority_confirmed_slot {E} (s : Slot) (p : ProgressMap) : outcome E ProgressMap :=
  f ←? expect (p !! s);
  Ok (<[s := with_fork_stats (set_confirmed (fork_stats f)) f]> p).
Definition is_supermajority_confirmed (p : ProgressMap) (s : Slot) : option bool :=
  (fun f => fs_is_supermajority_confirmed (fork_stats f)) <$> p !! s.

Definition get_bank_prev_leader_slot (p : ProgressMap) (bank : Bank) : option Slot :=
  get_propagated_stats p (bk_parent_slot bank) ≫= latest_leader_slot (bk_parent_slot bank).

Definition pm_handle_new_root (bank_forks : BankForks) (p : ProgressMap) : ProgressMap :=
  filter (fun kv => is_Some (bf_banks bank_forks !! kv.1)) p.

(** ** Propagation *)

(** [newly_voted_pubkeys.retain(..)] *)
Fixpoint retain_voters {E} (leader_bank : Bank) (keys : list Pubkey) (s : PropagatedStats)
    : outcome E (list Pubkey * PropagatedStats) :=
  match keys with
  | [] => Ok ([], s)
  | k :: keys =>
      let exists_ := bool_decide (k ∈ propagated_validators s) in
      stake ←? epoch_vote_account_stake leader_bank k;
      '(rest, s) ←? retain_voters leader_bank keys (stats_add_vote_pubkey k stake s);
      Ok (if exists_ then rest else k :: rest, s)
  end.

(** [cluster_slot_pubkeys.retain(..)] *)
Fixpoint retain_nodes {E} (leader_bank : Bank) (nodes : list Pubkey) (s : PropagatedStats)
    : outcome E (list Pubkey * PropagatedStats) :=
  match nodes with
  | [] => Ok ([], s)
  | n :: nodes =>
      let exists_ := bool_decide (n ∈ propagated_node_ids s) in
      s ←? add_node_pubkey n leader_bank s;
      '(rest, s) ←? retain_nodes leader_bank nodes s;
      Ok (if exists_ then rest else n :: rest, s)
  end.

Definition update_slot_propagated_threshold_from_votes {E} (newly_voted cluster : list Pubkey) (leader_bank : Bank)
    (s : PropagatedStats) (did_child_reach_threshold : bool)
    : outcome E (list Pubkey * list Pubkey * PropagatedStats * bool) :=
  if did_child_reach_threshold then
    if negb (is_propagated s) then Ok (newly_voted, cluster, set_is_propagated s, true)
    else Ok (newly_voted, cluster, s, false)
  else if is_propagated s then Ok (newly_voted, cluster, s, false)
  else
    '(newly_voted, s) ←? retain_voters leader_bank newly_voted s;
    '(cluster, s) ←? retain_nodes leader_bank cluster s;
    if superminority (propagated_validators_stake s) (ps_total_epoch_stake s)
    then Ok (newly_voted, cluster, set_is_propagated s, true)
    else Ok (newly_voted, cluster, s, false).

(** Each turn moves to an earlier slot of the map, so its size is fuel enough. *)
Fixpoint propagate_loop {E} (fuel : nat) (bank_forks : BankForks) (p : ProgressMap) (newly_voted cluster : list Pubkey)
    (did : bool) (current : option Slot) : outcome E ProgressMap :=
  match fuel with
  | O => Panic
  | S fuel =>
      match current with
      | None => Ok p
      | Some c =>
          if c <? bf_root bank_forks then Ok p
          else
            s ←? expect (get_propagated_stats p c);
            if is_propagated s
               || bool_decide (newly_voted = []) && bool_decide (cluster = []) && negb did
            then Ok p
            else
              _ ←? rust_assert (is_leader_slot s);
              leader_bank ←? expect (bf_banks bank_forks !! c);
              '(newly_voted, cluster, s, reached) ←?
                update_slot_propagated_threshold_from_votes newly_voted cluster leader_bank s did;
              propagate_loop fuel bank_forks (set_propagated_stats c s p) newly_voted cluster
                (reached || did) (prev_leader_slot s)
      end
  end.

Definition update_fork_propagated_threshold_from_votes {E} (p : ProgressMap) (newly_voted cluster : list Pubkey)
    (fork_tip : Slot) (bank_forks : BankForks) : outcome E ProgressMap :=
  current ←? get_latest_leader_slot_must_exist p fork_tip;
  propagate_loop (S (size p)) bank_forks p newly_voted cluster false current.

(** The trackers fed by gossip: which one a slot has, and what they hold. *)
Record Trackers := mkTrackers {
  slot_vote_trackers : gmap Slot Z;
  voted_slot_updates : gmap Z (list Pubkey);
  cluster_slots : gmap Slot Z;
  slot_pubkeys : gmap Z (list Pubkey)
}.

(** [SlotVoteTracker::get_voted_slot_updates] takes the updates. *)
Definition get_voted_slot_updates (tracker : option Z) (t : Trackers) : list Pubkey * Trackers :=
  match tracker with
  | None => ([], t)
  | Some h => (default [] (voted_slot_updates t !! h),
               mkTrackers (slot_vote_trackers t) (delete h (voted_slot_updates t)) (cluster_slots t) (slot_pubkeys t))
  end.

(** [if cache.is_none() { cache = lookup }] *)
Definition or_lookup (cache lookup : option Z) : option Z := match cache with Some h => Some h | None => lookup end.

Definition update_propagation_status {E} (p : ProgressMap) (s : Slot) (bank_forks : BankForks) (t : Trackers)
    : outcome E (ProgressMap * Trackers) :=
  '(confirmed, _) ←? get_leader_propagation_slot_must_exist p s;
  if (confirmed : bool) then Ok (p, t)
  else
    stats ←? expect (get_propagated_stats p s);
    let tracker := or_lookup (slot_vote_tracker stats) (slot_vote_trackers t !! s) in
    let cluster := or_lookup (cluster_slot_pubkeys stats) (cluster_slots t !! s) in
    let p := set_propagated_stats s (set_trackers tracker cluster stats) p in
    let '(newly_voted, t) := get_voted_slot_updates tracker t in
    let nodes := default [] (h ← cluster; slot_pubkeys t !! h) in
    p ←? update_fork_propagated_threshold_from_votes p newly_voted nodes s bank_forks;
    Ok (p, t).
