(* ===== verification/Propagation.v ===== *)
(** * How far leader blocks have spread

    A validator votes on its own fork only once its last leader block has reached
    a third of the stake.  Voters for a slot count for all earlier leader slots on
    the fork: the update walks back over them and stops as soon as it can tell
    that earlier slots know all it would report. *)

From S2P Require Import Prelude InstructionError AuthorizedVoters VoteState VoteProcess Credits Tower VoteSafety ForkChoice FrozenVotes ValidatorTower TowerSafety VoteLockouts ProgressMap.

(** ** One slot *)
Record kept (s s' : PropagatedStats) : Prop := {
  kept_propagated : is_propagated s' = is_propagated s;
  kept_leader : is_leader_slot s' = is_leader_slot s;
  kept_prev : prev_leader_slot s' = prev_leader_slot s;
  kept_total : ps_total_epoch_stake s' = ps_total_epoch_stake s
}.

Lemma kept_refl s : kept s s.
Proof. done. Qed.
Lemma kept_trans s1 s2 s3 : kept s1 s2 -> kept s2 s3 -> kept s1 s3.
Proof. intros [] []. split; congruence. Qed.

Section Slot.
Context (bank : Bank) (es : BankEpochStakes) (Hes : bk_epoch_stakes bank = Some es).

Definition stake_of (k : Pubkey) : Stake := default 0 (es_vote_accounts es !! k).
Definition accounts_of (n : Pubkey) : list Pubkey := default [] (es_node_accounts es !! n).

(** The recorded stake is that of the recorded voters. *)
Definition counted_stake (s : PropagatedStats) : Prop :=
  propagated_validators_stake s = wrap64 (sum_of stake_of (elements (propagated_validators s))).
(** The vote accounts of recorded nodes are recorded. *)
Definition nodes_covered (s : PropagatedStats) : Prop :=
  forall n k, n ∈ propagated_node_ids s -> k ∈ accounts_of n -> k ∈ propagated_validators s.

Lemma sum_of_perm {A} (f : A -> Z) l l' : l ≡ₚ l' -> sum_of f l = sum_of f l'.
Proof. unfold sum_of. induction 1; cbn; lia. Qed.

Lemma add_vote_ok k s :
  let s' := stats_add_vote_pubkey k (stake_of k) s in
  propagated_validators s' = {[k]} ∪ propagated_validators s /\ propagated_node_ids s' = propagated_node_ids s /\
  kept s s' /\ (counted_stake s -> counted_stake s').
Proof.
  unfold stats_add_vote_pubkey. case_bool_decide as Hk; cbn.
  - split; [|split; [done|split; [apply kept_refl|done]]]. set_solver.
  - split; [done|]. split; [done|]. split; [done|]. unfold counted_stake. cbn. intros ->.
    rewrite (sum_of_perm _ (elements ({[k]} ∪ propagated_validators s)) (k :: elements (propagated_validators s))); [|by apply elements_union_singleton].
    rewrite wrap64_add_l, Z.add_comm. reflexivity.
Qed.

Lemma retain_voters_ok {E} keys s :
  exists rest s', @retain_voters E bank keys s = Ok (rest, s') /\
    (forall k, k ∈ propagated_validators s' <-> k ∈ keys \/ k ∈ propagated_validators s) /\
    propagated_node_ids s' = propagated_node_ids s /\ kept s s' /\ (counted_stake s -> counted_stake s') /\
    (forall k, k ∈ rest <-> k ∈ keys /\ k ∉ propagated_validators s).
Proof.
  revert s. induction keys as [|k keys IH]; intros s; cbn [retain_voters].
  - exists [], s. split; [done|]. split; [intros k; rewrite elem_of_nil; tauto|].
    split; [done|]. split; [apply kept_refl|]. split; [done|]. intros k. rewrite elem_of_nil. tauto.
  - unfold epoch_vote_account_stake. rewrite Hes. cbn [expect obind]. fold (stake_of k).
    destruct (add_vote_ok k s) as (Hv & Hn & Hk & Hc). set (s1 := stats_add_vote_pubkey k (stake_of k) s) in *.
    destruct (IH s1) as (rest & s' & -> & Hv' & Hn' & Hk' & Hc' & Hr). cbn [obind].
    eexists _, s'. split; [reflexivity|].
    split; [intros x; rewrite Hv', Hv, elem_of_union, elem_of_singleton, elem_of_cons; tauto|].
    split; [congruence|]. split; [by eapply kept_trans|]. split; [tauto|]. intros x.
    assert (Hx : x ∈ rest <-> x ∈ keys /\ x <> k /\ x ∉ propagated_validators s).
    { rewrite Hr, Hv, not_elem_of_union, not_elem_of_singleton. tauto. }
    rewrite elem_of_cons. case_bool_decide as Hin; [|rewrite elem_of_cons]; rewrite Hx;
      destruct (decide (x = k)) as [->|]; tauto.
Qed.

Lemma add_accounts_ok l s :
  let s' := foldl (fun s k => stats_add_vote_pubkey k (stake_of k) s) s l in
  (forall k, k ∈ propagated_validators s' <-> k ∈ l \/ k ∈ propagated_validators s) /\
  propagated_node_ids s' = propagated_node_ids s /\ kept s s' /\ (counted_stake s -> counted_stake s').
Proof.
  revert s. induction l as [|k l IH]; intros s; cbn [foldl].
  - split; [intros k; rewrite elem_of_nil; tauto|]. split; [done|]. split; [apply kept_refl|done].
  - destruct (add_vote_ok k s) as (Hv & Hn & Hk & Hc). set (s1 := stats_add_vote_pubkey k (stake_of k) s) in *.
    destruct (IH s1) as (Hv' & Hn' & Hk' & Hc'). split; [|split; [congruence|split; [by eapply kept_trans|tauto]]].
    intros x. rewrite Hv', Hv, elem_of_union, elem_of_singleton, elem_of_cons. tauto.
Qed.

(** What a recorded node adds *)
Definition nodes_added (nodes : list Pubkey) (s s' : PropagatedStats) : Prop :=
  (forall n k, n ∈ nodes -> k ∈ accounts_of n -> k ∈ propagated_validators s') /\
  (forall k, k ∈ propagated_validators s' ->
     k ∈ propagated_validators s \/ exists n, n ∈ nodes /\ n ∉ propagated_node_ids s /\ k ∈ accounts_of n) /\
  (forall n, n ∈ propagated_node_ids s' -> n ∈ propagated_node_ids s \/ n ∈ nodes) /\
  propagated_validators s ⊆ propagated_validators s' /\ propagated_node_ids s ⊆ propagated_node_ids s'.

Lemma add_node_ok {E} n s :
  nodes_covered s ->
  exists s', @add_node_pubkey E n bank s = Ok s' /\ nodes_added [n] s s' /\ nodes_covered s' /\
    kept s s' /\ (counted_stake s -> counted_stake s').
Proof.
  intros Hcov. unfold add_node_pubkey. case_bool_decide as Hin.
  - exists s. split; [done|]. split; [|split; [done|split; [apply kept_refl|done]]].
    split; [|repeat split; auto]. intros m k ->%list_elem_of_singleton. eauto.
  - unfold epoch_vote_accounts_for_node_id. rewrite Hes. cbn [expect obind].
    destruct (es_node_accounts es !! n) as [l|] eqn:En.
    + unfold add_node_pubkey_internal. fold (stake_of).
      destruct (add_accounts_ok l (insert_node_id n s)) as (Hv & Hn & Hk & Hc). unfold stake_of in Hv, Hn, Hk, Hc.
      set (s' := foldl _ _ _) in *. exists s'. cbn in Hv, Hn.
      assert (Hacc : accounts_of n = l) by (unfold accounts_of; by rewrite En).
      split; [done|]. split; [|split; [|split; [destruct Hk; split; done|done]]].
      * split; [intros m k ->%list_elem_of_singleton; rewrite Hacc, Hv; tauto|].
        split; [intros k; rewrite Hv; intros [?|?]; [right; exists n; rewrite Hacc, list_elem_of_singleton|]; auto|].
        rewrite Hn. split; [intros m; rewrite elem_of_union, elem_of_singleton, list_elem_of_singleton; tauto|].
        split; [intros k; rewrite Hv; tauto|set_solver].
      * intros m k. rewrite Hn, elem_of_union, elem_of_singleton, Hv. intros [->|Hm]; [rewrite Hacc; tauto|].
        intros. right. by eapply Hcov.
    + exists s. split; [done|]. split; [|split; [done|split; [apply kept_refl|done]]].
      split; [|repeat split; auto]. intros m k ->%list_elem_of_singleton. unfold accounts_of. rewrite En.
      cbn. by rewrite elem_of_nil.
Qed.

Lemma retain_nodes_ok {E} nodes s :
  nodes_covered s ->
  exists rest s', @retain_nodes E bank nodes s = Ok (rest, s') /\ nodes_added nodes s s' /\ nodes_covered s' /\
    kept s s' /\ (counted_stake s -> counted_stake s') /\
    (forall n, n ∈ nodes -> n ∉ propagated_node_ids s -> n ∈ rest).
Proof.
  revert s. induction nodes as [|n nodes IH]; intros s Hcov; cbn [retain_nodes].
  - exists [], s. split; [done|]. split; [|split; [done|split; [apply kept_refl|split; [done|]]]].
    + split; [|repeat split; auto]. intros n k []%elem_of_nil.
    + intros n []%elem_of_nil.
  - destruct (@add_node_ok E n s Hcov) as (s1 & -> & (A1 & A2 & A3 & A4 & A5) & Hcov1 & Hk & Hc). cbn [obind].
    destruct (IH s1 Hcov1) as (rest & s' & -> & (B1 & B2 & B3 & B4 & B5) & Hcov' & Hk' & Hc' & Hr). cbn [obind].
    eexists _, s'. split; [reflexivity|]. split; [|split; [done|split; [by eapply kept_trans|split; [tauto|]]]].
    + split; [|split; [|split; [|split; [by etrans|by etrans]]]].
      * intros m k [->|Hm]%elem_of_cons Hk2; [apply B4, (A1 n); [by apply list_elem_of_singleton|done]|eauto].
      * intros k [Hk1|(m & Hm & Hm' & Hk2)]%B2.
        -- apply A2 in Hk1 as [?|(m & ->%list_elem_of_singleton & ? & ?)]; [by left|].
           right. exists n. rewrite elem_of_cons. auto.
        -- right. exists m. rewrite elem_of_cons. split; [auto|]. split; [|done]. intros ?. by apply Hm', A5.
      * intros m [Hm|Hm]%B3; [apply A3 in Hm as [?| ->%list_elem_of_singleton]|]; rewrite elem_of_cons; auto.
    + intros m [->|Hm]%elem_of_cons Hnot.
      * rewrite bool_decide_eq_false_2 by done. apply elem_of_cons. by left.
      * destruct (decide (m = n)) as [->|Hne]; [rewrite bool_decide_eq_false_2 by done; apply elem_of_cons; by left|].
        assert (m ∈ rest); [|case_bool_decide; [done|apply elem_of_cons; by right]].
        apply Hr; [done|]. intros [?| ->%list_elem_of_singleton]%A3; done.
Qed.
End Slot.

Lemma slot_update_ok {E} bank es nv cs s :
  bk_epoch_stakes bank = Some es -> is_propagated s = false -> nodes_covered es s -> counted_stake es s ->
  exists nv' cs' s' r, @update_slot_propagated_threshold_from_votes E nv cs bank s false = Ok (nv', cs', s', r) /\
    is_leader_slot s' = is_leader_slot s /\ prev_leader_slot s' = prev_leader_slot s /\
    nodes_covered es s' /\ counted_stake es s' /\ is_propagated s' = r /\
    (r = false -> superminority (propagated_validators_stake s') (ps_total_epoch_stake s') = false) /\
    propagated_validators s ⊆ propagated_validators s' /\
    (forall k, k ∈ nv -> k ∈ propagated_validators s') /\
    (forall n k, n ∈ cs -> k ∈ accounts_of es n -> k ∈ propagated_validators s') /\
    (forall k, k ∈ propagated_validators s' ->
       k ∈ propagated_validators s \/ k ∈ nv' \/ exists n, n ∈ cs' /\ k ∈ accounts_of es n).
Proof.
  intros Hes Hp Hcov Hcnt. unfold update_slot_propagated_threshold_from_votes. rewrite Hp.
  destruct (@retain_voters_ok bank es Hes E nv s) as (nv' & s1 & -> & Hv & Hn & Hk & Hc & Hr). cbn [obind].
  assert (Hcov1 : nodes_covered es s1).
  { intros n k. rewrite Hn, Hv. intros Hn1 Hk1. right. by eapply Hcov. }
  destruct (@retain_nodes_ok bank es Hes E cs s1 Hcov1) as (cs' & s2 & -> & (A1 & A2 & A3 & A4 & A5) & Hcov2 & Hk2 & Hc2 & Hr2).
  cbn [obind]. rewrite Hn in *. pose proof (kept_trans _ _ _ Hk Hk2) as [K1 K2 K3 K4]. specialize (Hc2 (Hc Hcnt)).
  set (s' := if superminority (propagated_validators_stake s2) (ps_total_epoch_stake s2) then set_is_propagated s2 else s2).
  exists nv', cs', s', (superminority (propagated_validators_stake s2) (ps_total_epoch_stake s2)).
  assert (Hs' : propagated_validators s' = propagated_validators s2 /\ propagated_node_ids s' = propagated_node_ids s2 /\
    propagated_validators_stake s' = propagated_validators_stake s2 /\ ps_total_epoch_stake s' = ps_total_epoch_stake s2 /\
    is_leader_slot s' = is_leader_slot s2 /\ prev_leader_slot s' = prev_leader_slot s2) by (unfold s'; by case_match).
  destruct Hs' as (E1 & E2 & E3 & E4 & E5 & E6). split; [unfold s'; by case_match|].
  unfold nodes_covered, counted_stake. rewrite E1, E2, E3, E4, E5, E6.
  split; [done|]. split; [done|]. split; [exact Hcov2|]. split; [exact Hc2|].
  split; [unfold s'; case_match; cbn; congruence|]. split; [done|].
  split; [intros k Hk0; apply A4, Hv; by right|].
  split; [intros k Hk0; apply A4, Hv; by left|]. split; [exact A1|].
  intros k [Hk0|(n & Hn0 & Hn1 & Hk0)]%A2.
  - apply Hv in Hk0 as [Hk0|?]; [|by left]. destruct (decide (k ∈ propagated_validators s)); [by left|].
    right. left. apply Hr. done.
  - right. right. exists n. split; [by apply Hr2|done].
Qed.

(** ** The map *)
Section Map.
Context (bank_forks : BankForks).

Abbreviation root := (bf_root bank_forks).
Definition no_stakes : BankEpochStakes := mkBankEpochStakes ∅ ∅ 0.
Definition stakes_at (s : Slot) : BankEpochStakes := default no_stakes (bf_banks bank_forks !! s ≫= bk_epoch_stakes).

(** A leader slot [s] and the previous one, [q], not older than the root *)
Record linked (p : ProgressMap) (s : Slot) (st : PropagatedStats) (q : Slot) (st' : PropagatedStats) : Prop := {
  lk_child : get_propagated_stats p s = Some st;
  lk_leader : is_leader_slot st = true;
  lk_root : root <= q;
  lk_prev : prev_leader_slot st = Some q;
  lk_parent : get_propagated_stats p q = Some st'
}.

Record slots_ok (p : ProgressMap) : Prop := {
  so_leader s st : get_propagated_stats p s = Some st -> is_leader_slot st = true -> root <= s ->
    is_Some (bf_banks bank_forks !! s ≫= bk_epoch_stakes) /\ counted_stake (stakes_at s) st /\
    nodes_covered (stakes_at s) st /\
    (is_propagated st = false -> superminority (propagated_validators_stake st) (ps_total_epoch_stake st) = false);
  so_prev s st q : get_propagated_stats p s = Some st -> prev_leader_slot st = Some q -> root <= q ->
    q < s /\ exists st', get_propagated_stats p q = Some st' /\ is_leader_slot st' = true;
  so_nodes s st q st' : linked p s st q st' -> forall n, accounts_of (stakes_at s) n = accounts_of (stakes_at q) n
}.

(** The previous leader slot has spread if the slot has, and otherwise knows its
    voters, up to what is on the way to [cur]. *)
Record link_ok (nv cs : list Pubkey) (did : bool) (cur : option Slot) (st : PropagatedStats) (q : Slot)
    (st' : PropagatedStats) : Prop := {
  li_propagated : is_propagated st = true -> is_propagated st' = true \/ cur = Some q /\ did = true;
  li_voters : is_propagated st = false -> is_propagated st' = false -> forall k, k ∈ propagated_validators st ->
    k ∈ propagated_validators st' \/ cur = Some q /\ (k ∈ nv \/ exists n, n ∈ cs /\ k ∈ accounts_of (stakes_at q) n)
}.
Definition links_ok nv cs did cur (p : ProgressMap) : Prop :=
  forall s st q st', linked p s st q st' -> link_ok nv cs did cur st q st'.

Definition progress_ok (p : ProgressMap) : Prop := slots_ok p /\ links_ok [] [] false None p.

(** Nothing but the propagation changes, and it only grows. *)
Record grown (st st' : PropagatedStats) : Prop := {
  gr_leader : is_leader_slot st' = is_leader_slot st;
  gr_prev : prev_leader_slot st' = prev_leader_slot st;
  gr_voters : propagated_validators st ⊆ propagated_validators st';
  gr_propagated : is_propagated st = true -> is_propagated st' = true
}.
Definition grows (p p' : ProgressMap) : Prop :=
  forall s, match p !! s with
            | Some f => exists st', p' !! s = Some (with_propagated_stats st' f) /\ grown (propagated_stats f) st'
            | None => p' !! s = None
            end.

Lemma grows_refl p : grows p p.
Proof. intros s. destruct (p !! s) as [[]|] eqn:E; [|done]. eexists. split; [reflexivity|]. done. Qed.
Lemma grows_trans p1 p2 p3 : grows p1 p2 -> grows p2 p3 -> grows p1 p3.
Proof.
  intros H1 H2 s. specialize (H1 s). specialize (H2 s). destruct (p1 !! s) as [f|]; [|by rewrite H1 in H2].
  destruct H1 as (st & E1 & [A1 A2 A3 A4]). rewrite E1 in H2. destruct H2 as (st' & E2 & [B1 B2 B3 B4]).
  exists st'. split; [done|]. cbn in *. split; [congruence|congruence|by etrans|auto].
Qed.
Lemma grows_stats p p' s st : grows p p' -> get_propagated_stats p s = Some st ->
  exists st', get_propagated_stats p' s = Some st' /\ grown st st'.
Proof.
  intros H. specialize (H s). unfold get_propagated_stats. destruct (p !! s) as [f|]; [|done]. cbn.
  intros [= <-]. destruct H as (st' & -> & ?). eauto.
Qed.

Lemma set_stats_lookup p c st s :
  get_propagated_stats (set_propagated_stats c st p) s =
  if decide (s = c) then (fun _ => st) <$> get_propagated_stats p c else get_propagated_stats p s.
Proof.
  unfold get_propagated_stats, set_propagated_stats. case_decide as H.
  - subst. rewrite lookup_alter_eq. by destruct (p !! c).
  - by rewrite lookup_alter_ne.
Qed.
Lemma set_stats_grows p c st st' :
  get_propagated_stats p c = Some st -> grown st st' -> grows p (set_propagated_stats c st' p).
Proof.
  intros Hc Hg s. unfold set_propagated_stats. destruct (decide (s = c)) as [->|Hne].
  - unfold get_propagated_stats in Hc. destruct (p !! c) as [f|] eqn:E; [|done]. injection Hc as <-.
    exists st'. by rewrite lookup_alter_eq, E.
  - rewrite lookup_alter_ne by done. by apply grows_refl.
Qed.

(** *** One turn *)
Section Turn.
Context (p : ProgressMap) (c : Slot) (st st' : PropagatedStats).
Context (Hp : slots_ok p) (Hc : get_propagated_stats p c = Some st) (Hleader : is_leader_slot st = true)
  (Hroot : root <= c) (Hg : grown st st').
Abbreviation p1 := (set_propagated_stats c st' p).

Lemma turn_get s st0 : get_propagated_stats p1 s = Some st0 -> exists st1, get_propagated_stats p s = Some st1 /\
  is_leader_slot st0 = is_leader_slot st1 /\ prev_leader_slot st0 = prev_leader_slot st1 /\
  (s = c /\ st0 = st' /\ st1 = st \/ s <> c /\ st0 = st1).
Proof.
  rewrite set_stats_lookup. case_decide as Hs; [|intros H; exists st0; naive_solver].
  subst. rewrite Hc. intros [= <-]. exists st. destruct Hg. naive_solver.
Qed.
Lemma turn_linked s st0 q stq : linked p1 s st0 q stq -> q < s /\ exists st1 stq1, linked p s st1 q stq1 /\
  (s = c /\ st0 = st' /\ st1 = st \/ s <> c /\ st0 = st1) /\ (q = c /\ stq = st' /\ stq1 = st \/ q <> c /\ stq = stq1).
Proof.
  intros [H1 H2 H3 H4 H5]. apply turn_get in H1 as (st1 & G1 & L1 & P1 & C1). apply turn_get in H5 as (stq1 & G2 & L2 & P2 & C2).
  assert (linked p s st1 q stq1) as Hl by (split; congruence). split; [|by exists st1, stq1].
  by apply (so_prev p Hp s st1 q); [|apply Hl|].
Qed.

Lemma turn_slots_ok :
  counted_stake (stakes_at c) st' -> nodes_covered (stakes_at c) st' ->
  (is_propagated st' = false -> superminority (propagated_validators_stake st') (ps_total_epoch_stake st') = false) ->
  slots_ok p1.
Proof.
  intros H1 H2 H3. split.
  - intros s st0 (st1 & G & L & P & [(-> & -> & ->)|(_ & ->)])%turn_get Hl Hr; [|by apply (so_leader p Hp s st1)].
    split; [by apply (so_leader p Hp c st)|done].
  - intros s st0 q (st1 & G & L & P & C)%turn_get Hq Hr. rewrite P in Hq.
    destruct (so_prev p Hp s st1 q G Hq Hr) as (Hlt & stq & Gq & Lq). split; [done|].
    rewrite set_stats_lookup. case_decide as Hd; [|eauto]. subst. rewrite Hc. cbn. exists st'. split; [done|].
    destruct Hg. congruence.
  - intros s st0 q stq (_ & st1 & stq1 & Hl & _)%turn_linked. by apply (so_nodes p Hp s st1 q stq1).
Qed.

Lemma turn_links_ok nv cs did nv' cs' did' :
  links_ok nv cs did (Some c) p ->
  (forall s st0, linked p s st0 c st -> link_ok nv' cs' did' (prev_leader_slot st') st0 c st') ->
  (forall q stq, linked p c st q stq -> q < c -> link_ok nv' cs' did' (prev_leader_slot st') st' q stq) ->
  links_ok nv' cs' did' (prev_leader_slot st') p1.
Proof.
  intros Hlinks Hchild Hparent s st0 q stq (Hlt & st1 & stq1 & Hl & Hs & Hq)%turn_linked.
  destruct Hs as [(-> & -> & ->)|(Hs & ->)], Hq as [(-> & -> & ->)|(Hq & ->)]; [lia|by apply Hparent|by apply (Hchild s)|].
  destruct (Hlinks s st1 q stq1 Hl) as [A B]. split.
  - intros H. destruct (A H) as [?|[[= ->] _]]; [by left|done].
  - intros H H' k Hk. destruct (B H H' k Hk) as [?|[[= ->] _]]; [by left|done].
Qed.
End Turn.

(** The stats after a turn, and what is still on the way *)
Lemma turn_ok {E} p c st nv cs did :
  slots_ok p -> links_ok nv cs did (Some c) p -> get_propagated_stats p c = Some st ->
  is_leader_slot st = true -> root <= c -> is_propagated st = false ->
  exists bank nv' cs' st' r, bf_banks bank_forks !! c = Some bank /\
    @update_slot_propagated_threshold_from_votes E nv cs bank st did = Ok (nv', cs', st', r) /\
    grown st st' /\ slots_ok (set_propagated_stats c st' p) /\
    links_ok nv' cs' (r || did) (prev_leader_slot st') (set_propagated_stats c st' p) /\
    (is_propagated st' = true \/ (forall k, k ∈ nv -> k ∈ propagated_validators st') /\
       (forall n k, n ∈ cs -> k ∈ accounts_of (stakes_at c) n -> k ∈ propagated_validators st')).
Proof.
  intros Hp Hl Hc Hlead Hroot Hnot. destruct (so_leader p Hp c st Hc Hlead Hroot) as (Hbank & Hcnt & Hcov & Hsup).
  destruct (bf_banks bank_forks !! c) as [bank|] eqn:Eb; [|by destruct Hbank]. cbn in Hbank.
  destruct (bk_epoch_stakes bank) as [es|] eqn:Ees; [|by destruct Hbank].
  assert (Hes : stakes_at c = es) by (unfold stakes_at; by rewrite Eb; cbn; rewrite Ees).
  rewrite Hes in *. exists bank. destruct did.
  - unfold update_slot_propagated_threshold_from_votes. rewrite Hnot. cbn [negb].
    assert (Hg : grown st (set_is_propagated st)) by done.
    eexists nv, cs, _, true. split; [done|]. split; [reflexivity|]. split; [done|].
    split; [apply (turn_slots_ok p c st); by rewrite ?Hes|]. split; [|by left].
    apply (turn_links_ok p c st _ Hp Hc Hroot Hg nv cs true); [done| |].
    + intros s st0 _. split; [by left|done].
    + intros q stq Hq _. split; [|done]. intros _. right. split; [|done]. apply Hq.
  - destruct (@slot_update_ok E bank es nv cs st Ees Hnot Hcov Hcnt)
      as (nv' & cs' & st' & r & Hrun & L & P & Hcov' & Hcnt' & Hr & Hsup' & V & Vn & Va & Vup).
    exists nv', cs', st', r.
    assert (Hg : grown st st') by (split; [done|done|done|congruence]).
    split; [done|]. split; [done|]. split; [done|].
    split; [apply (turn_slots_ok p c st); rewrite ?Hes; try done; by rewrite Hr|]. split; [|by right].
    apply (turn_links_ok p c st st' Hp Hc Hroot Hg nv cs false); [done| |].
    + intros s st0 Hs. destruct (Hl s st0 c st Hs) as [A B]. rewrite Hes in B. split.
      * intros H. destruct (A H) as [?|[_ [=]]]. congruence.
      * intros H _ k Hk. left. destruct (B H Hnot k Hk) as [?|[_ [?|(n & ? & ?)]]]; [by apply V|by apply Vn|by eapply Va].
    + intros q stq Hq Hlt. rewrite P, (lk_prev _ _ _ _ _ Hq). destruct (Hl c st q stq Hq) as [A B].
      pose proof (so_nodes p Hp c st q stq Hq) as Hsame. rewrite Hes in Hsame. split.
      * intros H. right. split; [done|]. rewrite <-Hr, H. done.
      * intros H H' k Hk. destruct (Vup k Hk) as [Hk'|[?|(n & ? & ?)]]; [|auto|].
        -- destruct (B Hnot H' k Hk') as [?|[[= ->] _]]; [by left|lia].
        -- right. split; [done|]. right. exists n. by rewrite <-Hsame.
Qed.

(** *** The walk *)

(** The slots of the map up to [c] *)
Definition rank (p : ProgressMap) (c : Slot) : nat := size (filter (fun s => s <= c) (dom p)).

Lemma rank_lt p q c : is_Some (p !! c) -> q < c -> (rank p q < rank p c)%nat.
Proof.
  intros Hc Hlt. unfold rank. apply subset_size. split.
  - intros s. rewrite !elem_of_filter. intros [? ?]. split; [lia|done].
  - intros H. specialize (H c). rewrite !elem_of_filter, elem_of_dom in H. destruct (H (conj (Z.le_refl c) Hc)). lia.
Qed.
Lemma rank_size p c : (rank p c <= size p)%nat.
Proof. unfold rank. rewrite <-size_dom. apply subseteq_size. intros s. rewrite elem_of_filter. tauto. Qed.
Lemma rank_set p c st q : rank (set_propagated_stats c st p) q = rank p q.
Proof. unfold rank, set_propagated_stats. by rewrite dom_alter_L. Qed.

Definition fuel_for (p : ProgressMap) (cur : option Slot) : nat :=
  match cur with Some c => if c <? root then O else rank p c | None => O end.

(** A slot the walk stands on is a leader slot of the map. *)
Definition stands (p : ProgressMap) (cur : option Slot) : Prop :=
  forall c, cur = Some c -> root <= c -> exists st, get_propagated_stats p c = Some st /\ is_leader_slot st = true.

(** The keys are known at [s], unless it has spread *)
Definition informed (nv cs : list Pubkey) (p : ProgressMap) (s : Slot) : Prop :=
  exists st, get_propagated_stats p s = Some st /\
    (is_propagated st = true \/ (forall k, k ∈ nv -> k ∈ propagated_validators st) /\
       (forall n k, n ∈ cs -> k ∈ accounts_of (stakes_at s) n -> k ∈ propagated_validators st)).

Lemma informed_grows nv cs p p' s : grows p p' -> informed nv cs p s -> informed nv cs p' s.
Proof.
  intros Hg (st & Hs & H). destruct (grows_stats p p' s st Hg Hs) as (st' & Hs' & [_ _ V P]). exists st'. split; [done|].
  destruct H as [?|[H1 H2]]; [left; auto|right; split; eauto].
Qed.

(** What is left on the way does not matter where the walk stops. *)
Lemma links_done nv cs did cur p :
  links_ok nv cs did cur p ->
  (forall c, cur = Some c -> root <= c -> (exists st, get_propagated_stats p c = Some st /\ is_propagated st = true) \/
     nv = [] /\ cs = [] /\ did = false) ->
  links_ok [] [] false None p.
Proof.
  intros Hl Hstop s st q st' Hlk. destruct (Hl s st q st' Hlk) as [A B]. destruct Hlk as [_ _ Hr _ Hq].
  assert (Hcase : cur = Some q -> is_propagated st' = true \/ nv = [] /\ cs = [] /\ did = false).
  { intros Hcur. destruct (Hstop q Hcur Hr) as [(st1 & Hs1 & ?)|?]; [left; congruence|by right]. }
  split.
  - intros H. left. destruct (A H) as [?|[Hcur ->]]; [done|]. destruct (Hcase Hcur) as [?|(_ & _ & [=])]. done.
  - intros H H' k Hk. left. destruct (B H H' k Hk) as [?|[Hcur Hin]]; [done|].
    destruct (Hcase Hcur) as [?|(-> & -> & _)]; [congruence|].
    destruct Hin as [[]%elem_of_nil|(n & []%elem_of_nil & _)].
Qed.

Lemma propagate_loop_ok {E} fuel p nv cs did cur :
  slots_ok p -> links_ok nv cs did cur p -> stands p cur -> (fuel_for p cur < fuel)%nat ->
  exists p', @propagate_loop E fuel bank_forks p nv cs did cur = Ok p' /\ progress_ok p' /\ grows p p' /\
    (forall c, cur = Some c -> root <= c -> informed nv cs p' c).
Proof.
  revert p nv cs did cur. induction fuel as [|fuel IH]; intros p nv cs did cur Hp Hl Hst Hf; [lia|]. cbn [propagate_loop].
  assert (Hstop : (forall c, cur = Some c -> root <= c ->
      (exists st, get_propagated_stats p c = Some st /\ is_propagated st = true) \/ nv = [] /\ cs = [] /\ did = false) ->
    exists p', Ok p = @Ok E _ p' /\ progress_ok p' /\ grows p p' /\ (forall c, cur = Some c -> root <= c -> informed nv cs p' c)).
  { intros H. exists p. split; [done|]. split; [split; [done|by eapply links_done]|]. split; [apply grows_refl|].
    intros c Hc Hr. destruct (Hst c Hc Hr) as (st & Hs & _). exists st. split; [done|].
    destruct (H c Hc Hr) as [(st1 & Hs1 & ?)|(-> & -> & _)]; [left; congruence|].
    right. split; [intros k []%elem_of_nil|intros n k []%elem_of_nil]. }
  destruct cur as [c|]; [|by apply Hstop]. destruct (Z.ltb_spec c root) as [|Hroot]; [apply Hstop; intros ? [= <-]; lia|].
  destruct (Hst c eq_refl Hroot) as (st & Hc & Hlead). rewrite Hc. cbn [expect obind].
  destruct (is_propagated st) eqn:Ep; [apply Hstop; intros ? [= <-]; left; eauto|]. cbn [orb].
  destruct (bool_decide (nv = []) && bool_decide (cs = []) && negb did) eqn:Eb.
  { apply Hstop. intros ? [= <-] _. right. apply andb_prop in Eb as [[E1 E2]%andb_prop E3].
    apply bool_decide_eq_true in E1, E2. by destruct did. }
  rewrite Hlead. cbn [rust_assert obind].
  destruct (@turn_ok E p c st nv cs did Hp Hl Hc Hlead Hroot Ep) as (bank & nv' & cs' & st' & r & -> & Hrun & Hg & Hp1 & Hl1 & Hin).
  cbn [expect obind]. rewrite Hrun. cbn [obind]. set (p1 := set_propagated_stats c st' p) in *.
  assert (Hc1 : get_propagated_stats p1 c = Some st') by (unfold p1; rewrite set_stats_lookup, decide_True, Hc by done; done).
  destruct (IH p1 nv' cs' (r || did) (prev_leader_slot st') Hp1 Hl1) as (p' & Hrun' & Hok' & Hg' & _).
  - intros q Hq Hr. destruct (so_prev p1 Hp1 c st' q Hc1 Hq Hr) as (_ & stq & ? & ?). eauto.
  - assert (Hin_p : is_Some (p !! c)) by (unfold get_propagated_stats in Hc; by destruct (p !! c)).
    pose proof (rank_lt p (c - 1) c Hin_p) as Hpos. cbn [fuel_for] in Hf. rewrite (proj2 (Z.ltb_ge c root) Hroot) in Hf.
    destruct (prev_leader_slot st') as [q|] eqn:Eq; cbn [fuel_for]; [|lia]. unfold p1. rewrite rank_set.
    destruct (Z.ltb_spec q root) as [|Hr]; [lia|].
    enough (rank p q < rank p c)%nat by lia. apply rank_lt; [done|]. by apply (so_prev p1 Hp1 c st' q).
  - exists p'. split; [done|]. split; [done|]. split; [eapply grows_trans; [by eapply set_stats_grows|done]|].
    intros ? [= <-] _. eapply informed_grows; [done|]. exists st'. done.
Qed.

(** The leader slots a walk from [cur] passes, back to the root *)
Inductive chain (p : ProgressMap) : option Slot -> Slot -> Prop :=
| chain_here c : root <= c -> chain p (Some c) c
| chain_prev c st q : root <= c -> get_propagated_stats p c = Some st -> chain p (prev_leader_slot st) q ->
    chain p (Some c) q.

(** What holds at the start of a chain holds along it. *)
Lemma informed_chain nv cs p cur q :
  progress_ok p -> stands p cur -> (forall c, cur = Some c -> root <= c -> informed nv cs p c) ->
  chain p cur q -> informed nv cs p q.
Proof.
  intros [Hp Hl] Hst Hin Hq. induction Hq as [c Hr|c st q Hr Hc Hq IH]; [by apply Hin|].
  destruct (Hst c eq_refl Hr) as (st0 & Hc0 & Hlead). assert (st0 = st) as -> by congruence.
  apply IH.
  - intros d Hd Hrd. destruct (so_prev p Hp c st d Hc Hd Hrd) as (_ & std & ? & ?). eauto.
  - intros d Hd Hrd. destruct (so_prev p Hp c st d Hc Hd Hrd) as (_ & std & Hgd & _).
    assert (Hlk : linked p c st d std) by done. destruct (Hl c st d std Hlk) as [A B].
    destruct (Hin c eq_refl Hr) as (st1 & Hc1 & H1). assert (st1 = st) as -> by congruence.
    exists std. split; [done|]. destruct (is_propagated std) eqn:Ed; [by left|right].
    assert (Hnp : is_propagated st = false) by (destruct (is_propagated st); [destruct (A eq_refl) as [?|[? ?]]; congruence|done]).
    destruct H1 as [?|[H1 H2]]; [congruence|].
    assert (Hsub : forall k, k ∈ propagated_validators st -> k ∈ propagated_validators std).
    { intros k Hk. destruct (B Hnp eq_refl k Hk) as [?|[? _]]; done. }
    split; [intros k Hk; auto|]. intros n k Hn Hk. apply Hsub, (H2 n k Hn). by rewrite (so_nodes p Hp c st d std Hlk n).
Qed.

Lemma grows_chain p p' cur q : grows p p' -> chain p cur q -> chain p' cur q.
Proof.
  intros Hg. induction 1 as [c Hr|c st q Hr Hc Hq IH]; [by constructor|].
  destruct (grows_stats p p' c st Hg Hc) as (st' & Hc' & G). econstructor; [done|done|]. by rewrite (gr_prev _ _ G).
Qed.

Lemma latest_leader_stands p s st :
  slots_ok p -> get_propagated_stats p s = Some st -> stands p (latest_leader_slot s st).
Proof.
  intros Hp Hs c Hc Hr. unfold latest_leader_slot in Hc. destruct (is_leader_slot st) eqn:El.
  - injection Hc as <-. eauto.
  - destruct (so_prev p Hp s st c Hs Hc Hr) as (_ & stc & ? & ?). eauto.
Qed.

Lemma update_fork_ok {E} p nv cs tip st :
  progress_ok p -> get_propagated_stats p tip = Some st ->
  exists p', @update_fork_propagated_threshold_from_votes E p nv cs tip bank_forks = Ok p' /\
    progress_ok p' /\ grows p p' /\ forall q, chain p (latest_leader_slot tip st) q -> informed nv cs p' q.
Proof.
  intros [Hp Hl] Hs. unfold update_fork_propagated_threshold_from_votes, get_latest_leader_slot_must_exist,
    get_propagated_stats_must_exist. rewrite Hs. cbn [expect obind].
  pose proof (latest_leader_stands p tip st Hp Hs) as Hst.
  destruct (@propagate_loop_ok E (S (size p)) p nv cs false (latest_leader_slot tip st)) as (p' & -> & Hok & Hg & Hin); [done| |done| |].
  - intros s0 st0 q0 stq Hlk. destruct (Hl s0 st0 q0 stq Hlk) as [A B]. split; [intros H; destruct (A H) as [?|[? _]]; [by left|done]|].
    intros H H' k Hk. destruct (B H H' k Hk) as [?|[? _]]; [by left|done].
  - destruct (latest_leader_slot tip st) as [c|]; cbn [fuel_for]; [|lia]. case_match; [lia|]. pose proof (rank_size p c). lia.
  - exists p'. split; [done|]. split; [done|]. split; [done|]. intros q Hq.
    eapply (informed_chain nv cs p' (latest_leader_slot tip st)); [done| |done|by eapply grows_chain].
    intros c Hc Hr. destruct (Hst c Hc Hr) as (stc & Hgc & Hlead). destruct (grows_stats p p' c stc Hg Hgc) as (stc' & ? & G).
    exists stc'. split; [done|]. by rewrite (gr_leader _ _ G).
Qed.

(** *** The trackers do not matter *)
Abbreviation visible := (set_trackers None None).

Lemma visible_get p p' s st' :
  visible <$> get_propagated_stats p s = visible <$> get_propagated_stats p' s -> get_propagated_stats p' s = Some st' ->
  exists st, get_propagated_stats p s = Some st /\ visible st = visible st'.
Proof.
  intros H Hs. rewrite Hs in H. destruct (get_propagated_stats p s) as [st|]; [|done].
  exists st. split; [done|]. exact (inj Some _ _ H).
Qed.

Lemma progress_ok_visible p p' :
  (forall s, visible <$> get_propagated_stats p s = visible <$> get_propagated_stats p' s) -> progress_ok p -> progress_ok p'.
Proof.
  intros Heq [[L P N] Hl].
  assert (Hlk : forall s st q stq, linked p' s st q stq -> exists st1 stq1, linked p s st1 q stq1 /\ visible st1 = visible st /\
    visible stq1 = visible stq).
  { intros s st q stq [H1 H2 H3 H4 H5]. apply (visible_get p) in H1 as ([] & G1 & V1); [|done].
    apply (visible_get p) in H5 as (stq1 & G2 & V2); [|done]. destruct st. injection V1 as -> -> -> -> -> -> ->.
    by eexists _, _. }
  split; [split|].
  - intros s st ([] & G & V)%(visible_get p) Hlead Hr; [|done]. destruct st. injection V as -> -> -> -> -> -> ->.
    exact (L s _ G Hlead Hr).
  - intros s st q ([] & G & V)%(visible_get p) Hq Hr; [|done]. destruct st. injection V as -> -> -> -> -> -> ->.
    destruct (P s _ q G Hq Hr) as (? & stq & Gq & Lq). split; [done|].
    symmetry in Heq. apply (visible_get p' p) in Gq as (stq' & ? & V); [|done]. exists stq'. split; [done|].
    destruct stq, stq'. by injection V as -> -> -> -> -> -> ->.
  - intros s st q stq (st1 & stq1 & H & _)%Hlk. by apply (N s st1 q stq1).
  - intros s st q stq (st1 & stq1 & H & V1 & V2)%Hlk. specialize (Hl s st1 q stq1 H). destruct Hl as [A B].
    destruct st1, st, stq1, stq. injection V1 as -> -> -> -> -> -> ->. injection V2 as -> -> -> -> -> -> ->. done.
Qed.
End Map.

(** ** The map as the replay stage builds it *)
Lemma set_trackers_grows p s st a b : get_propagated_stats p s = Some st -> grows p (set_propagated_stats s (set_trackers a b st) p).
Proof. intros Hs. by apply (set_stats_grows p s st). Qed.

Lemma bank_added bf p s bank :
  p !! s = None -> progress_ok bf p -> progress_ok (mkBankForks (<[s := bank]> (bf_banks bf)) (bf_root bf)) p.
Proof.
  intros Hs [[L P N] Hl]. set (bf' := mkBankForks _ _).
  assert (Hne : forall x st, get_propagated_stats p x = Some st -> bf_banks bf' !! x = bf_banks bf !! x).
  { intros x st Hx. cbn. apply lookup_insert_ne. intros ->. unfold get_propagated_stats in Hx. by rewrite Hs in Hx. }
  assert (Hst : forall x st, get_propagated_stats p x = Some st -> stakes_at bf' x = stakes_at bf x).
  { intros x st Hx. unfold stakes_at. by rewrite (Hne x st Hx). }
  assert (Hlk : forall x st q stq, linked bf' p x st q stq -> linked bf p x st q stq) by (by intros ? ? ? ? []).
  split; [split|].
  - intros x st Hx Hlead Hr. rewrite (Hst x st Hx), (Hne x st Hx). exact (L x st Hx Hlead Hr).
  - exact P.
  - intros x st q stq H n. apply Hlk in H. rewrite (Hst x st), (Hst q stq); [by apply (N x st q stq)|apply H|apply H].
  - intros x st q stq H%Hlk. destruct (Hl x st q stq H) as [A B]. split; [exact A|]. intros H1 H2 k Hk.
    destruct (B H1 H2 k Hk) as [?|[? _]]; [by left|done].
Qed.

(** A slot whose statistics are new *)
Lemma slot_added bf p s f :
  progress_ok bf p -> p !! s = None -> bf_root bf <= s ->
  (is_leader_slot (propagated_stats f) = true ->
     is_Some (bf_banks bf !! s ≫= bk_epoch_stakes) /\ counted_stake (stakes_at bf s) (propagated_stats f) /\
     nodes_covered (stakes_at bf s) (propagated_stats f) /\
     (is_propagated (propagated_stats f) = false ->
      superminority (propagated_validators_stake (propagated_stats f)) (ps_total_epoch_stake (propagated_stats f)) = false)) ->
  (forall q, prev_leader_slot (propagated_stats f) = Some q -> bf_root bf <= q ->
     q < s /\ exists st', get_propagated_stats p q = Some st' /\ is_leader_slot st' = true /\
       (is_leader_slot (propagated_stats f) = true -> propagated_validators (propagated_stats f) ⊆ propagated_validators st' /\
          (is_propagated (propagated_stats f) = true -> is_propagated st' = true) /\
          forall n, accounts_of (stakes_at bf s) n = accounts_of (stakes_at bf q) n)) ->
  progress_ok bf (<[s := f]> p).
Proof.
  intros [[L P N] Hl] Hs Hroot Hlead Hprev. set (st0 := propagated_stats f) in *.
  assert (Hget : forall x, get_propagated_stats (<[s := f]> p) x = if decide (x = s) then Some st0 else get_propagated_stats p x).
  { intros x. unfold get_propagated_stats. case_decide; [subst; by rewrite lookup_insert_eq|by rewrite lookup_insert_ne]. }
  assert (Hnone : get_propagated_stats p s = None) by (unfold get_propagated_stats; by rewrite Hs).
  assert (Hlk : forall x st q stq, linked bf (<[s := f]> p) x st q stq -> q <> s /\ get_propagated_stats p q = Some stq /\
    (x = s /\ st = st0 \/ x <> s /\ linked bf p x st q stq)).
  { intros x st q stq [H1 H2 H3 H4 H5]. rewrite Hget in H1, H5.
    assert (q <> s) as Hq.
    { intros ->. destruct (decide (x = s)) as [->|]; [injection H1 as <-; destruct (Hprev s H4 H3); lia|].
      destruct (P x st s H1 H4 H3) as (_ & stq' & ? & _). congruence. }
    rewrite decide_False in H5 by done. split; [done|]. split; [done|].
    destruct (decide (x = s)) as [->|]; [injection H1 as <-; by left|by right]. }
  split; [split|].
  - intros x st. rewrite Hget. case_decide; [|apply L]. intros [= <-] Hl0 _. subst x.
    destruct (Hlead Hl0) as (? & ? & ? & ?). done.
  - intros x st q Hx Hq Hr. rewrite Hget in Hx.
    assert (q < x /\ exists st', get_propagated_stats p q = Some st' /\ is_leader_slot st' = true) as (Hlt & st' & Hg & Hl').
    { case_decide; [simplify_eq; destruct (Hprev q Hq Hr) as (? & st' & ? & ? & _); eauto|by apply (P x st q)]. }
    split; [done|]. exists st'. rewrite Hget, decide_False; [done|]. intros ->. congruence.
  - intros x st q stq H. destruct (Hlk x st q stq H) as (Hq & Hg & [[-> ->]|[_ H']]); [|by apply (N x st q stq)].
    destruct (Hprev q) as (_ & st' & _ & _ & H'); [apply H|apply H|]. apply H', H.
  - intros x st q stq H. destruct (Hlk x st q stq H) as (Hq & Hg & [[-> ->]|[_ H']]); [|by apply (Hl x st q stq)].
    destruct (Hprev q) as (_ & st' & Hg' & _ & H'); [apply H|apply H|]. destruct (H' (lk_leader _ _ _ _ _ _ H)) as (Hsub & Hpr & _).
    simplify_eq. split; [intros Hp; left; by apply Hpr|].
    intros _ _ k Hk. left. by apply Hsub.
Qed.

(** A new root drops what is not kept in the bank forks. *)
Lemma root_set bf bf' p :
  progress_ok bf p -> bf_root bf <= bf_root bf' -> bf_banks bf' ⊆ bf_banks bf ->
  (forall s st q, is_Some (bf_banks bf' !! s) -> get_propagated_stats p s = Some st -> prev_leader_slot st = Some q ->
     bf_root bf' <= q -> is_Some (bf_banks bf' !! q)) ->
  progress_ok bf' (pm_handle_new_root bf' p).
Proof.
  intros [[L P N] Hl] Hr Hsub Hkeep.
  assert (Hget : forall x st, get_propagated_stats (pm_handle_new_root bf' p) x = Some st <->
    get_propagated_stats p x = Some st /\ is_Some (bf_banks bf' !! x)).
  { intros x st. unfold get_propagated_stats, pm_handle_new_root. rewrite !fmap_Some.
    setoid_rewrite map_lookup_filter_Some. cbn. naive_solver. }
  assert (Hb : forall x, is_Some (bf_banks bf' !! x) -> bf_banks bf' !! x = bf_banks bf !! x).
  { intros x [b Hx]. rewrite Hx. symmetry. by apply (lookup_weaken _ _ _ _ Hx). }
  assert (Hst : forall x, is_Some (bf_banks bf' !! x) -> stakes_at bf' x = stakes_at bf x).
  { intros x Hx. unfold stakes_at. by rewrite Hb. }
  assert (Hlk : forall x st q stq, linked bf' (pm_handle_new_root bf' p) x st q stq ->
    is_Some (bf_banks bf' !! x) /\ is_Some (bf_banks bf' !! q) /\ linked bf p x st q stq).
  { intros x st q stq [[H1 H1']%Hget H2 H3 H4 [H5 H5']%Hget]. split; [done|]. split; [done|]. split; try done. lia. }
  split; [split|].
  - intros x st [Hx Hx']%Hget Hlead Hrx. rewrite (Hst x Hx'), (Hb x Hx'). apply (L x st Hx Hlead). lia.
  - intros x st q [Hx Hx']%Hget Hq Hrq. destruct (P x st q Hx Hq) as (? & stq & ? & ?); [lia|]. split; [done|].
    exists stq. split; [|done]. apply Hget. split; [done|]. by eapply Hkeep.
  - intros x st q stq (Hx & Hq & H)%Hlk n. rewrite (Hst x Hx), (Hst q Hq). by apply (N x st q stq).
  - intros x st q stq (Hx & Hq & H)%Hlk. destruct (Hl x st q stq H) as [A B]. split; [exact A|]. intros H1 H2 k Hk.
    destruct (B H1 H2 k Hk) as [?|[? _]]; [by left|done].
Qed.

(** *** The steps of the replay stage *)
Section Stage.
Context (identity vote_key : Pubkey).

(** The validator's own vote counts for its own blocks. *)
Definition own_votes (p : ProgressMap) : Prop :=
  forall s st, get_propagated_stats p s = Some st -> is_leader_slot st = true -> vote_key ∈ propagated_validators st.

(** A bank that may get its entry of the map: its parent is older.  If the validator
    leads it, then between the epoch of its previous leader slot and that of the bank
    no node changes its vote accounts, and the validator's own stake exceeds a third
    only if the block of the previous leader slot has spread. *)
Definition stakes_of_bank (bank : Bank) : BankEpochStakes := default no_stakes (bk_epoch_stakes bank).
Record bank_fits (bf : BankForks) (p : ProgressMap) (bank : Bank) : Prop := {
  bf_new : p !! bk_slot bank = None;
  bf_after_root : bf_root bf <= bk_slot bank;
  bf_parent : bk_parent_slot bank < bk_slot bank;
  bf_typed : in_u64 (stake_of (stakes_of_bank bank) vote_key);
  bf_epochs q st : bk_collector_id bank = identity -> get_bank_prev_leader_slot p bank = Some q -> bf_root bf <= q ->
    get_propagated_stats p q = Some st ->
    (forall n, accounts_of (stakes_of_bank bank) n = accounts_of (stakes_at bf q) n) /\
    (superminority (stake_of (stakes_of_bank bank) vote_key) (es_total_stake (stakes_of_bank bank)) = true -> is_propagated st = true)
}.

Inductive progress_reachable : BankForks -> ProgressMap -> Prop :=
| pr_empty root : progress_reachable (mkBankForks ∅ root) ∅
| pr_bank bf p bank now blocks dropped f :
    progress_reachable bf p -> bank_fits bf p bank ->
    @new_from_bank Empty_set now bank identity vote_key (get_bank_prev_leader_slot p bank) blocks dropped = Ok f ->
    progress_reachable (mkBankForks (<[bk_slot bank := bank]> (bf_banks bf)) (bf_root bf)) (<[bk_slot bank := f]> p)
| pr_votes bf p s t p' t' :
    progress_reachable bf p -> @update_propagation_status Empty_set p s bf t = Ok (p', t') -> progress_reachable bf p'
| pr_root bf bf' p :
    progress_reachable bf p -> bf_root bf <= bf_root bf' -> bf_banks bf' ⊆ bf_banks bf ->
    (forall s st q, is_Some (bf_banks bf' !! s) -> get_propagated_stats p s = Some st -> prev_leader_slot st = Some q ->
       bf_root bf' <= q -> is_Some (bf_banks bf' !! q)) ->
    progress_reachable bf' (pm_handle_new_root bf' p).

(** What the trackers of a slot report *)
Definition reported (s : Slot) (st : PropagatedStats) (t : Trackers) : list Pubkey * list Pubkey :=
  ((get_voted_slot_updates (or_lookup (slot_vote_tracker st) (slot_vote_trackers t !! s)) t).1,
   default [] (h ← or_lookup (cluster_slot_pubkeys st) (cluster_slots t !! s); slot_pubkeys t !! h)).

Lemma own_votes_grows p p' : own_votes p -> grows p p' -> own_votes p'.
Proof.
  intros Ho Hg s st' Hs Hl. specialize (Hg s). unfold get_propagated_stats in Hs.
  destruct (p' !! s) as [f'|] eqn:E'; [|done]. injection Hs as <-. destruct (p !! s) as [f|] eqn:E; [|done].
  destruct Hg as (st' & [= ->] & [G1 _ G3 _]). cbn in *. apply G3, (Ho s); [unfold get_propagated_stats; by rewrite E|congruence].
Qed.

Lemma status_ok {E} bf p s st t :
  progress_ok bf p -> get_propagated_stats p s = Some st ->
  exists p' t', @update_propagation_status E p s bf t = Ok (p', t') /\ progress_ok bf p' /\ grows p p' /\
    forall q, chain bf p (latest_leader_slot s st) q -> informed bf (reported s st t).1 (reported s st t).2 p' q.
Proof.
  intros Hok Hs. unfold update_propagation_status, get_leader_propagation_slot_must_exist,
    get_latest_leader_slot_must_exist, get_propagated_stats_must_exist. rewrite Hs. cbn [expect obind].
  pose proof (latest_leader_stands bf p s st (proj1 Hok) Hs) as Hst.
  destruct (match latest_leader_slot s st with Some l => (default true (pm_is_propagated p l), Some l) | None => (true, None) end)
    as [confirmed l] eqn:Ec. destruct confirmed.
  - exists p, t. split; [done|]. split; [done|]. split; [apply grows_refl|]. intros q.
    apply (informed_chain bf _ _ p _ q Hok Hst). intros c Hc Hr. destruct (Hst c Hc Hr) as (stc & Hgc & _).
    exists stc. split; [done|]. left. rewrite Hc in Ec. unfold pm_is_propagated in Ec. rewrite Hgc in Ec.
    cbn in Ec. by injection Ec.
  - cbn [expect obind]. set (st1 := set_trackers _ _ st). set (p1 := set_propagated_stats s st1 p).
    assert (Hs1 : get_propagated_stats p1 s = Some st1) by (unfold p1; rewrite set_stats_lookup, decide_True, Hs by done; done).
    assert (Hok1 : progress_ok bf p1).
    { apply (progress_ok_visible bf p); [|done]. intros x. unfold p1. rewrite set_stats_lookup. case_decide; [|done].
      subst. by rewrite Hs. }
    pose proof (set_trackers_grows p s st _ _ Hs : grows p p1) as Hg1.
    unfold reported. set (tracker := or_lookup (slot_vote_tracker st) _) in *.
    set (cluster := or_lookup (cluster_slot_pubkeys st) _) in *.
    assert (Ht : slot_pubkeys (get_voted_slot_updates tracker t).2 = slot_pubkeys t) by (by destruct tracker).
    destruct (get_voted_slot_updates tracker t) as [nv t'] eqn:Et. cbn in Ht |- *. rewrite Ht.
    destruct (@update_fork_ok bf E p1 nv (default [] (h ← cluster; slot_pubkeys t !! h)) s st1 Hok1 Hs1)
      as (p' & Hrun & Hok' & Hg' & Hin). cbn in Hrun. rewrite Hrun. cbn [obind].
    exists p', t'. split; [done|]. split; [done|]. split; [by eapply grows_trans|].
    intros q Hq. apply Hin. by apply (grows_chain bf p p1).
Qed.

(** The previous leader slot of a new bank is the latest of its parent. *)
Lemma prev_leader_of bf p bank q :
  progress_ok bf p -> get_bank_prev_leader_slot p bank = Some q -> bf_root bf <= q -> bk_parent_slot bank < bk_slot bank ->
  q < bk_slot bank /\ exists st, get_propagated_stats p q = Some st /\ is_leader_slot st = true.
Proof.
  intros [Hp _] Hq Hr Hlt. unfold get_bank_prev_leader_slot in Hq.
  destruct (get_propagated_stats p (bk_parent_slot bank)) as [stp|] eqn:Ep; [|done]. cbn in Hq.
  destruct (latest_leader_stands bf p _ stp Hp Ep q Hq Hr) as (st & Hg & Hl). split; [|eauto].
  unfold latest_leader_slot in Hq. destruct (is_leader_slot stp); [injection Hq as <-; done|].
  destruct (so_prev bf p Hp _ stp q Ep Hq Hr). lia.
Qed.

Lemma new_from_bank_stats bank now prev blocks dropped f :
  @new_from_bank Empty_set now bank identity vote_key prev blocks dropped = Ok f ->
  let es := stakes_of_bank bank in
  if bk_collector_id bank =? identity
  then is_Some (bk_epoch_stakes bank) /\ propagated_stats f =
    mkPropagatedStats {[vote_key]} ∅ (stake_of es vote_key) (superminority (stake_of es vote_key) (es_total_stake es)) true prev None None
      (es_total_stake es)
  else propagated_stats f = mkPropagatedStats ∅ ∅ 0 false false prev None None 0.
Proof.
  unfold new_from_bank, epoch_vote_account_stake, total_epoch_stake, fork_progress_new, stakes_of_bank. cbn zeta.
  destruct (bk_collector_id bank =? identity); cbn [obind]; [|destruct (bk_is_frozen bank); by intros [= <-]].
  destruct (bk_epoch_stakes bank) as [es|]; [|done]. cbn [expect obind]. intros H. split; [by eexists|].
  destruct (bk_is_frozen bank); by injection H as <-.
Qed.

Lemma bank_step bf p bank now blocks dropped f :
  progress_ok bf p -> own_votes p -> bank_fits bf p bank ->
  @new_from_bank Empty_set now bank identity vote_key (get_bank_prev_leader_slot p bank) blocks dropped = Ok f ->
  progress_ok (mkBankForks (<[bk_slot bank := bank]> (bf_banks bf)) (bf_root bf)) (<[bk_slot bank := f]> p) /\
  own_votes (<[bk_slot bank := f]> p).
Proof.
  intros Hok Hown [Hnew Hroot Hpar Hu Hep] Hrun%new_from_bank_stats. cbn zeta in Hrun.
  set (bf' := mkBankForks _ _). set (es := stakes_of_bank bank) in *.
  assert (Hstat : stakes_at bf' (bk_slot bank) = es).
  { unfold stakes_at, bf'. cbn. by rewrite lookup_insert_eq. }
  assert (Hq : prev_leader_slot (propagated_stats f) = get_bank_prev_leader_slot p bank).
  { destruct (bk_collector_id bank =? identity); [destruct Hrun as [_ ->]|rewrite Hrun]; done. }
  assert (Hlead : is_leader_slot (propagated_stats f) = (bk_collector_id bank =? identity)).
  { destruct (bk_collector_id bank =? identity); [destruct Hrun as [_ ->]|rewrite Hrun]; done. }
  split.
  - apply slot_added; [by apply bank_added|done|done| |]; rewrite Hlead.
    + intros Hid. rewrite Hid in Hrun. destruct Hrun as [Hes ->]. rewrite Hstat.
      split; [unfold bf'; cbn; by rewrite lookup_insert_eq|]. split; [|split; [|done]].
      * unfold counted_stake. cbn [propagated_validators propagated_validators_stake]. rewrite elements_singleton. cbn.
        rewrite Z.add_0_r. symmetry. by apply wrap64_small.
      * intros n k. cbn. by intros ?%not_elem_of_empty.
    + rewrite Hq. intros q Hq' Hr. cbn in Hr.
      destruct (prev_leader_of bf p bank q Hok Hq' Hr Hpar) as (Hlt & st & Hg & Hl). split; [done|]. exists st.
      split; [done|]. split; [done|]. intros Hid. rewrite Hid in Hrun. destruct Hrun as [_ ->].
      destruct (Hep q st (proj1 (Z.eqb_eq _ _) Hid) Hq' Hr Hg) as [Hnodes Hsup]. split; [|split; [exact Hsup|]].
      * intros k. cbn. rewrite elem_of_singleton. intros ->. by apply (Hown q).
      * intros n. rewrite Hstat, Hnodes. unfold stakes_at, bf'. cbn. rewrite lookup_insert_ne; [done|lia].
  - intros s st. unfold get_propagated_stats. destruct (decide (s = bk_slot bank)) as [->|Hne].
    + rewrite lookup_insert_eq. cbn. intros [= <-]. rewrite Hlead. intros Hid. rewrite Hid in Hrun. destruct Hrun as [_ ->]. cbn. set_solver.
    + rewrite lookup_insert_ne by done. apply Hown.
Qed.

Lemma progress_reachable_ok bf p : progress_reachable bf p -> progress_ok bf p /\ own_votes p.
Proof.
  induction 1 as [root|bf p bank now blocks dropped f _ [IH IHo] Hfit Hrun|bf p s t p' t' _ [IH IHo] Hrun|bf bf' p _ [IH IHo] Hr Hsub Hkeep].
  - split; [|by intros s st]. split; [split; by intros|]. by intros s st q stq [].
  - by eapply bank_step.
  - destruct (get_propagated_stats p s) as [st|] eqn:Es.
    + destruct (@status_ok Empty_set bf p s st t IH Es) as (p1 & t1 & Hrun1 & Hok & Hg & _).
      rewrite Hrun in Hrun1. injection Hrun1 as <- <-. split; [done|]. by eapply own_votes_grows.
    + exfalso. revert Hrun. unfold update_propagation_status, get_leader_propagation_slot_must_exist,
        get_latest_leader_slot_must_exist, get_propagated_stats_must_exist. by rewrite Es.
  - split; [by eapply root_set|]. intros s st. unfold get_propagated_stats, pm_handle_new_root. rewrite fmap_Some.
    intros (f & Hf%map_lookup_filter_Some & ->). apply (IHo s). unfold get_propagated_stats. by destruct Hf as [-> _].
Qed.

End Stage.
