(* ===== verification/PropagationSample.v ===== *)
(** * Leader blocks spreading: sample runs

    A fork with two leader slots, and what becomes of a vote when the vote
    accounts of a node change between their epochs. *)

From S2P Require Import Prelude InstructionError AuthorizedVoters VoteState VoteProcess Credits Tower VoteSafety ForkChoice FrozenVotes ValidatorTower TowerSafety VoteLockouts ProgressMap Propagation.

(** The validator has identity 9 and votes with 10; node 7 votes with [keys]. *)
Definition stakes_with (keys : list Pubkey) : BankEpochStakes :=
  mkBankEpochStakes {[10 := 5; 11 := 10; 12 := 12; 13 := 4]} {[7 := keys]} 100.
Definition block (s parent leader : Z) (keys : list Pubkey) : Bank :=
  mkBank s (100 * s) parent leader true (Some (stakes_with keys)) [] [] s.

(** Slots 1 and 3 are the validator's own. *)
Definition bank1 : Bank := block 1 0 9 [12].
Definition bank2 : Bank := block 2 1 8 [12].
Definition bank3 : Bank := block 3 2 9 [12].
Definition entry (p : ProgressMap) (bank : Bank) : ForkProgress :=
  match @new_from_bank Empty_set 0 bank 9 10 (get_bank_prev_leader_slot p bank) 0 0 with
  | Ok f => f
  | _ => fork_progress_new 0 None None 0 0
  end.
Definition map1 : ProgressMap := <[1 := entry ∅ bank1]> ∅.
Definition map2 : ProgressMap := <[2 := entry map1 bank2]> map1.
Definition map3 : ProgressMap := <[3 := entry map2 bank3]> map2.
Definition forks3 : BankForks := mkBankForks (<[3 := bank3]> (<[2 := bank2]> (<[1 := bank1]> ∅))) 0.

Lemma bank_fits_sample bf p s parent leader :
  bf_root bf = 0 -> p !! s = None -> 0 <= s -> parent < s ->
  (forall q, get_bank_prev_leader_slot p (block s parent leader [12]) = Some q -> stakes_at bf q = stakes_with [12]) ->
  bank_fits 9 10 bf p (block s parent leader [12]).
Proof.
  intros Hr Hn Hs Hp Hst. split; cbn; [done|lia|done|vm_compute; split; congruence|].
  intros q st _ Hq _ _. rewrite (Hst q Hq). split; [done|]. intros H. vm_compute in H. discriminate.
Qed.

Lemma map_step bf p bank :
  progress_reachable 9 10 bf p -> bank_fits 9 10 bf p bank ->
  @new_from_bank Empty_set 0 bank 9 10 (get_bank_prev_leader_slot p bank) 0 0 = Ok (entry p bank) ->
  progress_reachable 9 10 (mkBankForks (<[bk_slot bank := bank]> (bf_banks bf)) (bf_root bf)) (<[bk_slot bank := entry p bank]> p).
Proof. apply pr_bank. Qed.

Lemma map3_reachable : progress_reachable 9 10 forks3 map3.
Proof.
  assert (H1 : progress_reachable 9 10 (mkBankForks (<[1 := bank1]> ∅) 0) map1).
  { apply (map_step (mkBankForks ∅ 0) ∅ bank1); [constructor| |by vm_compute].
    apply bank_fits_sample; [done|done|lia|lia|]. vm_compute. intros q [=]. }
  assert (H2 : progress_reachable 9 10 (mkBankForks (<[2 := bank2]> (<[1 := bank1]> ∅)) 0) map2).
  { apply (map_step _ map1 bank2 H1); [|by vm_compute].
    apply bank_fits_sample; [done|done|lia|lia|]. vm_compute. by intros q [= <-]. }
  apply (map_step _ map2 bank3 H2); [|by vm_compute].
  apply bank_fits_sample; [done|done|lia|lia|]. vm_compute. by intros q [= <-].
Qed.

(** 11 voted for slot 3, and node 7 has seen it. *)
Definition sample_trackers : Trackers := mkTrackers {[3 := 1]} {[1 := [11]]} {[3 := 2]} {[2 := [7]]}.
Definition stats3 : PropagatedStats := propagated_stats (entry map2 bank3).


(** ** Leader slots of different epochs

    The walk drops a voter that the later slot knows, as every earlier one must
    know it as well.  When a node's vote accounts differ between the epochs of the
    two slots this fails: the later slot learnt of voter 12 from node 7, whose
    account was 13 in the epoch of the earlier slot, so the vote of 12 does not
    reach the earlier slot. *)
Definition old_bank1 : Bank := block 1 0 9 [13].
Definition old_forks3 : BankForks := mkBankForks (<[3 := bank3]> (<[2 := bank2]> (<[1 := old_bank1]> ∅))) 0.

Lemma voter_lost_across_epochs :
  exists p1 p2 st1 st3,
    @update_fork_propagated_threshold_from_votes Empty_set map3 [] [7] 3 old_forks3 = Ok p1 /\
    @update_fork_propagated_threshold_from_votes Empty_set p1 [12] [] 3 old_forks3 = Ok p2 /\
    get_propagated_stats p2 3 = Some st3 /\ get_propagated_stats p2 1 = Some st1 /\
    is_propagated st3 = false /\ is_propagated st1 = false /\
    (12 : Pubkey) ∈ propagated_validators st3 /\ (12 : Pubkey) ∉ propagated_validators st1.
Proof.
  eexists _, _, _, _. split; [vm_compute; reflexivity|]. split; [vm_compute; reflexivity|].
  split; [vm_compute; reflexivity|]. split; [vm_compute; reflexivity|]. split; [reflexivity|]. split; [reflexivity|].
  split; [apply (bool_decide_eq_true_1 (_ ∈ _)); vm_compute; reflexivity|].
  apply (bool_decide_eq_true_1 (_ ∉ _)); vm_compute; reflexivity.
Qed.
