(* ===== verification/SwitchFork.v ===== *)
(** * Switching forks

    A validator may leave the fork of its last vote only with a proof that enough
    stake is locked out on other forks.  [check_switch_threshold] of
    [fdp-solana/core/src/consensus.rs] adds up that stake from the lockout
    intervals of the banks at the tips of other forks and from the latest votes
    seen in gossip. *)

From stdpp Require Import sorting.
From S2P Require Import Prelude InstructionError AuthorizedVoters VoteState VoteProcess Credits Tower VoteSafety ForkChoice FrozenVotes ValidatorTower TowerSafety VoteLockouts ProgressMap Propagation.

Definition is_candidate_slot_descendant_of_last_vote (candidate_slot last_voted_slot : Slot)
    (ancestors : gmap Slot (gset Slot)) : option bool :=
  (fun a : gset Slot => bool_decide (last_voted_slot ∈ a)) <$> ancestors !! candidate_slot.

Section Switch.
Context (ancestors : gmap Slot (gset Slot)).
(** In the order of the hash map's iteration *)
Context (descendants : list (Slot * gset Slot)).
Context (progress : ProgressMap) (total_stake : Stake) (epoch_vote_accounts : gmap Pubkey Stake).

(** The stake that is locked out so far, and its accounts *)
Record LockedOut := mkLockedOut { locked_out_stake : Stake; locked_out_vote_accounts : gset Pubkey }.

(** Counts an account; [None] where the function returns with a proof. *)
Definition count_account (key : Pubkey) (st : LockedOut) : option LockedOut :=
  let stake := wrap64 (locked_out_stake st + default 0 (epoch_vote_accounts !! key)) in
  if f64_ltb SWITCH_FORK_THRESHOLD (stake_ratio stake total_stake) then None
  else Some (mkLockedOut stake ({[key]} ∪ locked_out_vote_accounts st)).

Section LastVote.
Context (last_voted_slot root : Slot) (last_vote_ancestors : gset Slot).

(** [lockout_intervals.range((Included(last_voted_slot), Unbounded))] *)
Definition intervals_from (intervals : LockoutIntervals) : list (Slot * Pubkey) :=
  e ← merge_sort Z.le (filter (fun e => last_voted_slot <= e) (map_to_list intervals).*1);
  default [] (intervals !! e).

Fixpoint scan_intervals (intervals : list (Slot * Pubkey)) (st : LockedOut) : option LockedOut :=
  match intervals with
  | [] => Some st
  | (start, key) :: intervals =>
      if bool_decide (key ∈ locked_out_vote_accounts st) then scan_intervals intervals st
      else if negb (bool_decide (start ∈ last_vote_ancestors)) && (root <? start)
      then st ← count_account key st; scan_intervals intervals st
      else scan_intervals intervals st
  end.

Definition is_computed (s : Slot) : bool := default false (fs_computed <$> get_fork_stats progress s).

Definition skip_candidate (candidate_slot : Slot) (candidate_descendants : gset Slot) : outcome TowerError bool :=
  if negb (is_computed candidate_slot) then Ok true
  else if existsb is_computed (elements candidate_descendants) then Ok true
  else if candidate_slot =? last_voted_slot then Ok true
  else
    descendant ←? expect (is_candidate_slot_descendant_of_last_vote candidate_slot last_voted_slot ancestors);
    Ok (descendant || (candidate_slot <=? root)).

Fixpoint scan_candidates (candidates : list (Slot * gset Slot)) (st : LockedOut) : outcome TowerError (option LockedOut) :=
  match candidates with
  | [] => Ok (Some st)
  | (candidate_slot, candidate_descendants) :: candidates =>
      skip ←? skip_candidate candidate_slot candidate_descendants;
      if skip : bool then scan_candidates candidates st
      else
        _ ←? rust_assert (negb (bool_decide (candidate_slot ∈ last_vote_ancestors)));
        f ←? expect (progress !! candidate_slot);
        match scan_intervals (intervals_from (fs_lockout_intervals (fork_stats f))) st with
        | Some st => scan_candidates candidates st
        | None => Ok None
        end
  end.

(** The latest votes seen in gossip *)
Fixpoint scan_gossip (votes : list (Pubkey * (Slot * list Hash))) (st : LockedOut) : option LockedOut :=
  match votes with
  | [] => Some st
  | (key, (candidate, _)) :: votes =>
      if bool_decide (key ∈ locked_out_vote_accounts st) then scan_gossip votes st
      else if (last_voted_slot <? candidate)
              && negb (default true (is_candidate_slot_descendant_of_last_vote candidate last_voted_slot ancestors))
      then st ← count_account key st; scan_gossip votes st
      else scan_gossip votes st
  end.

(** The proof is the default hash. *)
Definition count_locked_out (latest : LatestValidatorVotesForFrozenBanks) : outcome TowerError SwitchForkDecision :=
  st ←? scan_candidates descendants (mkLockedOut 0 ∅);
  Ok match st ≫= scan_gossip (map_to_list (max_gossip_frozen_votes latest)) with
     | Some st => FailedSwitchThreshold (locked_out_stake st) total_stake
     | None => SwitchProof hash_default
     end.
End LastVote.

(** The rest of the checks, after those for a rolled back vote *)
Definition check_other_fork (self : Tower) (switch_slot last_voted_slot root : Slot)
    (latest : LatestValidatorVotesForFrozenBanks) : outcome TowerError SwitchForkDecision :=
  last_vote_ancestors ←?
    match ancestors !! last_voted_slot with
    | Some a => Ok a
    | None => stray ←? is_stray_last_vote self; if stray : bool then Ok ∅ else Panic
    end;
  switch_slot_ancestors ←? expect (ancestors !! switch_slot);
  if (switch_slot =? last_voted_slot) || bool_decide (last_voted_slot ∈ switch_slot_ancestors) then Ok SameFork
  else if bool_decide (switch_slot ∈ last_vote_ancestors) then
    stray ←? is_stray_last_vote self;
    if stray : bool then Ok (FailedSwitchThreshold 0 total_stake) else Panic
  else count_locked_out last_voted_slot root last_vote_ancestors latest.

Definition make_check_switch_threshold_decision (self : Tower) (switch_slot : Slot)
    (latest : LatestValidatorVotesForFrozenBanks) (fork_choice : HeaviestSubtreeForkChoice)
    : outcome TowerError SwitchForkDecision :=
  last ←? last_voted_slot_hash self;
  match last with
  | None => Ok SameFork
  | Some (last_voted_slot, last_voted_hash) =>
      root ←? tower_root self;
      switch_hash ←? expect (get_hash progress switch_slot);
      match get_latest_invalid_ancestor fork_choice (last_voted_slot, last_voted_hash) with
      | Some latest_duplicate_ancestor =>
          if is_strict_ancestor fork_choice (switch_slot, switch_hash) (last_voted_slot, last_voted_hash)
          then Ok (FailedSwitchDuplicateRollback latest_duplicate_ancestor)
          else if default true ((fun h => negb (h =? last_voted_hash)) <$> get_hash progress last_voted_slot)
          then Ok (SwitchProof hash_default)
          else check_other_fork self switch_slot last_voted_slot root latest
      | None => check_other_fork self switch_slot last_voted_slot root latest
      end
  end.

Definition check_switch_threshold (switch_slot : Slot) (latest : LatestValidatorVotesForFrozenBanks)
    (fork_choice : HeaviestSubtreeForkChoice) (self : Tower) : outcome TowerError (Tower * SwitchForkDecision) :=
  decision ←? make_check_switch_threshold_decision self switch_slot latest fork_choice;
  let new_check := Some (switch_slot, decision) in
  Ok (if bool_decide (new_check = last_switch_threshold_check self) then self else with_switch_check new_check self, decision).
End Switch.
