(* ===== verification/SwitchSafety.v ===== *)
(** * A switch needs locked-out stake

    The stake that [check_switch_threshold] counts is that of the accounts with a
    lockout on another fork, each counted once, in whatever order banks and votes
    are visited. *)

From S2P Require Import Prelude InstructionError AuthorizedVoters VoteState VoteProcess Credits Tower VoteSafety ForkChoice FrozenVotes ValidatorTower TowerSafety VoteLockouts ProgressMap Propagation SwitchFork.

Lemma stake_ratio_zero total : f64_ltb SWITCH_FORK_THRESHOLD (stake_ratio 0 total) = false.
Proof.
  unfold stake_ratio, f64_div. change (f64_of_u64 0) with (SpecFloat.S754_zero false).
  by destruct (f64_of_u64 total) as [[]|[]| |[]].
Qed.

Section Safety.
Context (ancestors : gmap Slot (gset Slot)) (descendants : list (Slot * gset Slot)).
Context (progress : ProgressMap) (total_stake : Stake) (epoch_vote_accounts : gmap Pubkey Stake).

Definition account_stake (k : Pubkey) : Stake := default 0 (epoch_vote_accounts !! k).
(** The stake of a set of accounts, as a [u64] *)
Definition stake_sum (X : gset Pubkey) : Stake := wrap64 (sum_of account_stake (elements X)).
Definition above (stake : Stake) : bool := f64_ltb SWITCH_FORK_THRESHOLD (stake_ratio stake total_stake).

Record sound_count (st : LockedOut) : Prop := {
  sd_stake : locked_out_stake st = stake_sum (locked_out_vote_accounts st);
  sd_below : above (locked_out_stake st) = false
}.

(** Scanning counts exactly the accounts in [P], or finds that some of them are
    above the threshold. *)
Definition scanned (P : Pubkey -> Prop) (st : LockedOut) (r : option LockedOut) : Prop :=
  match r with
  | Some st' => sound_count st' /\ forall k, k ∈ locked_out_vote_accounts st' <-> k ∈ locked_out_vote_accounts st \/ P k
  | None => exists X : gset Pubkey, (forall k, k ∈ X -> k ∈ locked_out_vote_accounts st \/ P k) /\ above (stake_sum X) = true
  end.

Lemma scanned_ext (P Q : Pubkey -> Prop) st r : (forall k, P k <-> Q k) -> scanned P st r -> scanned Q st r.
Proof.
  intros H. destruct r as [st'|]; cbn.
  - intros [Hs Hk]. split; [done|]. intros k. by rewrite Hk, H.
  - intros (X & Hx & Ha). exists X. split; [|done]. intros k Hk. rewrite <-H. by apply Hx.
Qed.

Lemma scanned_trans (P Q : Pubkey -> Prop) st st1 r :
  scanned P st (Some st1) -> scanned Q st1 r -> scanned (fun k => P k \/ Q k) st r.
Proof.
  intros [Hs Hk] H2. destruct r as [st2|]; cbn in *.
  - destruct H2 as [Hs2 Hk2]. split; [done|]. intros k. rewrite Hk2, Hk. tauto.
  - destruct H2 as (X & Hx & Ha). exists X. split; [|done]. intros k Hkx. apply Hx in Hkx. rewrite Hk in Hkx. tauto.
Qed.
Lemma scanned_stop (P Q : Pubkey -> Prop) st : scanned P st None -> scanned (fun k => P k \/ Q k) st None.
Proof. intros (X & Hx & Ha). exists X. split; [|done]. intros k Hk. apply Hx in Hk. tauto. Qed.
Lemma scanned_bind (P Q : Pubkey -> Prop) st r f :
  scanned P st r -> (forall st', sound_count st' -> scanned Q st' (f st')) -> scanned (fun k => P k \/ Q k) st (r ≫= f).
Proof. intros H1 H2. destruct r as [st1|]; [|by apply scanned_stop]. eapply scanned_trans; [done|]. apply H2, H1. Qed.

Lemma scanned_done st : sound_count st -> scanned (fun _ => False) st (Some st).
Proof. intros H. split; [done|]. tauto. Qed.

Lemma count_account_ok key st :
  sound_count st -> key ∉ locked_out_vote_accounts st ->
  scanned (fun k => k = key) st (count_account total_stake epoch_vote_accounts key st).
Proof.
  intros [Hs _] Hk. unfold count_account. fold (account_stake key).
  assert (Hsum : wrap64 (locked_out_stake st + account_stake key) = stake_sum ({[key]} ∪ locked_out_vote_accounts st)).
  { rewrite Hs. unfold stake_sum. rewrite (sum_of_perm _ (elements ({[key]} ∪ _)) (key :: elements (locked_out_vote_accounts st)));
      [|by apply elements_union_singleton]. rewrite wrap64_add_l, Z.add_comm. reflexivity. }
  destruct (f64_ltb _ _) eqn:Ea; cbn.
  - exists ({[key]} ∪ locked_out_vote_accounts st). split; [intros k; rewrite elem_of_union, elem_of_singleton; tauto|]. by rewrite <-Hsum.
  - split; [by split|]. intros k. rewrite elem_of_union, elem_of_singleton. tauto.
Qed.

(** One entry of a scan: skipped if its account is counted, counted if it holds *)
Lemma scan_entry (b : bool) key st (f : LockedOut -> option LockedOut) (Q : Pubkey -> Prop) :
  sound_count st -> (forall st', sound_count st' -> scanned Q st' (f st')) ->
  scanned (fun k => (k = key /\ b = true) \/ Q k) st
    (if bool_decide (key ∈ locked_out_vote_accounts st) then f st
     else if b then st' ← count_account total_stake epoch_vote_accounts key st; f st' else f st).
Proof.
  intros Hs Hf. case_bool_decide as Hk.
  - specialize (Hf st Hs). destruct (f st) as [st'|]; cbn in *.
    + destruct Hf as [? H]. split; [done|]. intros k. rewrite H. naive_solver.
    + destruct Hf as (X & Hx & ?). exists X. split; [|done]. intros k Hkx. apply Hx in Hkx. tauto.
  - destruct b.
    + eapply scanned_ext; [|apply scanned_bind; [by apply count_account_ok|exact Hf]]. cbn. tauto.
    + eapply scanned_ext; [|by apply Hf]. cbn. naive_solver.
Qed.

Section LastVote.
Context (last_voted_slot root : Slot) (last_vote_ancestors : gset Slot).

(** An account is locked out on another fork at the last vote. *)
Definition locked_out_by (intervals : LockoutIntervals) (k : Pubkey) : Prop :=
  exists s e, has_interval intervals k s e /\ last_voted_slot <= e /\ s ∉ last_vote_ancestors /\ root < s.
Definition is_tip (c : Slot) (ds : gset Slot) : Prop :=
  is_computed progress c = true /\ (forall d, d ∈ ds -> is_computed progress d = false) /\ c <> last_voted_slot /\
  root < c /\ exists a, ancestors !! c = Some a /\ last_voted_slot ∉ a.
Definition locked_out_at_tips (candidates : list (Slot * gset Slot)) (k : Pubkey) : Prop :=
  exists c ds f, (c, ds) ∈ candidates /\ is_tip c ds /\ progress !! c = Some f /\ locked_out_by (fs_lockout_intervals (fork_stats f)) k.
Definition voted_elsewhere (latest : LatestValidatorVotesForFrozenBanks) (k : Pubkey) : Prop :=
  exists s hs a, max_gossip_frozen_votes latest !! k = Some (s, hs) /\ last_voted_slot < s /\ ancestors !! s = Some a /\
    last_voted_slot ∉ a.

Lemma scan_intervals_ok l st :
  sound_count st ->
  scanned (fun k => exists s, (s, k) ∈ l /\ s ∉ last_vote_ancestors /\ root < s) st
    (scan_intervals total_stake epoch_vote_accounts root last_vote_ancestors l st).
Proof.
  revert st. induction l as [|[s key] l IH]; intros st Hs; cbn [scan_intervals].
  - eapply scanned_ext; [|by apply scanned_done]. intros k. cbn. setoid_rewrite elem_of_nil. naive_solver.
  - eapply scanned_ext; [|by apply scan_entry]. intros k. cbn. rewrite andb_true_iff, negb_true_iff, bool_decide_eq_false, Z.ltb_lt.
    setoid_rewrite elem_of_cons. naive_solver.
Qed.

Lemma intervals_from_elem intervals s k :
  (s, k) ∈ intervals_from last_voted_slot intervals <-> exists e, has_interval intervals k s e /\ last_voted_slot <= e.
Proof.
  unfold intervals_from, has_interval. rewrite list_elem_of_bind. split.
  - intros (e & Hin & He). rewrite sorting.merge_sort_Permutation, list_elem_of_filter in He. naive_solver.
  - intros (e & Hin & He). exists e. split; [done|]. rewrite sorting.merge_sort_Permutation, list_elem_of_filter. split; [done|].
    destruct (intervals !! e) as [l|] eqn:E; [|cbn in Hin; by apply elem_of_nil in Hin].
    apply list_elem_of_fmap. exists (e, l). split; [done|]. by apply elem_of_map_to_list.
Qed.

Lemma scan_tip_ok intervals st :
  sound_count st ->
  scanned (locked_out_by intervals) st
    (scan_intervals total_stake epoch_vote_accounts root last_vote_ancestors (intervals_from last_voted_slot intervals) st).
Proof.
  intros Hs. eapply scanned_ext; [|by apply scan_intervals_ok]. intros k. cbn. setoid_rewrite intervals_from_elem.
  unfold locked_out_by. naive_solver.
Qed.

Lemma scan_gossip_ok l st :
  sound_count st ->
  scanned (fun k => exists s hs a, (k, (s, hs)) ∈ l /\ last_voted_slot < s /\ ancestors !! s = Some a /\ last_voted_slot ∉ a) st
    (scan_gossip ancestors total_stake epoch_vote_accounts last_voted_slot l st).
Proof.
  revert st. induction l as [|[key [s hs]] l IH]; intros st Hs; cbn [scan_gossip].
  - eapply scanned_ext; [|by apply scanned_done]. intros k. cbn. setoid_rewrite elem_of_nil. naive_solver.
  - eapply scanned_ext; [|by apply scan_entry]. intros k. cbn. rewrite andb_true_iff, negb_true_iff, Z.ltb_lt.
    setoid_rewrite elem_of_cons.
    assert (Hd : default true (is_candidate_slot_descendant_of_last_vote s last_voted_slot ancestors) = false <->
      exists a, ancestors !! s = Some a /\ last_voted_slot ∉ a).
    { unfold is_candidate_slot_descendant_of_last_vote. destruct (ancestors !! s) as [a|]; [|cbn; naive_solver].
      pose proof (bool_decide_eq_false (last_voted_slot ∈ a)) as Hb.
      trans (bool_decide (last_voted_slot ∈ a) = false); [reflexivity|]. rewrite Hb. naive_solver. }
    rewrite Hd. naive_solver.
Qed.

(** The maps agree: every bank with descendants is in the ancestors map, and the
    last vote, whose statistics are computed, is a descendant of its ancestors. *)
Definition forks_agree (candidates : list (Slot * gset Slot)) : Prop :=
  forall c ds, (c, ds) ∈ candidates -> is_Some (ancestors !! c) /\
    (c ∈ last_vote_ancestors -> last_voted_slot ∈ ds /\ is_computed progress last_voted_slot = true).

Lemma skip_candidate_ok c ds :
  is_Some (ancestors !! c) ->
  exists skip, skip_candidate ancestors progress last_voted_slot root c ds = Ok skip /\ (skip = false <-> is_tip c ds).
Proof.
  intros [a Ha]. unfold skip_candidate, is_tip, is_candidate_slot_descendant_of_last_vote. rewrite Ha.
  destruct (is_computed progress c) eqn:Ec; cbn [negb]; [|exists true; naive_solver].
  assert (He : existsb (is_computed progress) (elements ds) = false <-> forall d, d ∈ ds -> is_computed progress d = false).
  { rewrite <-not_true_iff_false, existsb_exists. setoid_rewrite <-list_elem_of_In. setoid_rewrite elem_of_elements.
    split; [intros H d Hd; apply not_true_iff_false; eauto|intros H (d & Hd & Hc); by rewrite (H d Hd) in Hc]. }
  destruct (existsb _ _) eqn:Ee; [exists true; split; [done|]; rewrite <-He; naive_solver|].
  destruct (Z.eqb_spec c last_voted_slot); [exists true; naive_solver|]. cbn [fmap option_fmap option_map expect obind].
  eexists. split; [reflexivity|]. rewrite orb_false_iff, bool_decide_eq_false, Z.leb_gt. rewrite <-He. naive_solver.
Qed.

Lemma scan_candidates_ok l st :
  forks_agree l -> sound_count st ->
  exists r, scan_candidates ancestors progress total_stake epoch_vote_accounts last_voted_slot root last_vote_ancestors l st = Ok r /\
    scanned (locked_out_at_tips l) st r.
Proof.
  revert st. induction l as [|[c ds] l IH]; intros st Hag Hs; cbn [scan_candidates].
  - exists (Some st). split; [done|]. eapply scanned_ext; [|by apply scanned_done]. intros k. unfold locked_out_at_tips.
    setoid_rewrite elem_of_nil. naive_solver.
  - destruct (Hag c ds) as [Ha Hanc]; [apply elem_of_cons; by left|].
    assert (Hl : forks_agree l) by (intros c' ds' Hin; apply Hag, elem_of_cons; by right).
    destruct (skip_candidate_ok c ds Ha) as (skip & -> & Htip). cbn [obind]. destruct skip.
    + destruct (IH st Hl Hs) as (r & Hrun & Hr). exists r. split; [done|]. eapply scanned_ext; [|done]. intros k.
      assert (~ is_tip c ds) by (rewrite <-Htip; done). unfold locked_out_at_tips. setoid_rewrite elem_of_cons. naive_solver.
    + pose proof (proj1 Htip eq_refl) as Ht. destruct Ht as (Hc & Hnone & Hrest).
      rewrite bool_decide_eq_false_2; [|intros H; destruct (Hanc H) as [H1 H2]; rewrite (Hnone _ H1) in H2; done].
      cbn [negb rust_assert obind]. unfold is_computed, get_fork_stats in Hc. destruct (progress !! c) as [f|] eqn:Ef; [|done].
      cbn [expect obind]. clear Hc.
      pose proof (scan_tip_ok (fs_lockout_intervals (fork_stats f)) st Hs) as H1.
      assert (Hext : forall k, locked_out_by (fs_lockout_intervals (fork_stats f)) k \/ locked_out_at_tips l k <->
        locked_out_at_tips ((c, ds) :: l) k).
      { intros k. unfold locked_out_at_tips. setoid_rewrite elem_of_cons. pose proof (proj1 Htip eq_refl). naive_solver. }
      destruct (scan_intervals _ _ _ _ _ st) as [st1|].
      * destruct (IH st1 Hl (proj1 H1)) as (r & Hrun & Hr). exists r. split; [done|].
        eapply scanned_ext; [exact Hext|]. by eapply scanned_trans.
      * exists None. split; [done|]. eapply scanned_ext; [exact Hext|]. by apply scanned_stop.
Qed.

(** The accounts that count for a switch *)
Definition locked_out_elsewhere (latest : LatestValidatorVotesForFrozenBanks) (k : Pubkey) : Prop :=
  locked_out_at_tips descendants k \/ voted_elsewhere latest k.

Lemma count_locked_out_ok latest :
  forks_agree descendants ->
  exists r, count_locked_out ancestors descendants progress total_stake epoch_vote_accounts last_voted_slot root last_vote_ancestors latest =
      Ok match r with Some st => FailedSwitchThreshold (locked_out_stake st) total_stake | None => SwitchProof hash_default end /\
    scanned (locked_out_elsewhere latest) (mkLockedOut 0 ∅) r.
Proof.
  intros Hag. unfold count_locked_out.
  assert (H0 : sound_count (mkLockedOut 0 ∅)) by (split; [done|apply stake_ratio_zero]).
  destruct (scan_candidates_ok descendants _ Hag H0) as (r & -> & Hr). cbn [obind]. eexists. split; [reflexivity|].
  eapply scanned_ext; [|apply scanned_bind; [exact Hr|apply scan_gossip_ok]]. intros k. cbn. unfold locked_out_elsewhere, voted_elsewhere.
  setoid_rewrite elem_of_map_to_list. done.
Qed.
End LastVote.

(** ** The decision *)
Context (self : Tower) (switch_slot : Slot) (latest : LatestValidatorVotesForFrozenBanks) (fork_choice : HeaviestSubtreeForkChoice).

(** The last vote was rolled back to an ancestor of it, or purged, because of an
    invalid duplicate. *)
Definition rolled_back (last : Slot) (hash switch_hash : Hash) (d : Slot) : Prop :=
  get_latest_invalid_ancestor fork_choice (last, hash) = Some d /\
  is_strict_ancestor fork_choice (switch_slot, switch_hash) (last, hash) = true.
Definition purged (last : Slot) (hash switch_hash : Hash) : Prop :=
  (exists d, get_latest_invalid_ancestor fork_choice (last, hash) = Some d) /\
  is_strict_ancestor fork_choice (switch_slot, switch_hash) (last, hash) = false /\ get_hash progress last <> Some hash.
Definition vote_stands (last : Slot) (hash switch_hash : Hash) : Prop :=
  (forall d, ~ rolled_back last hash switch_hash d) /\ ~ purged last hash switch_hash.

(** What the replay stage ensures: the slot to switch to is frozen; and if the last
    vote stands, the slot is known, the last vote is known or was restored from
    disk, and the maps agree. *)
Record switch_ready (last root : Slot) (hash switch_hash : Hash) (last_anc switch_anc : gset Slot) : Prop := {
  sr_last : last_voted_slot_hash self = Ok (Some (last, hash));
  sr_root : tower_root self = Ok root;
  sr_frozen : get_hash progress switch_slot = Some switch_hash;
  sr_switch : vote_stands last hash switch_hash -> ancestors !! switch_slot = Some switch_anc;
  sr_known : vote_stands last hash switch_hash ->
    ancestors !! last = Some last_anc \/ ancestors !! last = None /\ last_anc = ∅ /\ is_stray_last_vote self = Ok true;
  sr_forks : vote_stands last hash switch_hash -> forks_agree last last_anc descendants
}.

(** The last vote stands and the slot is neither on its fork ... *)
Definition other_fork (last : Slot) (hash switch_hash : Hash) (switch_anc : gset Slot) : Prop :=
  vote_stands last hash switch_hash /\ switch_slot <> last /\ last ∉ switch_anc.
(** ... but an ancestor of it, though the vote was cast in this run: the code
    holds this to be impossible. *)
Definition backward_switch (last : Slot) (hash switch_hash : Hash) (last_anc switch_anc : gset Slot) : Prop :=
  other_fork last hash switch_hash switch_anc /\ switch_slot ∈ last_anc /\ is_stray_last_vote self = Ok false.

(** The decision; the cases exclude each other, and in the last two [X] is a set of
    accounts locked out elsewhere, and the set of all of them. *)
Inductive switch_spec (last root : Slot) (hash switch_hash : Hash) (last_anc switch_anc : gset Slot) : SwitchForkDecision -> Prop :=
| sw_rollback d : rolled_back last hash switch_hash d ->
    switch_spec last root hash switch_hash last_anc switch_anc (FailedSwitchDuplicateRollback d)
| sw_purged : purged last hash switch_hash ->
    switch_spec last root hash switch_hash last_anc switch_anc (SwitchProof hash_default)
| sw_same_fork : vote_stands last hash switch_hash -> switch_slot = last \/ last ∈ switch_anc ->
    switch_spec last root hash switch_hash last_anc switch_anc SameFork
| sw_stray : other_fork last hash switch_hash switch_anc -> switch_slot ∈ last_anc -> is_stray_last_vote self = Ok true ->
    switch_spec last root hash switch_hash last_anc switch_anc (FailedSwitchThreshold 0 total_stake)
| sw_proof X : other_fork last hash switch_hash switch_anc -> switch_slot ∉ last_anc ->
    (forall k, k ∈ X -> locked_out_elsewhere last root last_anc latest k) -> above (stake_sum X) = true ->
    switch_spec last root hash switch_hash last_anc switch_anc (SwitchProof hash_default)
| sw_failed X : other_fork last hash switch_hash switch_anc -> switch_slot ∉ last_anc ->
    (forall k, k ∈ X <-> locked_out_elsewhere last root last_anc latest k) -> above (stake_sum X) = false ->
    switch_spec last root hash switch_hash last_anc switch_anc (FailedSwitchThreshold (stake_sum X) total_stake).

Lemma is_stray_ok : exists b, is_stray_last_vote self = Ok b.
Proof. unfold is_stray_last_vote. rewrite tower_last_voted_slot_ok. case_bool_decide; by eexists. Qed.

Lemma check_other_fork_ok last root hash switch_hash last_anc switch_anc :
  switch_ready last root hash switch_hash last_anc switch_anc -> vote_stands last hash switch_hash ->
  let r := check_other_fork ancestors descendants progress total_stake epoch_vote_accounts self switch_slot last root latest in
  backward_switch last hash switch_hash last_anc switch_anc /\ r = Panic \/
  ~ backward_switch last hash switch_hash last_anc switch_anc /\
    exists d, r = Ok d /\ switch_spec last root hash switch_hash last_anc switch_anc d.
Proof.
  intros [Hlast Hroot Hfr Hsw Hkn Hag] Hst. specialize (Hsw Hst). specialize (Hkn Hst). specialize (Hag Hst).
  cbn zeta. unfold check_other_fork.
  assert ((match ancestors !! last with
           | Some a => Ok a
           | None => stray ←? is_stray_last_vote self; if stray : bool then Ok ∅ else Panic
           end) = Ok last_anc) as -> by (destruct Hkn as [->|(-> & -> & ->)]; done).
  cbn [obind]. rewrite Hsw. cbn [expect obind]. unfold backward_switch.
  destruct ((switch_slot =? last) || bool_decide (last ∈ switch_anc)) eqn:Es.
  { assert (switch_slot = last \/ last ∈ switch_anc) as Hor
      by (apply orb_prop in Es as [?%Z.eqb_eq|?%bool_decide_eq_true]; auto).
    right. split; [intros [(_ & ? & ?) _]; tauto|]. exists SameFork. split; [done|]. by constructor. }
  apply orb_false_elim in Es as [Hne%Z.eqb_neq Hns%bool_decide_eq_false].
  assert (other_fork last hash switch_hash switch_anc) as Ho by done. case_bool_decide as Hin.
  { destruct is_stray_ok as [[] Hb]; rewrite Hb; cbn [obind]; [right|by left].
    split; [intros (_ & _ & ?); congruence|]. eexists. split; [reflexivity|]. by apply sw_stray. }
  right. split; [by intros (_ & ? & _)|].
  destruct (count_locked_out_ok last root last_anc latest Hag) as (r & -> & Hr). eexists. split; [reflexivity|].
  destruct r as [st|]; cbn in Hr.
  - destruct Hr as [[Hs Hb] Hk]. rewrite Hs in *. apply sw_failed; [done|done| |done]. intros k. rewrite Hk.
    split; [intros [[]%not_elem_of_empty|?]; done|auto].
  - destruct Hr as (X & Hx & Ha). apply (sw_proof _ _ _ _ _ _ X); [done|done| |done]. intros k Hk.
    destruct (Hx k Hk) as [[]%not_elem_of_empty|?]; done.
Qed.

(** The check ended with a decision, which it remembers; the votes are untouched. *)
Definition switch_checked (d : SwitchForkDecision) : Prop :=
  exists self', check_switch_threshold ancestors descendants progress total_stake epoch_vote_accounts switch_slot latest fork_choice self =
      Ok (self', d) /\ last_switch_threshold_check self' = Some (switch_slot, d) /\ vote_state self' = vote_state self.

Lemma decision_checked d :
  make_check_switch_threshold_decision ancestors descendants progress total_stake epoch_vote_accounts self switch_slot latest fork_choice =
    Ok d -> switch_checked d.
Proof.
  intros Hd. unfold switch_checked, check_switch_threshold. rewrite Hd. cbn [obind]. eexists. split; [reflexivity|].
  case_bool_decide as Hc; [by rewrite <-Hc|done].
Qed.

Lemma switch_check_cases last root hash switch_hash last_anc switch_anc :
  switch_ready last root hash switch_hash last_anc switch_anc ->
  backward_switch last hash switch_hash last_anc switch_anc /\
    check_switch_threshold ancestors descendants progress total_stake epoch_vote_accounts switch_slot latest fork_choice self = Panic \/
  ~ backward_switch last hash switch_hash last_anc switch_anc /\
    exists d, switch_checked d /\ switch_spec last root hash switch_hash last_anc switch_anc d.
Proof.
  intros Hr. pose proof Hr as [Hlast Hroot Hfr _ _ _].
  set (m := make_check_switch_threshold_decision ancestors descendants progress total_stake epoch_vote_accounts self switch_slot latest
    fork_choice).
  enough (backward_switch last hash switch_hash last_anc switch_anc /\ m = Panic \/
    ~ backward_switch last hash switch_hash last_anc switch_anc /\
      exists d, m = Ok d /\ switch_spec last root hash switch_hash last_anc switch_anc d) as [[Hb Hp]|(Hb & d & Hd & Hs)].
  { left. split; [done|]. unfold check_switch_threshold. fold m. by rewrite Hp. }
  { right. split; [done|]. exists d. split; [by apply decision_checked|done]. }
  unfold m, make_check_switch_threshold_decision. rewrite Hlast. cbn [obind]. rewrite Hroot. cbn [obind]. rewrite Hfr. cbn [expect obind].
  pose proof (check_other_fork_ok _ _ _ _ _ _ Hr) as Hrest. cbn zeta in Hrest.
  destruct (get_latest_invalid_ancestor fork_choice (last, hash)) as [a|] eqn:Ea; cycle 1.
  { apply Hrest. split; [intros d [? _]; congruence|]. intros [[d ?] _]. congruence. }
  destruct (is_strict_ancestor _ _ _) eqn:Eb.
  { right. assert (rolled_back last hash switch_hash a) by done. split; [intros (((Hn & _) & _) & _); by apply (Hn a)|].
    eexists. split; [reflexivity|by constructor]. }
  destruct (default true _) eqn:Ec.
  - assert (purged last hash switch_hash) as Hp.
    { split; [by exists a|]. split; [done|]. intros Hh. rewrite Hh in Ec. cbn in Ec. by rewrite Z.eqb_refl in Ec. }
    right. split; [by intros (((_ & []) & _) & _)|]. eexists. split; [reflexivity|by constructor].
  - apply Hrest. split; [intros d [_ ?]; congruence|]. intros (_ & _ & Hh). apply Hh.
    destruct (get_hash progress last) as [h|]; [|done]. cbn in Ec. apply negb_false_iff, Z.eqb_eq in Ec. by subst.
Qed.

(** The decision for any tower: before the first vote there is no other fork. *)
Definition switch_possible : Prop :=
  last_voted_slot_hash self = Ok None \/
  exists last root hash switch_hash last_anc switch_anc,
    switch_ready last root hash switch_hash last_anc switch_anc /\ ~ backward_switch last hash switch_hash last_anc switch_anc.
Definition switch_decided (d : SwitchForkDecision) : Prop :=
  last_voted_slot_hash self = Ok None /\ d = SameFork \/
  exists last root hash switch_hash last_anc switch_anc,
    switch_ready last root hash switch_hash last_anc switch_anc /\ switch_spec last root hash switch_hash last_anc switch_anc d.

Lemma first_vote_checked : last_voted_slot_hash self = Ok None -> switch_checked SameFork.
Proof. intros H. apply decision_checked. unfold make_check_switch_threshold_decision. by rewrite H. Qed.

Lemma switch_check_ok : switch_possible -> exists d, switch_checked d /\ switch_decided d.
Proof.
  intros [H|(last & root & hash & switch_hash & last_anc & switch_anc & Hr & Hb)].
  - exists SameFork. split; [by apply first_vote_checked|by left].
  - destruct (switch_check_cases _ _ _ _ _ _ Hr) as [[? _]|(_ & d & Hd & Hs)]; [done|].
    exists d. split; [done|]. right. by exists last, root, hash, switch_hash, last_anc, switch_anc.
Qed.

(** C7: the check for switching to the fork of a slot, before the first vote or when
    the slot is frozen and, unless the last vote was rolled back or purged, the fork
    maps agree and the last vote is known or restored from disk: it panics exactly
    when the slot is an ancestor of a last vote that stands and was not restored.
    If an ancestor of the last vote was an invalid duplicate, it refuses a switch to
    an ancestor of the vote and grants any other if the vote is purged.  Otherwise,
    off the fork of the last vote it grants a switch only if accounts locked out on
    other forks hold more than 38 percent of the stake; if it refuses, it reports the
    stake of exactly the accounts that are locked out elsewhere, each counted once
    and in whatever order banks and votes are visited. *)
Theorem switch_needs_locked_out_stake :
  (last_voted_slot_hash self = Ok None -> switch_checked SameFork) /\
  (forall last root hash switch_hash last_anc switch_anc,
   switch_ready last root hash switch_hash last_anc switch_anc ->
   backward_switch last hash switch_hash last_anc switch_anc /\
     check_switch_threshold ancestors descendants progress total_stake epoch_vote_accounts switch_slot latest fork_choice self = Panic \/
   ~ backward_switch last hash switch_hash last_anc switch_anc /\
     exists d, switch_checked d /\ switch_spec last root hash switch_hash last_anc switch_anc d).
Proof. split; [apply first_vote_checked|apply switch_check_cases]. Qed.
End Safety.

(** ** A fork of slot 0

    The validator voted for slot 1; half of the stake is locked out on slot 2. *)
Definition fork_ancestors : gmap Slot (gset Slot) := {[0 := ∅; 1 := {[0]}; 2 := {[0]}]}.
Definition fork_descendants : list (Slot * gset Slot) := [(0, {[1; 2]}); (1, ∅); (2, ∅)].
Definition computed_stats (s : Slot) (intervals : LockoutIntervals) : ForkProgress :=
  with_fork_stats (mkForkStats 0 100 s false false false [] false ∅ false true intervals (Some (100 * s)) None)
    (fork_progress_new 0 None None 0 0).
Definition fork_progress_map : ProgressMap :=
  {[0 := computed_stats 0 ∅; 1 := computed_stats 1 ∅; 2 := computed_stats 2 {[10 := [(2, 21)]]}]}.
Definition fork_accounts : gmap Pubkey Stake := {[21 := 50; 22 := 50]}.
Definition voted_for_1 : Tower := with_last_vote (TxVoteStateUpdate (vsu_new [lockout_new 1] (Some 0) 100)) tower_default.
Definition no_forks : HeaviestSubtreeForkChoice := mkForkChoice ∅ ∅ (0, 0).

Lemma switch_needs_locked_out_stake_witness :
  exists d, switch_checked fork_ancestors fork_descendants fork_progress_map 100 fork_accounts voted_for_1 2 latest_votes_default no_forks d /\
    d = SwitchProof hash_default.
Proof.
  destruct (proj2 (switch_needs_locked_out_stake fork_ancestors fork_descendants fork_progress_map 100 fork_accounts voted_for_1 2
    latest_votes_default no_forks) 1 0 100 200 {[0]} {[0]}) as [[_ Hp]|(_ & d & Hd & _)].
  - split; [by vm_compute|by vm_compute|by vm_compute|intros _; by vm_compute|intros _; left; by vm_compute|intros _].
    intros c ds Hin. repeat (apply elem_of_cons in Hin as [[= -> ->]|Hin]; [split; [by vm_compute; eauto|]|]); [..|by apply elem_of_nil in Hin].
    + intros _. split; [apply (bool_decide_eq_true_1 (_ ∈ _)); by vm_compute|by vm_compute].
    + intros H. exfalso. revert H. apply (bool_decide_eq_true_1 (_ ∉ _)). by vm_compute.
    + intros H. exfalso. revert H. apply (bool_decide_eq_true_1 (_ ∉ _)). by vm_compute.
  - exfalso. vm_compute in Hp. discriminate.
  - exists d. split; [exact Hd|]. destruct Hd as (self' & Hrun & _). vm_compute in Hrun. by injection Hrun as _ <-.
Defined.
