(* ===== verification/ForkSelect.v ===== *)
(** * Choosing the fork to vote for

    The part of the replay stage that joins the tower, the fork choice, the
    progress map and the vote trackers: [compute_bank_stats] reads the votes of
    newly frozen banks, and [select_vote_and_reset_forks] decides which bank to
    vote for and which to build on ([fdp-solana/core/src/replay_stage.rs], with
    the [ForkChoice] methods of
    [fdp-solana/core/src/consensus/heaviest_subtree_fork_choice.rs]). *)

From stdpp Require Import sorting.
From S2P Require Import Prelude InstructionError AuthorizedVoters VoteState VoteProcess EpochSchedule Credits Tower VoteSafety ForkChoice ForkChoiceOps FrozenVotes ValidatorTower TowerSafety VoteLockouts ProgressMap Propagation SwitchFork.

(** A computation without errors *)
Definition of_fc {E A} (m : fc A) : outcome E A := map_err (fun e : Empty_set => match e with end) m.

(** [frozen_banks.sort_by_key(|bank| bank.slot())] *)
Definition by_slot (a b : Bank) : Prop := bk_slot a <= bk_slot b.
#[global] Instance by_slot_dec : RelDecision by_slot.
Proof. intros a b. apply Z_le_dec. Defined.

(** ** The fork choice *)
Definition heaviest_slot_on_same_voted_fork (t : HeaviestSubtreeForkChoice) (tower : Tower) : outcome TowerError (option SlotHashKey) :=
  last ←? last_voted_slot_hash tower;
  match last with
  | None => Ok None
  | Some k =>
      match get_is_candidate t k with
      | Some true => Ok (get_best_slot t k)
      | Some false => Ok (get_deepest_slot t k)
      | None => stray ←? is_stray_last_vote tower; if negb stray then Panic else Ok None
      end
  end.

Definition select_forks (t : HeaviestSubtreeForkChoice) (tower : Tower) (bank_forks : BankForks)
    : outcome TowerError (Bank * option Bank) :=
  best ←? of_fc (best_overall_slot t);
  bank ←? get_with_checked_hash bank_forks best;
  heaviest ←? expect bank;
  same ←? heaviest_slot_on_same_voted_fork t tower;
  Ok (heaviest,
      k ← same;
      bank ← bf_banks bank_forks !! k.1;
      if negb (bk_hash bank =? k.2) then None else Some bank).

Section FreezeVotes.
Context (epoch_stakes_map : Bank -> gmap Epoch EpochStakes) (epoch_schedule : EpochSchedule).

(** [ForkChoice::compute_bank_stats] *)
Definition fork_choice_compute_bank_stats (bank : Bank) (t : HeaviestSubtreeForkChoice)
    (latest : LatestValidatorVotesForFrozenBanks) : fc (HeaviestSubtreeForkChoice * LatestValidatorVotesForFrozenBanks) :=
  let root := (tree_root t).1 in
  let '(latest, new_votes) := take_votes_dirty_set root latest in
  '(t, _) ←? add_votes (epoch_stakes_map bank) epoch_schedule new_votes t;
  Ok (t, latest).

(** ** Statistics of frozen banks *)
Record ReplayState := mkReplayState {
  rs_tower : Tower;
  rs_progress : ProgressMap;
  rs_trackers : Trackers;
  rs_fork_choice : HeaviestSubtreeForkChoice;
  rs_latest : LatestValidatorVotesForFrozenBanks
}.

Section Stats.
Context (now : UnixTimestamp) (my_vote_pubkey : Pubkey) (ancestors : gmap Slot (gset Slot)) (bank_forks : BankForks).

Definition set_tower_stats (thresholds : list ThresholdDecision) (locked_out voted recent : bool) (s : ForkStats) : ForkStats :=
  mkForkStats (fs_fork_stake s) (fs_total_stake s) (fs_block_height s) voted recent (fs_is_empty s)
    thresholds locked_out (fs_voted_stakes s) (fs_is_supermajority_confirmed s) (fs_computed s)
    (fs_lockout_intervals s) (fs_bank_hash s) (fs_my_latest_landed_vote s).

Definition cache_tower_stats (tower : Tower) (s : Slot) (p : ProgressMap) : outcome TowerError ProgressMap :=
  stats ←? expect (get_fork_stats p s);
  slot_ancestors ←? expect (ancestors !! s);
  locked_out ←? is_locked_out tower s slot_ancestors;
  Ok (set_fork_stats s
        (set_tower_stats (check_vote_stake_thresholds tower s (fs_voted_stakes stats) (fs_total_stake stats)) locked_out
           (has_voted tower s) (is_recent tower s) stats) p).

Fixpoint cache_all (tower : Tower) (slots : list Slot) (p : ProgressMap) : outcome TowerError ProgressMap :=
  match slots with
  | [] => Ok p
  | s :: slots => p ←? cache_tower_stats tower s p; cache_all tower slots p
  end.

(** [bank.get_vote_account(my_vote_pubkey)], whose state is [None] where it cannot
    be read *)
Definition get_vote_account (bank : Bank) (key : Pubkey) : option (option VoteState) :=
  snd ∘ snd <$> List.find (fun e => e.1 =? key) (bk_vote_accounts bank).

(** [a > b] on [Option<Slot>] *)
Definition option_slot_gt (a b : option Slot) : bool :=
  match a, b with
  | Some a, Some b => b <? a
  | Some _, None => true
  | None, _ => false
  end.

(** The bank's vote state, moved up to the local root *)
Definition adjust_to_local_root (local_root : option Slot) (vs : VoteState) : outcome TowerError VoteState :=
  match local_root with
  | Some local_root =>
      if match root_slot vs with Some bank_root => bank_root <? local_root | None => true end then
        let vs := set_root_slot vs (Some local_root) in
        let vs := set_votes vs (List.filter (fun v => local_root <? slot v) (votes vs)) in
        _ ←? match votes vs with
             | first_vote :: _ =>
                 a ←? expect (ancestors !! slot first_vote);
                 rust_assert (bool_decide (local_root ∈ a))
             | [] => Ok tt
             end;
        Ok vs
      else Ok vs
  | None => Ok vs
  end.

(** The tower takes over a newer vote state of a frozen bank. *)
Definition adopt_vote_state (frozen_slots : list Slot) (vs : VoteState) (tower : Tower) (p : ProgressMap)
    : outcome TowerError (Tower * ProgressMap) :=
  vs ←? adjust_to_local_root (root_slot (vote_state tower)) vs;
  let own := set_votes (set_root_slot (vote_state tower) (root_slot vs)) (votes vs) in
  root ←? expect (root_slot own);
  let last := default root (last_voted_slot own) in
  hash ←? expect (get_hash p last);
  tower ←? update_last_vote_from_vote_state now hash (with_vote_state own tower);
  p ←? cache_all tower frozen_slots p;
  Ok (tower, p).

Definition set_computed (c : ComputedBankState) (block_height : Z) (s : ForkStats) : ForkStats :=
  mkForkStats (cb_fork_stake c) (cb_total_stake c) block_height (fs_has_voted s) (fs_is_recent s) (fs_is_empty s)
    (fs_vote_threshold s) (fs_is_locked_out s) (voted_stakes c) (fs_is_supermajority_confirmed s) true
    (cb_lockout_intervals c) (fs_bank_hash s) (cb_my_latest_landed_vote c).

(** The first statistics of a bank *)
Definition compute_new_bank (frozen_slots : list Slot) (bank : Bank) (st : ReplayState) : outcome TowerError ReplayState :=
  '(tower, p) ←?
    match get_vote_account bank my_vote_pubkey with
    | Some (Some vs) =>
        if option_slot_gt (last_voted_slot vs) (last_voted_slot (vote_state (rs_tower st)))
        then adopt_vote_state frozen_slots vs (rs_tower st) (rs_progress st)
        else Ok (rs_tower st, rs_progress st)
    | _ => Ok (rs_tower st, rs_progress st)
    end;
  '(latest, computed) ←?
    of_fc (collect_vote_lockouts my_vote_pubkey (bk_slot bank) ancestors (get_hash p) (bk_vote_accounts bank) (rs_latest st));
  '(t, latest) ←? of_fc (fork_choice_compute_bank_stats bank (rs_fork_choice st) latest);
  stats ←? expect (get_fork_stats p (bk_slot bank));
  Ok (mkReplayState tower (set_fork_stats (bk_slot bank) (set_computed computed (bk_block_height bank) stats) p)
        (rs_trackers st) t latest).

(** The body of the loop, with the slot if its statistics are new *)
Definition compute_bank (frozen_slots : list Slot) (bank : Bank) (st : ReplayState)
    : outcome TowerError (ReplayState * list Slot) :=
  stats ←? expect (get_fork_stats (rs_progress st) (bk_slot bank));
  let is_new := negb (fs_computed stats) in
  st ←? (if is_new then compute_new_bank frozen_slots bank st else Ok st);
  '(p, trackers) ←? update_propagation_status (rs_progress st) (bk_slot bank) bank_forks (rs_trackers st);
  p ←? cache_tower_stats (rs_tower st) (bk_slot bank) p;
  Ok (mkReplayState (rs_tower st) p trackers (rs_fork_choice st) (rs_latest st), if is_new then [bk_slot bank] else []).

Fixpoint compute_banks (frozen_slots : list Slot) (banks : list Bank) (st : ReplayState)
    : outcome TowerError (ReplayState * list Slot) :=
  match banks with
  | [] => Ok (st, [])
  | bank :: banks =>
      '(st, new_stats) ←? compute_bank frozen_slots bank st;
      '(st, more) ←? compute_banks frozen_slots banks st;
      Ok (st, new_stats ++ more)
  end.

Definition compute_bank_stats (frozen_banks : list Bank) (st : ReplayState) : outcome TowerError (ReplayState * list Slot) :=
  let frozen_banks := merge_sort by_slot frozen_banks in
  compute_banks (bk_slot <$> frozen_banks) frozen_banks st.
End Stats.
End FreezeVotes.

(** ** The bank to vote for *)
Inductive HeaviestForkFailures :=
| HfLockedOut (s : Slot)
| HfFailedThreshold (s : Slot) (vote_depth observed_stake total_stake : Z)
| HfFailedSwitchThreshold (s : Slot) (observed_stake total_stake : Z)
| HfNoPropagatedConfirmation (s : Slot) (observed_stake total_stake : Z).

Record SelectVoteAndResetForkResult := mkSelectResult {
  vote_bank : option (Bank * SwitchForkDecision);
  reset_bank : option Bank;
  heaviest_fork_failures : list HeaviestForkFailures
}.

Definition last_vote_unable_to_land (reset_bank : option Bank) (progress : ProgressMap) (tower : Tower) : outcome TowerError bool :=
  match reset_bank with
  | Some bank =>
      last ←? tower_last_voted_slot tower;
      match last with
      | Some last_voted_slot =>
          match my_latest_landed_vote progress (bk_slot bank) with
          | Some landed =>
              Ok ((landed <? last_voted_slot) && (last_voted_slot <? bk_slot bank)
                  && negb (is_in_slot_hashes_history bank last_voted_slot))
          | None => Ok false
          end
      | None => Ok false
      end
  | None => Ok false
  end.

Definition select_forks_failed_switch_threshold (reset_bank : option Bank) (progress : ProgressMap) (tower : Tower)
    (heaviest_bank_slot : Slot) (switch_proof_stake total_stake : Stake) (switch_fork_decision : SwitchForkDecision)
    : outcome TowerError (SwitchForkDecision * list HeaviestForkFailures) :=
  unable ←? last_vote_unable_to_land reset_bank progress tower;
  Ok (if unable : bool then (SameFork, [])
      else (switch_fork_decision, [HfFailedSwitchThreshold heaviest_bank_slot switch_proof_stake total_stake])).

Record CandidateVoteAndResetBanks := mkCandidates {
  candidate_vote_bank : option Bank;
  candidate_reset_bank : option Bank;
  candidate_decision : SwitchForkDecision
}.

Definition select_candidates (heaviest_bank : Bank) (same_fork_bank : option Bank) (progress : ProgressMap) (tower : Tower)
    (decision : SwitchForkDecision) : outcome TowerError (CandidateVoteAndResetBanks * list HeaviestForkFailures) :=
  match decision with
  | FailedSwitchThreshold switch_proof_stake total_stake =>
      '(final, failures) ←? select_forks_failed_switch_threshold same_fork_bank progress tower (bk_slot heaviest_bank)
                              switch_proof_stake total_stake decision;
      Ok (mkCandidates (if can_vote final then same_fork_bank else Some heaviest_bank) same_fork_bank final, failures)
  | FailedSwitchDuplicateRollback _ =>
      Ok (mkCandidates None (Some heaviest_bank) decision, [HfFailedSwitchThreshold (bk_slot heaviest_bank) 0 0])
  | _ => Ok (mkCandidates (Some heaviest_bank) (Some heaviest_bank) decision, [])
  end.

(** The failed thresholds; shallow ones do not stop the vote. *)
Definition threshold_failures (s : Slot) (total : Stake) (thresholds : list ThresholdDecision) : list HeaviestForkFailures :=
  d ← thresholds; match d with FailedThreshold depth stake => [HfFailedThreshold s depth stake total] | PassedThreshold => [] end.
Definition threshold_passed (tower : Tower) (thresholds : list ThresholdDecision) : bool :=
  forallb (fun d => match d with
                    | FailedThreshold depth _ => depth <? Z.of_nat (threshold_depth tower)
                    | PassedThreshold => true
                    end) thresholds.

(** The remaining checks of a bank to vote for *)
Definition check_candidate (progress : ProgressMap) (tower : Tower) (bank : Bank) (reset : option Bank)
    (decision : SwitchForkDecision) (failures : list HeaviestForkFailures) : outcome TowerError SelectVoteAndResetForkResult :=
  let s := bk_slot bank in
  fork_stats ←? expect (get_fork_stats progress s);
  propagated_stats ←? expect (get_propagated_stats progress s);
  propagation_confirmed ←?
    (if is_leader_slot propagated_stats then Ok true
     else r ←? get_leader_propagation_slot_must_exist progress s; Ok r.1);
  let thresholds := fs_vote_threshold fork_stats in
  let failures :=
    failures
    ++ (if fs_is_locked_out fork_stats then [HfLockedOut s] else [])
    ++ threshold_failures s (fs_total_stake fork_stats) thresholds
    ++ (if negb propagation_confirmed
        then [HfNoPropagatedConfirmation s (propagated_validators_stake propagated_stats) (ps_total_epoch_stake propagated_stats)]
        else []) in
  Ok (if negb (fs_is_locked_out fork_stats) && threshold_passed tower thresholds && propagation_confirmed && can_vote decision
      then mkSelectResult (Some (bank, decision)) (Some bank) failures
      else mkSelectResult None reset failures).

Definition select_vote_and_reset_forks (heaviest_bank : Bank) (heaviest_bank_on_same_voted_fork : option Bank)
    (ancestors : gmap Slot (gset Slot)) (descendants : list (Slot * gset Slot)) (progress : ProgressMap)
    (latest : LatestValidatorVotesForFrozenBanks) (fork_choice : HeaviestSubtreeForkChoice) (tower : Tower)
    : outcome TowerError (Tower * SelectVoteAndResetForkResult) :=
  total ←? total_epoch_stake heaviest_bank;
  es ←? expect (bk_epoch_stakes heaviest_bank);
  '(tower, decision) ←? check_switch_threshold ancestors descendants progress total (es_vote_accounts es)
                          (bk_slot heaviest_bank) latest fork_choice tower;
  '(candidates, failures) ←? select_candidates heaviest_bank heaviest_bank_on_same_voted_fork progress tower decision;
  result ←? match candidate_vote_bank candidates with
            | Some bank => check_candidate progress tower bank (candidate_reset_bank candidates) (candidate_decision candidates) failures
            | None => Ok (mkSelectResult None (candidate_reset_bank candidates) failures)
            end;
  Ok (tower, result).
