(* ===== verification/ForkSelectSpec.v ===== *)
(** * When a validator votes

    [select_vote_and_reset_forks] votes for a bank only if every check allows it,
    and after [compute_bank_stats] those checks are about the tower and the votes
    as they are. *)

From stdpp Require Import sorting.
From S2P Require Import Prelude InstructionError AuthorizedVoters VoteState VoteProcess EpochSchedule Credits Tower VoteSafety ForkChoice ForkChoiceOps FrozenVotes ValidatorTower TowerSafety VoteLockouts ProgressMap Propagation SwitchFork SwitchSafety ForkSelect.

(** ** The choice *)

(** A bank passes the checks that do not depend on the last vote. *)
Definition votable (progress : ProgressMap) (tower : Tower) (bank : Bank) : Prop :=
  exists f, progress !! bk_slot bank = Some f /\ fs_is_locked_out (fork_stats f) = false /\
    (forall depth stake, FailedThreshold depth stake ∈ fs_vote_threshold (fork_stats f) -> depth < Z.of_nat (threshold_depth tower)) /\
    (is_leader_slot (propagated_stats f) = true \/
     forall l, latest_leader_slot (bk_slot bank) (propagated_stats f) = Some l -> pm_is_propagated progress l <> Some false).

Lemma threshold_passed_spec tower l :
  threshold_passed tower l = true <-> forall depth stake, FailedThreshold depth stake ∈ l -> depth < Z.of_nat (threshold_depth tower).
Proof.
  unfold threshold_passed. rewrite forallb_forall. setoid_rewrite <-list_elem_of_In. split.
  - intros H depth stake Hin. specialize (H _ Hin). cbn in H. lia.
  - intros H [|depth stake] Hin; [done|]. specialize (H _ _ Hin). lia.
Qed.

Lemma check_candidate_ok progress tower bank reset decision failures :
  is_Some (progress !! bk_slot bank) ->
  exists res, check_candidate progress tower bank reset decision failures = Ok res /\
    ((votable progress tower bank /\ can_vote decision = true) /\ vote_bank res = Some (bank, decision) /\ reset_bank res = Some bank \/
     ~ (votable progress tower bank /\ can_vote decision = true) /\ vote_bank res = None /\ reset_bank res = reset).
Proof.
  intros [f Hf].
  set (confirmed := is_leader_slot (propagated_stats f) ||
    match latest_leader_slot (bk_slot bank) (propagated_stats f) with
    | Some l => default true (pm_is_propagated progress l)
    | None => true
    end).
  assert (Hps : get_propagated_stats progress (bk_slot bank) = Some (propagated_stats f)) by (unfold get_propagated_stats; by rewrite Hf).
  assert (Hrun : (if is_leader_slot (propagated_stats f) then @Ok TowerError _ true
    else r ←? get_leader_propagation_slot_must_exist progress (bk_slot bank); Ok r.1) = Ok confirmed).
  { unfold confirmed, get_leader_propagation_slot_must_exist, get_latest_leader_slot_must_exist, get_propagated_stats_must_exist.
    rewrite Hps. cbn [expect obind]. destruct (is_leader_slot (propagated_stats f)); [done|]. by destruct (latest_leader_slot _ _). }
  unfold check_candidate, get_fork_stats. rewrite Hps, Hf. cbn [fmap option_fmap option_map expect obind].
  rewrite Hrun. cbn [obind]. eexists. split; [reflexivity|].
  assert (Hc : confirmed = true <-> is_leader_slot (propagated_stats f) = true \/
    forall l, latest_leader_slot (bk_slot bank) (propagated_stats f) = Some l -> pm_is_propagated progress l <> Some false).
  { unfold confirmed. rewrite orb_true_iff. f_equiv. destruct (latest_leader_slot _ _) as [l|]; [|split; [by intros _ l [=]|done]].
    destruct (pm_is_propagated progress l) as [[]|] eqn:El; cbn; (split; [intros Hx l' [= <-]; congruence|intros Hx; try done]).
    by destruct (Hx l eq_refl). }
  assert (Hv : votable progress tower bank <-> negb (fs_is_locked_out (fork_stats f)) &&
    threshold_passed tower (fs_vote_threshold (fork_stats f)) && confirmed = true).
  { unfold votable. rewrite Hf, !andb_true_iff, negb_true_iff, threshold_passed_spec, Hc. naive_solver. }
  destruct (_ && _ && _ && _) eqn:E; cbn.
  - left. apply andb_prop in E as [E1 E2]. by rewrite Hv.
  - right. split; [|done]. rewrite Hv. intros [E1 E2]. by rewrite E1, E2 in E.
Qed.

(** The decision for a bank, and which bank it is about *)
Definition choice (heaviest : Bank) (same_fork : option Bank) (unable : bool) (d : SwitchForkDecision)
    : option (Bank * SwitchForkDecision) :=
  match d with
  | SameFork | SwitchProof _ => Some (heaviest, d)
  | FailedSwitchThreshold _ _ => if unable then (fun b => (b, SameFork)) <$> same_fork else None
  | FailedSwitchDuplicateRollback _ => None
  end.
Definition fallback (heaviest : Bank) (same_fork : option Bank) (d : SwitchForkDecision) : option Bank :=
  match d with FailedSwitchThreshold _ _ => same_fork | _ => Some heaviest end.

Lemma last_vote_unable_ok reset progress tower : exists b, last_vote_unable_to_land reset progress tower = Ok b.
Proof.
  unfold last_vote_unable_to_land. destruct reset; [|by eexists]. rewrite tower_last_voted_slot_ok. cbn [obind].
  repeat case_match; by eexists.
Qed.

Section Choice.
Context (ancestors : gmap Slot (gset Slot)) (descendants : list (Slot * gset Slot)) (progress : ProgressMap).
Context (heaviest : Bank) (same_fork : option Bank) (latest : LatestValidatorVotesForFrozenBanks)
  (fork_choice : HeaviestSubtreeForkChoice) (tower : Tower) (es : BankEpochStakes).

(** C20: the choice of a bank never panics where the switch check does not (before the
    first vote, or with its maps in agreement and the heaviest bank no ancestor of a
    last vote that stands and was not restored) and the candidates are in the
    progress map.  The validator votes exactly for the
    heaviest bank if it is on the fork of the last vote or the switch is proved,
    and for the bank on its own fork if the switch is refused and its last vote
    can no longer land; and in both cases only if the bank is not locked out, no
    deep threshold fails, and its last leader block has spread.  It builds on the
    bank it votes for, and otherwise on its own fork while a switch is refused,
    or on the heaviest bank, also when its last vote was rolled back. *)
Theorem vote_chosen_only_when_allowed :
  bk_epoch_stakes heaviest = Some es ->
  switch_possible ancestors descendants progress tower (bk_slot heaviest) fork_choice ->
  is_Some (progress !! bk_slot heaviest) -> (forall b, same_fork = Some b -> is_Some (progress !! bk_slot b)) ->
  exists tower' d unable res,
    select_vote_and_reset_forks heaviest same_fork ancestors descendants progress latest fork_choice tower = Ok (tower', res) /\
    vote_state tower' = vote_state tower /\
    switch_decided ancestors descendants progress (es_total_stake es) (es_vote_accounts es) tower (bk_slot heaviest) latest fork_choice d /\
    last_vote_unable_to_land same_fork progress tower' = Ok unable /\
    (forall b d', vote_bank res = Some (b, d') <-> choice heaviest same_fork unable d = Some (b, d') /\ votable progress tower' b) /\
    reset_bank res = match vote_bank res with Some (b, _) => Some b | None => fallback heaviest same_fork d end.
Proof.
  intros Hes Hready Hh Hsame. unfold select_vote_and_reset_forks, total_epoch_stake. rewrite Hes. cbn [expect obind].
  destruct (switch_check_ok ancestors descendants progress (es_total_stake es) (es_vote_accounts es) tower (bk_slot heaviest) latest fork_choice
    Hready) as (d & (tower' & -> & _ & Hvs) & Hspec). cbn [obind].
  destruct (last_vote_unable_ok same_fork progress tower') as (unable & Hun). exists tower', d, unable.
  enough (exists res, ('(candidates, failures) ←? select_candidates heaviest same_fork progress tower' d;
    result ←? match candidate_vote_bank candidates with
              | Some bank => check_candidate progress tower' bank (candidate_reset_bank candidates) (candidate_decision candidates) failures
              | None => Ok (mkSelectResult None (candidate_reset_bank candidates) failures)
              end;
    Ok (tower', result)) = Ok (tower', res) /\
    (forall b d', vote_bank res = Some (b, d') <-> choice heaviest same_fork unable d = Some (b, d') /\ votable progress tower' b) /\
    reset_bank res = match vote_bank res with Some (b, _) => Some b | None => fallback heaviest same_fork d end) as (res & ? & ? & ?).
  { exists res. done. }
  assert (Hcheck : forall b reset dec failures, is_Some (progress !! bk_slot b) -> can_vote dec = true ->
    exists res, check_candidate progress tower' b reset dec failures = Ok res /\
      (forall b0 d0, vote_bank res = Some (b0, d0) <-> (b, dec) = (b0, d0) /\ votable progress tower' b0) /\
      reset_bank res = match vote_bank res with Some (b, _) => Some b | None => reset end).
  { intros b reset dec failures Hb Hcan. destruct (check_candidate_ok progress tower' b reset dec failures Hb)
      as (res & Hrun & [((Hv & _) & Hb0 & Hr0)|(Hnv & Hb0 & Hr0)]); exists res; rewrite Hb0, Hr0; (split; [done|]); (split; [|done]); naive_solver. }
  destruct d as [h| |a c|a]; cbn [select_candidates obind candidate_vote_bank candidate_reset_bank candidate_decision choice fallback].
  - destruct (Hcheck heaviest (Some heaviest) (SwitchProof h) [] Hh eq_refl) as (res & -> & Hv & Hr). exists res. split; [done|].
    split; [|done]. intros b d'. rewrite Hv. naive_solver.
  - destruct (Hcheck heaviest (Some heaviest) SameFork [] Hh eq_refl) as (res & -> & Hv & Hr). exists res. split; [done|].
    split; [|done]. intros b d'. rewrite Hv. naive_solver.
  - unfold select_forks_failed_switch_threshold. rewrite Hun. cbn [obind]. destruct unable; cbn [obind can_vote candidate_vote_bank candidate_reset_bank candidate_decision].
    + destruct same_fork as [b0|]; cbn [fmap option_fmap option_map].
      * destruct (Hcheck b0 (Some b0) SameFork [] (Hsame b0 eq_refl) eq_refl) as (res & -> & Hv & Hr). exists res. split; [done|].
        split; [|done]. intros b d'. rewrite Hv. naive_solver.
      * eexists. split; [reflexivity|]. cbn. split; [naive_solver|done].
    + destruct (check_candidate_ok progress tower' heaviest same_fork (FailedSwitchThreshold a c) [HfFailedSwitchThreshold (bk_slot heaviest) a c] Hh)
        as (res & -> & [((_ & [=]) & _)|(_ & Hv & Hr)]). exists res. split; [done|]. rewrite Hv, Hr. split; [naive_solver|done].
  - eexists. split; [reflexivity|]. cbn. split; [naive_solver|done].
Qed.
End Choice.

(** ** The statistics are those of the tower *)
Lemma set_propagated_fork_stats s st p x : get_fork_stats (set_propagated_stats s st p) x = get_fork_stats p x.
Proof.
  unfold get_fork_stats, set_propagated_stats. destruct (decide (x = s)) as [->|Hne].
  - rewrite lookup_alter_eq. by destruct (p !! s).
  - by rewrite lookup_alter_ne.
Qed.
Lemma set_fork_stats_lookup s st p x :
  get_fork_stats (set_fork_stats s st p) x = if decide (x = s) then (fun _ => st) <$> get_fork_stats p s else get_fork_stats p x.
Proof.
  unfold get_fork_stats, set_fork_stats. case_decide as H.
  - subst. rewrite lookup_alter_eq. by destruct (p !! s).
  - by rewrite lookup_alter_ne.
Qed.

Lemma propagate_loop_fork_stats {E} fuel bf p nv cs did cur p' x :
  @propagate_loop E fuel bf p nv cs did cur = Ok p' -> get_fork_stats p' x = get_fork_stats p x.
Proof.
  revert p nv cs did cur. induction fuel as [|fuel IH]; intros p nv cs did cur H; cbn [propagate_loop] in H; [done|].
  destruct cur as [c|]; [|by injection H as <-]. destruct (c <? bf_root bf); [by injection H as <-|].
  apply bind_Ok in H as (s & _ & H). destruct (is_propagated s || _); [by injection H as <-|].
  apply bind_Ok in H as (? & _ & H). apply bind_Ok in H as (bank & _ & H).
  apply bind_Ok in H as ([[[nv' cs'] s'] r] & _ & H). apply IH in H. by rewrite H, set_propagated_fork_stats.
Qed.
Lemma update_propagation_fork_stats {E} p s bf t p' t' x :
  @update_propagation_status E p s bf t = Ok (p', t') -> get_fork_stats p' x = get_fork_stats p x.
Proof.
  unfold update_propagation_status. intros H. apply bind_Ok in H as ([[] l] & _ & H); [by injection H as <- _|].
  apply bind_Ok in H as (st & _ & H). destruct (get_voted_slot_updates _ t) as [nv t1].
  apply bind_Ok in H as (p1 & H1 & H). injection H as <- _. unfold update_fork_propagated_threshold_from_votes in H1.
  apply bind_Ok in H1 as (cur & _ & H1). apply (propagate_loop_fork_stats _ _ _ _ _ _ _ _ x) in H1.
  by rewrite H1, set_propagated_fork_stats.
Qed.

Section Cached.
Context (epoch_stakes_map : Bank -> gmap Epoch EpochStakes) (epoch_schedule : EpochSchedule).
Context (now : UnixTimestamp) (my_vote_pubkey : Pubkey) (ancestors : gmap Slot (gset Slot)) (bank_forks : BankForks).

(** The lockout and threshold checks of a slot are those of the tower. *)
Definition cached (tower : Tower) (p : ProgressMap) (s : Slot) : Prop :=
  exists stats a, get_fork_stats p s = Some stats /\ ancestors !! s = Some a /\
    is_locked_out tower s a = Ok (fs_is_locked_out stats) /\
    fs_vote_threshold stats = check_vote_stake_thresholds tower s (fs_voted_stakes stats) (fs_total_stake stats).

Lemma cached_same tower p p' s : get_fork_stats p' s = get_fork_stats p s -> cached tower p s -> cached tower p' s.
Proof. intros H (stats & a & ?). exists stats, a. by rewrite H. Qed.

Lemma cache_tower_stats_cached tower s p p' :
  cache_tower_stats ancestors tower s p = Ok p' ->
  cached tower p' s /\ forall x, x <> s -> get_fork_stats p' x = get_fork_stats p x.
Proof.
  unfold cache_tower_stats. intros H. apply bind_Ok in H as (stats & Hs%expect_Ok & H). apply bind_Ok in H as (a & Ha%expect_Ok & H).
  apply bind_Ok in H as (b & Hb & H). injection H as <-. split.
  - eexists _, a. rewrite set_fork_stats_lookup, decide_True, Hs by done. done.
  - intros x Hx. by rewrite set_fork_stats_lookup, decide_False.
Qed.
Lemma cache_all_cached tower slots p p' :
  cache_all ancestors tower slots p = Ok p' ->
  (forall s, s ∈ slots \/ cached tower p s -> cached tower p' s).
Proof.
  revert p. induction slots as [|s slots IH]; intros p H; cbn in H.
  - injection H as <-. intros s [[]%elem_of_nil|?]; done.
  - apply bind_Ok in H as (p1 & H1 & H). apply cache_tower_stats_cached in H1 as [Hc Ho]. intros x Hx. apply (IH p1 H).
    destruct (decide (x = s)) as [->|Hne]; [by right|].
    destruct Hx as [[?|?]%elem_of_cons|Hx]; [done|by left|right; eapply cached_same; [by apply Ho|done]].
Qed.

Lemma compute_new_bank_cached frozen bank st st' :
  compute_new_bank epoch_stakes_map epoch_schedule now my_vote_pubkey ancestors frozen bank st = Ok st' ->
  forall s, s <> bk_slot bank -> (s ∈ frozen /\ cached (rs_tower st) (rs_progress st) s) -> cached (rs_tower st') (rs_progress st') s.
Proof.
  unfold compute_new_bank. intros H s Hne [Hin Hc]. apply bind_Ok in H as ([tower p] & H1 & H).
  apply bind_Ok in H as ([latest computed] & _ & H). apply bind_Ok in H as ([t latest'] & _ & H).
  apply bind_Ok in H as (stats & _ & H). injection H as <-. cbn [rs_tower rs_progress].
  eapply cached_same; [by rewrite set_fork_stats_lookup, decide_False|].
  assert (Hkeep : (tower, p) = (rs_tower st, rs_progress st) -> cached tower p s) by (by intros [= -> ->]).
  destruct (get_vote_account bank my_vote_pubkey) as [[vs|]|]; [|injection H1 as <- <-; auto..].
  destruct (option_slot_gt _ _); [|injection H1 as <- <-; auto].
  unfold adopt_vote_state in H1. apply bind_Ok in H1 as (vs' & _ & H1). apply bind_Ok in H1 as (r & _ & H1).
  apply bind_Ok in H1 as (h & _ & H1). apply bind_Ok in H1 as (tw & _ & H1). apply bind_Ok in H1 as (p1 & Hp1 & H1).
  injection H1 as <- <-. apply (cache_all_cached _ _ _ _ Hp1). by left.
Qed.

Lemma compute_bank_cached frozen bank st st' new (done_ : list Slot) :
  compute_bank epoch_stakes_map epoch_schedule now my_vote_pubkey ancestors bank_forks frozen bank st = Ok (st', new) ->
  (forall s, s ∈ done_ -> s ∈ frozen /\ cached (rs_tower st) (rs_progress st) s) ->
  forall s, s = bk_slot bank \/ s ∈ done_ -> cached (rs_tower st') (rs_progress st') s.
Proof.
  unfold compute_bank. intros H Hdone s Hs. apply bind_Ok in H as (stats & _ & H). apply bind_Ok in H as (st1 & H1 & H).
  apply bind_Ok in H as ([p t] & Hp & H). apply bind_Ok in H as (p' & Hc & H). injection H as <- <-. cbn [rs_tower rs_progress].
  apply cache_tower_stats_cached in Hc as [Hc Ho]. destruct (decide (s = bk_slot bank)) as [->|Hne]; [done|].
  destruct Hs as [?|Hs]; [done|]. eapply cached_same; [by apply Ho|].
  eapply cached_same; [by eapply update_propagation_fork_stats|].
  destruct (fs_computed stats); cbn in H1; [injection H1 as <-; by apply Hdone|].
  eapply compute_new_bank_cached; [done|done|by apply Hdone].
Qed.

Lemma compute_banks_cached frozen banks st st' new (done_ : list Slot) :
  compute_banks epoch_stakes_map epoch_schedule now my_vote_pubkey ancestors bank_forks frozen banks st = Ok (st', new) ->
  (forall b, b ∈ banks -> bk_slot b ∈ frozen) ->
  (forall s, s ∈ done_ -> s ∈ frozen /\ cached (rs_tower st) (rs_progress st) s) ->
  forall s, s ∈ done_ \/ s ∈ bk_slot <$> banks -> cached (rs_tower st') (rs_progress st') s.
Proof.
  revert st new done_. induction banks as [|b banks IH]; intros st new done_ H Hin Hdone s Hs; cbn in H.
  - injection H as <- <-. destruct Hs as [Hs|[]%elem_of_nil]. by apply Hdone.
  - apply bind_Ok in H as ([st1 new1] & H1 & H). apply bind_Ok in H as ([st2 more] & H2 & H). injection H as <- <-.
    eapply (IH st1 more (bk_slot b :: done_)); [exact H2|intros b' Hb'; apply Hin, elem_of_cons; by right| |].
    + intros x Hx. split; [|eapply compute_bank_cached; [exact H1|exact Hdone|by apply elem_of_cons]].
      apply elem_of_cons in Hx as [->|Hx]; [apply Hin, elem_of_cons; by left|by apply Hdone].
    + cbn [fmap list_fmap] in Hs. rewrite elem_of_cons in Hs. rewrite elem_of_cons. tauto.
Qed.

Lemma compute_bank_stats_cached banks st st' new :
  compute_bank_stats epoch_stakes_map epoch_schedule now my_vote_pubkey ancestors bank_forks banks st = Ok (st', new) ->
  forall b, b ∈ banks -> cached (rs_tower st') (rs_progress st') (bk_slot b).
Proof.
  unfold compute_bank_stats. intros H b Hb. set (l := merge_sort by_slot banks) in *.
  assert (Hl : forall x, x ∈ l <-> x ∈ banks) by (intros x; unfold l; by rewrite merge_sort_Permutation).
  eapply (compute_banks_cached _ l st st' new []); [exact H|by intros b' Hb'; apply list_elem_of_fmap_2|by intros s []%elem_of_nil|].
  right. by apply list_elem_of_fmap_2, Hl.
Qed.
End Cached.

(** ** A chosen vote keeps the lockouts *)
Lemma switch_check_keeps ancestors descendants progress total accounts s latest fork_choice tower tower' d :
  check_switch_threshold ancestors descendants progress total accounts s latest fork_choice tower = Ok (tower', d) ->
  vote_state tower' = vote_state tower /\ threshold_depth tower' = threshold_depth tower.
Proof. unfold check_switch_threshold. intros H. apply bind_Ok in H as (d' & _ & H). injection H as <- _. by case_bool_decide. Qed.

Lemma select_votable heaviest same ancestors descendants progress latest fork_choice tower tower' res b d :
  select_vote_and_reset_forks heaviest same ancestors descendants progress latest fork_choice tower = Ok (tower', res) ->
  vote_bank res = Some (b, d) ->
  votable progress tower' b /\ vote_state tower' = vote_state tower /\ threshold_depth tower' = threshold_depth tower.
Proof.
  unfold select_vote_and_reset_forks. intros H Hv. apply bind_Ok in H as (total & _ & H). apply bind_Ok in H as (es & _ & H).
  apply bind_Ok in H as ([tower1 dec] & Hsw & H). apply switch_check_keeps in Hsw.
  apply bind_Ok in H as ([cands failures] & _ & H). apply bind_Ok in H as (res1 & Hc & H). injection H as <- <-.
  split; [|done]. destruct (candidate_vote_bank cands) as [c|]; [|injection Hc as <-; done].
  assert (Hk : is_Some (progress !! bk_slot c)).
  { unfold check_candidate, get_fork_stats in Hc. destruct (progress !! bk_slot c); [done|by cbn in Hc]. }
  destruct (check_candidate_ok progress tower1 c (candidate_reset_bank cands) (candidate_decision cands) failures Hk)
    as (res2 & Hc2 & Hcase). rewrite Hc in Hc2. injection Hc2 as <-.
  destruct Hcase as [((Hvot & _) & Hb & _)|(_ & Hb & _)]; congruence.
Qed.

(** The deep threshold check of a slot *)
Definition deep_threshold (tower : Tower) (s : Slot) (stakes : VotedStakes) (total : Stake) : ThresholdDecision :=
  check_vote_stake_threshold (nth_recent_lockout (process_slot_vote_unchecked (vote_state tower) s) (threshold_depth tower))
    (vote_state tower) (threshold_depth tower) (threshold_size tower) stakes total.

Lemma deep_threshold_passed tower s stakes total :
  (forall depth stake, FailedThreshold depth stake ∈ check_vote_stake_thresholds tower s stakes total ->
     depth < Z.of_nat (threshold_depth tower)) ->
  deep_threshold tower s stakes total = PassedThreshold.
Proof.
  intros H. destruct (deep_threshold tower s stakes total) as [|depth stake] eqn:E; [done|]. exfalso.
  assert (depth = Z.of_nat (threshold_depth tower)) as ->.
  { revert E. unfold deep_threshold, check_vote_stake_threshold. repeat case_match; try done; by intros [= <- _]. }
  apply (Z.lt_irrefl (Z.of_nat (threshold_depth tower))), (H _ stake). unfold check_vote_stake_thresholds.
  apply list_elem_of_bind. exists (threshold_depth tower, threshold_size tower). split.
  - unfold deep_threshold in E. rewrite E. by apply list_elem_of_singleton.
  - apply elem_of_cons. right. apply elem_of_cons. right. by apply list_elem_of_singleton.
Qed.

Section Lockouts.
Context (epoch_stakes_map : Bank -> gmap Epoch EpochStakes) (epoch_schedule : EpochSchedule).
Context (now : UnixTimestamp) (my_vote_pubkey : Pubkey) (ancestors : gmap Slot (gset Slot)) (bank_forks : BankForks).

Definition ancestors_of (s : Slot) : gset Slot := default ∅ (ancestors !! s).

(** C2: votes chosen by the replay stage keep the lockouts.  Once the statistics of
    the frozen banks are computed, a frozen bank that is chosen for a vote descends
    from every vote of every tower the validator ever had whose lockout, as it was
    then, has not run out, and from every slot it rooted; the vote that would be
    threshold deep carries more than the threshold of the stake or was that deep
    before; and the vote can be recorded. *)
Theorem chosen_vote_keeps_lockouts t0 past banks st st' new heaviest same descendants tower' res b d :
  (forall x y, x ∈ ancestors_of y -> x < y) ->
  (forall x y z, x ∈ ancestors_of y -> y ∈ ancestors_of z -> x ∈ ancestors_of z) ->
  on_one_fork ancestors_of t0 -> voting_run ancestors_of t0 past (rs_tower st') ->
  compute_bank_stats epoch_stakes_map epoch_schedule now my_vote_pubkey ancestors bank_forks banks st = Ok (st', new) ->
  select_vote_and_reset_forks heaviest same ancestors descendants (rs_progress st') (rs_latest st') (rs_fork_choice st') (rs_tower st') =
    Ok (tower', res) ->
  vote_bank res = Some (b, d) -> b ∈ banks ->
  (forall t1, t1 ∈ rs_tower st' :: past ->
     (forall w, w ∈ votes (vote_state t1) -> bk_slot b <= last_locked_out_slot (lockout w) -> slot w ∈ ancestors_of (bk_slot b)) /\
     (forall r, root_slot (vote_state t1) = Some r -> r ∈ ancestors_of (bk_slot b))) /\
  (exists stats, get_fork_stats (rs_progress st') (bk_slot b) = Some stats /\
     deep_threshold (rs_tower st') (bk_slot b) (fs_voted_stakes stats) (fs_total_stake stats) = PassedThreshold) /\
  exists tower'' new_root, record_bank_vote now (bk_slot b) (bk_hash b) tower' = Ok (tower'', new_root).
Proof.
  intros Hlt Htr H0 Hrun Hcomp Hsel Hvote Hb.
  destruct (select_votable _ _ _ _ _ _ _ _ _ _ _ _ Hsel Hvote) as ((f & Hf & Hlock & Hdeep & _) & Hvs & Hdepth).
  destruct (compute_bank_stats_cached _ _ _ _ _ _ _ _ _ _ Hcomp b Hb) as (stats & a & Hst & Ha & Hl & Hth).
  unfold get_fork_stats in Hst. rewrite Hf in Hst. injection Hst as <-. rewrite Hlock in Hl.
  assert (Hopen : is_locked_out (rs_tower st') (bk_slot b) (ancestors_of (bk_slot b)) = Ok false) by (unfold ancestors_of; by rewrite Ha).
  split; [by apply (open_slot_on_fork ancestors_of Hlt Htr t0 past (rs_tower st'))|]. split.
  - exists (fork_stats f). split; [unfold get_fork_stats; by rewrite Hf|]. apply deep_threshold_passed.
    rewrite <-Hth, <-Hdepth. exact Hdeep.
  - destruct (run_settled ancestors_of Hlt Htr t0 past (rs_tower st') H0 Hrun) as [Hfork _].
    destruct (of_root _ _ Hfork) as (r & Hr & _).
    pose proof (proj1 (proj1 (is_locked_out_false _ _ _) Hopen)) as Hrecent. apply is_recent_newer in Hrecent.
    destruct (record_bank_vote_ok now (bk_slot b) (bk_hash b) tower' r) as (t2 & ts & Hrec & _); [by rewrite Hvs|by rewrite Hvs|].
    cbn zeta in Hrec. eauto.
Qed.
End Lockouts.
