(* ===== verification/ReplayPass.v ===== *)
(** * One pass over the frozen banks

    [compute_bank_stats] of the replay stage, with the components it calls: as
    long as the banks fit the tower and the maps, it returns, and the progress
    map, the fork choice and the latest votes keep their invariants. *)

From stdpp Require Import sorting.
From S2P Require Import Prelude InstructionError AuthorizedVoters VoteState VoteProcess EpochSchedule Credits Tower VoteSafety ForkChoice ForkChoiceOps ForkChoiceTree ForkChoiceInv ForkChoiceBatch ForkChoiceGen ForkChoiceVotes ForkChoiceSpec ForkChoiceProps FrozenVotes ValidatorTower TowerSafety VoteLockouts ProgressMap Propagation SwitchFork ForkSelect ForkSelectSpec.

(** ** The lockout check answers *)
Section Lockout.
Context (anc : Slot -> gset Slot).
Hypothesis anc_lt : forall a b, a ∈ anc b -> a < b.
Hypothesis anc_trans : forall a b c, a ∈ anc b -> b ∈ anc c -> a ∈ anc c.

(** A root that a vote would set is an ancestor of the votes after it. *)
Lemma next_root_ancestor t s r0 r :
  on_one_fork anc t -> is_recent t s = true -> root_slot (vote_state t) = Some r0 -> r0 ∈ anc s ->
  (forall v, v ∈ votes (next_state (vote_state t) s) -> slot v = s \/ slot v ∈ anc s) ->
  root_slot (next_state (vote_state t) s) = Some r -> r ∈ anc s.
Proof.
  intros Hf Hrec Hr0 Hin Hv Hr. pose proof (is_recent_newer _ _ Hrec) as Hnew.
  destruct (process_next_vote_slot_shape (vote_state t) s (current_epoch (vote_state t)) 0 true true (of_tower _ _ Hf))
    as [[_ (l & Hl & Hle)]|(rooted & kept & expired & w & Hsh)]; [rewrite Hl in Hnew; lia|].
  destruct (nv_root _ _ _ _ _ _ _ _ _ _ Hsh) as [(_ & He & _)|(v & Hrt & He & _ & Hne)]; [congruence|].
  destruct kept as [|y kept]; [done|]. assert (Hy : y ∈ votes (vote_state t)).
  { rewrite (nv_split _ _ _ _ _ _ _ _ _ _ Hsh), !elem_of_app, elem_of_cons. auto. }
  assert (Hok : vote_ok y).
  { pose proof (tower_conf _ (of_tower _ _ Hf)) as Hc. rewrite Forall_forall in Hc. by apply Hc. }
  destruct (bump_elem_of (zlength ((y :: kept) ++ [w])) ((y :: kept) ++ [w]) y Hok ltac:(left)) as (x & Hx & Hxs & _).
  rewrite <-(nv_votes _ _ _ _ _ _ _ _ _ _ Hsh) in Hx.
  assert (Hys : slot y ∈ anc s).
  { pose proof (nv_newer _ _ _ _ _ _ _ _ _ _ Hsh y Hy). destruct (Hv x Hx); [lia|congruence]. }
  rewrite He in Hr. injection Hr as <-. apply (anc_trans _ (slot y)); [|done].
  apply (of_chain _ _ Hf); [rewrite (nv_split _ _ _ _ _ _ _ _ _ _ Hsh), Hrt; left|done|].
  pose proof (tower_slots_sorted _ (of_tower _ _ Hf)) as Hsort. rewrite (nv_split _ _ _ _ _ _ _ _ _ _ Hsh) in Hsort.
  apply StronglySorted_app_inv in Hsort as (_ & _ & H). apply H; [rewrite Hrt; left|left].
Qed.

Lemma is_locked_out_total t s r0 :
  on_one_fork anc t -> root_slot (vote_state t) = Some r0 -> r0 ∈ anc s \/ s <= r0 -> exists b, is_locked_out t s (anc s) = Ok b.
Proof.
  intros Hf Hr0 Hin. destruct (is_recent t s) eqn:Hrec; [|unfold is_locked_out; rewrite Hrec; by exists true].
  pose proof (root_below anc anc_lt t s r0 Hf Hrec Hr0). destruct Hin as [Hin|?]; [|lia].
  unfold is_locked_out. rewrite Hrec. cbn [negb]. unfold process_slot_vote_unchecked.
  rewrite process_vote_unchecked_newer by (by apply is_recent_newer). cbn [fst].
  destruct (existsb _ _) eqn:He; [by exists true|].
  assert (Hv : forall v, v ∈ votes (next_state (vote_state t) s) -> slot v = s \/ slot v ∈ anc s).
  { intros v Hvin. destruct (decide (slot v = s)); [by left|right]. apply dec_stable. intros Hno.
    apply not_true_iff_false in He. apply He, existsb_exists. exists v. split; [by apply list_elem_of_In|].
    by rewrite bool_decide_false, (proj2 (Z.eqb_neq _ _)). }
  destruct (root_slot (next_state (vote_state t) s)) as [r|] eqn:Er; [|by exists false].
  destruct (Z.eqb_spec s r); cbn [negb]; [by exists false|].
  rewrite bool_decide_eq_true_2 by (by eapply next_root_ancestor). by exists false.
Qed.
End Lockout.

(** ** The votes of a bank reach the fork choice *)
Lemma landed_votes_keys get_frozen_hash l : NoDup (fst ∘ fst <$> l : list Pubkey) -> NoDup (sn_key <$> landed_votes get_frozen_hash l).
Proof.
  induction l as [|[[k stake] vs] l IH]; intros Hnd; [constructor|]. cbn [fmap list_fmap] in Hnd. apply NoDup_cons in Hnd as [Hk Hnd].
  change (landed_votes get_frozen_hash ((k, stake, vs) :: l)) with
    (match last_voted_slot vs with Some s => [mkSeen k s (get_frozen_hash s) true] | None => [] end ++ landed_votes get_frozen_hash l).
  destruct (last_voted_slot vs); [|by apply IH]. cbn. apply NoDup_cons. split; [|by apply IH].
  intros (v & -> & Hv)%list_elem_of_fmap. apply Hk. unfold landed_votes in Hv. apply list_elem_of_bind in Hv as ([[k' st'] vs'] & Hv & Hin).
  destruct (last_voted_slot vs'); [|by apply elem_of_nil in Hv]. apply list_elem_of_singleton in Hv as ->.
  by apply (list_elem_of_fmap_2 (fst ∘ fst) l (k', st', vs')).
Qed.
Lemma landed_votes_replay get_frozen_hash l : Forall (fun v => sn_replay v = true) (landed_votes get_frozen_hash l).
Proof.
  apply Forall_forall. intros v Hv. unfold landed_votes in Hv. apply list_elem_of_bind in Hv as ([[k' st'] vs'] & Hv & _).
  destruct (last_voted_slot vs'); [|by apply elem_of_nil in Hv]. by apply list_elem_of_singleton in Hv as ->.
Qed.
Lemma counted_keys (accounts : VoteAccounts) : NoDup accounts.*1 -> NoDup (fst ∘ fst <$> counted accounts : list Pubkey).
Proof.
  induction accounts as [|[k [stake vs]] l IH]; intros Hnd; [constructor|]. cbn [fmap list_fmap] in Hnd. apply NoDup_cons in Hnd as [Hk Hnd].
  change (counted ((k, (stake, vs)) :: l)) with
    ((if stake =? 0 then [] else match vs with Some vs => [(k, stake, vs)] | None => [] end) ++ counted l).
  destruct (stake =? 0); [by apply IH|]. destruct vs as [vs|]; [|by apply IH]. cbn. apply NoDup_cons. split; [|by apply IH].
  intros ([[k' st'] vs'] & -> & Hv)%list_elem_of_fmap. apply Hk. unfold counted in Hv.
  apply list_elem_of_bind in Hv as ([k2 [st2 vs2]] & Hv & Hin). destruct (st2 =? 0); [by apply elem_of_nil in Hv|].
  destruct vs2; [|by apply elem_of_nil in Hv]. apply list_elem_of_singleton in Hv. simplify_eq.
  by apply (list_elem_of_fmap_2 fst _ _ Hin).
Qed.

Section Pass.
Context (epoch_stakes_map : Bank -> gmap Epoch EpochStakes) (epoch_stakes : gmap Epoch EpochStakes) (epoch_schedule : EpochSchedule).
(** The banks agree on the stakes of each epoch. *)
Hypothesis stakes_shared : forall b key s,
  vote_stake (epoch_stakes_map b) epoch_schedule key s = vote_stake epoch_stakes epoch_schedule key s.
Context (now : UnixTimestamp) (my_vote_pubkey : Pubkey) (ancestors : gmap Slot (gset Slot)) (bank_forks : BankForks).
Hypothesis stakes_ok : stakes_in_range epoch_stakes.
Hypothesis anc_lt : forall x y, x ∈ ancestors_of ancestors y -> x < y.
Hypothesis anc_trans :
  forall x y z, x ∈ ancestors_of ancestors y -> y ∈ ancestors_of ancestors z -> x ∈ ancestors_of ancestors z.

Lemma ancestors_irrefl v a : ancestors !! v = Some a -> v ∉ a.
Proof. intros Ha Hv. specialize (anc_lt v v). unfold ancestors_of in anc_lt. rewrite Ha in anc_lt. specialize (anc_lt Hv). lia. Qed.

(** Collecting the votes of a bank from an empty dirty set and handing them over *)
Lemma collect_and_vote bank get_frozen_hash latest t :
  fork_choice_dirty_set latest = ∅ -> fc_reachable epoch_stakes epoch_schedule t ->
  Forall (account_ok (bk_slot bank)) (counted (bk_vote_accounts bank)) -> NoDup (bk_vote_accounts bank).*1 ->
  exists latest1 computed t' latest',
    collect_vote_lockouts my_vote_pubkey (bk_slot bank) ancestors get_frozen_hash (bk_vote_accounts bank) latest = Ok (latest1, computed) /\
    fork_choice_compute_bank_stats epoch_stakes_map epoch_schedule bank t latest1 = Ok (t', latest') /\
    fork_choice_dirty_set latest' = ∅ /\ fc_reachable epoch_stakes epoch_schedule t'.
Proof.
  intros Hd Ht Hacc Hnd. set (l := counted (bk_vote_accounts bank)) in *.
  assert (Hdirty : dirty_ok latest) by (intros pk s hs; by rewrite Hd).
  destruct (collect_accounts_ok my_vote_pubkey (bk_slot bank) ancestors get_frozen_hash (bk_vote_accounts bank)
    (mkCollectState ∅ ∅ 0 ∅ None latest) ancestors_irrefl Hacc Hdirty) as (st & Hrun & _ & Hc).
  unfold collect_vote_lockouts. rewrite Hrun. cbn [obind]. eexists _, _.
  pose proof (co_latest _ _ _ _ _ _ _ Hc) as Hev. cbn [cl_latest_votes] in Hev. fold l in Hev.
  destruct (record_pass (landed_votes get_frozen_hash l) latest latest Hdirty) as (self' & Hrun' & Hin & Hno);
    [by apply landed_votes_keys, counted_keys|apply landed_votes_replay|intros v _; by rewrite Hd|].
  rewrite Hev in Hrun'. injection Hrun' as <-.
  assert (Hnodup : NoDup (take_votes_dirty_set (tree_root t).1 (cl_latest_votes st)).2.*1).
  { apply taken_once. intros pk s hs Hs.
    destruct (decide (pk ∈ sn_key <$> landed_votes get_frozen_hash l)) as [(v & -> & Hv)%list_elem_of_fmap|Hpk].
    - rewrite Hin in Hs by done. unfold fresh_entry in Hs. repeat case_match; simplify_eq; eauto.
    - by rewrite Hno, Hd in Hs. }
  pose proof (reachable_fc_ok epoch_stakes epoch_schedule t stakes_ok Ht) as Hok.
  destruct (take_votes_dirty_set (tree_root t).1 (cl_latest_votes st)) as [latest2 votes] eqn:Et. cbn [snd] in Hnodup.
  assert (Hallowed : op_allowed epoch_stakes epoch_schedule (OpAddVotes (epoch_stakes_map bank) votes) t) by (split; [done|]; by intros ? ? ? ? ?).
  destruct (op_keeps_ok epoch_stakes epoch_schedule _ t stakes_ok Hok Hallowed) as (t' & Hop & _).
  pose proof Hop as Hop'. cbn [run_op] in Hop'. apply bind_Ok in Hop' as ([t1 best] & Hadd & Hop'). injection Hop' as <-.
  exists t1, latest2. split; [reflexivity|]. unfold fork_choice_compute_bank_stats. rewrite Et, Hadd. cbn [obind].
  split; [reflexivity|]. split; [by injection Et as <- _|]. by eapply (reach_op _ _ (OpAddVotes (epoch_stakes_map bank) votes)).
Qed.

(** ** The pass

    [roots] holds the slots that the tower has as its root in the pass: its own,
    and those of the validator's vote account in the banks. *)
Context (roots : Slot -> Prop).

Definition rooted (s : Slot) : Prop := forall r, roots r -> r ∈ ancestors_of ancestors s \/ s <= r.

Record pass_ok (st : ReplayState) : Prop := {
  pa_tower : on_one_fork (ancestors_of ancestors) (rs_tower st);
  pa_root : forall r, root_slot (vote_state (rs_tower st)) = Some r -> roots r;
  pa_hashes : forall r, roots r -> is_Some (get_hash (rs_progress st) r);
  pa_progress : progress_ok bank_forks (rs_progress st);
  pa_fork_choice : fc_reachable epoch_stakes epoch_schedule (rs_fork_choice st);
  pa_dirty : fork_choice_dirty_set (rs_latest st) = ∅
}.

(** The validator's vote account in a bank: its votes lie on one fork, above its
    root, and above every root of the pass or not newer; the last is frozen. *)
Record own_ok (p : ProgressMap) (vs : VoteState) : Prop := {
  ow_tower : tower_ok (votes vs);
  ow_chain : forall v w, v ∈ votes vs -> w ∈ votes vs -> slot v < slot w -> slot v ∈ ancestors_of ancestors (slot w);
  ow_root : forall r, root_slot vs = Some r -> roots r /\ forall v, v ∈ votes vs -> r < slot v;
  ow_rooted : forall v, v ∈ votes vs -> rooted (slot v);
  ow_last : forall s, last_voted_slot vs = Some s -> is_Some (get_hash p s)
}.

(** A frozen bank of the fork maps: it has an entry, it descends from the roots
    or is not newer, and its accounts voted for earlier slots only. *)
Record bank_frozen (p : ProgressMap) (bank : Bank) : Prop := {
  bz_entry : is_Some (p !! bk_slot bank);
  bz_ancestors : is_Some (ancestors !! bk_slot bank);
  bz_root : rooted (bk_slot bank);
  bz_accounts : Forall (account_ok (bk_slot bank)) (counted (bk_vote_accounts bank));
  bz_keys : NoDup (bk_vote_accounts bank).*1;
  bz_own : forall vs, get_vote_account bank my_vote_pubkey = Some (Some vs) -> own_ok p vs
}.

(** The votes of the tower after a bank: those of the validator's account in it if
    they are ahead, above the later of the two roots. *)
Definition later_root (a b : option Slot) : option Slot :=
  match a, b with
  | Some a, Some b => Some (Z.max a b)
  | None, b => b
  | a, None => a
  end.
Definition ahead (x : VoteState) (bank : Bank) : bool :=
  match get_vote_account bank my_vote_pubkey with
  | Some (Some vs) => option_slot_gt (last_voted_slot vs) (last_voted_slot x)
  | _ => false
  end.
Definition follow (x : VoteState) (bank : Bank) : VoteState :=
  match get_vote_account bank my_vote_pubkey with
  | Some (Some vs) =>
      if option_slot_gt (last_voted_slot vs) (last_voted_slot x) then
        let r := later_root (root_slot x) (root_slot vs) in
        set_votes (set_root_slot x r) (List.filter (fun v => match r with Some r => r <? slot v | None => true end) (votes vs))
      else x
  | _ => x
  end.

Lemma set_fork_stats_propagated s stats p x : get_propagated_stats (set_fork_stats s stats p) x = get_propagated_stats p x.
Proof.
  unfold get_propagated_stats, set_fork_stats. destruct (decide (x = s)) as [->|Hne].
  - rewrite lookup_alter_eq. by destruct (p !! s).
  - by rewrite lookup_alter_ne.
Qed.
Lemma set_fork_stats_ok s stats p : progress_ok bank_forks p -> progress_ok bank_forks (set_fork_stats s stats p).
Proof. apply progress_ok_visible. intros x. by rewrite set_fork_stats_propagated. Qed.

(** The same slots with the same hashes, and those whose statistics are computed
    grow by [new]. *)
Definition computes (new : list Slot) (p p' : ProgressMap) : Prop :=
  forall s, match get_fork_stats p s with
            | Some stats => exists stats', get_fork_stats p' s = Some stats' /\ fs_bank_hash stats' = fs_bank_hash stats /\
                fs_computed stats' = fs_computed stats || bool_decide (s ∈ new)
            | None => get_fork_stats p' s = None
            end.

Lemma computes_same p p' : (forall s, get_fork_stats p' s = get_fork_stats p s) -> computes [] p p'.
Proof.
  intros H s. rewrite H. destruct (get_fork_stats p s) as [stats|]; [|done]. exists stats. split; [done|]. split; [done|].
  by rewrite bool_decide_eq_false_2, orb_false_r by apply not_elem_of_nil.
Qed.
Lemma computes_trans new new' p p1 p2 : computes new p p1 -> computes new' p1 p2 -> computes (new ++ new') p p2.
Proof.
  intros H1 H2 s. specialize (H1 s). specialize (H2 s). destruct (get_fork_stats p s) as [st|]; [|by rewrite H1 in H2].
  destruct H1 as (st1 & E1 & B1 & C1). rewrite E1 in H2. destruct H2 as (st2 & E2 & B2 & C2). exists st2. split; [done|].
  split; [congruence|]. rewrite C2, C1, <-orb_assoc. f_equal. rewrite <-bool_decide_or. apply bool_decide_ext. by rewrite elem_of_app.
Qed.
Lemma computes_set (new : list Slot) s stats stats' p :
  get_fork_stats p s = Some stats -> (forall x, x ∈ new -> x = s) -> fs_bank_hash stats' = fs_bank_hash stats ->
  fs_computed stats' = fs_computed stats || bool_decide (s ∈ new) -> computes new p (set_fork_stats s stats' p).
Proof.
  intros Hs Hnew Hh Hc x. pose proof (set_fork_stats_lookup s stats' p x) as Hl.
  destruct (decide (x = s)) as [->|Hx].
  - rewrite Hs in Hl |- *. eauto.
  - rewrite Hl. destruct (get_fork_stats p x) as [st|]; [|done]. exists st. split; [done|]. split; [done|].
    by rewrite bool_decide_eq_false_2, orb_false_r by (intros H; by apply Hx, Hnew).
Qed.
Lemma computes_hash new p p' s : computes new p p' -> get_hash p' s = get_hash p s.
Proof.
  intros H. specialize (H s). unfold get_hash, get_fork_stats in *.
  destruct (p !! s) as [f|], (p' !! s) as [f'|]; cbn in *; [|by destruct H as (? & ? & _)|done|done].
  by destruct H as (st & [= ->] & ? & _).
Qed.
Lemma own_computes new p p' vs : computes new p p' -> own_ok p vs -> own_ok p' vs.
Proof. intros Hc []. split; try done. intros s Hs. rewrite (computes_hash _ _ _ _ Hc). auto. Qed.
Lemma bank_frozen_computes new p p' bank : computes new p p' -> bank_frozen p bank -> bank_frozen p' bank.
Proof.
  intros Hc [He Ha Hr Hacc Hk Ho]. split; try done; [|intros vs Hvs; eapply own_computes; [done|by apply Ho]].
  specialize (Hc (bk_slot bank)). unfold get_fork_stats in Hc.
  destruct He as [f Hf]. rewrite Hf in Hc. cbn in Hc. destruct Hc as (st & Hs & _). by destruct (p' !! bk_slot bank).
Qed.

(** ** Following the vote account *)

(** A tower the pass can have *)
Definition tower_in_pass (t : Tower) : Prop :=
  on_one_fork (ancestors_of ancestors) t /\ forall r, root_slot (vote_state t) = Some r -> roots r.

Lemma frozen_cache tower bank p :
  tower_in_pass tower -> bank_frozen p bank -> progress_ok bank_forks p ->
  exists p', cache_tower_stats ancestors tower (bk_slot bank) p = Ok p' /\ progress_ok bank_forks p' /\ computes [] p p'.
Proof.
  intros [Hf Hroot] Hb Hp. unfold cache_tower_stats. destruct (bz_entry _ _ Hb) as [f Hfp].
  assert (get_fork_stats p (bk_slot bank) = Some (fork_stats f)) as Hst by (unfold get_fork_stats; by rewrite Hfp).
  rewrite Hst. cbn [expect obind].
  destruct (bz_ancestors _ _ Hb) as [a Ha]. rewrite Ha. cbn [expect obind].
  destruct (of_root _ _ Hf) as (r & Hr & _).
  destruct (is_locked_out_total (ancestors_of ancestors) anc_lt anc_trans tower (bk_slot bank) r Hf Hr (bz_root _ _ Hb r (Hroot r Hr))) as [b Hlock].
  unfold ancestors_of in Hlock. rewrite Ha in Hlock. cbn in Hlock. rewrite Hlock. cbn [obind]. eexists. split; [reflexivity|].
  split; [by apply set_fork_stats_ok|]. apply (computes_set [] _ (fork_stats f)); [done|by intros x ?%not_elem_of_nil|done|].
  cbn. by rewrite orb_false_r.
Qed.

Lemma frozen_cache_all tower frozen p :
  tower_in_pass tower -> (forall s, s ∈ frozen -> exists b, bk_slot b = s /\ bank_frozen p b) -> progress_ok bank_forks p ->
  exists p', cache_all ancestors tower frozen p = Ok p' /\ progress_ok bank_forks p' /\ computes [] p p'.
Proof.
  intros Ht. revert p. induction frozen as [|s frozen IH]; intros p Hb Hp; cbn [cache_all].
  - exists p. split; [done|]. split; [done|by apply computes_same].
  - destruct (Hb s ltac:(left)) as (b & <- & Hfr). destruct (frozen_cache tower b p Ht Hfr Hp) as (p1 & -> & Hp1 & Hc1). cbn [obind].
    destruct (IH p1) as (p2 & -> & Hp2 & Hc2); [|done|].
    + intros s' Hs'. destruct (Hb s' ltac:(by right)) as (b' & <- & Hb'). exists b'. split; [done|by eapply bank_frozen_computes].
    + exists p2. split; [done|]. split; [done|]. by apply (computes_trans [] [] _ p1).
Qed.

Lemma filter_suffix r (l : list LandedVote) :
  StronglySorted (fun v w => slot v < slot w) l -> exists l1, l = l1 ++ List.filter (fun v => r <? slot v) l.
Proof.
  induction l as [|v l IH]; intros Hs; [by exists []|]. apply StronglySorted_inv in Hs as [Hs Hv]. cbn.
  destruct (Z.ltb_spec r (slot v)).
  - exists []. cbn. f_equal. clear IH Hs. rewrite Forall_forall in Hv.
    induction l as [|w l IH]; [done|]. cbn. rewrite (proj2 (Z.ltb_lt _ _)) by (specialize (Hv w ltac:(left)); lia).
    f_equal. apply IH. intros x Hx. apply Hv. by right.
  - destruct (IH Hs) as [l1 Hl1]. exists (v :: l1). cbn. by f_equal.
Qed.

Lemma filter_true_all {A} (f : A -> bool) l : (forall x, x ∈ l -> f x = true) -> List.filter f l = l.
Proof.
  induction l as [|x l IH]; intros H; [done|]. cbn. rewrite H by left. f_equal. apply IH. intros y Hy. apply H. by right.
Qed.

(** The account, cut at the later root, is a tower of the pass. *)
Lemma cut_on_one_fork p vs r t :
  own_ok p vs -> roots r -> votes (vote_state t) = List.filter (fun v => r <? slot v) (votes vs) -> root_slot (vote_state t) = Some r ->
  on_one_fork (ancestors_of ancestors) t.
Proof.
  intros [Ht Hc _ Hr _] Hroot Hv Hrt. split; rewrite Hv.
  - destruct (filter_suffix r (votes vs) (tower_slots_sorted _ Ht)) as [l1 Hl1]. rewrite Hl1 in Ht. by eapply tower_ok_app_r.
  - exists r. split; [done|]. intros v [Hin Hlt%Z.ltb_lt]%list_elem_of_In%filter_In. apply list_elem_of_In in Hin.
    destruct (Hr v Hin r Hroot); [done|lia].
  - intros v w [Hin _]%list_elem_of_In%filter_In [Hin' _]%list_elem_of_In%filter_In. apply list_elem_of_In in Hin, Hin'. by apply Hc.
Qed.

Lemma update_last_vote_ok h t :
  exists t', update_last_vote_from_vote_state now h t = Ok t' /\ vote_state t' = vote_state t.
Proof.
  unfold update_last_vote_from_vote_state. rewrite tower_last_voted_slot_ok. cbn [obind].
  destruct (maybe_timestamp _ _ _) as [t1 ts] eqn:Et. eexists. split; [reflexivity|]. cbn.
  unfold maybe_timestamp in Et. repeat case_match; by injection Et as <- _.
Qed.

Lemma adjust_ok p lr vs :
  own_ok p vs -> roots lr ->
  exists vs', adjust_to_local_root ancestors (Some lr) vs = Ok vs' /\ root_slot vs' = later_root (Some lr) (root_slot vs) /\
    votes vs' = List.filter (fun v => match later_root (Some lr) (root_slot vs) with Some r => r <? slot v | None => true end) (votes vs).
Proof.
  intros Hown Hlr. unfold adjust_to_local_root.
  destruct (match root_slot vs with Some bank_root => bank_root <? lr | None => true end) eqn:Eb.
  - cbn zeta. cbn [votes set_votes set_root_slot].
    assert (later_root (Some lr) (root_slot vs) = Some lr) as ->.
    { destruct (root_slot vs); cbn; [|done]. f_equal. lia. }
    set (l := List.filter _ (votes vs)).
    assert (match l with first_vote :: _ => a ←? expect (ancestors !! slot first_vote); rust_assert (bool_decide (lr ∈ a)) | [] => Ok tt end
      = @Ok TowerError _ tt) as ->; [|by eexists].
    destruct l as [|v l'] eqn:El; [done|]. assert (v ∈ l) as Hv by (rewrite El; left). unfold l in Hv.
    apply list_elem_of_In, filter_In in Hv as [Hv Hlt%Z.ltb_lt]. apply list_elem_of_In in Hv.
    destruct (ow_rooted _ _ Hown v Hv lr Hlr) as [Hin|?]; [|lia]. unfold ancestors_of in Hin.
    destruct (ancestors !! slot v) as [a|]; [|by apply not_elem_of_empty in Hin]. cbn [expect obind].
    by rewrite bool_decide_eq_true_2.
  - destruct (root_slot vs) as [br|] eqn:Er; [|done]. apply Z.ltb_ge in Eb. exists vs. split; [done|].
    cbn. rewrite Z.max_r, Er by done. split; [done|]. symmetry. apply filter_true_all. intros v Hv. apply Z.ltb_lt.
    by apply (ow_root _ _ Hown br Er).
Qed.

Lemma follow_root x bank r p :
  root_slot x = Some r -> roots r -> (forall vs, get_vote_account bank my_vote_pubkey = Some (Some vs) -> own_ok p vs) ->
  exists r', root_slot (follow x bank) = Some r' /\ roots r'.
Proof.
  intros Hr Hroot Hown. unfold follow. destruct (get_vote_account bank my_vote_pubkey) as [[vs|]|]; [|by exists r..].
  destruct (option_slot_gt _ _); [|by exists r]. cbn. rewrite Hr.
  destruct (root_slot vs) as [br|] eqn:Ebr; cbn; [|by exists r].
  destruct (ow_root _ _ (Hown vs eq_refl) br Ebr) as [Hb _].
  eexists. split; [done|]. by destruct (Z.max_spec r br) as [[_ ->]|[_ ->]].
Qed.

Lemma last_voted_suffix (x vs : VoteState) l1 s :
  votes vs = l1 ++ votes x -> last_voted_slot x = Some s -> last_voted_slot vs = Some s.
Proof. intros Heq. unfold last_voted_slot, last_lockout. rewrite Heq, last_app. by destruct (last (votes x)). Qed.

Lemma adopt_ok frozen bank vs t p :
  tower_in_pass t -> get_vote_account bank my_vote_pubkey = Some (Some vs) -> own_ok p vs ->
  option_slot_gt (last_voted_slot vs) (last_voted_slot (vote_state t)) = true ->
  (forall s, s ∈ frozen -> exists b, bk_slot b = s /\ bank_frozen p b) -> progress_ok bank_forks p ->
  (forall r, roots r -> is_Some (get_hash p r)) ->
  exists t' p', adopt_vote_state now ancestors frozen vs t p = Ok (t', p') /\ tower_in_pass t' /\
    vote_state t' = follow (vote_state t) bank /\ progress_ok bank_forks p' /\ computes [] p p'.
Proof.
  intros [Hf Hroots] Hacc Hown Hgt Hfrozen Hp Hhash. destruct (of_root _ _ Hf) as (lr & Hlr & _).
  pose proof (Hroots lr Hlr) as Hlr'. unfold adopt_vote_state. rewrite Hlr.
  destruct (adjust_ok p lr vs Hown Hlr') as (vs' & -> & Hr & Hv). cbn [obind].
  set (own := set_votes (set_root_slot (vote_state t) (root_slot vs')) (votes vs')).
  assert (own = follow (vote_state t) bank) as Hfollow.
  { unfold own, follow. rewrite Hacc, Hgt, Hlr, Hr, Hv. done. }
  destruct (follow_root (vote_state t) bank lr p Hlr Hlr') as (r & Hown_r & Hr'); [by intros vs0; rewrite Hacc; intros [= <-]|].
  rewrite <-Hfollow in Hown_r. rewrite Hown_r. cbn [expect obind].
  assert (votes own = List.filter (fun v => r <? slot v) (votes vs)) as Hvotes.
  { change (votes own) with (votes vs'). rewrite Hv. change (root_slot own) with (root_slot vs') in Hown_r. by rewrite <-Hr, Hown_r. }
  assert (is_Some (get_hash p (default r (last_voted_slot own)))) as [h ->].
  { destruct (last_voted_slot own) as [s|] eqn:El; [|by apply Hhash]. apply (ow_last _ _ Hown).
    destruct (filter_suffix r (votes vs) (tower_slots_sorted _ (ow_tower _ _ Hown))) as [l1 Hl1].
    rewrite <-Hvotes in Hl1. by eapply last_voted_suffix. }
  cbn [expect obind]. destruct (update_last_vote_ok h (with_vote_state own t)) as (t' & -> & Hvs'). cbn [obind].
  cbn in Hvs'. assert (tower_in_pass t') as Ht'.
  { split; [apply (cut_on_one_fork p vs r); rewrite ?Hvs'; done|]. rewrite Hvs', Hown_r. by intros ? [= <-]. }
  destruct (frozen_cache_all t' frozen p Ht' Hfrozen Hp) as (p' & -> & Hp' & Hc). cbn [obind].
  exists t', p'. split; [done|]. split; [done|]. split; [congruence|done].
Qed.

(** ** The banks *)

Lemma follow_ahead x bank : ahead x bank = false -> follow x bank = x.
Proof. unfold ahead, follow. destruct (get_vote_account bank my_vote_pubkey) as [[vs|]|]; [|done..]. by intros ->. Qed.

(** The tower and the statistics before the votes of a new bank are collected *)
Lemma new_bank_tower frozen bank st :
  pass_ok st -> bank_frozen (rs_progress st) bank ->
  (forall s, s ∈ frozen -> exists b, bk_slot b = s /\ bank_frozen (rs_progress st) b) ->
  exists t p, (match get_vote_account bank my_vote_pubkey with
      | Some (Some vs) =>
          if option_slot_gt (last_voted_slot vs) (last_voted_slot (vote_state (rs_tower st)))
          then adopt_vote_state now ancestors frozen vs (rs_tower st) (rs_progress st)
          else Ok (rs_tower st, rs_progress st)
      | _ => Ok (rs_tower st, rs_progress st)
      end) = Ok (t, p) /\
    tower_in_pass t /\ vote_state t = follow (vote_state (rs_tower st)) bank /\
    (ahead (vote_state (rs_tower st)) bank = false -> t = rs_tower st) /\
    progress_ok bank_forks p /\ computes [] (rs_progress st) p.
Proof.
  intros [Ht Hroot Hh Hp _ _] Hb Hfr. assert (tower_in_pass (rs_tower st)) as Hin by done.
  assert (ahead (vote_state (rs_tower st)) bank = false -> exists t p, Ok (rs_tower st, rs_progress st) = @Ok TowerError _ (t, p) /\
    tower_in_pass t /\ vote_state t = follow (vote_state (rs_tower st)) bank /\ (true = true -> t = rs_tower st) /\
    progress_ok bank_forks p /\ computes [] (rs_progress st) p) as Hsame.
  { intros Ha. exists (rs_tower st), (rs_progress st). rewrite (follow_ahead _ _ Ha). repeat (split; [done|]). by apply computes_same. }
  unfold ahead in *. destruct (get_vote_account bank my_vote_pubkey) as [[vs|]|] eqn:Ev; [|naive_solver..].
  destruct (option_slot_gt _ _) eqn:Eg; [|naive_solver].
  destruct (adopt_ok frozen bank vs (rs_tower st) (rs_progress st) Hin Ev (bz_own _ _ Hb vs Ev) Eg Hfr Hp Hh)
    as (t & p & Hrun & ? & ? & ? & ?). by exists t, p.
Qed.

Lemma compute_new_bank_ok frozen bank st stats :
  pass_ok st -> bank_frozen (rs_progress st) bank ->
  (forall s, s ∈ frozen -> exists b, bk_slot b = s /\ bank_frozen (rs_progress st) b) ->
  get_fork_stats (rs_progress st) (bk_slot bank) = Some stats ->
  exists st', compute_new_bank epoch_stakes_map epoch_schedule now my_vote_pubkey ancestors frozen bank st = Ok st' /\
    pass_ok st' /\ computes [bk_slot bank] (rs_progress st) (rs_progress st') /\
    vote_state (rs_tower st') = follow (vote_state (rs_tower st)) bank /\
    (ahead (vote_state (rs_tower st)) bank = false -> rs_tower st' = rs_tower st).
Proof.
  intros Hok Hb Hfr Hst. unfold compute_new_bank.
  destruct (new_bank_tower frozen bank st Hok Hb Hfr) as (t & p & -> & [Ht Hroot] & Hfol & Hah & Hp & Hc). cbn [obind].
  destruct Hok as [_ _ Hh _ Hfc Hd].
  destruct (collect_and_vote bank (get_hash p) (rs_latest st) (rs_fork_choice st) Hd Hfc
    (bz_accounts _ _ Hb) (bz_keys _ _ Hb)) as (latest1 & computed & t' & latest' & -> & Hfork & Hd' & Hfc').
  cbn [of_fc map_err obind]. rewrite Hfork. cbn [of_fc map_err obind].
  pose proof (Hc (bk_slot bank)) as Hst'. rewrite Hst in Hst'. destruct Hst' as (stats' & Hst' & _). rewrite Hst'. cbn [expect obind].
  eexists. split; [reflexivity|]. cbn [rs_tower rs_progress].
  assert (computes [bk_slot bank] (rs_progress st) (set_fork_stats (bk_slot bank) (set_computed computed (bk_block_height bank) stats') p)) as Hc'.
  { apply (computes_trans [] [bk_slot bank] _ p); [done|].
    apply (computes_set [bk_slot bank] _ stats'); [done|by intros x ->%list_elem_of_singleton|done|].
    cbn. by rewrite bool_decide_eq_true_2, orb_true_r by (by apply list_elem_of_singleton). }
  split; [|done]. split; cbn; [done|done| |by apply set_fork_stats_ok|done|done].
  intros r Hr. rewrite (computes_hash _ _ _ _ Hc'). auto.
Qed.

Definition computed_at (p : ProgressMap) (s : Slot) : bool := default true (fs_computed <$> get_fork_stats p s).

(** What a bank, or a list of banks, makes of the tower *)
Definition follow_new (p : ProgressMap) (x : VoteState) (banks : list Bank) : VoteState :=
  foldl follow x (List.filter (fun b => negb (computed_at p (bk_slot b))) banks).

Lemma compute_bank_ok frozen bank st :
  pass_ok st -> bank_frozen (rs_progress st) bank ->
  (forall s, s ∈ frozen -> exists b, bk_slot b = s /\ bank_frozen (rs_progress st) b) ->
  exists st', compute_bank epoch_stakes_map epoch_schedule now my_vote_pubkey ancestors bank_forks frozen bank st =
      Ok (st', if computed_at (rs_progress st) (bk_slot bank) then [] else [bk_slot bank]) /\
    pass_ok st' /\
    computes (if computed_at (rs_progress st) (bk_slot bank) then [] else [bk_slot bank]) (rs_progress st) (rs_progress st') /\
    vote_state (rs_tower st') = follow_new (rs_progress st) (vote_state (rs_tower st)) [bank] /\
    (ahead (vote_state (rs_tower st)) bank = false -> rs_tower st' = rs_tower st).
Proof.
  intros Hok Hb Hfr. unfold compute_bank. destruct (bz_entry _ _ Hb) as [f Hfp].
  assert (Hst : get_fork_stats (rs_progress st) (bk_slot bank) = Some (fork_stats f)) by (unfold get_fork_stats; by rewrite Hfp).
  unfold follow_new, computed_at. cbn [List.filter]. rewrite Hst. cbn [expect obind fmap option_fmap option_map default].
  set (new := if fs_computed (fork_stats f) then [] else [bk_slot bank]).
  assert (exists st1, (if negb (fs_computed (fork_stats f))
    then compute_new_bank epoch_stakes_map epoch_schedule now my_vote_pubkey ancestors frozen bank st else Ok st) = Ok st1 /\
    pass_ok st1 /\ computes new (rs_progress st) (rs_progress st1) /\
    vote_state (rs_tower st1) = foldl follow (vote_state (rs_tower st)) (if negb (fs_computed (fork_stats f)) then [bank] else []) /\
    (ahead (vote_state (rs_tower st)) bank = false -> rs_tower st1 = rs_tower st)) as (st1 & -> & Hok1 & Hc1 & Hf1 & Ha1).
  { unfold new. destruct (fs_computed (fork_stats f)) eqn:Ec; cbn [negb].
    - exists st. split; [done|]. split; [done|]. split; [by apply computes_same|done].
    - by eapply compute_new_bank_ok. }
  cbn [obind]. destruct (bz_entry _ _ (bank_frozen_computes _ _ _ _ Hc1 Hb)) as [f1 Ef1].
  destruct (@status_ok TowerError bank_forks (rs_progress st1) (bk_slot bank) (propagated_stats f1) (rs_trackers st1))
    as (p2 & trackers & Hrun & Hp2 & _); [apply Hok1|unfold get_propagated_stats; by rewrite Ef1|].
  rewrite Hrun. cbn [obind].
  assert (computes [] (rs_progress st1) p2) as Hc2 by (apply computes_same; intros s; by eapply update_propagation_fork_stats).
  pose proof (computes_trans _ _ _ _ _ Hc1 Hc2) as Hc12.
  destruct (frozen_cache (rs_tower st1) bank p2) as (p3 & -> & Hp3 & Hc3);
    [split; apply Hok1|by eapply bank_frozen_computes|done|].
  cbn [obind]. pose proof (computes_trans _ _ _ _ _ Hc12 Hc3) as Hc. rewrite !app_nil_r in Hc.
  eexists. split; [unfold new; by destruct (fs_computed (fork_stats f))|]. split; [|done].
  destruct Hok1 as [? ? Hh _ ? ?]. split; cbn; try done. intros r Hr.
  rewrite (computes_hash _ _ _ _ Hc3), (computes_hash _ _ _ _ Hc2). auto.
Qed.

Lemma computes_at new p p' s : computes new p p' -> is_Some (p !! s) -> computed_at p' s = computed_at p s || bool_decide (s ∈ new).
Proof.
  intros Hc [f Hf]. specialize (Hc s). unfold computed_at, get_fork_stats in *. rewrite Hf in *. cbn in *.
  destruct Hc as (st & -> & _ & ?). done.
Qed.

(** The slots and the banks that are still to compute *)
Definition uncomputed (p : ProgressMap) (banks : list Bank) : list Slot :=
  List.filter (fun s => negb (computed_at p s)) (bk_slot <$> banks).

Lemma uncomputed_tail new p p' banks (x : VoteState) :
  computes new p p' -> (forall b, b ∈ banks -> is_Some (p !! bk_slot b) /\ bk_slot b ∉ new) ->
  uncomputed p' banks = uncomputed p banks /\ follow_new p' x banks = follow_new p x banks.
Proof.
  intros Hc. unfold uncomputed, follow_new. assert (forall b, is_Some (p !! bk_slot b) /\ bk_slot b ∉ new ->
    computed_at p' (bk_slot b) = computed_at p (bk_slot b)) as He.
  { intros b [Hb Hn]. by rewrite (computes_at _ _ _ _ Hc Hb), bool_decide_eq_false_2, orb_false_r. }
  intros Hb. assert (uncomputed p' banks = uncomputed p banks /\
    List.filter (fun b => negb (computed_at p' (bk_slot b))) banks = List.filter (fun b => negb (computed_at p (bk_slot b))) banks) as [? ->]; [|done].
  unfold uncomputed. induction banks as [|b banks IH]; [done|]. cbn. rewrite (He b) by (apply Hb; left).
  destruct IH as [-> ->]; [|done]. intros b' Hb'. apply Hb. by right.
Qed.

Lemma compute_banks_ok frozen banks st :
  pass_ok st -> NoDup (bk_slot <$> banks) -> (forall b, b ∈ banks -> bank_frozen (rs_progress st) b) ->
  (forall s, s ∈ frozen -> exists b, bk_slot b = s /\ bank_frozen (rs_progress st) b) ->
  exists st', compute_banks epoch_stakes_map epoch_schedule now my_vote_pubkey ancestors bank_forks frozen banks st =
      Ok (st', uncomputed (rs_progress st) banks) /\
    pass_ok st' /\ computes (uncomputed (rs_progress st) banks) (rs_progress st) (rs_progress st') /\
    vote_state (rs_tower st') = follow_new (rs_progress st) (vote_state (rs_tower st)) banks /\
    ((forall b, b ∈ banks -> ahead (vote_state (rs_tower st)) b = false) -> rs_tower st' = rs_tower st).
Proof.
  revert st. induction banks as [|b banks IH]; intros st Hok Hnd Hall Hfr; cbn [compute_banks].
  - exists st. split; [done|]. split; [done|]. split; [by apply computes_same|done].
  - cbn [fmap list_fmap] in Hnd. apply NoDup_cons in Hnd as [Hnb Hnd].
    destruct (compute_bank_ok frozen b st Hok (Hall b ltac:(left)) Hfr) as (st1 & -> & Hok1 & Hc1 & Hf1 & Ha1). cbn [obind].
    destruct (IH st1 Hok1 Hnd) as (st' & -> & Hok' & Hc2 & Hf2 & Ha2).
    { intros b' Hb'. eapply bank_frozen_computes; [done|]. apply Hall. by right. }
    { intros s Hs. destruct (Hfr s Hs) as (b' & ? & ?). exists b'. split; [done|]. by eapply bank_frozen_computes. }
    cbn [obind]. destruct (uncomputed_tail _ _ _ banks (vote_state (rs_tower st1)) Hc1) as [Hun Hfo].
    { intros b' Hb'. split; [apply (bz_entry _ _ (Hall b' ltac:(by right)))|].
      destruct (computed_at _ _); [apply not_elem_of_nil|]. intros He%list_elem_of_singleton. apply Hnb. rewrite <-He.
      by apply list_elem_of_fmap_2. }
    rewrite Hun in *. assert (uncomputed (rs_progress st) (b :: banks) =
      (if computed_at (rs_progress st) (bk_slot b) then [] else [bk_slot b]) ++ uncomputed (rs_progress st) banks) as Hcons.
    { unfold uncomputed. cbn. by destruct (computed_at _ _). }
    exists st'. rewrite Hcons. split; [done|]. split; [done|]. split; [by eapply computes_trans|]. split.
    + rewrite Hf2, Hfo, Hf1. unfold follow_new. cbn. by destruct (computed_at _ _).
    + intros Hah. rewrite <-(Ha1 (Hah b ltac:(left))). apply Ha2. intros b' Hb'. rewrite (Ha1 (Hah b ltac:(left))).
      apply Hah. by right.
Qed.

End Pass.
