(* ===== verification/ReplaySample.v ===== *)
(** * A pass of the replay stage: a sample run

    Slot 1 on the root, slots 2 and 3 on slot 1; the validator voted for slot 1,
    or has lost its tower and follows its vote account.
    The theorems about the replay stage are applied to a pass over the three
    banks and the choice that follows. *)

From stdpp Require Import sorting.
From S2P Require Import Prelude InstructionError AuthorizedVoters VoteState VoteProcess EpochSchedule Credits Tower VoteSafety ForkChoice ForkChoiceOps ForkChoiceVotes ForkChoiceProps ForkChoiceSample FrozenVotes ValidatorTower TowerSafety VoteLockouts ProgressMap Propagation SwitchFork SwitchSafety ForkSelect ForkSelectSpec ReplayPass.

Definition pass_ancestors : gmap Slot (gset Slot) := {[0 := ∅; 1 := {[0]}; 2 := {[0; 1]}; 3 := {[0; 1]}]}.
Definition pass_descendants : list (Slot * gset Slot) := [(0, {[1; 2; 3]}); (1, {[2; 3]}); (2, ∅); (3, ∅)].

Definition pass_bank (s parent : Slot) (accounts : VoteAccounts) : Bank :=
  mkBank s (10 + s) parent 8 true (Some (mkBankEpochStakes {[1 := 30; 2 := 60; 3 := 10]} ∅ 100)) [] accounts s.
Definition all_voted (s : Slot) : VoteAccounts :=
  [(1, (30, Some (sample_vote s))); (2, (60, Some (sample_vote s))); (3, (10, Some (sample_vote s)))].
Definition pass_banks : list Bank := [pass_bank 3 1 (all_voted 1); pass_bank 1 0 (all_voted 0); pass_bank 2 1 (all_voted 1)].
Definition pass_forks : BankForks :=
  mkBankForks {[1 := pass_bank 1 0 (all_voted 0); 2 := pass_bank 2 1 (all_voted 1); 3 := pass_bank 3 1 (all_voted 1)]} 0.

Definition frozen_entry (s : Slot) : ForkProgress :=
  let f := fork_progress_new 0 None None 0 0 in with_fork_stats (set_bank_hash (Some (10 + s)) (fork_stats f)) f.
Definition pass_progress : ProgressMap := {[0 := frozen_entry 0; 1 := frozen_entry 1; 2 := frozen_entry 2; 3 := frozen_entry 3]}.
Definition pass_tower : Tower := match record_bank_vote 0 1 11 tower_default with Ok (t, _) => t | _ => tower_default end.
Definition start_with (t : Tower) : ReplayState := mkReplayState t pass_progress (mkTrackers ∅ ∅ ∅ ∅) tree3 latest_votes_default.
Definition pass_start : ReplayState := start_with pass_tower.

Lemma pass_ancestors_of x y : x ∈ ancestors_of pass_ancestors y ->
  y = 1 /\ x = 0 \/ y = 2 /\ (x = 0 \/ x = 1) \/ y = 3 /\ (x = 0 \/ x = 1).
Proof.
  unfold ancestors_of, pass_ancestors. intros Hx. destruct (decide (y = 0)) as [->|]; [by apply not_elem_of_empty in Hx|].
  destruct (decide (y = 1)) as [->|]; [change (x ∈ ({[0]} : gset Slot)) in Hx; rewrite elem_of_singleton in Hx; auto|].
  destruct (decide (y = 2)) as [->|]; [change (x ∈ ({[0; 1]} : gset Slot)) in Hx; rewrite elem_of_union, !elem_of_singleton in Hx; tauto|].
  destruct (decide (y = 3)) as [->|]; [change (x ∈ ({[0; 1]} : gset Slot)) in Hx; rewrite elem_of_union, !elem_of_singleton in Hx; tauto|].
  rewrite !lookup_insert_ne, lookup_singleton_ne in Hx by done. by apply not_elem_of_empty in Hx.
Qed.
Lemma pass_anc_lt x y : x ∈ ancestors_of pass_ancestors y -> x < y.
Proof. intros ?%pass_ancestors_of. lia. Qed.
Lemma pass_anc_trans x y z :
  x ∈ ancestors_of pass_ancestors y -> y ∈ ancestors_of pass_ancestors z -> x ∈ ancestors_of pass_ancestors z.
Proof.
  intros Hx%pass_ancestors_of Hy%pass_ancestors_of.
  assert (y = 1 /\ x = 0 /\ (z = 2 \/ z = 3)) as (-> & -> & [-> | ->]) by lia;
    apply (bool_decide_eq_true_1 (_ ∈ _)); by vm_compute.
Qed.

Lemma pass_run : voting_run (ancestors_of pass_ancestors) tower_default [tower_default] pass_tower.
Proof.
  apply (voting_vote _ _ _ _ 0 1 11 _ None); [constructor|unfold in_u64, u64_max; lia|by vm_compute|by vm_compute].
Qed.
Lemma pass_default : on_one_fork (ancestors_of pass_ancestors) tower_default.
Proof.
  split; [apply tower_ok_nil| |by intros v w []%not_elem_of_nil]. exists 0. split; [done|]. by intros v []%not_elem_of_nil.
Qed.
Lemma pass_on_one_fork : on_one_fork (ancestors_of pass_ancestors) pass_tower.
Proof. apply (run_settled _ pass_anc_lt pass_anc_trans tower_default [tower_default] _ pass_default pass_run). Qed.

Lemma pass_progress_stats s st : get_propagated_stats pass_progress s = Some st -> is_leader_slot st = false /\ prev_leader_slot st = None.
Proof.
  unfold get_propagated_stats, pass_progress. intros (f & Hf & ->)%fmap_Some.
  repeat (apply lookup_insert_Some in Hf as [[_ <-]|[_ Hf]]; [done|]). by apply lookup_singleton_Some in Hf as [_ <-].
Qed.
Definition pass_roots (r : Slot) : Prop := r = 0.
Lemma pass_rooted s : 0 <= s <= 3 -> rooted pass_ancestors pass_roots s.
Proof.
  intros Hs r ->. destruct (decide (s = 0)) as [->|]; [by right|left].
  assert (s = 1 \/ s = 2 \/ s = 3) as [->|[->| ->]] by lia; apply (bool_decide_eq_true_1 (_ ∈ _)); by vm_compute.
Qed.
Lemma fresh_start_ok : pass_ok sample_stakes sample_schedule pass_ancestors pass_forks pass_roots (start_with tower_default).
Proof.
  split; [exact pass_default|by intros r [= <-]|by intros r ->; eexists| |exact reach3|done]. split; [split|].
  - intros s st [Hl _]%pass_progress_stats. congruence.
  - intros s st q [_ Hp]%pass_progress_stats. congruence.
  - intros s st q st' [[Hl _]%pass_progress_stats Hl' _ _ _]. congruence.
  - intros s st q st' [[Hl _]%pass_progress_stats Hl' _ _ _]. congruence.
Qed.

Lemma all_voted_ok s v : 0 <= v < s -> v < 5 -> Forall (account_ok s) (counted (all_voted v)).
Proof.
  intros Hv H5. unfold all_voted, counted. cbn. repeat (apply Forall_cons; split; [|]); [..|constructor].
  all: destruct (sample_vote_ok 0 30 v ltac:(lia) ltac:(unfold in_u64, u64_max; lia)) as (Ht & _ & _).
  all: split; [exact Ht|split; [intros w ->%list_elem_of_singleton; cbn; lia|unfold in_u64, u64_max; cbn; lia]].
Qed.

Lemma voted_own_ok v : v = 0 \/ v = 1 -> own_ok pass_ancestors pass_roots pass_progress (sample_vote v).
Proof.
  intros Hv. destruct (sample_vote_ok 0 30 v ltac:(lia) ltac:(unfold in_u64, u64_max; lia)) as (Ht & _ & _).
  split; [exact Ht| |done| |].
  - intros x y ->%list_elem_of_singleton ->%list_elem_of_singleton. lia.
  - intros x ->%list_elem_of_singleton. apply pass_rooted. cbn. lia.
  - intros s [= <-]. destruct Hv as [-> | ->]; by eexists.
Qed.

Lemma pass_banks_frozen b : b ∈ pass_banks -> bank_frozen 1 pass_ancestors pass_roots pass_progress b.
Proof.
  intros Hb. assert (exists s p v, b = pass_bank s p (all_voted v) /\ (s = 1 /\ v = 0 \/ s = 2 /\ v = 1 \/ s = 3 /\ v = 1)) as (s & p & v & -> & Hs).
  { unfold pass_banks in Hb. repeat (apply elem_of_cons in Hb as [->|Hb]; [eexists _, _, _; split; [reflexivity|lia]|]). by apply elem_of_nil in Hb. }
  split; cbn [bk_slot bk_vote_accounts pass_bank].
  - destruct Hs as [[-> _]|[[-> _]|[-> _]]]; by eexists.
  - destruct Hs as [[-> _]|[[-> _]|[-> _]]]; by eexists.
  - apply pass_rooted. lia.
  - apply all_voted_ok; lia.
  - apply (bool_decide_eq_true_1 (NoDup _)). by vm_compute.
  - intros vs [= <-]. apply voted_own_ok. lia.
Qed.


(** The choice after the pass: slot 2 *)
Definition pass_end : ReplayState :=
  match compute_bank_stats (fun _ => sample_stakes) sample_schedule 0 1 pass_ancestors pass_forks pass_banks pass_start with
  | Ok (st, _) => st
  | _ => pass_start
  end.
Definition bank_2 : Bank := pass_bank 2 1 (all_voted 1).

Lemma pass_end_run :
  compute_bank_stats (fun _ => sample_stakes) sample_schedule 0 1 pass_ancestors pass_forks pass_banks pass_start = Ok (pass_end, [1; 2; 3]).
Proof. vm_compute. reflexivity. Qed.

Lemma pass_switch_ready :
  switch_ready pass_ancestors pass_descendants (rs_progress pass_end) (rs_tower pass_end) (bk_slot bank_2) (rs_fork_choice pass_end)
    1 0 11 12 {[0]} {[0; 1]}.
Proof.
  split; [by vm_compute|by vm_compute|by vm_compute|intros _; by vm_compute|intros _; left; by vm_compute|intros _].
  - intros c ds Hin. repeat (apply elem_of_cons in Hin as [[= -> ->]|Hin]; [split; [by eexists|]|]); [..|by apply elem_of_nil in Hin].
    + intros _. split; [apply (bool_decide_eq_true_1 (_ ∈ _)); by vm_compute|by vm_compute].
    + intros H. exfalso. revert H. apply (bool_decide_eq_true_1 (_ ∉ _)). by vm_compute.
    + intros H. exfalso. revert H. apply (bool_decide_eq_true_1 (_ ∉ _)). by vm_compute.
    + intros H. exfalso. revert H. apply (bool_decide_eq_true_1 (_ ∉ _)). by vm_compute.
Qed.

Lemma pass_switch_possible :
  switch_possible pass_ancestors pass_descendants (rs_progress pass_end) (rs_tower pass_end) (bk_slot bank_2) (rs_fork_choice pass_end).
Proof.
  right. exists 1, 0, 11, 12, {[0]}, {[0; 1]}. split; [exact pass_switch_ready|].
  intros ((_ & _ & H) & _). apply H. apply (bool_decide_eq_true_1 (_ ∈ _)). by vm_compute.
Qed.

Lemma vote_chosen_only_when_allowed_witness :
  exists tower' res,
    select_vote_and_reset_forks bank_2 (Some bank_2) pass_ancestors pass_descendants (rs_progress pass_end) (rs_latest pass_end)
      (rs_fork_choice pass_end) (rs_tower pass_end) = Ok (tower', res) /\ vote_bank res = Some (bank_2, SameFork).
Proof.
  destruct (vote_chosen_only_when_allowed pass_ancestors pass_descendants (rs_progress pass_end) bank_2 (Some bank_2) (rs_latest pass_end)
    (rs_fork_choice pass_end) (rs_tower pass_end) (mkBankEpochStakes {[1 := 30; 2 := 60; 3 := 10]} ∅ 100)
    eq_refl pass_switch_possible) as (tower' & d & unable & res & Hrun & _).
  - vm_compute. eauto.
  - intros b [= <-]. vm_compute. eauto.
  - exists tower', res. split; [exact Hrun|]. vm_compute in Hrun. injection Hrun as _ <-. reflexivity.
Defined.

Lemma chosen_vote_keeps_lockouts_witness :
  exists tower' res,
    select_vote_and_reset_forks bank_2 (Some bank_2) pass_ancestors pass_descendants (rs_progress pass_end) (rs_latest pass_end)
      (rs_fork_choice pass_end) (rs_tower pass_end) = Ok (tower', res) /\
    exists tower'' new_root, record_bank_vote 0 2 12 tower' = Ok (tower'', new_root).
Proof.
  destruct (select_vote_and_reset_forks bank_2 (Some bank_2) pass_ancestors pass_descendants (rs_progress pass_end) (rs_latest pass_end)
    (rs_fork_choice pass_end) (rs_tower pass_end)) as [[tower' res]| |] eqn:Hsel; [|vm_compute in Hsel; discriminate|vm_compute in Hsel; discriminate].
  exists tower', res. split; [reflexivity|].
  assert (Hvote : vote_bank res = Some (bank_2, SameFork)) by (vm_compute in Hsel; injection Hsel as _ <-; reflexivity).
  destruct (chosen_vote_keeps_lockouts (fun _ => sample_stakes) sample_schedule 0 1 pass_ancestors pass_forks tower_default [tower_default]
    pass_banks pass_start pass_end [1; 2; 3] bank_2 (Some bank_2) pass_descendants tower' res bank_2 SameFork) as (_ & _ & Hrec).
  - exact pass_anc_lt.
  - exact pass_anc_trans.
  - exact pass_default.
  - assert (rs_tower pass_end = pass_tower) as -> by (vm_compute; reflexivity). exact pass_run.
  - exact pass_end_run.
  - exact Hsel.
  - exact Hvote.
  - right. right. left.
  - exact Hrec.
Defined.
