(* ===== verification/TowerRestore.v ===== *)
(** * Restoring a tower

    After a restart the saved tower is checked against the slots that the ledger
    has rooted, and the votes that the ledger knows are dropped:
    [adjust_lockouts_after_replay] of [fdp-solana/core/src/consensus.rs]. *)

From Stdlib Require Import String.
From S2P Require Import Prelude InstructionError AuthorizedVoters VoteState VoteProcess Tower SlotHistory ValidatorTower TowerSafety.

Section Restore.
Context {B : Type} `{!BitsOps B}.

(** The local variables of the loop *)
Record AdjustState := mkAdjustState {
  still_in_future : bool;
  past_outside_history : bool;
  checked_slot : option Slot;
  anchored_slot : option Slot;
  retain_flags : list bool
}.

Definition adjust_slot (tower_root : Slot) (history : SlotHistory B) (slot_in_tower : Slot) (st : AdjustState)
    : outcome TowerError AdjustState :=
  let check := history_check history slot_in_tower in
  anchored ←?
    (if bool_decide (anchored_slot st = None) && bool_decide (check = Found) then Ok (Some slot_in_tower)
     else if bool_decide (is_Some (anchored_slot st)) && bool_decide (check = NotFound)
     then Err (FatallyInconsistent "diverged ancestor?")
     else Ok (anchored_slot st));
  in_future ←?
    (if still_in_future st && negb (bool_decide (check = Future)) then Ok false
     else if negb (still_in_future st) && bool_decide (check = Future) then Err (FatallyInconsistent "time warped?")
     else Ok (still_in_future st));
  outside ←?
    (if negb (past_outside_history st) && bool_decide (check = TooOld) then Ok true
     else if past_outside_history st && negb (bool_decide (check = TooOld))
     then Err (FatallyInconsistent "not too old once after got too old?")
     else Ok (past_outside_history st));
  _ ←? match checked_slot st with
       | Some checked =>
           let voting_for_root := (slot_in_tower =? checked) && (slot_in_tower =? tower_root) in
           if negb voting_for_root then rust_assert (slot_in_tower <? checked) else Ok tt
       | None => Ok tt
       end;
  Ok (mkAdjustState in_future outside (Some slot_in_tower) anchored (retain_flags st ++ [bool_decide (anchored = None)])).

(** The slots of the tower, the newest first *)
Fixpoint adjust_loop (tower_root : Slot) (history : SlotHistory B) (slots : list Slot) (st : AdjustState)
    : outcome TowerError AdjustState :=
  match slots with
  | [] => Ok st
  | s :: slots => st ←? adjust_slot tower_root history s st; adjust_loop tower_root history slots st
  end.

(** [votes.retain(|_| flags.next().unwrap())] *)
Fixpoint retain_by {E A} (flags : list bool) (l : list A) : outcome E (list A) :=
  match l with
  | [] => Ok []
  | x :: l =>
      match flags with
      | [] => Panic
      | flag :: flags => rest ←? retain_by flags l; Ok (if flag : bool then x :: rest else rest)
      end
  end.

(** Back to the empty vote; the tower's default is an empty vote state update *)
Definition adjust_lockouts_with_slot_history (history : SlotHistory B) (self : Tower) : outcome TowerError Tower :=
  root ←? tower_root self;
  let slots_in_tower := root :: voted_slots self in
  st ←? adjust_loop root history (reverse slots_in_tower) (mkAdjustState true false None None []);
  _ ←? (if bool_decide (anchored_slot st = None) then Err (FatallyInconsistent "no common slot for rooted tower") else Ok tt);
  _ ←? rust_assert (length slots_in_tower =? length (retain_flags st))%nat;
  retained ←? retain_by (reverse (take (length (retain_flags st) - 1) (retain_flags st))) (votes (vote_state self));
  let self := with_vote_state (set_votes (vote_state self) retained) self in
  if bool_decide (retained = []) then Ok (with_last_vote (TxVote vote_default) self)
  else
    last_slot ←? tower_last_voted_slot self;
    _ ←? rust_assert (bool_decide (last_slot = last (voted_slots self)));
    Ok (with_stray (tx_last_voted_slot (last_vote self)) self).

Definition adjust_lockouts_after_replay (replayed_root : Slot) (history : SlotHistory B) (self : Tower) : outcome TowerError Tower :=
  root ←? tower_root self;
  _ ←? rust_assert (bool_decide (history_check history replayed_root = Found));
  let no_vote := bool_decide (last_vote self = TxVoteStateUpdate vsu_default) in
  let empty := bool_decide (votes (vote_state self) = []) in
  _ ←? rust_assert (no_vote && empty || negb no_vote && negb empty);
  last ←? tower_last_voted_slot self;
  match last with
  | Some last_voted_slot =>
      if root <=? replayed_root then
        if bool_decide (history_check history last_voted_slot = TooOld)
        then Err (TooOldTower last_voted_slot (history_oldest history))
        else self ←? adjust_lockouts_with_slot_history history self; Ok (initialize_root replayed_root self)
      else adjust_lockouts_with_slot_history (history_add root history) self
  | None => _ ←? rust_assert (root =? replayed_root); Ok self
  end.
End Restore.
