(* ===== verification/TowerRestoreSpec.v ===== *)
(** * What is left of a restored tower

    The votes newer than the newest slot that tower and ledger share are kept,
    the others are dropped.  Of the errors of the adjustment only two can occur
    for a tower whose slots ascend. *)

From Stdlib Require Import String.
From S2P Require Import Prelude InstructionError AuthorizedVoters VoteState VoteProcess Tower SlotHistory ValidatorTower TowerSafety TowerRestore.

Lemma existsb_ext_in {A} (f g : A -> bool) l : (forall x, x ∈ l -> f x = g x) -> existsb f l = existsb g l.
Proof. induction l as [|x l IH]; intros H; [done|]. cbn. rewrite (H x) by left. f_equal. apply IH. intros y Hy. apply H. by right. Qed.

Section Adjust.
Context {B : Type} `{!BitsOps B}.
Context (history : SlotHistory B).
Abbreviation check := (history_check history).

Lemma check_future s s' : s' <= s -> check s' = Future -> check s = Future.
Proof.
  unfold history_check. intros Hle. destruct (Z.ltb_spec (history_newest history) s); [done|].
  destruct (Z.ltb_spec (history_newest history) s'); [lia|]. by repeat case_match.
Qed.

Lemma check_too_old s s' : s' <= s -> check s = TooOld -> check s' = TooOld.
Proof.
  unfold history_check. intros Hle. destruct (Z.ltb_spec (history_newest history) s); [done|].
  destruct (Z.ltb_spec (history_newest history) s'); [lia|].
  destruct (Z.ltb_spec s (history_oldest history)); [|by case_match].
  by destruct (Z.ltb_spec s' (history_oldest history)); [|lia].
Qed.

(** ** The loop, without the checks that cannot fail *)
Fixpoint anchor_loop (anchored : option Slot) (slots : list Slot) : outcome TowerError (option Slot * list bool) :=
  match slots with
  | [] => Ok (anchored, [])
  | s :: slots =>
      if bool_decide (is_Some anchored) && bool_decide (check s = NotFound) then Err (FatallyInconsistent "diverged ancestor?")
      else
        let anchored := match anchored with Some a => Some a | None => if bool_decide (check s = Found) then Some s else None end in
        '(a, flags) ←? anchor_loop anchored slots;
        Ok (a, bool_decide (anchored = None) :: flags)
  end.

(** Slots of a tower, the newest first: they descend, and only the root may repeat. *)
Definition older (root c s : Slot) : Prop := s < c \/ s = c /\ s = root.

(** The flags follow from the slot checked last. *)
Record state_of (st : AdjustState) : Prop := {
  so_future : still_in_future st = match checked_slot st with Some c => bool_decide (check c = Future) | None => true end;
  so_outside : past_outside_history st = match checked_slot st with Some c => bool_decide (check c = TooOld) | None => false end
}.

Lemma adjust_slot_ok root s st :
  state_of st -> (forall c, checked_slot st = Some c -> older root c s) ->
  let anchored := match anchored_slot st with Some a => Some a | None => if bool_decide (check s = Found) then Some s else None end in
  adjust_slot root history s st =
    (if bool_decide (is_Some (anchored_slot st)) && bool_decide (check s = NotFound) then Err (FatallyInconsistent "diverged ancestor?")
     else Ok (mkAdjustState (bool_decide (check s = Future)) (bool_decide (check s = TooOld)) (Some s) anchored
                (retain_flags st ++ [bool_decide (anchored = None)]))).
Proof.
  intros [Hfut Hout] Hold anchored. unfold adjust_slot.
  assert ((if bool_decide (anchored_slot st = None) && bool_decide (check s = Found) then Ok (Some s)
     else if bool_decide (is_Some (anchored_slot st)) && bool_decide (check s = NotFound)
     then Err (FatallyInconsistent "diverged ancestor?")
     else Ok (anchored_slot st)) =
    (if bool_decide (is_Some (anchored_slot st)) && bool_decide (check s = NotFound) then Err (FatallyInconsistent "diverged ancestor?")
     else Ok anchored)) as ->.
  { unfold anchored. destruct (anchored_slot st) as [a|]; cbn; [done|]. by case_bool_decide. }
  destruct (bool_decide (is_Some (anchored_slot st)) && _); [done|]. cbn [obind]. rewrite Hfut, Hout.
  destruct (checked_slot st) as [c|]; [|by destruct (check s)].
  specialize (Hold c eq_refl). assert (Hle : s <= c) by (destruct Hold; lia).
  assert ((if negb ((s =? c) && (s =? root)) then rust_assert (s <? c) else Ok tt) = @Ok TowerError unit tt) as Hassert.
  { destruct Hold as [Hlt|[-> ->]]; [|by rewrite Z.eqb_refl].
    rewrite (proj2 (Z.eqb_neq s c)) by lia. cbn. by rewrite (proj2 (Z.ltb_lt s c)) by lia. }
  cbn zeta. rewrite Hassert.
  destruct (check c) eqn:Ec; [destruct (check s); reflexivity|rewrite (check_too_old c s Hle Ec); reflexivity| |];
    (destruct (check s) eqn:Es; [apply (check_future c s Hle) in Es; congruence|reflexivity..]).
Qed.

Lemma adjust_loop_ok root l st :
  state_of st -> (forall c, checked_slot st = Some c -> Sorted (older root) (c :: l)) -> Sorted (older root) l ->
  match anchor_loop (anchored_slot st) l with
  | Ok (a, flags) => exists st', adjust_loop root history l st = Ok st' /\ anchored_slot st' = a /\ retain_flags st' = retain_flags st ++ flags
  | Err e => adjust_loop root history l st = Err e
  | Panic => False
  end.
Proof.
  revert st. induction l as [|s l IH]; intros st Hst Hc Hl; cbn [anchor_loop adjust_loop].
  - exists st. by rewrite app_nil_r.
  - rewrite adjust_slot_ok; [|done|intros c Hcs; specialize (Hc c Hcs); apply Sorted_inv in Hc as [_ Hc]; by apply HdRel_inv in Hc].
    destruct (bool_decide (is_Some (anchored_slot st)) && _); [done|]. cbn [obind].
    set (anchored := match anchored_slot st with Some a => Some a | None => _ end).
    match goal with |- context [adjust_loop root history l ?st1] => specialize (IH st1) end. cbn [anchored_slot checked_slot retain_flags] in IH.
    specialize (IH ltac:(by split) ltac:(by intros c [= <-]) (proj1 (Sorted_inv Hl))).
    destruct (anchor_loop anchored l) as [[a flags]|e|]; cbn [obind]; [|done|done].
    destruct IH as (st' & Hrun & Ha & Hf). exists st'. split; [done|]. split; [done|]. by rewrite Hf, <-app_assoc.
Qed.

(** ** The anchor *)

(** The newest slot of the tower that the ledger has rooted *)
Definition common_slot (slots : list Slot) : option Slot := List.find (fun s => bool_decide (check s = Found)) slots.

Lemma anchor_loop_some a l :
  anchor_loop (Some a) l =
    if existsb (fun s => bool_decide (check s = NotFound)) l then Err (FatallyInconsistent "diverged ancestor?")
    else Ok (Some a, (fun _ => false) <$> l).
Proof.
  induction l as [|s l IH]; [done|]. cbn [anchor_loop existsb]. rewrite (bool_decide_eq_true_2 (is_Some (Some a))) by eauto. cbn [andb].
  case_bool_decide; [done|]. rewrite IH. cbn [orb]. by destruct (existsb _ l).
Qed.

Definition diverged (slots : list Slot) : bool :=
  match common_slot slots with
  | Some a => existsb (fun s => (s <? a) && bool_decide (check s = NotFound)) slots
  | None => false
  end.
Definition kept_slot (slots : list Slot) (s : Slot) : bool := match common_slot slots with Some a => a <? s | None => true end.

Lemma common_slot_some l a : common_slot l = Some a -> a ∈ l /\ check a = Found.
Proof. intros [Hin Hf]%find_some. split; [by apply list_elem_of_In|by apply bool_decide_eq_true_1 in Hf]. Qed.

Lemma anchor_loop_none l :
  StronglySorted Z.ge l ->
  anchor_loop None l = if diverged l then Err (FatallyInconsistent "diverged ancestor?") else Ok (common_slot l, kept_slot l <$> l).
Proof.
  intros Hs. induction Hs as [|s l Hs IH Hall]; [done|]. cbn [anchor_loop].
  rewrite (bool_decide_eq_false_2 (is_Some None)) by (by intros [? ?]). cbn [andb]. rewrite Forall_forall in Hall.
  destruct (bool_decide (check s = Found)) eqn:Ef.
  - rewrite anchor_loop_some. unfold diverged, kept_slot, common_slot. cbn [List.find existsb fmap list_fmap]. rewrite Ef. cbn zeta.
    rewrite Z.ltb_irrefl. cbn [andb orb]. apply bool_decide_eq_true_1 in Ef.
    assert (existsb (fun x => (x <? s) && bool_decide (check x = NotFound)) l = existsb (fun x => bool_decide (check x = NotFound)) l) as ->.
    { apply existsb_ext_in. intros x Hx. specialize (Hall x Hx). case_bool_decide as Hn; [|apply andb_false_r].
      rewrite andb_true_r. apply Z.ltb_lt. destruct (decide (x = s)) as [->|]; [congruence|lia]. }
    destruct (existsb _ l); [done|]. cbn [obind]. do 3 f_equal. apply list_fmap_ext. intros i x Hx%list_elem_of_lookup_2.
    symmetry. apply Z.ltb_ge. specialize (Hall x Hx). lia.
  - rewrite IH. unfold diverged, kept_slot. assert (common_slot (s :: l) = common_slot l) as -> by (unfold common_slot; cbn; by rewrite Ef).
    destruct (common_slot l) as [a|] eqn:Ea; [|done]. apply common_slot_some in Ea as [Ha Hf].
    assert (Hlt : a < s).
    { apply bool_decide_eq_false_1 in Ef. specialize (Hall a Ha). destruct (decide (a = s)) as [->|]; [done|lia]. }
    cbn [existsb]. rewrite (proj2 (Z.ltb_ge s a)) by lia. cbn [andb orb]. destruct (existsb _ l); [done|]. cbn.
    by rewrite (proj2 (Z.ltb_lt a s)) by lia.
Qed.

(** ** The whole adjustment *)

(** A tower as it is saved: a root, votes in ascending order that do not lie
    before it, and a last vote transaction for the newest of them. *)
Record saved_tower (root : Slot) (t : Tower) : Prop := {
  sv_root : root_slot (vote_state t) = Some root;
  sv_sorted : StronglySorted Z.lt (voted_slots t);
  sv_above : forall s, s ∈ voted_slots t -> root <= s;
  sv_last : tower_last_voted_slot t = Ok (last (voted_slots t))
}.

(** The votes after [a] are kept; the last vote is reset where there is none. *)
Definition keep_after (a : Slot) (t : Tower) : Tower :=
  let t' := initialize_lockouts (fun v => a <? slot v) t in
  if bool_decide (votes (vote_state t') = []) then with_last_vote (TxVote vote_default) t'
  else with_stray (tx_last_voted_slot (last_vote t)) t'.

Lemma tower_descends root t : saved_tower root t -> Sorted (older root) (reverse (root :: voted_slots t)).
Proof.
  intros [_ Hs Ha _]. rewrite reverse_cons. revert Hs Ha. generalize (voted_slots t) as l. intros l.
  induction l as [|x l IH] using rev_ind; intros Hs Ha; [by repeat constructor|].
  rewrite reverse_snoc. cbn. apply StronglySorted_app_inv in Hs as (Hs & _ & Hx).
  constructor; [apply IH; [done|intros; apply Ha; set_solver]|].
  destruct l as [|y l _] using rev_ind.
  - cbn. constructor. specialize (Ha x ltac:(set_solver)). unfold older. destruct (decide (root = x)); [by right|left; lia].
  - rewrite reverse_snoc. cbn. constructor. left. apply Hx; set_solver.
Qed.

Lemma older_descends root l : Sorted (older root) l -> StronglySorted Z.ge l.
Proof.
  intros H. apply Sorted_StronglySorted; [intros x y z ??; lia|].
  eapply Sorted_impl; [|exact H]. unfold older. intros c s Hcs. lia.
Qed.

Lemma retain_by_filter {E} (f : Slot -> bool) (l : list LandedVote) :
  retain_by (f <$> (slot <$> l)) l = @Ok E _ (List.filter (fun v => f (slot v)) l).
Proof. induction l as [|v l IH]; [done|]. rewrite !fmap_cons. cbn [retain_by List.filter]. rewrite IH. by destruct (f (slot v)). Qed.

Lemma last_kept (a : Slot) (l : list LandedVote) :
  StronglySorted Z.lt (slot <$> l) -> List.filter (fun v => a <? slot v) l <> [] ->
  last (slot <$> List.filter (fun v => a <? slot v) l) = last (slot <$> l).
Proof.
  induction l as [|v l IH] using rev_ind; intros Hs Hne; [done|]. rewrite List.filter_app, !fmap_app in *.
  cbn [List.filter] in *. destruct (Z.ltb_spec a (slot v)) as [Hlt|Hge]; [cbn; by rewrite !last_snoc|].
  destruct Hne. rewrite app_nil_r, <-(List.filter_false l). apply List.filter_ext_in. intros x Hx%list_elem_of_In.
  apply StronglySorted_app_inv in Hs as (_ & _ & Hs). apply Z.ltb_ge.
  specialize (Hs (slot x) (slot v) ltac:(by apply list_elem_of_fmap_2) ltac:(cbn; set_solver)). lia.
Qed.

Lemma adjust_with_history_ok root t :
  saved_tower root t ->
  let slots := reverse (root :: voted_slots t) in
  adjust_lockouts_with_slot_history history t =
    if diverged slots then Err (FatallyInconsistent "diverged ancestor?")
    else match common_slot slots with
         | Some a => Ok (keep_after a t)
         | None => Err (FatallyInconsistent "no common slot for rooted tower")
         end.
Proof.
  intros Hsv. cbn zeta. pose proof (tower_descends root t Hsv) as Hdesc. destruct Hsv as [Hroot Hsort Habove Hlast].
  unfold adjust_lockouts_with_slot_history, tower_root. rewrite Hroot. cbn [expect obind].
  set (slots := reverse (root :: voted_slots t)) in *.
  pose proof (adjust_loop_ok root slots (mkAdjustState true false None None []) ltac:(by split) ltac:(done) Hdesc) as Hrun.
  cbn [anchored_slot retain_flags] in Hrun. rewrite (anchor_loop_none slots (older_descends root slots Hdesc)) in Hrun.
  destruct (diverged slots); [by rewrite Hrun|]. destruct Hrun as (st & -> & Ha & Hf). cbn [obind]. rewrite Ha, Hf.
  destruct (common_slot slots) as [a|] eqn:Ec; [|done]. cbn [obind app].
  rewrite (bool_decide_eq_false_2 (Some a = None)) by done. cbn [obind].
  rewrite length_fmap. unfold slots at 1. rewrite length_reverse, Nat.eqb_refl. cbn [rust_assert obind].
  assert (reverse (take (length slots - 1) (kept_slot slots <$> slots)) = (fun s => a <? s) <$> (slot <$> votes (vote_state t))) as ->.
  { unfold kept_slot. rewrite Ec. unfold slots. rewrite length_reverse, reverse_cons, fmap_app. cbn [length].
    rewrite take_app_length'; [|rewrite length_fmap, length_reverse; unfold voted_slots; lia].
    by rewrite <-fmap_reverse, reverse_involutive. }
  rewrite retain_by_filter. cbn [obind]. unfold keep_after, initialize_lockouts. cbn [vote_state with_vote_state votes set_votes].
  case_bool_decide as Hk; [done|].
  unfold tower_last_voted_slot in *. cbn [last_vote with_vote_state]. rewrite Hlast. cbn [obind].
  rewrite bool_decide_eq_true_2; [done|]. symmetry. exact (last_kept a (votes (vote_state t)) Hsort Hk).
Qed.

(** The newest slot of [slots] that the ledger has rooted *)
Definition newest_common (slots : list Slot) (a : Slot) : Prop :=
  a ∈ slots /\ check a = Found /\ forall s, s ∈ slots -> check s = Found -> s <= a.

Lemma common_slot_newest slots a : StronglySorted Z.ge (reverse slots) -> newest_common slots a -> common_slot (reverse slots) = Some a.
Proof.
  intros Hs (Hin & Hf & Hmax). apply elem_of_reverse in Hin.
  assert (Hmax' : forall s, s ∈ reverse slots -> check s = Found -> s <= a) by (intros s; rewrite elem_of_reverse; auto).
  clear Hmax. revert Hs Hin Hmax'. generalize (reverse slots) as l. intros l Hs. induction Hs as [|s l Hs IH Hall]; intros Hin Hmax.
  - by apply not_elem_of_nil in Hin.
  - unfold common_slot. cbn. rewrite Forall_forall in Hall. case_bool_decide as Hfs.
    + f_equal. specialize (Hmax s ltac:(left) Hfs). apply elem_of_cons in Hin as [->|Hin]; [done|]. specialize (Hall a Hin). lia.
    + apply elem_of_cons in Hin as [->|Hin]; [done|]. apply IH; [done|]. intros x Hx. apply Hmax. by right.
Qed.

Lemma common_slot_none slots : (forall s, s ∈ slots -> check s <> Found) -> common_slot (reverse slots) = None.
Proof.
  intros Hno. destruct (common_slot (reverse slots)) as [a|] eqn:Ec; [|done].
  apply common_slot_some in Ec as [Ha Hf]. rewrite elem_of_reverse in Ha. by apply Hno in Hf.
Qed.

Lemma diverged_spec slots a :
  common_slot (reverse slots) = Some a -> diverged (reverse slots) = true <-> exists s, s ∈ slots /\ s < a /\ check s = NotFound.
Proof.
  intros Ha. unfold diverged. rewrite Ha, existsb_exists. split.
  - intros (s & Hs%list_elem_of_In & [Hlt%Z.ltb_lt Hn%bool_decide_eq_true_1]%andb_true_iff).
    rewrite elem_of_reverse in Hs. eauto.
  - intros (s & Hs & Hlt & Hn). exists s. split; [by apply list_elem_of_In, elem_of_reverse|].
    apply andb_true_iff. split; [by apply Z.ltb_lt|by apply bool_decide_eq_true_2].
Qed.

Lemma after_replay_ok root replayed_root t last_slot :
  saved_tower root t -> last (voted_slots t) = Some last_slot -> check replayed_root = Found ->
  adjust_lockouts_after_replay replayed_root history t =
    if root <=? replayed_root then
      if bool_decide (check last_slot = TooOld) then Err (TooOldTower last_slot (history_oldest history))
      else t' ←? adjust_lockouts_with_slot_history history t; Ok (initialize_root replayed_root t')
    else adjust_lockouts_with_slot_history (history_add root history) t.
Proof.
  intros [Hroot _ _ Hlast] Hl Hf. unfold adjust_lockouts_after_replay, tower_root. rewrite Hroot, Hf. cbn [expect obind].
  rewrite (bool_decide_eq_true_2 (Found = Found)) by done. cbn [rust_assert obind].
  rewrite (bool_decide_eq_false_2 (votes (vote_state t) = [])).
  2: { intros Hv. unfold voted_slots in Hl. by rewrite Hv in Hl. }
  rewrite (bool_decide_eq_false_2 (last_vote t = _)).
  2: { intros Hv. unfold tower_last_voted_slot in Hlast. rewrite Hv, Hl in Hlast. done. }
  cbn [negb andb orb rust_assert obind]. by rewrite Hlast, Hl.
Qed.
(** A tower without votes is taken as it is if it was never voted with and starts at
    the replayed root; the code holds any other to be a mistake. *)
Lemma after_replay_no_votes root replayed_root t :
  saved_tower root t -> voted_slots t = [] -> check replayed_root = Found ->
  adjust_lockouts_after_replay replayed_root history t =
    if bool_decide (last_vote t = TxVoteStateUpdate vsu_default) && (root =? replayed_root) then Ok t else Panic.
Proof.
  intros [Hroot _ _ Hlast] Hno Hf. unfold adjust_lockouts_after_replay, tower_root. rewrite Hroot, Hf. cbn [expect obind].
  rewrite (bool_decide_eq_true_2 (Found = Found)) by done. cbn [rust_assert obind].
  rewrite (bool_decide_eq_true_2 (votes (vote_state t) = [])); [|unfold voted_slots in Hno; by destruct (votes (vote_state t))].
  case_bool_decide; cbn [negb andb orb rust_assert obind]; [|done]. rewrite Hlast, Hno. cbn. by destruct (root =? replayed_root).
Qed.
End Adjust.

Section AfterReplay.
Context {B : Type} `{!BitsOps B, !BitsLaws B}.

(** A root that is newer than the whole history: the adjustment cannot fail. *)
Lemma adjust_future_root added (history : SlotHistory B) root t :
  history_ok added history -> next_slot history <= root < u64_max -> saved_tower root t ->
  adjust_lockouts_with_slot_history (history_add root history) t = Ok (keep_after root t).
Proof.
  intros Hok Hroot Hsv. pose proof (history_add_ok added history root Hok ltac:(lia) ltac:(lia)) as Hadd.
  assert (Hn : next_slot (history_add root history) = root + 1) by (apply Z.mod_small; unfold u64_max in *; destruct Hok; lia).
  set (h := history_add root history) in *. pose proof (ho_next _ _ Hok) as Hpos.
  assert (Hw : history_newest h = root) by (unfold history_newest; rewrite Hn; replace (root + 1 - 1) with root by lia; apply Z.mod_small; unfold u64_max in *; lia).
  assert (Hfuture : forall s, root < s -> history_check h s = Future).
  { intros s Hs. unfold history_check. by rewrite Hw, (proj2 (Z.ltb_lt root s)) by lia. }
  assert (Hfound : history_check h root = Found).
  { unfold history_check. rewrite Hw, Z.ltb_irrefl. unfold history_oldest, sat_sub. rewrite Hn.
    rewrite (proj2 (Z.ltb_ge _ _)) by (unfold MAX_ENTRIES; lia).
    by rewrite (proj2 (ho_bits _ _ Hadd root ltac:(lia) ltac:(unfold MAX_ENTRIES; lia)) ltac:(by left)). }
  rewrite (adjust_with_history_ok h root t Hsv).
  assert (Hc : common_slot h (reverse (root :: voted_slots t)) = Some root).
  { apply common_slot_newest; [apply (older_descends root), tower_descends; exact Hsv|]. split; [left|]. split; [done|].
    intros s _ Hs. destruct (Z.le_gt_cases s root) as [|Hgt]; [done|]. by rewrite Hfuture in Hs by lia. }
  rewrite Hc. destruct (diverged h _) eqn:Ed; [|done].
  apply (diverged_spec h _ _ Hc) in Ed as (s & [->|Hs]%elem_of_cons & Hlt & _); [lia|]. apply (sv_above _ _ Hsv) in Hs. lia.
Qed.

(** C14: restoring a saved tower once the ledger is replayed up to a root, which is
    the newest slot of its history.  A tower without votes is accepted as it is if it
    was never voted with and its root is the replayed root; any other tower without
    votes makes the adjustment panic.  A tower with votes never does.  If its last vote is
    older than the ledger's history it is refused.  If it shares no slot with
    the history, or has a slot the ledger does not have below the newest
    shared slot, it is inconsistent.  Otherwise the root becomes the replayed root,
    exactly the votes newer than the newest shared slot are kept, and the last
    vote is reset if there are none.  If its root is newer than the
    replayed root it always keeps its root and the votes after it.  The other two
    errors never occur. *)
Theorem restored_tower_adjusted added (history : SlotHistory B) root replayed_root t :
  history_ok added history -> next_slot history = replayed_root + 1 -> history_check history replayed_root = Found ->
  root < u64_max -> saved_tower root t ->
  let slots := root :: voted_slots t in
  let result := adjust_lockouts_after_replay replayed_root history t in
  (voted_slots t = [] ->
     result = if bool_decide (last_vote t = TxVoteStateUpdate vsu_default) && (root =? replayed_root) then Ok t else Panic) /\
  forall last_slot, last (voted_slots t) = Some last_slot -> result <> Panic /\
  (replayed_root < root -> result = Ok (keep_after root t)) /\
  (root <= replayed_root ->
     (history_check history last_slot = TooOld -> result = Err (TooOldTower last_slot (history_oldest history))) /\
     (history_check history last_slot <> TooOld ->
        ((forall s, s ∈ slots -> history_check history s <> Found) -> result = Err (FatallyInconsistent "no common slot for rooted tower")) /\
        forall a, newest_common history slots a ->
          ((exists s, s ∈ slots /\ s < a /\ history_check history s = NotFound) -> result = Err (FatallyInconsistent "diverged ancestor?")) /\
          ((forall s, s ∈ slots -> s < a -> history_check history s <> NotFound) -> result = Ok (initialize_root replayed_root (keep_after a t))))).
Proof.
  intros Hok Hnext Hrep Hroot Hsv. cbn zeta. split; [by intros; apply after_replay_no_votes|].
  intros last_slot Hlast. rewrite (after_replay_ok history root replayed_root t last_slot Hsv Hlast Hrep).
  split.
  { destruct (Z.leb_spec root replayed_root); [|by rewrite (adjust_future_root added) by (done || lia)].
    case_bool_decide; [done|]. rewrite (adjust_with_history_ok history root t Hsv). by repeat case_match. }
  split; [intros Hlt; rewrite (proj2 (Z.leb_gt _ _)) by lia; apply (adjust_future_root added); [done|lia|done]|].
  intros Hle. rewrite (proj2 (Z.leb_le _ _) Hle). split; [intros ->; done|]. intros Hold.
  rewrite (bool_decide_eq_false_2 (_ = TooOld)) by done. rewrite (adjust_with_history_ok history root t Hsv).
  pose proof (older_descends root _ (tower_descends root t Hsv)) as Hdesc. split.
  - intros Hno. unfold diverged. by rewrite (common_slot_none history _ Hno).
  - intros a Ha%(common_slot_newest history _ a Hdesc). rewrite Ha. pose proof (diverged_spec history _ a Ha) as Hd. split.
    + intros Hex%Hd. by rewrite Hex.
    + intros Hno. destruct (diverged history _); [|done]. destruct (proj1 Hd eq_refl) as (s & Hs & Hlt & Hn). by destruct (Hno s Hs Hlt).
Qed.
End AfterReplay.

(** ** Examples *)
#[local] Existing Instances IntegerBits.ops IntegerBits.laws.
Module RestoreSample.
(** The ledger has rooted the slots 0, 2, 3 and 5. *)
Definition history : SlotHistory IntegerBits.t := add_slots [2; 3; 5] slot_history_default.
(** A tower rooted at 2 with votes for [slots] *)
Definition saved (slots : list Slot) : Tower :=
  with_last_vote (TxVote (mkVote slots 7 None))
    (with_vote_state (set_root_slot (set_votes (vote_state tower_default) ((fun s => mkLandedVote 0 (mkLockout s 1)) <$> slots)) (Some 2)) tower_default).
End RestoreSample.

Lemma sample_history_ok : history_ok (fun s => s ∈ [2; 3; 5] \/ s = 0) RestoreSample.history.
Proof.
  apply (add_slots_ok [2; 3; 5]); [apply slot_history_default_ok|repeat first [lia|constructor]|].
  unfold u64_max. cbn. repeat (apply Forall_cons; split; [lia|]). constructor.
Qed.

(** The vote for 3 is behind, those for 6 and 9 are kept. *)
Lemma restored_tower_adjusted_witness :
  adjust_lockouts_after_replay 5 RestoreSample.history (RestoreSample.saved [3; 6; 9]) =
    Ok (initialize_root 5 (keep_after 3 (RestoreSample.saved [3; 6; 9]))).
Proof.
  assert (Hs : saved_tower 2 (RestoreSample.saved [3; 6; 9])).
  { split; [reflexivity|repeat first [lia|constructor]| |reflexivity].
    intros s. cbn. rewrite !elem_of_cons, elem_of_nil. intuition lia. }
  destruct (restored_tower_adjusted _ RestoreSample.history 2 5 _ sample_history_ok
    ltac:(vm_compute; reflexivity) ltac:(vm_compute; reflexivity) ltac:(done) Hs) as [_ H].
  apply (H 9); [reflexivity|lia|vm_compute; discriminate| |].
  - split; [right; left|]. split; [vm_compute; reflexivity|]. intros s. cbn. rewrite !elem_of_cons, elem_of_nil.
    intros [->|[->|[->|[->|[]]]]]; vm_compute; (discriminate || done).
  - intros s. cbn. rewrite !elem_of_cons, elem_of_nil. intros [->|[->|[->|[->|[]]]]]; vm_compute; (discriminate || done).
Defined.

(** A tower whose votes are all behind is left with an empty [Vote], which is not
    the empty [VoteStateUpdate] that stands for a tower without votes: the same
    adjustment does not accept the tower it returned. *)
Lemma adjusted_tower_not_accepted :
  exists t, adjust_lockouts_after_replay 5 RestoreSample.history (RestoreSample.saved [3; 5]) = Ok t /\
    votes (vote_state t) = [] /\ adjust_lockouts_after_replay 5 RestoreSample.history t = Panic.
Proof. eexists. split; [vm_compute; reflexivity|]. split; vm_compute; reflexivity. Qed.
