(* ===== verification/TowerStorage.v ===== *)
(** * Keeping the tower

    The tower is saved before each vote is sent, and restored after a restart:
    [fdp-solana/core/src/consensus/tower_storage.rs], with the versions of the
    saved format in [tower1_14_11.rs] and [tower1_7_14.rs] and
    [TowerVersions], [save] and [restore] of [fdp-solana/core/src/consensus.rs].

    [bincode], the signatures and the etcd service are not part of the program:
    they are parameters, with the laws that the code relies on. *)

From Stdlib Require Import Ascii String.
From S2P Require Import Prelude InstructionError AuthorizedVoters VoteState VoteVersions VoteProcess Tower SlotHistory ValidatorTower.

Abbreviation bytes := (list Z).

(** ** Versions of the tower *)
Record Tower1_14_11 := mkTower1_14_11 {
  t14_node_pubkey : Pubkey;
  t14_threshold_depth : nat;
  t14_threshold_size : f64;
  t14_vote_state : VoteState1_14_11;
  t14_last_vote : VoteTransaction;
  t14_last_vote_tx_blockhash : option Hash;
  t14_last_timestamp : BlockTimestamp;
  t14_stray_restored_slot : option Slot;
  t14_last_switch_threshold_check : option (Slot * SwitchForkDecision)
}.
Record Tower1_7_14 := mkTower1_7_14 {
  t7_node_pubkey : Pubkey;
  t7_threshold_depth : nat;
  t7_threshold_size : f64;
  t7_vote_state : VoteState1_14_11;
  t7_last_vote : Vote;
  t7_last_vote_tx_blockhash : option Hash;
  t7_last_timestamp : BlockTimestamp;
  t7_stray_restored_slot : option Slot;
  t7_last_switch_threshold_check : option (Slot * SwitchForkDecision)
}.
Inductive TowerVersions :=
| TowerV1_17_14 (t : Tower1_7_14)
| TowerV1_14_11 (t : Tower1_14_11)
| TowerCurrent (t : Tower).

Definition tower_1_14_11_from (self : Tower) : Tower1_14_11 :=
  mkTower1_14_11 (ValidatorTower.node_pubkey self) (threshold_depth self) (threshold_size self)
    (vote_state_1_14_11_from (vote_state self)) (last_vote self) (last_vote_tx_blockhash self)
    (tw_last_timestamp self) (stray_restored_slot self) (last_switch_threshold_check self).

Definition tower_convert_to_current (self : TowerVersions) : Tower :=
  match self with
  | TowerV1_17_14 t =>
      mkTower (t7_node_pubkey t) (t7_threshold_depth t) (t7_threshold_size t)
        (convert_to_current (V1_14_11 (t7_vote_state t))) (TxVote (t7_last_vote t))
        (t7_last_vote_tx_blockhash t) (t7_last_timestamp t) (t7_stray_restored_slot t) (t7_last_switch_threshold_check t)
  | TowerV1_14_11 t =>
      mkTower (t14_node_pubkey t) (t14_threshold_depth t) (t14_threshold_size t)
        (convert_to_current (V1_14_11 (t14_vote_state t))) (t14_last_vote t)
        (t14_last_vote_tx_blockhash t) (t14_last_timestamp t) (t14_stray_restored_slot t) (t14_last_switch_threshold_check t)
  | TowerCurrent t => t
  end.

(** Fields marked [#[serde(skip)]] come back with their default. *)
Definition skip_tower_1_14_11 (t : Tower1_14_11) : Tower1_14_11 :=
  mkTower1_14_11 (t14_node_pubkey t) (t14_threshold_depth t) (t14_threshold_size t) (t14_vote_state t) (t14_last_vote t)
    None (t14_last_timestamp t) None None.
Definition skip_tower_1_7_14 (t : Tower1_7_14) : Tower1_7_14 :=
  mkTower1_7_14 (t7_node_pubkey t) (t7_threshold_depth t) (t7_threshold_size t) (t7_vote_state t) (t7_last_vote t)
    None (t7_last_timestamp t) None None.

(** ** The program's environment *)

(** [bincode]: fails on values it cannot encode and bytes that encode nothing. *)
Class Bincode (A : Type) := {
  serialize : A -> option bytes;
  deserialize : bytes -> option A
}.
(** What is read back is what was written, with the skipped fields reset. *)
Class BincodeLaws A `{!Bincode A} (skip : A -> A) : Prop := {
  deserialize_serialize x b : serialize x = Some b -> deserialize b = Some (skip x);
  deserialize_skips x b : deserialize b = Some x -> skip x = x
}.

Class Signing (Keypair Signature : Type) := {
  keypair_pubkey : Keypair -> Pubkey;
  sign_message : Keypair -> bytes -> Signature;
  verify : Signature -> Pubkey -> bytes -> bool
}.
Class SigningLaws Keypair Signature `{!Signing Keypair Signature} : Prop := {
  verify_signed k data : verify (sign_message k data) (keypair_pubkey k) data = true
}.

(** ** Saved towers *)
Record SavedTower (Signature : Type) := mkSavedTower { st_signature : Signature; st_data : bytes; st_node_pubkey : Pubkey }.
Arguments mkSavedTower {Signature}.
Arguments st_signature {Signature}.
Arguments st_data {Signature}.
Arguments st_node_pubkey {Signature}.

(** The two versions have the same fields. *)
Inductive SavedTowerVersions (Signature : Type) :=
| SavedV1_17_14 (t : SavedTower Signature)
| SavedCurrent (t : SavedTower Signature).
Arguments SavedV1_17_14 {Signature}.
Arguments SavedCurrent {Signature}.

Definition skip_saved {Signature} (t : SavedTower Signature) : SavedTower Signature :=
  mkSavedTower (st_signature t) (st_data t) pubkey_default.
Definition skip_saved_versions {Signature} (t : SavedTowerVersions Signature) : SavedTowerVersions Signature :=
  match t with SavedV1_17_14 t => SavedV1_17_14 (skip_saved t) | SavedCurrent t => SavedCurrent (skip_saved t) end.

(** The last [.] of a file name separates its extension. *)
Fixpoint before_last_dot (s : string) : option string :=
  match s with
  | EmptyString => None
  | String c s =>
      match before_last_dot s with
      | Some r => Some (String c r)
      | None => if Ascii.eqb c "."%char then Some EmptyString else None
      end
  end.
Definition file_stem (s : string) : string :=
  match before_last_dot s with
  | Some EmptyString | None => s
  | Some r => r
  end.
Definition with_extension (s extension : string) : string := file_stem s +:+ "." +:+ extension.

Section Storage.
Context {Keypair Signature : Type} `{!Signing Keypair Signature}.
Context `{!Bincode Tower1_14_11, !Bincode Tower1_7_14, !Bincode (SavedTower Signature), !Bincode (SavedTowerVersions Signature)}.
(** A public key in base 58 *)
Context (show_pubkey : Pubkey -> string).

Definition wrong_tower (node_pubkey found : Pubkey) : TowerError :=
  WrongTower ("node_pubkey is " +:+ show_pubkey node_pubkey +:+ " but found tower for " +:+ show_pubkey found).

Definition saved_pubkey (self : SavedTowerVersions Signature) : Pubkey :=
  match self with SavedV1_17_14 t | SavedCurrent t => st_node_pubkey t end.

(** The signature and the data of a saved tower *)
Definition read_versions (self : SavedTowerVersions Signature) (node_pubkey : Pubkey) : outcome TowerError TowerVersions :=
  match self with
  | SavedV1_17_14 t =>
      if negb (verify (st_signature t) node_pubkey (st_data t)) then Err InvalidSignature
      else match deserialize (st_data t) with Some t => Ok (TowerV1_17_14 t) | None => Err SerializeError end
  | SavedCurrent t =>
      if negb (verify (st_signature t) node_pubkey (st_data t)) then Err InvalidSignature
      else match deserialize (st_data t) with Some t => Ok (TowerV1_14_11 t) | None => Err SerializeError end
  end.

Definition try_into_tower (self : SavedTowerVersions Signature) (node_pubkey : Pubkey) : outcome TowerError Tower :=
  _ ←? rust_assert (saved_pubkey self =? pubkey_default);
  tv ←? read_versions self node_pubkey;
  let tower := tower_convert_to_current tv in
  if negb (ValidatorTower.node_pubkey tower =? node_pubkey) then Err (wrong_tower node_pubkey (ValidatorTower.node_pubkey tower))
  else Ok tower.

(** [SavedTower::new]: always in the format of 1.14.11 *)
Definition saved_tower_new (tower : Tower) (keypair : Keypair) : outcome TowerError (SavedTower Signature) :=
  let node_pubkey := keypair_pubkey keypair in
  if negb (ValidatorTower.node_pubkey tower =? node_pubkey) then Err (wrong_tower node_pubkey (ValidatorTower.node_pubkey tower))
  else
    match serialize (tower_1_14_11_from tower) with
    | Some data => Ok (mkSavedTower (sign_message keypair data) data node_pubkey)
    | None => Err SerializeError
    end.
(** [SavedTower1_7_14::new] *)
Definition saved_tower_1_7_14_new (tower : Tower1_7_14) (keypair : Keypair) : outcome TowerError (SavedTower Signature) :=
  let node_pubkey := keypair_pubkey keypair in
  if negb (t7_node_pubkey tower =? node_pubkey) then Err (wrong_tower node_pubkey (t7_node_pubkey tower))
  else
    match serialize tower with
    | Some data => Ok (mkSavedTower (sign_message keypair data) data node_pubkey)
    | None => Err SerializeError
    end.

(** ** The trait [TowerStorage] *)
Class TowerStorage (S : Type) := {
  load : Pubkey -> S -> S * outcome TowerError Tower;
  store : SavedTowerVersions Signature -> S -> S * outcome TowerError unit
}.

Definition tower_save {S} `{!TowerStorage S} (self : Tower) (node_keypair : Keypair) (s : S) : S * outcome TowerError unit :=
  match saved_tower_new self node_keypair with
  | Ok saved => store (SavedCurrent saved) s
  | Err e => (s, Err e)
  | Panic => (s, Panic)
  end.
Definition tower_restore {S} `{!TowerStorage S} (node_pubkey : Pubkey) (s : S) : S * outcome TowerError Tower := load node_pubkey s.

(** [NullTowerStorage] *)
Record NullTowerStorage := mkNullTowerStorage {}.
Definition null_storage : TowerStorage NullTowerStorage :=
  {| load _ s := (s, Err (IoError false)); store _ s := (s, Ok tt) |}.

(** ** Files

    The files of the directory [tower_path], by name.  Every call of the operating
    system may fail: [Os] says which do.  A process that dies leaves the files as
    the call it died in would have left them on failure. *)
Record Os := mkOs {
  create_dir_ok : bool;
  open_ok : string -> bool;
  create_ok : bool;
  (** what an interrupted write leaves in the file *)
  interrupted : option bytes;
  rename_ok : bool
}.
Definition no_faults : Os := mkOs true (fun _ => true) true None true.

Record FileTowerStorage := mkFileTowerStorage { files : gmap string bytes }.

Definition old_filename (node_pubkey : Pubkey) : string := with_extension ("tower-" +:+ show_pubkey node_pubkey) "bin".
Definition filename (node_pubkey : Pubkey) : string := with_extension ("tower-1_9-" +:+ show_pubkey node_pubkey) "bin".
Definition new_filename (node_pubkey : Pubkey) : string := with_extension (filename node_pubkey) "bin.new".

Section Files.
Context (os : Os).

Definition file_open (name : string) (fs : FileTowerStorage) : outcome TowerError bytes :=
  if open_ok os name then match files fs !! name with Some data => Ok data | None => Err (IoError true) end
  else Err (IoError false).
Definition file_create (name : string) : eff FileTowerStorage TowerError unit := fun fs =>
  if create_ok os then (mkFileTowerStorage (<[name := []]> (files fs)), Ok tt) else (fs, Err (IoError false)).
Definition file_serialize_into (name : string) (data : option bytes) : eff FileTowerStorage TowerError unit := fun fs =>
  match data, interrupted os with
  | Some data, None => (mkFileTowerStorage (<[name := data]> (files fs)), Ok tt)
  | _, Some part => (mkFileTowerStorage (<[name := part]> (files fs)), Err SerializeError)
  | None, None => (fs, Err SerializeError)
  end.
Definition file_rename (from to : string) : eff FileTowerStorage TowerError unit := fun fs =>
  match files fs !! from with
  | Some data => if rename_ok os then (mkFileTowerStorage (<[to := data]> (delete from (files fs))), Ok tt) else (fs, Err (IoError false))
  | None => (fs, Err (IoError true))
  end.

Definition file_load (node_pubkey : Pubkey) (fs : FileTowerStorage) : outcome TowerError Tower :=
  if negb (create_dir_ok os) then Err (IoError false)
  else
    match file_open (filename node_pubkey) fs with
    | Ok file =>
        match deserialize file with
        | Some t => try_into_tower t node_pubkey
        | None => Err SerializeError
        end
    | _ =>
        file ←? file_open (old_filename node_pubkey) fs;
        match deserialize file with
        | Some t => try_into_tower (SavedV1_17_14 t) node_pubkey
        | None => Err SerializeError
        end
    end.

Definition file_store (saved_tower : SavedTowerVersions Signature) : eff FileTowerStorage TowerError unit :=
  let pubkey := saved_pubkey saved_tower in
  _ ←! file_create (new_filename pubkey);
  _ ←! file_serialize_into (new_filename pubkey) (serialize saved_tower);
  file_rename (new_filename pubkey) (filename pubkey).

Definition file_storage : TowerStorage FileTowerStorage :=
  {| load node_pubkey fs := (fs, file_load node_pubkey fs); store := file_store |}.
End Files.

(** ** Etcd

    A key-value service with transactions: if all comparisons hold, all operations
    are carried out at once. *)
Inductive EtcdOp := EtcdPut (key : string) (value : bytes) | EtcdGet (key : string).
(** [Compare::value(key, CompareOp::Equal, value)] *)
Record EtcdCompare := mkEtcdCompare { cmp_key : string; cmp_value : bytes }.
(** The answers of a transaction: whether the comparisons held, and the values of the gets *)
Record EtcdResponse := mkEtcdResponse { succeeded : bool; gets : list (option bytes) }.

Class Etcd (S : Type) := { etcd_txn : list EtcdCompare -> list EtcdOp -> S -> S * option EtcdResponse }.

Definition instance_key (node_pubkey : Pubkey) : string := show_pubkey node_pubkey +:+ "/instance".
Definition tower_key (node_pubkey : Pubkey) : string := show_pubkey node_pubkey +:+ "/tower".

Section EtcdStorage.
Context {S : Type} `{!Etcd S}.
(** The start time of this instance *)
Context (instance_id : bytes).

(** A call that fails is an I/O error. *)
Definition etcd_call (compares : list EtcdCompare) (ops : list EtcdOp) : eff S TowerError EtcdResponse := fun s =>
  let '(s, r) := etcd_txn compares ops s in
  (s, match r with Some r => Ok r | None => Err (IoError false) end).

(** The first value of the first answer that has one *)
Definition first_value (gets : list (option bytes)) : option bytes := head (omap id gets).

Definition etcd_load (node_pubkey : Pubkey) : eff S TowerError Tower :=
  _ ←! etcd_call [] [EtcdPut (instance_key node_pubkey) instance_id];
  response ←! etcd_call [mkEtcdCompare (instance_key node_pubkey) instance_id] [EtcdGet (tower_key node_pubkey)];
  eread (fun _ =>
    if negb (succeeded response) then Err (IoError false)
    else match first_value (gets response) with
         | Some value =>
             match deserialize value with
             | Some t => try_into_tower t node_pubkey
             | None => Err SerializeError
             end
         | None => Err (IoError false)
         end).

Definition etcd_store (saved_tower : SavedTowerVersions Signature) : eff S TowerError unit :=
  let node_pubkey := saved_pubkey saved_tower in
  value ←! eread (fun _ => match serialize saved_tower with Some b => Ok b | None => Err SerializeError end);
  response ←! etcd_call [mkEtcdCompare (instance_key node_pubkey) instance_id] [EtcdPut (tower_key node_pubkey) value];
  eread (fun _ => if negb (succeeded response) then Err (IoError false) else Ok tt).

Definition etcd_storage : TowerStorage S := {| load := etcd_load; store := etcd_store |}.
End EtcdStorage.
End Storage.
