(* ===== verification/TowerStorageSpec.v ===== *)
(** * A saved tower comes back

    What a storage has stored is what it loads; a tower in a file survives a
    process that dies while it saves, and a tower in etcd is written only by the
    instance that loaded it last. *)

From Stdlib Require Import Ascii String.
From S2P Require Import Prelude InstructionError AuthorizedVoters VoteState VoteVersions VoteProcess Tower SlotHistory ValidatorTower TowerRestore TowerRestoreSpec TowerStorage.

(** ** File names *)
Fixpoint all_chars (p : ascii -> bool) (s : string) : bool :=
  match s with EmptyString => true | String c s => p c && all_chars p s end.
(** The base 58 alphabet has neither separators nor dots. *)
Definition base58 (c : ascii) : bool :=
  let n := N_of_ascii c in
  (((49 <=? n) && (n <=? 57)) || ((65 <=? n) && (n <=? 90)) || ((97 <=? n) && (n <=? 122)))%N
  && negb (Ascii.eqb c "I"%char || Ascii.eqb c "O"%char || Ascii.eqb c "l"%char).
Definition no_dot (c : ascii) : bool := negb (Ascii.eqb c "."%char).

Lemma append_cons c s t : String c s +:+ t = String c (s +:+ t).
Proof. done. Qed.
Lemma append_nil t : EmptyString +:+ t = t.
Proof. done. Qed.

Lemma all_chars_app p s1 s2 : all_chars p (s1 +:+ s2) = all_chars p s1 && all_chars p s2.
Proof. induction s1 as [|c s1 IH]; [done|]. rewrite append_cons. cbn. by rewrite IH, andb_assoc. Qed.

Lemma all_chars_impl (p q : ascii -> bool) s : (forall c, p c = true -> q c = true) -> all_chars p s = true -> all_chars q s = true.
Proof.
  intros Hpq. induction s as [|c s IH]; [done|]. cbn. intros [Hc Hs]%andb_true_iff. by rewrite (Hpq c Hc), IH.
Qed.

Lemma base58_no_dot c : base58 c = true -> no_dot c = true.
Proof. unfold no_dot. by destruct (Ascii.eqb_spec c "."%char) as [->|]. Qed.

Lemma no_dot_stem s : all_chars no_dot s = true -> before_last_dot s = None.
Proof.
  induction s as [|c s IH]; [done|]. cbn. intros [Hc Hs]%andb_true_iff. rewrite (IH Hs).
  unfold no_dot in Hc. by destruct (Ascii.eqb c "."%char).
Qed.

Lemma before_extension s e : all_chars no_dot e = true -> before_last_dot (s +:+ "." +:+ e) = Some s.
Proof.
  intros He. rewrite (append_cons "."), append_nil. induction s as [|c s IH].
  - rewrite append_nil. cbn. by rewrite (no_dot_stem e He).
  - rewrite append_cons. cbn. by rewrite IH.
Qed.

Lemma app_string_length s1 s2 : String.length (s1 +:+ s2) = (String.length s1 + String.length s2)%nat.
Proof. induction s1 as [|c s1 IH]; [done|]. rewrite !append_cons. cbn. by rewrite IH. Qed.

Lemma app_string_inj_r s1 s2 e : s1 +:+ e = s2 +:+ e -> s1 = s2.
Proof.
  revert s2. induction s1 as [|c s1 IH]; intros [|c2 s2] H; [done| | |].
  - apply (f_equal String.length) in H. rewrite append_nil, !app_string_length in H. cbn in H. lia.
  - apply (f_equal String.length) in H. rewrite append_nil, !app_string_length in H. cbn in H. lia.
  - rewrite !append_cons in H. injection H as <- H. f_equal. by apply IH.
Qed.

Lemma app_string_inj_l e s1 s2 : e +:+ s1 = e +:+ s2 -> s1 = s2.
Proof. induction e as [|c e IH]; [done|]. rewrite !append_cons. intros [= H]. by apply IH. Qed.

(** Strings that end in different characters differ. *)
Lemma app_string_last s1 s2 c1 c2 : c1 <> c2 -> s1 +:+ String c1 EmptyString <> s2 +:+ String c2 EmptyString.
Proof.
  intros Hc. revert s2. induction s1 as [|c s1 IH]; intros [|d s2] H; rewrite ?append_cons, ?append_nil in H.
  - congruence.
  - injection H as _ H. by destruct s2.
  - injection H as _ H. by destruct s1.
  - injection H as _ H. by apply (IH s2).
Qed.

Lemma app_string_assoc s1 s2 s3 : (s1 +:+ s2) +:+ s3 = s1 +:+ (s2 +:+ s3).
Proof. induction s1 as [|c s1 IH]; [done|]. rewrite !append_cons. cbn. by rewrite IH. Qed.

Section Names.
Context (show_pubkey : Pubkey -> string).
Hypothesis show_base58 : forall k, all_chars base58 (show_pubkey k) = true.
Hypothesis show_inj : forall k1 k2, show_pubkey k1 = show_pubkey k2 -> k1 = k2.

Lemma with_extension_no_dot s e : s <> EmptyString -> all_chars no_dot s = true -> with_extension s e = s +:+ "." +:+ e.
Proof. intros Hs Hd. unfold with_extension, file_stem. by rewrite (no_dot_stem s Hd). Qed.

Lemma show_no_dot k : all_chars no_dot (show_pubkey k) = true.
Proof. apply (all_chars_impl base58); [apply base58_no_dot|apply show_base58]. Qed.

Lemma filename_eq k : filename show_pubkey k = "tower-1_9-" +:+ show_pubkey k +:+ ".bin".
Proof.
  unfold filename. rewrite with_extension_no_dot; [by rewrite app_string_assoc|done|]. by rewrite all_chars_app, show_no_dot.
Qed.
Lemma old_filename_eq k : old_filename show_pubkey k = "tower-" +:+ show_pubkey k +:+ ".bin".
Proof.
  unfold old_filename. rewrite with_extension_no_dot; [by rewrite app_string_assoc|done|]. by rewrite all_chars_app, show_no_dot.
Qed.
Lemma with_extension_dot s e e' : s <> EmptyString -> all_chars no_dot e = true -> with_extension (s +:+ "." +:+ e) e' = s +:+ "." +:+ e'.
Proof. intros Hs He. unfold with_extension, file_stem. rewrite (before_extension s e He). by destruct s. Qed.

Lemma new_filename_eq k : new_filename show_pubkey k = "tower-1_9-" +:+ show_pubkey k +:+ ".bin.new".
Proof.
  unfold new_filename. rewrite filename_eq. change ".bin"%string with ("." +:+ "bin").
  by rewrite <-app_string_assoc, with_extension_dot, app_string_assoc.
Qed.

(** What is stored for one validator touches no file that is loaded, but its own. *)
Lemma new_filename_other k k' : new_filename show_pubkey k <> filename show_pubkey k' /\ new_filename show_pubkey k <> old_filename show_pubkey k'.
Proof.
  rewrite new_filename_eq, filename_eq, old_filename_eq.
  change ".bin.new"%string with (".bin.ne" +:+ "w"). change ".bin"%string with (".bi" +:+ "n").
  rewrite <-!app_string_assoc. split; by apply app_string_last.
Qed.

Lemma filename_inj k k' : filename show_pubkey k = filename show_pubkey k' -> k = k'.
Proof. rewrite !filename_eq. intros H%app_string_inj_l%app_string_inj_r. by apply show_inj. Qed.

Lemma old_filename_other k k' : old_filename show_pubkey k <> filename show_pubkey k'.
Proof.
  rewrite old_filename_eq, filename_eq. change "tower-1_9-"%string with ("tower-" +:+ "1_9-"). rewrite app_string_assoc.
  intros H%app_string_inj_l. rewrite <-app_string_assoc in H. apply app_string_inj_r in H.
  pose proof (show_base58 k) as Hk. by rewrite H in Hk.
Qed.
End Names.

(** ** Saved towers *)
Section Restore.
Context {Keypair Signature : Type} `{!Signing Keypair Signature, !SigningLaws Keypair Signature}.
Context `{!Bincode Tower1_14_11, !Bincode Tower1_7_14, !Bincode (SavedTower Signature), !Bincode (SavedTowerVersions Signature)}.
Context `{!BincodeLaws Tower1_14_11 skip_tower_1_14_11, !BincodeLaws (SavedTower Signature) skip_saved}.
Context `{!BincodeLaws (SavedTowerVersions Signature) skip_saved_versions}.
Context (show_pubkey : Pubkey -> string).
Hypothesis show_base58 : forall k, all_chars base58 (show_pubkey k) = true.
Hypothesis show_inj : forall k1 k2, show_pubkey k1 = show_pubkey k2 -> k1 = k2.
Abbreviation into_tower saved := (try_into_tower show_pubkey (skip_saved_versions saved) (saved_pubkey saved)).

(** The part of a tower that is saved *)
Definition persisted (t : Tower) : Tower :=
  mkTower (ValidatorTower.node_pubkey t) (threshold_depth t) (threshold_size t) (forget_latencies (vote_state t)) (last_vote t)
    None (tw_last_timestamp t) None None.

Lemma saved_into_tower t keypair saved :
  saved_tower_new show_pubkey t keypair = Ok saved ->
  st_node_pubkey saved = keypair_pubkey keypair /\ into_tower (SavedCurrent saved) = Ok (persisted t).
Proof.
  unfold saved_tower_new. destruct (Z.eqb_spec (ValidatorTower.node_pubkey t) (keypair_pubkey keypair)) as [Hk|]; cbn [negb]; [|done].
  destruct (serialize (tower_1_14_11_from t)) as [data|] eqn:Es; [|done]. intros [= <-]. split; [done|].
  unfold try_into_tower. cbn. rewrite verify_signed. cbn. rewrite (deserialize_serialize _ _ Es). cbn.
  unfold persisted. rewrite Hk, Z.eqb_refl, <-convert_downgraded. done.
Qed.

Lemma persisted_saved_tower root t : saved_tower root t -> saved_tower root (persisted t).
Proof.
  intros [Hr Hs Ha Hl]. assert (Hv : voted_slots (persisted t) = voted_slots t) by (unfold voted_slots; cbn; by rewrite <-list_fmap_compose).
  split; [exact Hr|by rewrite Hv|by rewrite Hv|]. rewrite Hv, <-Hl. done.
Qed.

(** Restoring after a successful save, when the storage loads what it has stored *)
Lemma save_restores {S} (storage storage' : TowerStorage (Signature := Signature) S) t keypair s s' :
  tower_save (TowerStorage0 := storage) show_pubkey t keypair s = (s', Ok tt) ->
  (forall saved, saved_pubkey saved = keypair_pubkey keypair -> @store _ _ storage saved s = (s', Ok tt) ->
     snd (@load _ _ storage' (saved_pubkey saved) s') = into_tower saved) ->
  snd (tower_restore (TowerStorage0 := storage') (keypair_pubkey keypair) s') = Ok (persisted t).
Proof.
  intros Hsave Hload. unfold tower_save in Hsave.
  destruct (saved_tower_new show_pubkey t keypair) as [saved|e|] eqn:En; [|done|done].
  apply saved_into_tower in En as [Hk Hin]. unfold tower_restore. rewrite <-Hk, <-Hin. exact (Hload (SavedCurrent saved) Hk Hsave).
Qed.

(** ** Files *)
Lemma file_store_cases os saved fs :
  let pk := saved_pubkey saved in
  let '(fs', r) := file_store show_pubkey os saved fs in
  (r = Ok tt /\ exists data, serialize saved = Some data /\ files fs' !! filename show_pubkey pk = Some data /\
     forall name, name <> filename show_pubkey pk -> name <> new_filename show_pubkey pk -> files fs' !! name = files fs !! name) \/
  ((exists e, r = Err e) /\ forall name, name <> new_filename show_pubkey pk -> files fs' !! name = files fs !! name).
Proof.
  cbn zeta. unfold file_store, ebind, file_create. destruct (create_ok os); [|right; eauto].
  unfold file_serialize_into. set (new := new_filename show_pubkey _).
  destruct (serialize saved) as [data|], (interrupted os) as [part|].
  - right. split; [eauto|]. intros name Hn. cbn. by rewrite !lookup_insert_ne by done.
  - unfold file_rename. cbn. rewrite lookup_insert_eq. destruct (rename_ok os).
    + left. split; [done|]. exists data. split; [done|]. cbn. split; [apply lookup_insert_eq|].
      intros name Hf Hn. by rewrite lookup_insert_ne, lookup_delete_ne, !lookup_insert_ne by done.
    + right. split; [eauto|]. intros name Hn. cbn. by rewrite !lookup_insert_ne by done.
  - right. split; [eauto|]. intros name Hn. cbn. by rewrite !lookup_insert_ne by done.
  - right. split; [eauto|]. intros name Hn. cbn. by rewrite !lookup_insert_ne by done.
Qed.

Lemma file_load_same os k fs fs' :
  files fs' !! filename show_pubkey k = files fs !! filename show_pubkey k ->
  files fs' !! old_filename show_pubkey k = files fs !! old_filename show_pubkey k ->
  file_load show_pubkey os k fs' = file_load show_pubkey os k fs.
Proof. intros H1 H2. unfold file_load, file_open. by rewrite H1, H2. Qed.

Lemma file_load_new os k fs data saved :
  create_dir_ok os = true -> open_ok os (filename show_pubkey k) = true ->
  files fs !! filename show_pubkey k = Some data -> serialize saved = Some data ->
  file_load show_pubkey os k fs = try_into_tower show_pubkey (skip_saved_versions saved) k.
Proof. intros Hd Ho Hf Hs. unfold file_load, file_open. rewrite Hd, Ho, Hf. cbn. by rewrite (deserialize_serialize _ _ Hs). Qed.

(** C17: saving a tower to a file is atomic.  Whichever call fails, and wherever the
    process dies, the saved tower can be loaded if and only if the save returned
    success; otherwise whatever was loaded before is still loaded.  Saving one
    validator's tower never changes what another loads, and it never panics. *)
Theorem file_store_atomic os os' saved fs :
  let pk := saved_pubkey saved in
  let '(fs', r) := file_store show_pubkey os saved fs in
  match r with
  | Ok _ => create_dir_ok os' = true -> open_ok os' (filename show_pubkey pk) = true -> file_load show_pubkey os' pk fs' = into_tower saved
  | Err _ => file_load show_pubkey os' pk fs' = file_load show_pubkey os' pk fs
  | Panic => False
  end /\ forall k, k <> pk -> file_load show_pubkey os' k fs' = file_load show_pubkey os' k fs.
Proof.
  cbn zeta. pose proof (file_store_cases os saved fs) as Hc. cbn zeta in Hc. destruct (file_store show_pubkey os saved fs) as [fs' r].
  assert (Hnew : forall k, filename show_pubkey k <> new_filename show_pubkey (saved_pubkey saved) /\
      old_filename show_pubkey k <> new_filename show_pubkey (saved_pubkey saved)).
  { intros k. destruct (new_filename_other show_pubkey show_base58 (saved_pubkey saved) k). auto. }
  destruct Hc as [(-> & data & Hs & Hf & Hother)|((e & ->) & Hother)].
  - split; [intros Hd Ho; by apply (file_load_new os' _ _ data)|]. intros k Hk. apply file_load_same; apply Hother; try apply Hnew.
    + intros H%(filename_inj show_pubkey show_base58 show_inj). done.
    + apply old_filename_other, show_base58.
  - split; [|intros k _]; apply file_load_same; apply Hother, Hnew.
Qed.

Lemma file_load_stored os os' saved fs fs' :
  create_dir_ok os' = true -> open_ok os' (filename show_pubkey (saved_pubkey saved)) = true ->
  file_store show_pubkey os saved fs = (fs', Ok tt) -> file_load show_pubkey os' (saved_pubkey saved) fs' = into_tower saved.
Proof.
  intros Hd Ho Hs. pose proof (file_store_cases os saved fs) as Hc. cbn zeta in Hc. rewrite Hs in Hc.
  destruct Hc as [(_ & data & Hser & Hf & _)|([e He] & _)]; [|done]. by apply (file_load_new os' _ _ data).
Qed.

(** ** Etcd *)

(** The service holds a value per key.  A transaction whose comparisons hold carries
    out its operations; one whose comparisons fail changes nothing; one that
    gets no answer did one or the other. *)
Definition compares_hold (values : string -> option bytes) (compares : list EtcdCompare) : bool :=
  forallb (fun c => bool_decide (values (cmp_key c) = Some (cmp_value c))) compares.
Definition after_op (op : EtcdOp) (values : string -> option bytes) : string -> option bytes :=
  match op with EtcdPut k v => fun k' => if bool_decide (k' = k) then Some v else values k' | EtcdGet _ => values end.
Definition answers (op : EtcdOp) (values : string -> option bytes) : list (option bytes) :=
  match op with EtcdPut _ _ => [] | EtcdGet k => [values k] end.

(** The storage sends one operation per transaction. *)
Class EtcdLaws (S : Type) `{!Etcd S} (value : S -> string -> option bytes) : Prop := {
  txn_values compares op s s' r : etcd_txn compares [op] s = (s', r) ->
    (forall k, value s' k = value s k) \/ (compares_hold (value s) compares = true /\ forall k, value s' k = after_op op (value s) k);
  txn_answer compares op s s' r : etcd_txn compares [op] s = (s', Some r) ->
    if compares_hold (value s) compares
    then succeeded r = true /\ gets r = answers op (value s) /\ forall k, value s' k = after_op op (value s) k
    else succeeded r = false
}.

Section EtcdSafety.
Context {S : Type} `{!Etcd S} {value : S -> string -> option bytes} `{!EtcdLaws S value}.

Lemma instance_key_tower k k' : instance_key show_pubkey k <> tower_key show_pubkey k'.
Proof.
  unfold instance_key, tower_key. change "/instance"%string with ("/instanc" +:+ "e"). change "/tower"%string with ("/towe" +:+ "r").
  rewrite <-!app_string_assoc. by apply app_string_last.
Qed.
Lemma tower_key_inj k k' : tower_key show_pubkey k = tower_key show_pubkey k' -> k = k'.
Proof. intros H%app_string_inj_r. by apply show_inj. Qed.

(** A store changes at most the tower of its validator, and that only while its
    instance is the one that is registered. *)
Lemma etcd_store_values id saved s :
  let pk := saved_pubkey saved in
  let '(s', r) := etcd_store show_pubkey id saved s in
  (forall k, value s' k = value s k) /\ r <> Ok tt \/
  value s (instance_key show_pubkey pk) = Some id /\ forall k, k <> tower_key show_pubkey pk -> value s' k = value s k.
Proof.
  cbn zeta. unfold etcd_store, ebind, eread. destruct (serialize saved) as [data|]; [|by left].
  unfold etcd_call. destruct (etcd_txn _ _ s) as [s' r] eqn:Et.
  destruct (compares_hold (value s) [mkEtcdCompare (instance_key show_pubkey (saved_pubkey saved)) id]) eqn:Ec.
  - assert (value s (instance_key show_pubkey (saved_pubkey saved)) = Some id /\
      forall k, k <> tower_key show_pubkey (saved_pubkey saved) -> value s' k = value s k) by
      (unfold compares_hold in Ec; cbn in Ec; rewrite andb_true_r in Ec; apply bool_decide_eq_true_1 in Ec; split; [done|];
       intros k Hk; destruct (txn_values _ _ _ _ _ Et) as [->|[_ ->]]; [done|]; cbn; by rewrite bool_decide_eq_false_2).
    destruct r as [r|]; by right.
  - assert (forall k, value s' k = value s k) by (destruct (txn_values _ _ _ _ _ Et) as [?|[He _]]; [done|congruence]).
    destruct r as [r|]; [|by left]. pose proof (txn_answer _ _ _ _ _ Et) as Ha. rewrite Ec in Ha. rewrite Ha. by left.
Qed.

Lemma etcd_load_values id pk s :
  let '(s', r) := etcd_load show_pubkey id pk s in
  (forall k, k <> instance_key show_pubkey pk -> value s' k = value s k) /\
  (forall t, r = Ok t -> value s' (instance_key show_pubkey pk) = Some id).
Proof.
  unfold etcd_load, ebind, etcd_call, eread. destruct (etcd_txn [] _ s) as [s1 r1] eqn:E1.
  assert (H1 : forall k, k <> instance_key show_pubkey pk -> value s1 k = value s k)
    by (intros k Hk; destruct (txn_values _ _ _ _ _ E1) as [->|[_ ->]]; [done|]; cbn; by rewrite bool_decide_eq_false_2).
  destruct r1 as [r1|]; [|done]. destruct (etcd_txn _ _ s1) as [s2 r2] eqn:E2.
  assert (H2 : forall k, value s2 k = value s1 k) by (intros k; by destruct (txn_values _ _ _ _ _ E2) as [->|[_ ->]]).
  destruct r2 as [r2|]; [|by split; [intros; rewrite H2; auto|]].
  split; [intros; rewrite H2; auto|]. intros t Ht. rewrite H2. pose proof (txn_answer _ _ _ _ _ E2) as Ha.
  destruct (compares_hold (value s1) _) eqn:Ec; [|by rewrite Ha in Ht].
  unfold compares_hold in Ec. cbn in Ec. rewrite andb_true_r in Ec. by apply bool_decide_eq_true_1 in Ec.
Qed.

(** What other instances do, but for taking over the validator [pk] *)
Inductive others (id : bytes) (pk : Pubkey) (s : S) : S -> Prop :=
| others_none : others id pk s s
| others_store s1 id' saved : id' <> id -> others id pk s s1 -> others id pk s (fst (etcd_store show_pubkey id' saved s1))
| others_load s1 id' pk' : pk' <> pk -> others id pk s s1 -> others id pk s (fst (etcd_load show_pubkey id' pk' s1)).

Lemma others_keep id pk s s' :
  others id pk s s' -> value s (instance_key show_pubkey pk) = Some id ->
  value s' (instance_key show_pubkey pk) = Some id /\ value s' (tower_key show_pubkey pk) = value s (tower_key show_pubkey pk).
Proof.
  intros Ho Hi. induction Ho as [|s1 id' saved Hne Ho [IHi IHt]|s1 id' pk' Hne Ho [IHi IHt]]; [done| |].
  - pose proof (etcd_store_values id' saved s1) as Hv. cbn zeta in Hv. destruct (etcd_store show_pubkey id' saved s1) as [s2 r]. cbn.
    destruct Hv as [[Hv _]|[Hid Hv]]; [by rewrite !Hv|].
    assert (Hpk : saved_pubkey saved <> pk) by (intros Heq; rewrite Heq in Hid; congruence).
    rewrite !Hv; [done|by intros H%tower_key_inj|apply instance_key_tower].
  - pose proof (etcd_load_values id' pk' s1) as Hv. destruct (etcd_load show_pubkey id' pk' s1) as [s2 r]. cbn. destruct Hv as [Hv _].
    rewrite !Hv; [done|intros H; symmetry in H; by apply instance_key_tower in H|].
    intros H%app_string_inj_r%show_inj. congruence.
Qed.

(** C27: a tower in etcd has one writer.  After an instance has loaded the tower of a
    validator, whatever other instances do until one of them loads it, the tower
    stays as it is and each of their attempts to store it is refused; the
    instance itself can store it whenever the service answers. *)
Theorem etcd_one_writer id pk s s1 t s2 :
  etcd_load show_pubkey id pk s = (s1, Ok t) -> others id pk s1 s2 ->
  value s2 (tower_key show_pubkey pk) = value s1 (tower_key show_pubkey pk) /\
  (forall id' saved, id' <> id -> saved_pubkey saved = pk -> snd (etcd_store show_pubkey id' saved s2) <> Ok tt) /\
  (forall saved data s3 r, saved_pubkey saved = pk -> serialize saved = Some data ->
     etcd_txn [mkEtcdCompare (instance_key show_pubkey pk) id] [EtcdPut (tower_key show_pubkey pk) data] s2 = (s3, Some r) ->
     etcd_store show_pubkey id saved s2 = (s3, Ok tt) /\ value s3 (tower_key show_pubkey pk) = Some data).
Proof.
  intros Hload Ho. pose proof (etcd_load_values id pk s) as Hl. rewrite Hload in Hl. destruct Hl as [_ Hl]. specialize (Hl t eq_refl).
  destruct (others_keep id pk s1 s2 Ho Hl) as [Hi Ht]. split; [done|]. split.
  - intros id' saved Hne Hpk. pose proof (etcd_store_values id' saved s2) as Hv. cbn zeta in Hv.
    destruct (etcd_store show_pubkey id' saved s2) as [s3 r]. cbn. destruct Hv as [[_ Hv]|[Hid _]]; [done|]. rewrite Hpk in Hid. congruence.
  - intros saved data s3 r Hpk Hs Htxn. unfold etcd_store, ebind, eread, etcd_call. rewrite Hs, Hpk, Htxn.
    pose proof (txn_answer _ _ _ _ _ Htxn) as Ha. unfold compares_hold in Ha. cbn in Ha. rewrite (bool_decide_eq_true_2 _ Hi) in Ha.
    destruct Ha as (Hok & _ & Hv). rewrite Hok. split; [done|]. rewrite Hv. cbn. by rewrite bool_decide_eq_true_2.
Qed.

(** The two calls of [etcd_load] get an answer. *)
Definition load_answered (id : bytes) (pk : Pubkey) (s : S) : Prop :=
  exists s1 r1 s2 r2, etcd_txn [] [EtcdPut (instance_key show_pubkey pk) id] s = (s1, Some r1) /\
    etcd_txn [mkEtcdCompare (instance_key show_pubkey pk) id] [EtcdGet (tower_key show_pubkey pk)] s1 = (s2, Some r2).

Lemma etcd_load_stored id id' saved s s' :
  load_answered id' (saved_pubkey saved) s' -> etcd_store show_pubkey id saved s = (s', Ok tt) ->
  snd (etcd_load show_pubkey id' (saved_pubkey saved) s') = into_tower saved.
Proof.
  intros (s1 & r1 & s2 & r2 & E1 & E2) Hstore. unfold etcd_store, ebind, eread, etcd_call in Hstore.
  destruct (serialize saved) as [data|] eqn:Es; [|done].
  destruct (etcd_txn _ _ s) as [s0 r0] eqn:E0. destruct r0 as [r0|]; [|done]. pose proof (txn_answer _ _ _ _ _ E0) as H0.
  destruct (compares_hold (value s) _); [|by rewrite H0 in Hstore]. destruct H0 as (Hok0 & _ & Hv0). rewrite Hok0 in Hstore. injection Hstore as <-.
  unfold etcd_load, ebind, etcd_call, eread. set (pk := saved_pubkey saved) in *. rewrite E1.
  pose proof (txn_answer _ _ _ _ _ E1) as (_ & _ & Hv1). rewrite E2. pose proof (txn_answer _ _ _ _ _ E2) as H2.
  assert (compares_hold (value s1) [mkEtcdCompare (instance_key show_pubkey pk) id'] = true) as Hc.
  { cbn. rewrite bool_decide_eq_true_2; [done|]. rewrite Hv1. cbn. by rewrite bool_decide_eq_true_2. }
  rewrite Hc in H2. destruct H2 as (-> & -> & _). cbn. rewrite Hv1. cbn.
  rewrite bool_decide_eq_false_2 by (intros H; symmetry in H; by apply instance_key_tower in H).
  rewrite Hv0. cbn. rewrite bool_decide_eq_true_2 by done.
  change (first_value [Some data]) with (Some data). cbn. by rewrite (deserialize_serialize _ _ Es).
Qed.

(** C26: a tower that was saved comes back.  After a save to a file that succeeded,
    a process that can open the file restores the same tower, and so does any
    instance whose calls to etcd are answered after a save to etcd that succeeded:
    root, votes with their
    lockouts, last vote, thresholds and timestamp.  Only the latencies of the
    votes and the three fields that are not stored are reset.  If its slots were
    in order before, they are after, so that it can be adjusted to the ledger.  A
    save to the null storage succeeds, and nothing is ever restored from it. *)
Theorem saved_tower_restored t keypair :
  (forall os os' fs fs',
     tower_save (TowerStorage0 := file_storage show_pubkey os) show_pubkey t keypair fs = (fs', Ok tt) ->
     create_dir_ok os' = true -> open_ok os' (filename show_pubkey (keypair_pubkey keypair)) = true ->
     snd (tower_restore (TowerStorage0 := file_storage show_pubkey os') (keypair_pubkey keypair) fs') = Ok (persisted t)) /\
  (forall id id' (s s' : S),
     tower_save (TowerStorage0 := etcd_storage show_pubkey id) show_pubkey t keypair s = (s', Ok tt) ->
     load_answered id' (keypair_pubkey keypair) s' ->
     snd (tower_restore (TowerStorage0 := etcd_storage show_pubkey id') (keypair_pubkey keypair) s') = Ok (persisted t)) /\
  (forall saved s, store (TowerStorage := null_storage (Signature := Signature)) saved s = (s, Ok tt) /\
     snd (tower_restore (TowerStorage0 := null_storage (Signature := Signature)) (keypair_pubkey keypair) s) = Err (IoError false)) /\
  (forall root, saved_tower root t -> saved_tower root (persisted t)).
Proof.
  split; [|split; [|split; [done|intros root; apply persisted_saved_tower]]].
  - intros os os' fs fs' Hsave Hd Ho. eapply (save_restores (file_storage show_pubkey os)); [exact Hsave|].
    intros saved Hpk Hst. rewrite <-Hpk in Ho. cbn in *. by eapply file_load_stored.
  - intros id id' s s' Hsave Ha. eapply (save_restores (etcd_storage show_pubkey id)); [exact Hsave|].
    intros saved Hpk Hst. rewrite <-Hpk in Ha. exact (etcd_load_stored id id' saved s s' Ha Hst).
Qed.
End EtcdSafety.
End Restore.
