(* ===== verification/TowerStorageSample.v ===== *)
(** * A small tower storage

    Codecs for one tower, a signature that is the signed data itself, and public
    keys written in unary: the theorems about storages applied to them. *)

From Stdlib Require Import Ascii String SpecFloat.
From S2P Require Import Prelude InstructionError AuthorizedVoters VoteState VoteVersions VoteProcess Tower SlotHistory ValidatorTower TowerRestore TowerRestoreSpec TowerStorage TowerStorageSpec.

#[local] Instance spec_float_eq_dec : EqDecision spec_float.
Proof. solve_decision. Defined.
#[local] Instance saved_vote_state_eq_dec : EqDecision VoteState1_14_11.
Proof. solve_decision. Defined.
#[local] Instance saved_data_eq_dec : EqDecision Tower1_14_11.
Proof. solve_decision. Defined.

(** A codec that knows one value *)
Definition one_codec {A} `{!EqDecision A} (skip : A -> A) (x : A) (code : bytes) : Bincode A := {|
  serialize y := if bool_decide (skip y = x) then Some code else None;
  deserialize b := if bool_decide (b = code) then Some x else None
|}.
Lemma one_codec_laws {A} `{!EqDecision A} (skip : A -> A) x code :
  skip x = x -> @BincodeLaws A (one_codec skip x code) skip.
Proof.
  intros Hx. split; cbn; intros y b; case_bool_decide as H; intros [= <-]; [|done]. by rewrite bool_decide_eq_true_2, H.
Qed.

Abbreviation Sig := (Pubkey * bytes)%type.
#[local] Instance demo_signing : Signing Pubkey Sig := {
  keypair_pubkey k := k;
  sign_message k data := (k, data);
  verify s k data := bool_decide (s = (k, data))
}.
#[local] Instance demo_signing_laws : SigningLaws Pubkey Sig.
Proof. split. intros k data. cbn. by rewrite bool_decide_eq_true_2. Qed.

Definition demo_tower : Tower :=
  let t := RestoreSample.saved [3; 6; 9] in
  mkTower 7 (threshold_depth t) (threshold_size t) (vote_state t) (last_vote t) (Some 4) (tw_last_timestamp t) (Some 3) None.
Definition demo_saved : SavedTower Sig := mkSavedTower (7, [1; 2]) [1; 2] 7.

#[local] Instance saved_eq_dec : EqDecision (SavedTower Sig).
Proof. solve_decision. Defined.
#[local] Instance saved_versions_eq_dec : EqDecision (SavedTowerVersions Sig).
Proof. solve_decision. Defined.
#[local] Instance tower_codec : Bincode Tower1_14_11 :=
  one_codec skip_tower_1_14_11 (skip_tower_1_14_11 (tower_1_14_11_from demo_tower)) [1; 2].
#[local] Instance saved_versions_codec : Bincode (SavedTowerVersions Sig) :=
  one_codec skip_saved_versions (skip_saved_versions (SavedCurrent demo_saved)) [3].
#[local] Instance saved_codec : Bincode (SavedTower Sig) := one_codec skip_saved (skip_saved demo_saved) [3].
#[local] Instance old_tower_codec : Bincode Tower1_7_14 := {| serialize _ := None; deserialize _ := None |}.
#[local] Instance tower_codec_laws : BincodeLaws Tower1_14_11 skip_tower_1_14_11.
Proof. by apply one_codec_laws. Qed.
#[local] Instance saved_versions_codec_laws : BincodeLaws (SavedTowerVersions Sig) skip_saved_versions.
Proof. by apply one_codec_laws. Qed.
#[local] Instance saved_codec_laws : BincodeLaws (SavedTower Sig) skip_saved.
Proof. by apply one_codec_laws. Qed.

Fixpoint ones (n : nat) : string := match n with O => EmptyString | S n => String "1" (ones n) end.
Definition unary (k : Pubkey) : string := if k <? 0 then String "2" (ones (Z.to_nat (- k))) else String "3" (ones (Z.to_nat k)).

Lemma ones_inj n m : ones n = ones m -> n = m.
Proof. revert m. induction n as [|n IH]; intros [|m]; try done. cbn. intros [= H]. by rewrite (IH m). Qed.
Lemma unary_inj k1 k2 : unary k1 = unary k2 -> k1 = k2.
Proof. unfold unary. destruct (Z.ltb_spec k1 0), (Z.ltb_spec k2 0); intros [= Heq%ones_inj]; lia. Qed.
Lemma unary_base58 k : all_chars base58 (unary k) = true.
Proof.
  assert (Ho : forall n, all_chars base58 (ones n) = true) by (induction n; [done|]; cbn; by rewrite IHn).
  unfold unary. destruct (k <? 0); cbn; by rewrite Ho.
Qed.

Lemma demo_tower_saved : saved_tower 2 demo_tower.
Proof.
  split; [reflexivity|repeat first [lia|constructor]| |reflexivity].
  intros s. cbn. rewrite !elem_of_cons, elem_of_nil. intuition lia.
Qed.

(** A save that is interrupted while it writes leaves the tower that was saved before. *)
Lemma file_store_atomic_witness :
  let fs := fst (file_store unary no_faults (SavedCurrent demo_saved) (mkFileTowerStorage ∅)) in
  let fs' := fst (file_store unary (mkOs true (fun _ => true) true (Some [5]) true) (SavedCurrent demo_saved) fs) in
  files fs' !! "tower-1_9-31111111.bin.new" = Some [5] /\
  file_load unary no_faults 7 fs' = Ok (persisted demo_tower).
Proof.
  cbn zeta. split; [vm_compute; reflexivity|].
  pose proof (file_store_atomic unary unary_base58 unary_inj (mkOs true (fun _ => true) true (Some [5]) true) no_faults (SavedCurrent demo_saved)
    (fst (file_store unary no_faults (SavedCurrent demo_saved) (mkFileTowerStorage ∅)))) as H.
  cbn zeta in H. destruct (file_store unary (mkOs _ _ _ _ _) _ _) as [fs' r] eqn:E. assert (r = Err SerializeError) as -> by (vm_compute in E; congruence).
  destruct H as [H _]. etransitivity; [exact H|]. vm_compute. reflexivity.
Defined.

(** ** A service that always answers *)
Abbreviation Kv := (gmap string bytes).
Definition kv_op (op : EtcdOp) (m : Kv) : Kv := match op with EtcdPut k v => <[k := v]> m | EtcdGet _ => m end.
Definition kv_get (op : EtcdOp) (m : Kv) : list (option bytes) := match op with EtcdPut _ _ => [] | EtcdGet k => [m !! k] end.
#[local] Instance kv_etcd : Etcd Kv := {
  etcd_txn compares ops m :=
    if compares_hold (fun k => m !! k) compares
    then (foldl (fun m op => kv_op op m) m ops, Some (mkEtcdResponse true (ops ≫= fun op => kv_get op m)))
    else (m, Some (mkEtcdResponse false []))
}.
#[local] Instance kv_laws : EtcdLaws Kv (fun m k => m !! k).
Proof.
  assert (Hop : forall op (m : Kv) k, kv_op op m !! k = after_op op (fun k => m !! k) k).
  { intros [k v|k] m k'; [|done]. cbn. case_bool_decide as H; [by subst; rewrite lookup_insert_eq|by rewrite lookup_insert_ne]. }
  split; intros compares op m m' r; cbn; destruct (compares_hold _ compares) eqn:E; intros [= <- <-]; auto.
  split; [done|]. split; [|auto]. cbn. by rewrite app_nil_r.
Qed.

Definition registered : Kv := <[tower_key unary 7 := [3]]> ∅.

(** Saved and restored, from a file by a process with its own faults and from etcd
    by another instance, the tower then fits the ledger. *)
Definition saving : FileTowerStorage * outcome TowerError unit :=
  tower_save (Signature := Sig) (TowerStorage0 := file_storage unary no_faults) unary demo_tower 7 (mkFileTowerStorage ∅).
Definition claimed : Kv := <[instance_key unary 7 := [1]]> ∅.
Definition saving_etcd : Kv * outcome TowerError unit :=
  tower_save (Signature := Sig) (TowerStorage0 := etcd_storage unary [1]) unary demo_tower 7 claimed.
Definition restarted : Os := mkOs true (fun _ => true) false None false.

Lemma pair_snd {A B} (x : A * B) y : snd x = y -> x = (fst x, y).
Proof. by destruct x; intros <-. Qed.
Lemma saving_ok : saving = (fst saving, Ok tt).
Proof. apply pair_snd. vm_compute. reflexivity. Qed.
Lemma saving_etcd_ok : saving_etcd = (fst saving_etcd, Ok tt).
Proof. apply pair_snd. vm_compute. reflexivity. Qed.
Lemma saving_etcd_answered : load_answered unary [2] 7 (fst saving_etcd).
Proof.
  eexists _, (mkEtcdResponse true []), _, (mkEtcdResponse true [Some [3]]). split; apply pair_snd; vm_compute; reflexivity.
Qed.

Lemma saved_tower_restored_witness :
  snd (tower_restore (TowerStorage0 := file_storage unary restarted) 7 (fst saving)) = Ok (persisted demo_tower) /\
  snd (tower_restore (TowerStorage0 := etcd_storage unary [2]) 7 (fst saving_etcd)) = Ok (persisted demo_tower) /\
  saved_tower 2 (persisted demo_tower).
Proof.
  destruct (saved_tower_restored unary (S := Kv) (value := fun m k => m !! k) demo_tower 7) as (Hfile & Hkv & _ & Hroot).
  split; [exact (Hfile no_faults restarted (mkFileTowerStorage ∅) (fst saving) saving_ok eq_refl eq_refl)|].
  split; [|exact (Hroot 2 demo_tower_saved)].
  exact (Hkv [1] [2] claimed (fst saving_etcd) saving_etcd_ok saving_etcd_answered).
Defined.

(** Instance 1 has the tower; instance 2 is refused. *)
Lemma etcd_one_writer_witness :
  exists m t, etcd_load unary [1] 7 registered = (m, Ok t) /\ snd (etcd_store unary [2] (SavedCurrent demo_saved) m) <> Ok tt.
Proof.
  assert (Hload : etcd_load unary [1] 7 registered = (fst (etcd_load unary [1] 7 registered), Ok (persisted demo_tower)))
    by (apply pair_snd; vm_compute; reflexivity).
  eexists _, _. split; [exact Hload|].
  destruct (etcd_one_writer unary unary_inj (S := Kv) (value := fun m k => m !! k) [1] 7 registered _ _ _ Hload (others_none _ _ _ _)) as (_ & H & _).
  by apply H.
Defined.
