(* ===== verification/LedgerRoots.v ===== *)
(** * Reconciling the roots of the ledger

    The tower is saved before the roots of the ledger are set, so after a crash its
    root may be newer than those of the ledger:
    [reconcile_blockstore_roots_with_external_source] of
    [fdp-solana/core/src/consensus.rs], with the [AncestorIterator] of
    [fdp-solana/ledger/src/ancestor_iterator.rs] and the roots of
    [fdp-solana/ledger/src/blockstore.rs]. *)

From S2P Require Import Prelude AuthorizedVoters VoteState.

(** The database below the ledger may refuse a write. *)
Inductive BlockstoreError := DatabaseError.

(** The parent of each slot that has a meta, the rooted slots and the newest root *)
Record Blockstore := mkBlockstore {
  metas : gmap Slot (option Slot);
  roots : gset Slot;
  bs_max_root : Slot
}.

Inductive ExternalRootSource := ExternalTower (s : Slot) | ExternalHardFork (s : Slot).
Definition external_root (self : ExternalRootSource) : Slot := match self with ExternalTower s | ExternalHardFork s => s end.

Definition is_root (self : Blockstore) (s : Slot) : bool := bool_decide (s ∈ roots self).
Definition max_root (self : Blockstore) : Slot := bs_max_root self.

(** ** Ancestors *)
Definition ancestor_iterator_new (start_slot : Slot) (bs : Blockstore) : option Slot :=
  meta ← metas bs !! start_slot; if negb (start_slot =? 0) then meta else None.
Definition ancestor_iterator_new_inclusive (start_slot : Slot) (bs : Blockstore) : option Slot :=
  _ ← metas bs !! start_slot; Some start_slot.
(** The state of the iterator after it has returned [s] *)
Definition ancestor_after (bs : Blockstore) (s : Slot) : option Slot :=
  if negb (s =? 0) then mjoin (metas bs !! s) else None.

(** [take_while] over the ancestors from [current]; [None] is too little fuel. *)
Fixpoint take_new_roots (bs : Blockstore) (last_root : Slot) (fuel : nat) (current : option Slot)
    : option (outcome BlockstoreError (list Slot)) :=
  match fuel with
  | O => None
  | S fuel =>
      match current with
      | None => Some (Ok [])
      | Some s =>
          match s ?= last_root with
          | Gt => r ← take_new_roots bs last_root fuel (ancestor_after bs s); Some (l ←? r; Ok (s :: l))
          | Eq => Some (Ok [])
          | Lt => Some Panic
          end
      end
  end.

Section Write.
(** Whether the database accepts the write *)
Context (write_ok : bool).

Definition set_roots (rooted_slots : list Slot) (self : Blockstore) : Blockstore * outcome BlockstoreError unit :=
  let max_new_rooted_slot := foldl Z.max 0 rooted_slots in
  if write_ok
  then (mkBlockstore (metas self) (roots self ∪ list_to_set rooted_slots) (Z.max (bs_max_root self) max_new_rooted_slot), Ok tt)
  else (self, Err DatabaseError).

(** Without hashes: [mark_slots_as_if_rooted_normally_at_startup(_, false)] *)
Definition mark_slots_as_if_rooted_normally_at_startup (slots : list Slot) (self : Blockstore)
    : Blockstore * outcome BlockstoreError unit := set_roots slots self.

Definition reconcile_blockstore_roots_with_external_source (source : ExternalRootSource) (bs : Blockstore) (last_root : Slot) (fuel : nat)
    : option (Blockstore * Slot * outcome BlockstoreError unit) :=
  let external := external_root source in
  if last_root <? external then
    new_roots ← take_new_roots bs last_root fuel (ancestor_iterator_new_inclusive external bs);
    Some match new_roots with
         | Ok [] => (bs, last_root, Ok tt)
         | Ok new_roots =>
             let '(bs, r) := mark_slots_as_if_rooted_normally_at_startup new_roots bs in
             match r with
             | Ok _ => (bs, max_root bs, Ok tt)
             | Err e => (bs, last_root, Err e)
             | Panic => (bs, last_root, Panic)
             end
         | Err e => (bs, last_root, Err e)
         | Panic => (bs, last_root, Panic)
         end
  else Some (bs, last_root, Ok tt).
End Write.

(** ** The chain from the external root *)

(** [x] is an ancestor of [s], or [s] itself *)
Inductive path (bs : Blockstore) : Slot -> Slot -> Prop :=
| path_here s : path bs s s
| path_up s p x : ancestor_after bs s = Some p -> path bs p x -> path bs s x.

(** Parents come before their children. *)
Definition parents_before (bs : Blockstore) : Prop := forall s p, metas bs !! s = Some (Some p) -> 0 <= p < s.

(** The chain from [s] jumps over [last]. *)
Definition skips (bs : Blockstore) (last s : Slot) : Prop := exists x, path bs s x /\ x < last /\ ~ path bs s last.

Lemma ancestor_after_lt bs s p : parents_before bs -> ancestor_after bs s = Some p -> 0 <= p < s.
Proof.
  intros Hp. unfold ancestor_after. destruct (negb (s =? 0)); [|done].
  destruct (metas bs !! s) as [m|] eqn:Em; [|done]. cbn. intros ->. by apply Hp.
Qed.

Lemma path_le bs s x : parents_before bs -> path bs s x -> x <= s.
Proof. intros Hp. induction 1 as [|s p x Ha _ IH]; [lia|]. apply ancestor_after_lt in Ha; [lia|done]. Qed.

Lemma path_inv bs s x : path bs s x <-> x = s \/ exists p, ancestor_after bs s = Some p /\ path bs p x.
Proof.
  split; [destruct 1; eauto|]. intros [->|(p & Ha & Hx)]; [constructor|by econstructor].
Qed.

Lemma path_parent bs s p x : ancestor_after bs s = Some p -> path bs s x <-> x = s \/ path bs p x.
Proof.
  intros Ha. rewrite path_inv. split; [|intros [?|?]; eauto]. intros [->|(p' & Ha' & Hx)]; [by left|]. right. congruence.
Qed.

Lemma path_root bs s x : ancestor_after bs s = None -> path bs s x <-> x = s.
Proof. intros Ha. rewrite path_inv. split; [|eauto]. intros [->|(p' & Ha' & Hx)]; [done|congruence]. Qed.

Lemma skips_parent bs last s p : ancestor_after bs s = Some p -> last < s -> skips bs last s <-> skips bs last p.
Proof.
  intros Ha Hlt. unfold skips. setoid_rewrite (path_parent bs s p _ Ha). split.
  - intros (x & [->|Hx] & Hxl & Hn); [lia|]. exists x. tauto.
  - intros (x & Hx & Hxl & Hn). exists x. split; [tauto|]. split; [done|]. intros [->|?]; [lia|done].
Qed.

(** Fuel for every slot above the newest root is enough. *)
Lemma take_new_roots_ok bs last fuel s :
  parents_before bs -> (Z.to_nat (s - last) < fuel)%nat ->
  (take_new_roots bs last fuel (Some s) = Some Panic /\ skips bs last s) \/
  exists l, take_new_roots bs last fuel (Some s) = Some (Ok l) /\ ~ skips bs last s /\ forall x, x ∈ l <-> path bs s x /\ last < x.
Proof.
  intros Hp. revert s. induction fuel as [|fuel IH]; intros s Hf; [lia|]. cbn [take_new_roots].
  destruct (Z.compare_spec s last) as [->|Hlt|Hgt].
  - right. exists []. split; [done|]. split; [intros (x & _ & _ & Hn); apply Hn; constructor|].
    intros x. split; [by intros ?%not_elem_of_nil|]. intros [Hx%path_le Hlt]; [lia|done].
  - left. split; [done|]. exists s. split; [constructor|]. split; [done|]. intros Hx%path_le; [lia|done].
  - destruct (ancestor_after bs s) as [p|] eqn:Ea.
    + pose proof (ancestor_after_lt bs s p Hp Ea) as Hps. destruct (IH p ltac:(lia)) as [[-> Hs]|(l & -> & Hs & Hl)].
      * left. split; [done|]. by apply (skips_parent bs last s p Ea Hgt).
      * right. exists (s :: l). split; [done|]. split; [by rewrite (skips_parent bs last s p Ea Hgt)|].
        intros x. rewrite elem_of_cons, Hl, (path_parent bs s p x Ea). intuition lia.
    + right. exists [s]. destruct fuel as [|fuel]; [lia|]. split; [done|]. split.
      * intros (x & Hx%(path_root bs s x Ea) & Hxl & _). lia.
      * intros x. rewrite (path_root bs s x Ea), list_elem_of_singleton. intuition lia.
Qed.

Lemma foldl_max_ge l a : a <= foldl Z.max a l /\ forall x, x ∈ l -> x <= foldl Z.max a l.
Proof.
  revert a. induction l as [|y l IH]; intros a; cbn; [split; [lia|by intros x ?%not_elem_of_nil]|].
  destruct (IH (Z.max a y)) as [H1 H2]. split; [lia|]. intros x [->|Hx]%elem_of_cons; [lia|auto].
Qed.
Lemma foldl_max_le l a b : a <= b -> (forall x, x ∈ l -> x <= b) -> foldl Z.max a l <= b.
Proof.
  revert a. induction l as [|y l IH]; intros a Ha Hl; cbn; [done|]. apply IH; [|intros x Hx; apply Hl; by right].
  specialize (Hl y ltac:(left)). lia.
Qed.

(** C28: the ledger catches up with the root of the tower.  For a ledger whose parents
    precede their children the function ends.  If the root is in the ledger and
    newer than its newest root, exactly the slots of the chain down to that root
    are added to the roots, the newest root becomes the given one, and a second
    call changes nothing; it panics if and only if the chain jumps over the
    newest root.  A root the ledger does not have, or has passed, changes
    nothing. *)
Theorem reconcile_roots_exact source bs last_root :
  parents_before bs -> 0 <= last_root -> bs_max_root bs = last_root ->
  let external := external_root source in
  let fuel := S (S (Z.to_nat (external - last_root))) in
  let run := reconcile_blockstore_roots_with_external_source true source in
  exists bs' last' r, run bs last_root fuel = Some (bs', last', r) /\ metas bs' = metas bs /\
    (if bool_decide (last_root < external /\ is_Some (metas bs !! external)) then
       (r = Panic <-> skips bs last_root external) /\
       (~ skips bs last_root external ->
          r = Ok tt /\ last' = external /\ bs_max_root bs' = external /\
          (forall x, is_root bs' x = true <-> is_root bs x = true \/ path bs external x /\ last_root < x) /\
          run bs' last' fuel = Some (bs', last', Ok tt))
     else bs' = bs /\ last' = last_root /\ r = Ok tt).
Proof.
  intros Hp H0 Hmax. cbn zeta. unfold reconcile_blockstore_roots_with_external_source. set (e := external_root source).
  destruct (Z.ltb_spec last_root e) as [Hlt|Hge]; [|eexists _, _, _; split; [done|]; split; [done|]; by rewrite bool_decide_eq_false_2 by (intros [? _]; lia)].
  unfold ancestor_iterator_new_inclusive at 1. destruct (metas bs !! e) as [m|] eqn:Em.
  2: { eexists _, _, _. split; [done|]. split; [done|]. rewrite bool_decide_eq_false_2; [done|]. intros [_ [? ?]]. congruence. }
  rewrite bool_decide_eq_true_2 by (split; [done|by eexists]). cbn [mbind option_bind].
  destruct (take_new_roots_ok bs last_root (S (S (Z.to_nat (e - last_root)))) e Hp ltac:(lia)) as [[-> Hs]|(l & -> & Hs & Hl)].
  { cbn. eexists _, _, _. split; [done|]. split; [done|]. split; [done|]. by intros ?. }
  assert (He : e ∈ l) by (apply Hl; split; [constructor|done]).
  destruct l as [|y l]; [by apply not_elem_of_nil in He|]. cbn. set (l' := y :: l) in *.
  assert (Hm : Z.max (bs_max_root bs) (foldl Z.max 0 l') = e).
  { pose proof (proj2 (foldl_max_ge l' 0) e He).
    assert (foldl Z.max 0 l' <= e) by (apply foldl_max_le; [lia|]; intros x [Hx _]%Hl; by apply path_le in Hx). lia. }
  eexists _, _, _. split; [reflexivity|]. split; [done|]. split; [by split|].
  intros _. split; [done|]. split; [exact Hm|]. split; [exact Hm|]. split.
  - intros x. unfold is_root. rewrite !bool_decide_eq_true. cbn. rewrite <-Hl. unfold l'. set_solver.
  - unfold max_root. cbn. change (foldl Z.max (Z.max 0 y) l) with (foldl Z.max 0 l'). rewrite Hm. by rewrite Z.ltb_irrefl.
Qed.

Definition demo_ledger : Blockstore := mkBlockstore (<[5 := Some 3]> (<[4 := Some 2]> (<[3 := Some 2]> {[2 := Some 0]}))) {[2]} 2.

(** The ledger was rooted at 2, the tower at 5: 3 and 5 are rooted, 4 is not. *)
Lemma reconcile_roots_exact_witness :
  exists bs', reconcile_blockstore_roots_with_external_source true (ExternalTower 5) demo_ledger 2 5 = Some (bs', 5, Ok tt) /\
    is_root bs' 3 = true /\ is_root bs' 4 = false.
Proof.
  assert (Hp : parents_before demo_ledger).
  { intros s p. cbn. repeat (rewrite lookup_insert; case_decide; [intros [= <-]; lia|]).
    rewrite lookup_singleton. case_decide; [intros [= <-]; lia|done]. }
  destruct (reconcile_roots_exact (ExternalTower 5) demo_ledger 2 Hp ltac:(lia) eq_refl) as (bs' & last' & r & Hrun & _ & H).
  rewrite bool_decide_eq_true_2 in H by (split; [done|by eexists]).
  assert (Hnot : ~ skips demo_ledger 2 5).
  { intros (x & _ & _ & Hn). apply Hn. apply (path_up _ _ 3); [done|]. apply (path_up _ _ 2); [done|]. constructor. }
  destruct H as [_ H]. destruct (H Hnot) as (-> & -> & _ & _ & _). exists bs'. split; [exact Hrun|].
  vm_compute in Hrun. injection Hrun as <-. split; vm_compute; reflexivity.
Defined.
